(* ===== verification/_CoqProject ===== *)
-Q . S2P
Prelude.v
Vectors.v
Codec.v
XcmTypes.v
MultiLocations.v
Frame.v
XcmBuilder.v
XcmConfig.v
SimRenault.v
SimInsurance.v
Sha256.v
BTree.v
MultiAssets.v
Holding.v
XcmExecutor.v
RenaultAccident.v
InsuranceAccident.v
Runtime.v
Ping.v
Template.v
OcwIpfs.v
Interop.v
Configuration.v
Paras.v
Dmp.v
Ump.v
Hrmp.v
HrmpRequests.v
HrmpMessages.v
Scheduler.v
ParasPallet.v
ParasInvariant.v
ParasTheorems.v
Candidates.v
Inclusion.v
InclusionBacking.v
InclusionAvailability.v
InclusionMessages.v
Disputes.v
DisputesVotes.v
DisputesTheorems.v
InherentData.v
ParasInherent.v
InherentSelection.v
Initializer.v
ParasSudoWrapper.v
RelayChain.v
SessionDisputes.v
SlotRange.v
CommonPallets.v
Registrar.v
Slots.v
Auctions.v
Crowdloan.v
AuctionWinners.v
Deposits.v
Ledger.v
Accounting.v
Solvency.v
