(* ===== verification/Prelude.v ===== *)
(** * Verification of the multichain vehicle-accident system

    The repository simulates a vehicle manufacturer and an insurer that run one
    parachain each under a relay chain, and exchange accident data by XCM.  The
    sources are [src/common-parachain-node] (the parachain runtime and its
    pallets) and [src/substrate-blockchain-relay-chain] (the relay chain, its
    parachains runtime, and the XCM crates).  The development translates pallets
    and XCM machinery to executable functions and proves them correct.

    ** The parts and how they interact

    A vehicle registered with [sim_renault] reports accidents to
    [sim_renault_accident].  A driver signed up with [sim_insurance] declares
    the accident to [sim_insurance_accident], which sends an XCM with a call to
    the Renault chain; that chain replies with an XCM that carries the data.  On
    each chain a message passes the barrier and the weigher of [xcm_config.rs]
    and is run by the XCM executor, whose holding register keeps the assets and
    whose [Transact] decodes and dispatches a call of the runtime.  Under the
    chains, the relay runtime registers paras and their code ([paras]), assigns
    cores to them ([scheduler]), sells lease periods ([auctions], [crowdloan],
    [slots], with [paras_registrar] below them), backs and includes their candidates
    ([inclusion]), settles disputes about them ([disputes]) and processes the
    data of a block ([paras_inherent]); it carries messages down ([dmp]), up ([ump])
    and across ([hrmp]), with limits from [configuration].

    ** Files

    Foundations.
    - [Prelude]: results, the state-and-error monad, storage layers, machine
      integers.  A dispatchable is a [M S E A]: it returns the storage as it
      stands also when it returns an error; [run] applies the storage policy of
      FRAME, which either keeps or discards those writes.
    - [Vectors]: Rust slices and vectors: [binary_search], sorted insertion and
      removal, [swap_remove], [retain], [take_while].
    - [Codec]: SCALE encoding as a class with its round trip.
    - [BTree]: ordered maps as sorted association lists.
    - [Frame]: origins, storage queries and [DispatchError].
    - [Sha256]: the digest as an interface, and the composite key built with it.

    Parachain pallets ([common-parachain-node/pallets]).
    - [SimRenault], [SimInsurance], [RenaultAccident], [InsuranceAccident],
      [Ping], [Template], [OcwIpfs]: one module per pallet, with its storage as
      a record [State], one definition per dispatchable, and [dispatch].

    XCM ([substrate-blockchain-relay-chain/xcm]).
    - [XcmTypes], [MultiLocations], [MultiAssets]: data of version 2 messages,
      operations on locations and on lists of assets.
    - [XcmBuilder], [XcmConfig]: barriers, weigher, converters, and their
      composition in [runtime/src/xcm_config.rs].
    - [Holding], [XcmExecutor]: the register ([assets.rs]) and the virtual
      machine ([lib.rs]).
    - [Runtime], [Interop]: dispatch of encoded calls on a chain, and the two
      chains joined by delivery of messages.

    Relay runtime ([runtime/parachains/src]).
    - [Configuration]: the host configuration and its delayed updates.
    - [Paras], [ParasPallet], [ParasInvariant], [ParasTheorems]: life cycles,
      validation code with its reference counts, votes on new code.
    - [Dmp], [Ump], [Hrmp], [HrmpRequests], [HrmpMessages]: the three message
      queues.
    - [Scheduler]: cores, claims of parathreads, group rotation.
    - [Candidates]: candidate receipts, their hashes and backing signatures
      ([primitives/src/v2]).
    - [Inclusion], [InclusionBacking], [InclusionAvailability],
      [InclusionMessages]: backing and inclusion of candidates
      ([inclusion/mod.rs]), over a [World] with the state of the paras pallet
      and of the three message queues.
    - [Disputes], [DisputesVotes], [DisputesTheorems]: dispute statements, their
      filter and import, spam slots and freezing ([disputes.rs]).
    - [InherentData], [ParasInherent], [InherentSelection]: weights, selection
      and checks of inherent data, and [enter] and [create_inherent]
      ([paras_inherent]), over a [World] that adds the scheduler and the
      disputes to that of inclusion.
    - [Initializer]: the active set ([shared.rs]), the stored sessions
      ([session_info.rs]), and the hooks and session changes of all pallets in
      their order ([initializer.rs]), over a [Chain] with all their storages.
    - [ParasSudoWrapper]: the root calls of [runtime/common] that register paras
      and establish channels.
    - [RelayChain], [SessionDisputes]: theorems about the [Chain].

    Slot sales ([runtime/common]).
    - [SlotRange], [CommonPallets]: ranges of lease periods, the currency, and
      the [World] of the storages of the four pallets.
    - [Registrar], [Slots], [Auctions], [Crowdloan]: one module per pallet, over
      that [World].
    - [AuctionWinners]: the choice of the winners of an auction.
    - [Deposits], [Accounting], [Solvency]: what accounts have in reserve, and
      what funds owe.  [Ledger] is a currency for the examples.

    ** What the theorems show

    - The accident pallets refine per-vehicle logs, stored data is permanent,
      and in every state the two chains reach by calls of these pallets and
      delivery of messages, what the insurer holds is what the manufacturer
      stored; a declared accident does get its data.
    - Encoded calls decode to the calls they stand for on the other chain.
    - The executor stops within a number of steps bounded by the message, the
      barrier accepts exactly the messages it is to accept, the origin of a
      [Transact] is the one of the sender, weights are sums of instruction
      weights, taking assets conserves them, and re-anchoring keeps positions.
    - The configuration stays consistent and updates take effect two sessions
      later; the downward queue refines an abstract log with its hash chain; the
      upward queues are served in order, within the weight, and the service
      terminates; channel indexes, counts and requests of HRMP stay consistent,
      requests settle at a session change, and messages stay within the limits
      of their channel.
    - Every code in use is stored, with reference counts that are exact, as long
      as no para schedules an upgrade while it is offboarded and root does not
      interfere with a registration; votes are decided by a supermajority;
      transitions of paras settle.
    - The scheduler assigns to each free core exactly what is due there, and
      keeps one claim per parathread.
    - Backed candidates stand on assigned cores with signatures of their group;
      bitfields include a candidate exactly when its votes reach the threshold;
      and whatever happens in a session, the messages of an included candidate
      are delivered as they were checked when it was backed.
    - The votes decide a dispute; what its filter lets through can be imported,
      apart from one-sided sets left by the spam limit; and a chain that has
      included a candidate found invalid is frozen before the inclusion, until
      root lifts the freeze.
    - The inherent an author prepares fits the block, and passes the checks of
      bitfields and candidates that every node makes.
    - Through blocks, inherents, calls and session changes the pallets together
      keep an invariant under which the next block can always be produced, as
      long as root leaves the consistency check of the configuration on; the
      keys of a session stand at the same positions; data of disputes are kept
      as long as their session.
    - The winners of an auction pay most.  Over all calls and blocks of the
      pallets that sell slots, reserves match the records of leases, bids,
      registrations and funds, with the one condition that accounts which are
      emptied have no reserve below the existential deposit; and crowdloans can pay their contributors back.
    - Some theorems show where the code does less than it means to; the
      statement of such a theorem says what the code does.

    ** Conventions, bounds and fuel

    A machine integer is a [Z] with its wrap-around written out where the source
    adds or multiplies without a check; [is_u32] states its range.  A panic is
    the outer [None] of an [option].  Loops whose recursion is not structural
    take fuel: [Ump.dispatch_loop] runs with [Ump.enough_rounds], the number of
    queued messages and paras, and [XcmExecutor.run_loop] with the size of the
    message; termination theorems show that this fuel is never used up.  Code
    that is not in the repository is a class or a parameter: origins
    ([FrameOrigin]), routers ([SendXcm], [Router]), digests ([Sha256],
    [MessageHash], [code_hash_of]), signatures ([verify]), currencies
    ([ReservableCurrency], [Currency]), hashes and signatures of candidates ([Blake2],
    [Signatures]), the order of an iteration over storage ([StorageIter]), the shuffle of a random generator ([Rng]), measured weights
    ([WeightInfo]), the executor's services ([Config], [Services]), the
    sink of upward messages ([UmpSink]) and the offchain host ([OffchainHost]).
    The examples at the end of the files instantiate them.

    ** Not modelled

    - Weights of dispatchables, benchmarks, logging, metrics, metadata, storage
      migrations and the tests.
    - The node binaries, RPC, networking and consensus subsystems, and the
      command lines: wiring around asynchronous client libraries that are not
      part of the repository.
    - The runtimes of the public networks, the bridges subtree, the simulators
      and test parachains: configuration of code from elsewhere, or not part of
      the simulated system.
    - XCM versions 0 and 1 and the conversions to them; [pallet-xcm] apart from
      the origin it passes on.
    - The pallets of [runtime/common] for assigned slots, claims and purchases,
      and the statement table. *)

From stdpp Require Export base gmap sets list strings vector sorting.
From Stdlib Require Export ZArith Lia Strings.Byte.

#[export] Set Warnings "-clear-no-such-hyp".
#[global] Open Scope Z_scope.

Declare Scope chain_scope.
Delimit Scope chain_scope with chain.
#[global] Open Scope chain_scope.

Create HintDb chain discriminated.

(** ** Results and the state-and-error monad

    [result E A] is Rust's [Result<A, E>].  A dispatchable or a routine that
    may fail after it has written to storage is a [M S E A]: it returns the
    storage as it stands when it returns, also when it returns an error. *)

Inductive result (E A : Type) : Type :=
| Ok (a : A)
| Err (e : E).
Arguments Ok {_ _} _.
Arguments Err {_ _} _.

#[export] Instance result_eq_dec {E A} `{EqDecision E, EqDecision A} :
  EqDecision (result E A).
Proof. solve_decision. Defined.

#[export] Instance result_ret E : MRet (result E) := λ A a, Ok a.
#[export] Instance result_bind E : MBind (result E) := λ A B f m,
  match m with Ok a => f a | Err e => Err e end.

Definition is_ok {E A} (r : result E A) : bool :=
  match r with Ok _ => true | Err _ => false end.

Definition ok_or {E A} (o : option A) (e : E) : result E A :=
  match o with Some a => Ok a | None => Err e end.

Definition M (S E A : Type) : Type := S → S * result E A.

#[export] Instance M_ret S E : MRet (M S E) := λ A a s, (s, Ok a).
#[export] Instance M_bind S E : MBind (M S E) := λ A B f m s,
  match m s with
  | (s', Ok a) => f a s'
  | (s', Err e) => (s', Err e)
  end.

Definition lift {S E A} (r : result E A) : M S E A := λ s, (s, r).
Definition throw {S E A} (e : E) : M S E A := λ s, (s, Err e).
Definition get {S E} : M S E S := λ s, (s, Ok s).
Definition gets {S E A} (f : S → A) : M S E A := λ s, (s, Ok (f s)).
Definition modify {S E} (f : S → S) : M S E unit := λ s, (f s, Ok tt).

(** [ensure!(b, e)] *)
Definition ensure {S E} (b : bool) (e : E) : M S E unit :=
  λ s, (s, if b then Ok tt else Err e).

(** Storage layering.  Whether FRAME runs a dispatchable inside a storage layer
    that is dropped when the call fails is decided outside the pallets, so it is
    a parameter of what runs them. *)
Inductive StoragePolicy := Plain | Layered.

Definition run {S E A} (p : StoragePolicy) (m : M S E A) (s : S) : S * result E A :=
  match m s, p with
  | (s', Ok a), _ => (s', Ok a)
  | (_, Err e), Layered => (s, Err e)
  | (s', Err e), Plain => (s', Err e)
  end.

Lemma M_bind_ok {S E A B} (f : A → M S E B) (m : M S E A) s s' b :
  (m ≫= f) s = (s', Ok b) ↔ ∃ s1 a, m s = (s1, Ok a) ∧ f a s1 = (s', Ok b).
Proof.
  unfold mbind, M_bind. destruct (m s) as [s1 [a|e]]; naive_solver.
Qed.

Lemma run_ok {S E A} p (m : M S E A) s s' a :
  run p m s = (s', Ok a) ↔ m s = (s', Ok a).
Proof. unfold run. destruct (m s) as [? [|]], p; naive_solver. Qed.

Lemma run_cases {S E A} p (m : M S E A) s :
  run p m s = m s ∨ ∃ e, snd (m s) = Err e ∧ run p m s = (s, Err e).
Proof. unfold run. destruct (m s) as [? [|]], p; naive_solver. Qed.

(** A predicate kept by a computation is kept when the computation is run
    under either storage policy. *)
Lemma run_preserves {S E A} (P : S → Prop) p (m : M S E A) s :
  P s → P (m s).1 → P (run p m s).1.
Proof. unfold run. destruct (m s) as [? [|]], p; naive_solver. Qed.

(** ** Machine integers

    The runtime is built in release mode without overflow checks, so [+] on a
    [u32] wraps; [checked_add], [saturating_sub] are the methods of that name. *)

Definition u32_max : Z := 2 ^ 32 - 1.
Definition u64_max : Z := 2 ^ 64 - 1.
Definition wrap32 (z : Z) : Z := z mod 2 ^ 32.
Definition wrap64 (z : Z) : Z := z mod 2 ^ 64.
Definition is_u32 (z : Z) : Prop := 0 ≤ z ≤ u32_max.
Definition is_u64 (z : Z) : Prop := 0 ≤ z ≤ u64_max.
Definition u32_add (a b : Z) : Z := wrap32 (a + b).
Definition u32_sub (a b : Z) : Z := wrap32 (a - b).
Definition u64_add (a b : Z) : Z := wrap64 (a + b).
Definition u64_mul (a b : Z) : Z := wrap64 (a * b).
Definition u64_sub (a b : Z) : Z := wrap64 (a - b).
Definition saturating_sub (a b : Z) : Z := Z.max 0 (a - b).
Definition u32_checked_add (a b : Z) : option Z :=
  if decide (a + b ≤ u32_max) then Some (a + b) else None.
Definition u64_saturating_add (a b : Z) : Z := Z.min u64_max (a + b).

(** [v.len() as u32] *)
Definition len32 {A} (l : list A) : Z := wrap32 (Z.of_nat (length l)).

Lemma wrap32_small z : is_u32 z → wrap32 z = z.
Proof. unfold wrap32, is_u32, u32_max. intros. apply Z.mod_small. lia. Qed.

Lemma wrap32_range z : is_u32 (wrap32 z).
Proof.
  unfold wrap32, is_u32, u32_max.
  pose proof (Z.mod_pos_bound z (2 ^ 32)). lia.
Qed.

Lemma wrap64_small z : is_u64 z → wrap64 z = z.
Proof. unfold wrap64, is_u64, u64_max. intros. apply Z.mod_small. lia. Qed.

Lemma wrap64_range z : is_u64 (wrap64 z).
Proof.
  unfold wrap64, is_u64, u64_max.
  pose proof (Z.mod_pos_bound z (2 ^ 64)). lia.
Qed.

#[export] Hint Resolve wrap32_range wrap64_range : chain.

(** ** Bytes *)

#[export] Instance byte_eq_dec : EqDecision byte.
Proof. intros x y. destruct (Byte.byte_eq_dec x y); [by left | by right]. Defined.

#[export] Instance byte_countable : Countable byte.
Proof.
  apply (inj_countable Byte.to_N Byte.of_N). intros b. apply Byte.of_to_N.
Defined.

(** The byte that holds [z mod 256], and its value. *)
Definition byte_of_Z (z : Z) : byte :=
  match Byte.of_N (Z.to_N (z mod 256)) with Some b => b | None => Byte.x00 end.
Definition Z_of_byte (b : byte) : Z := Z.of_N (Byte.to_N b).

Lemma Z_of_byte_range b : 0 ≤ Z_of_byte b < 256.
Proof.
  unfold Z_of_byte. pose proof (Byte.to_N_bounded b). lia.
Qed.

Lemma Z_of_byte_of_Z z : Z_of_byte (byte_of_Z z) = z mod 256.
Proof.
  unfold byte_of_Z, Z_of_byte.
  pose proof (Z.mod_pos_bound z 256).
  destruct (Byte.of_N (Z.to_N (z mod 256))) as [b|] eqn:E.
  - apply Byte.to_of_N in E. rewrite E. lia.
  - apply Byte.of_N_None_iff in E. lia.
Qed.

Lemma byte_of_Z_of_byte b : byte_of_Z (Z_of_byte b) = b.
Proof.
  unfold byte_of_Z. pose proof (Z_of_byte_range b) as Hb.
  rewrite Z.mod_small by lia. unfold Z_of_byte.
  by rewrite N2Z.id, Byte.of_to_N.
Qed.

(** Byte arrays as storage keys.  The library's own instance for vectors does
    not compute. *)
Definition vec_of_list {A} (n : nat) (l : list A) : option (vec A n) :=
  match decide (length l = n) with
  | left H => Some (eq_rect _ (vec A) (list_to_vec l) _ H)
  | right _ => None
  end.

Lemma vec_to_list_eq_rect {A n m} (v : vec A n) (H : n = m) :
  vec_to_list (eq_rect n (vec A) v m H) = vec_to_list v.
Proof. by destruct H. Qed.

Lemma vec_of_list_to_list {A} n (v : vec A n) : vec_of_list n (vec_to_list v) = Some v.
Proof.
  unfold vec_of_list. destruct (decide _) as [H|H].
  - f_equal. apply vec_to_list_inj2. by rewrite vec_to_list_eq_rect, vec_to_list_to_vec.
  - by rewrite length_vec_to_list in H.
Qed.

#[export] Instance byte_array_countable n : Countable (vec byte n) :=
  inj_countable vec_to_list (vec_of_list n) (vec_of_list_to_list n).

(** ** Sublists *)

Section Sublists.
Context {A : Type}.
Implicit Types l k : list A.

Lemma elem_of_sublist l k x : k `sublist_of` l → x ∈ k → x ∈ l.
Proof. intros Hs Hx. eapply elem_of_submseteq; [done|by apply sublist_submseteq]. Qed.

Lemma Forall_sublist (P : A → Prop) l k : k `sublist_of` l → Forall P l → Forall P k.
Proof. intros Hs Hl. rewrite Forall_forall in Hl |- *. intros x Hx. by eapply Hl, elem_of_sublist. Qed.

Lemma StronglySorted_sublist (R : relation A) l k : k `sublist_of` l → StronglySorted R l → StronglySorted R k.
Proof.
  induction 1 as [|x k l Hs IH|x k l Hs IH]; [done|..]; inversion_clear 1 as [|?? Hl Hx]; [|by apply IH].
  constructor; [by apply IH|]. by eapply Forall_sublist.
Qed.
End Sublists.
