(* ===== verification/Vectors.v ===== *)
(** * Rust vectors

    The [Vec] and slice methods of the Rust standard library that the pallets
    use on indexed and sorted vectors, as executable functions, with their
    contracts: [binary_search] and [binary_search_by_key] (the bisection loop
    of the library), insertion and removal at a found position, [swap_remove],
    [position], [split_off]. *)

From S2P Require Import Prelude.

Section BinarySearch.
Context {A : Type} (key : A → Z).

(** One round looks at the middle of [[left, right)]; the number of rounds is
    bounded by the length of the vector. *)
Fixpoint bisect (fuel : nat) (v : list A) (x : Z) (left right : nat) : result nat nat :=
  match fuel with
  | O => Err left
  | S fuel' =>
      if (left <? right)%nat then
        let mid := (left + (right - left) / 2)%nat in
        match v !! mid with
        | None => Err left
        | Some y =>
            if key y <? x then bisect fuel' v x (S mid) right
            else if x <? key y then bisect fuel' v x left mid
            else Ok mid
        end
      else Err left
  end.

Definition binary_search_by_key (v : list A) (x : Z) : result nat nat :=
  bisect (S (length v)) v x 0 (length v).

Definition sorted_by_key (v : list A) : Prop := StronglySorted Z.lt (key <$> v).

Lemma sorted_by_key_lookup v i j a b :
  sorted_by_key v → v !! i = Some a → v !! j = Some b → (i < j)%nat → key a < key b.
Proof.
  unfold sorted_by_key. revert i j.
  induction v as [|c v IH]; intros i j Hs Hi Hj Hij; [done|].
  cbn in Hs. apply StronglySorted_inv in Hs as [Hs Hall].
  destruct j as [|j]; [lia|]. destruct i as [|i]; cbn in *.
  - simplify_eq. rewrite Forall_fmap in Hall.
    exact (Forall_lookup_1 _ _ _ _ Hall Hj).
  - by eapply IH; eauto; lia.
Qed.

Lemma bisect_spec fuel v x left right :
  sorted_by_key v → (right ≤ length v)%nat → (left ≤ right)%nat →
  (right - left < fuel)%nat →
  (∀ i a, v !! i = Some a → (i < left)%nat → key a < x) →
  (∀ i a, v !! i = Some a → (right ≤ i)%nat → x < key a) →
  match bisect fuel v x left right with
  | Ok i => ∃ a, v !! i = Some a ∧ key a = x
  | Err i => (i ≤ length v)%nat ∧
             (∀ j a, v !! j = Some a → (j < i)%nat → key a < x) ∧
             (∀ j a, v !! j = Some a → (i ≤ j)%nat → x < key a)
  end.
Proof.
  intros Hs. revert left right.
  induction fuel as [|fuel IH]; intros left right Hr Hlr Hf Hlo Hhi; [lia|]; cbn [bisect].
  destruct (Nat.ltb_spec left right) as [Hlt|Hge].
  2:{ assert (left = right) as -> by lia. split_and!; [done|exact Hlo|exact Hhi]. }
  set (mid := (left + (right - left) / 2)%nat).
  assert (left ≤ mid < right)%nat as Hmid.
  { unfold mid. pose proof (Nat.div_lt (right - left) 2). lia. }
  destruct (v !! mid) as [y|] eqn:Hy.
  2:{ apply lookup_ge_None in Hy. lia. }
  destruct (Z.ltb_spec (key y) x); [|destruct (Z.ltb_spec x (key y))].
  - apply IH; try lia; [|done]. intros i a Ha Hi.
    destruct (decide (i = mid)) as [->|]; [by simplify_eq|].
    assert (key a < key y) by (eapply (sorted_by_key_lookup v i mid); eauto; lia). lia.
  - apply IH; try lia; [done|]. intros i a Ha Hi.
    destruct (decide (i = mid)) as [->|]; [by simplify_eq|].
    assert (key y < key a) by (eapply (sorted_by_key_lookup v mid i); eauto; lia). lia.
  - exists y. split; [done|lia].
Qed.

Lemma binary_search_by_key_spec v x :
  sorted_by_key v →
  match binary_search_by_key v x with
  | Ok i => ∃ a, v !! i = Some a ∧ key a = x
  | Err i => (i ≤ length v)%nat ∧
             (∀ j a, v !! j = Some a → (j < i)%nat → key a < x) ∧
             (∀ j a, v !! j = Some a → (i ≤ j)%nat → x < key a)
  end.
Proof.
  intros Hs. apply bisect_spec; try done; try lia.
  intros i a Ha Hi. apply lookup_lt_Some in Ha. lia.
Qed.

Lemma binary_search_by_key_ok v x :
  sorted_by_key v →
  is_ok (binary_search_by_key v x) = true ↔ ∃ a, a ∈ v ∧ key a = x.
Proof.
  intros Hs. pose proof (binary_search_by_key_spec v x Hs) as Hb.
  destruct (binary_search_by_key v x) as [i|i]; cbn; split.
  - intros _. destruct Hb as (a & Ha & Hk). exists a.
    split; [by eapply list_elem_of_lookup_2|done].
  - done.
  - done.
  - intros (a & Ha & Hk). apply list_elem_of_lookup_1 in Ha as [j Hj].
    destruct Hb as (_ & Hlt & Hgt).
    destruct (Nat.lt_ge_cases j i) as [Hj'|Hj'].
    + specialize (Hlt _ _ Hj Hj'). lia.
    + specialize (Hgt _ _ Hj Hj'). lia.
Qed.
End BinarySearch.

(** ** Sorted vectors of identifiers *)

Definition binary_search : list Z → Z → result nat nat := binary_search_by_key id.
Abbreviation sorted := (StronglySorted Z.lt).

(** [v.insert(i, x)] *)
Definition vec_insert {A} (i : nat) (x : A) (v : list A) : list A := take i v ++ x :: drop i v.

(** [if let Err(i) = v.binary_search(&x) { v.insert(i, x) }] *)
Definition sorted_insert (x : Z) (v : list Z) : list Z :=
  match binary_search v x with Ok _ => v | Err i => vec_insert i x v end.

(** [if let Ok(i) = v.binary_search(&x) { v.remove(i); }] *)
Definition sorted_remove (x : Z) (v : list Z) : list Z :=
  match binary_search v x with Ok i => delete i v | Err _ => v end.

Lemma sorted_by_id v : sorted_by_key id v ↔ sorted v.
Proof. unfold sorted_by_key. by rewrite list_fmap_id. Qed.

Lemma binary_search_spec v x :
  sorted v →
  match binary_search v x with
  | Ok i => v !! i = Some x
  | Err i => (i ≤ length v)%nat ∧ Forall (λ y, y < x) (take i v) ∧ Forall (λ y, x < y) (drop i v)
  end.
Proof.
  intros Hs. pose proof (binary_search_by_key_spec id v x) as Hb.
  rewrite sorted_by_id in Hb. specialize (Hb Hs). unfold binary_search.
  destruct (binary_search_by_key id v x) as [i|i].
  - destruct Hb as (a & Ha & Hk). unfold id in Hk. by rewrite Hk in Ha.
  - destruct Hb as (Hi & Hlt & Hgt). split_and!; [done| |]; apply Forall_lookup; intros j a Hj.
    + apply lookup_take_Some in Hj as [Hj ?]. by eapply Hlt.
    + rewrite lookup_drop in Hj. eapply Hgt; [done|lia].
Qed.

Lemma binary_search_absent v x i : sorted v → binary_search v x = Err i → x ∉ v.
Proof.
  intros Hs Hb Hin. pose proof (binary_search_spec v x Hs) as Hspec. rewrite Hb in Hspec.
  destruct Hspec as (_ & Hlt & Hgt). rewrite Forall_forall in Hlt, Hgt.
  rewrite <-(take_drop i v) in Hin. apply elem_of_app in Hin as [Hin|Hin].
  - specialize (Hlt x Hin). lia.
  - specialize (Hgt x Hin). lia.
Qed.

Lemma StronglySorted_app_lt (l k : list Z) :
  sorted (l ++ k) ↔ sorted l ∧ sorted k ∧ ∀ x y, x ∈ l → y ∈ k → x < y.
Proof.
  induction l as [|a l IH]; cbn.
  { split; [intros; split_and!; [constructor|done|set_solver]|naive_solver]. }
  split.
  - intros [Hs Ha]%StronglySorted_inv. apply IH in Hs as (Hl & Hk & Hlk).
    apply Forall_app in Ha as [Hal Hak].
    split_and!; [by constructor|done|]. intros x y Hx Hy.
    apply elem_of_cons in Hx as [->|Hx]; [|by apply Hlk].
    by eapply Forall_forall in Hak.
  - intros (Hl & Hk & Hlk). apply StronglySorted_inv in Hl as [Hl Hal].
    constructor.
    + apply IH. split_and!; [done|done|]. intros x y Hx Hy. apply Hlk; [by right|done].
    + apply Forall_app. split; [done|]. apply Forall_forall. intros y Hy.
      apply Hlk; [by left|done].
Qed.

Lemma sorted_NoDup v : sorted v → NoDup v.
Proof.
  induction 1 as [|a l Hs IH Ha]; constructor; [|done].
  intros Hin. eapply Forall_forall in Ha; [|done]. lia.
Qed.

Lemma elem_of_sorted_insert x y v :
  sorted v → y ∈ sorted_insert x v ↔ y = x ∨ y ∈ v.
Proof.
  intros Hs. unfold sorted_insert. pose proof (binary_search_spec v x Hs) as Hb.
  destruct (binary_search v x) as [i|i].
  - split; [by right|]. intros [->|]; [by eapply list_elem_of_lookup_2|done].
  - unfold vec_insert. rewrite elem_of_app, elem_of_cons.
    rewrite <-(take_drop i v) at 3. rewrite elem_of_app. naive_solver.
Qed.

Lemma sorted_insert_sorted x v : sorted v → sorted (sorted_insert x v).
Proof.
  intros Hs. unfold sorted_insert. pose proof (binary_search_spec v x Hs) as Hb.
  destruct (binary_search v x) as [i|i]; [done|].
  destruct Hb as (_ & Hlt & Hgt). rewrite Forall_forall in Hlt, Hgt.
  rewrite <-(take_drop i v) in Hs.
  apply StronglySorted_app_lt in Hs as (Hl & Hk & Hlk).
  unfold vec_insert. apply StronglySorted_app_lt. split_and!; [done| |].
  - constructor; [done|]. by apply Forall_forall.
  - intros a b Ha [->|Hb]%elem_of_cons; auto.
Qed.

Lemma elem_of_delete {A} (v : list A) i x y :
  NoDup v → v !! i = Some x → y ∈ delete i v ↔ y ≠ x ∧ y ∈ v.
Proof.
  intros Hnd Hi. rewrite delete_take_drop.
  rewrite <-(take_drop_middle v i x Hi) in Hnd.
  rewrite <-(take_drop_middle v i x Hi) at 3.
  apply NoDup_app in Hnd as (_ & Hl & Hnd).
  apply NoDup_cons in Hnd as [Hxr _]. rewrite !elem_of_app, elem_of_cons.
  split; [|naive_solver]. intros Hy. split; [|naive_solver]. intros ->.
  destruct Hy as [Hy|Hy]; [|done]. apply (Hl _ Hy). by left.
Qed.

Lemma sorted_delete v i : sorted v → sorted (delete i v).
Proof.
  intros Hs. destruct (v !! i) as [x|] eqn:Hi.
  - rewrite delete_take_drop. rewrite <-(take_drop_middle v i x Hi) in Hs.
    apply StronglySorted_app_lt in Hs as (Hl & Hk & Hlk).
    apply StronglySorted_inv in Hk as [Hk _].
    apply StronglySorted_app_lt. split_and!; [done|done|].
    intros a b Ha Hb'. apply Hlk; [done|by right].
  - apply lookup_ge_None in Hi. rewrite delete_take_drop, take_ge, drop_ge, app_nil_r by lia. done.
Qed.

Lemma elem_of_sorted_remove x y v :
  sorted v → y ∈ sorted_remove x v ↔ y ≠ x ∧ y ∈ v.
Proof.
  intros Hs. unfold sorted_remove. pose proof (binary_search_spec v x Hs) as Hb.
  destruct (binary_search v x) as [i|i].
  - apply elem_of_delete; [by apply sorted_NoDup|done].
  - destruct Hb as (_ & Hlt & Hgt). rewrite Forall_forall in Hlt, Hgt.
    split; [|naive_solver]. intros Hy. split; [|done]. intros ->.
    rewrite <-(take_drop i v), elem_of_app in Hy.
    destruct Hy as [Hy|Hy]; [specialize (Hlt _ Hy)|specialize (Hgt _ Hy)]; lia.
Qed.

Lemma sorted_remove_sorted x v : sorted v → sorted (sorted_remove x v).
Proof.
  intros Hs. unfold sorted_remove. destruct (binary_search v x); [by apply sorted_delete|done].
Qed.

(** Two sorted vectors with the same elements are equal, so a sorted vector is
    a canonical representation of a set of identifiers. *)
Lemma sorted_ext (l k : list Z) :
  sorted l → sorted k → (∀ x, x ∈ l ↔ x ∈ k) → l = k.
Proof.
  intros Hl. revert k. induction Hl as [|a l Hl IH Ha]; intros k Hk Heq.
  { destruct k as [|b k]; [done|]. exfalso. apply (not_elem_of_nil b), Heq. by left. }
  destruct Hk as [|b k Hk Hb].
  { exfalso. apply (not_elem_of_nil a), Heq. by left. }
  rewrite Forall_forall in Ha, Hb.
  assert (a = b) as ->.
  { assert (a ∈ b :: k) as Hab by (apply Heq; by left).
    assert (b ∈ a :: l) as Hba by (apply Heq; by left).
    apply elem_of_cons in Hab as [->|Hab]; [done|].
    apply elem_of_cons in Hba as [->|Hba]; [done|].
    specialize (Ha _ Hba). specialize (Hb _ Hab). lia. }
  f_equal. apply IH; [done|]. intros x. specialize (Heq x). rewrite !elem_of_cons in Heq.
  split; intros Hx.
  - destruct (proj1 Heq (or_intror Hx)) as [->|]; [|done]. specialize (Ha _ Hx). lia.
  - destruct (proj2 Heq (or_intror Hx)) as [->|]; [|done]. specialize (Hb _ Hx). lia.
Qed.

Lemma sorted_insert_present x v : sorted v → x ∈ v → sorted_insert x v = v.
Proof.
  intros Hs Hx. apply sorted_ext; [by apply sorted_insert_sorted|done|].
  intros y. rewrite elem_of_sorted_insert by done. naive_solver.
Qed.

Lemma sorted_remove_absent x v : sorted v → x ∉ v → sorted_remove x v = v.
Proof.
  intros Hs Hx. apply sorted_ext; [by apply sorted_remove_sorted|done|].
  intros y. rewrite elem_of_sorted_remove by done. naive_solver.
Qed.

#[export] Hint Resolve sorted_insert_sorted sorted_remove_sorted sorted_NoDup : chain.

(** ** Unsorted vectors *)

Section Unsorted.
Context {A : Type}.

(** [v.swap_remove(i)]: the last element takes the place of the removed one. *)
Definition swap_remove (i : nat) (v : list A) : list A :=
  match last v with
  | None => v
  | Some y => take (length v - 1) (<[i := y]> v)
  end.

Lemma swap_remove_Permutation i (v : list A) x :
  v !! i = Some x → v ≡ₚ x :: swap_remove i v.
Proof.
  intros Hi. unfold swap_remove.
  destruct v as [|y l _] using rev_ind; [done|].
  rewrite last_snoc, length_app. cbn.
  replace (length l + 1 - 1)%nat with (length l) by lia.
  destruct (decide (i < length l)%nat) as [Hlt|Hge].
  - rewrite lookup_app_l in Hi by done.
    rewrite insert_app_l by done. rewrite take_app_le by (rewrite length_insert; lia).
    rewrite take_ge by (rewrite length_insert; lia).
    rewrite insert_take_drop by done.
    rewrite <-(take_drop_middle l i x Hi) at 1. solve_Permutation.
  - apply lookup_lt_Some in Hi as Hlen. rewrite length_app in Hlen. cbn in Hlen.
    assert (i = length l) as -> by lia.
    rewrite lookup_app_r, Nat.sub_diag in Hi by lia. cbn in Hi. simplify_eq.
    rewrite insert_app_r_alt, Nat.sub_diag by lia. cbn.
    rewrite take_app_length. solve_Permutation.
Qed.

Lemma elem_of_swap_remove i (v : list A) x y :
  NoDup v → v !! i = Some x → y ∈ swap_remove i v ↔ y ≠ x ∧ y ∈ v.
Proof.
  intros Hnd Hi. pose proof (swap_remove_Permutation i v x Hi) as Hp.
  rewrite Hp in Hnd. apply NoDup_cons in Hnd as [Hx _].
  assert (y ∈ v ↔ y = x ∨ y ∈ swap_remove i v) as Hy by (rewrite Hp at 1; apply elem_of_cons).
  naive_solver.
Qed.

Lemma NoDup_swap_remove i (v : list A) x :
  NoDup v → v !! i = Some x → NoDup (swap_remove i v).
Proof.
  intros Hnd Hi. rewrite (swap_remove_Permutation i v x Hi) in Hnd.
  by apply NoDup_cons in Hnd as [_ ?].
Qed.

(** [v.iter().position(f)] *)
Definition position (f : A → bool) (v : list A) : option nat :=
  fst <$> list_find (λ a, f a = true) v.
#[global] Arguments position : simpl never.

Lemma position_Some f (v : list A) i :
  position f v = Some i →
  ∃ a, v !! i = Some a ∧ f a = true ∧
       ∀ j b, v !! j = Some b → (j < i)%nat → f b = false.
Proof.
  unfold position. intros ((j & a) & H & ->)%fmap_Some. cbn in *.
  apply list_find_Some in H as (Hj & Hf & Hlt).
  exists a. split_and!; [done|done|]. intros k b Hb Hk.
  specialize (Hlt k b Hb Hk). by destruct (f b).
Qed.

Lemma position_None f (v : list A) :
  position f v = None → ∀ a, a ∈ v → f a = false.
Proof.
  unfold position. intros H%fmap_None%list_find_None.
  intros a Ha. rewrite Forall_forall in H. specialize (H a Ha). by destruct (f a).
Qed.
End Unsorted.

(** ** Filters and concatenation *)

Section Filters.
Context {A B : Type}.

Lemma list_filter_id (P : A → Prop) `{∀ x, Decision (P x)} (l : list A) : (∀ x, x ∈ l → P x) → filter P l = l.
Proof.
  induction l as [|x l IH]; intros Hl; [done|].
  rewrite filter_cons_True by (apply Hl; left). f_equal. apply IH. intros y Hy. apply Hl. by right.
Qed.

Lemma list_filter_nil (P : A → Prop) `{∀ x, Decision (P x)} (l : list A) :
  (∀ x, x ∈ l → ¬ P x) → filter P l = [].
Proof.
  induction l as [|x l IH]; intros Hl; [done|].
  rewrite filter_cons_False by (apply Hl; left). apply IH. intros y Hy. apply Hl. by right.
Qed.

Lemma StronglySorted_fmap_filter (R : relation B) (f : A → B) (P : A → Prop) `{∀ x, Decision (P x)} (l : list A) :
  StronglySorted R (f <$> l) → StronglySorted R (f <$> filter P l).
Proof.
  induction l as [|x l IH]; [done|]. rewrite fmap_cons. intros [Hs Hx]%StronglySorted_inv.
  rewrite filter_cons. case_decide; [rewrite fmap_cons|by apply IH]. constructor; [by apply IH|].
  rewrite Forall_fmap, Forall_forall in Hx |- *. intros y [_ Hy]%list_elem_of_filter. by apply Hx.
Qed.

Lemma submseteq_NoDup (l k : list A) : l ⊆+ k → NoDup k → NoDup l.
Proof.
  intros [k' ->]%submseteq_Permutation. by intros [? _]%NoDup_app.
Qed.

Lemma elem_of_concat (ls : list (list A)) x : x ∈ concat ls ↔ ∃ l, x ∈ l ∧ l ∈ ls.
Proof.
  induction ls as [|l ls IH]; cbn.
  - split; [by intros ?%elem_of_nil|by intros (? & _ & ?%elem_of_nil)].
  - rewrite elem_of_app, IH. setoid_rewrite elem_of_cons. naive_solver.
Qed.
End Filters.

(** ** Vectors ordered by a key, with repetitions *)

(** [v.iter().take_while(f)] *)
Fixpoint take_while {A} (f : A → bool) (v : list A) : list A :=
  match v with
  | [] => []
  | x :: v => if f x then x :: take_while f v else []
  end.

Lemma take_while_prefix {A} (f : A → bool) v : take (length (take_while f v)) v = take_while f v.
Proof. induction v as [|x v IH]; cbn; [done|]. destruct (f x); cbn; [by rewrite IH|done]. Qed.

Lemma take_while_all {A} (f : A → bool) v x : x ∈ take_while f v → x ∈ v ∧ f x = true.
Proof.
  induction v as [|y v IH]; cbn; [by intros ?%elem_of_nil|].
  destruct (f y) eqn:Hy; [|by intros ?%elem_of_nil].
  intros [->|Hx]%elem_of_cons; [split; [by left|done]|].
  destruct (IH Hx). split; [by right|done].
Qed.

(** [let i = v.binary_search_by_key(&k, key).unwrap_or_else(|i| i); v.insert(i, x)] *)
Definition insert_by_key {A} (key : A → Z) (x : A) (v : list A) : list A :=
  match binary_search_by_key key v (key x) with Ok i | Err i => vec_insert i x v end.

Section Repetitions.
Context {A : Type} (key : A → Z).

Definition ordered_by_key (v : list A) : Prop := StronglySorted Z.le (key <$> v).

Lemma ordered_lookup v i j a b :
  ordered_by_key v → v !! i = Some a → v !! j = Some b → (i ≤ j)%nat → key a ≤ key b.
Proof.
  unfold ordered_by_key. revert i j.
  induction v as [|c v IH]; intros i j Hs Hi Hj Hij; [done|].
  cbn in Hs. apply StronglySorted_inv in Hs as [Hs Hall].
  destruct j as [|j], i as [|i]; cbn in *; try lia; simplify_eq; [lia| |].
  - rewrite Forall_fmap in Hall. exact (Forall_lookup_1 _ _ _ _ Hall Hj).
  - by eapply IH; eauto; lia.
Qed.

Lemma bisect_le_spec fuel v x left right :
  ordered_by_key v → (right ≤ length v)%nat → (left ≤ right)%nat → (right - left < fuel)%nat →
  (∀ i a, v !! i = Some a → (i < left)%nat → key a ≤ x) →
  (∀ i a, v !! i = Some a → (right ≤ i)%nat → x ≤ key a) →
  match bisect key fuel v x left right with
  | Ok i | Err i => (∀ j a, v !! j = Some a → (j < i)%nat → key a ≤ x) ∧
                    (∀ j a, v !! j = Some a → (i ≤ j)%nat → x ≤ key a)
  end.
Proof.
  intros Hs. revert left right.
  induction fuel as [|fuel IH]; intros left right Hr Hlr Hf Hlo Hhi; [lia|]; cbn [bisect].
  destruct (Nat.ltb_spec left right) as [Hlt|Hge].
  2:{ assert (left = right) as -> by lia. by split. }
  set (mid := (left + (right - left) / 2)%nat).
  assert (left ≤ mid < right)%nat as Hmid.
  { unfold mid. pose proof (Nat.div_lt (right - left) 2). lia. }
  destruct (v !! mid) as [y|] eqn:Hy.
  2:{ apply lookup_ge_None in Hy. lia. }
  assert (∀ i a, v !! i = Some a → (i ≤ mid)%nat → key a ≤ key y) as Hbelow
    by (intros i a Ha Hi; by eapply (ordered_lookup v i mid)).
  assert (∀ i a, v !! i = Some a → (mid ≤ i)%nat → key y ≤ key a) as Habove
    by (intros i a Ha Hi; by eapply (ordered_lookup v mid i)).
  destruct (Z.ltb_spec (key y) x); [|destruct (Z.ltb_spec x (key y))].
  - apply IH; try lia; [|done]. intros i a Ha Hi. specialize (Hbelow i a Ha). lia.
  - apply IH; try lia; [done|]. intros i a Ha Hi. specialize (Habove i a Ha). lia.
  - split; intros i a Ha Hi; [specialize (Hbelow i a Ha)|specialize (Habove i a Ha)]; lia.
Qed.

Lemma insert_by_key_perm x v : insert_by_key key x v ≡ₚ x :: v.
Proof.
  unfold insert_by_key, vec_insert.
  by destruct (binary_search_by_key _ _ _) as [i|i]; rewrite <-Permutation_middle, take_drop.
Qed.

Lemma StronglySorted_le_app (l k : list Z) :
  StronglySorted Z.le l → StronglySorted Z.le k → (∀ x y, x ∈ l → y ∈ k → x ≤ y) →
  StronglySorted Z.le (l ++ k).
Proof.
  induction 1 as [|a l Hl IH Ha]; intros Hk Hlk; cbn; [done|]. constructor.
  - apply IH; [done|]. intros x y Hx. apply Hlk. by right.
  - apply Forall_app. split; [done|]. apply Forall_forall. intros y Hy. apply Hlk; [left|done].
Qed.

Lemma StronglySorted_le_take_drop (l : list Z) n :
  StronglySorted Z.le l → StronglySorted Z.le (take n l) ∧ StronglySorted Z.le (drop n l).
Proof.
  intros Hl. revert n. induction Hl as [|a l Hl IH Ha]; intros [|n]; cbn;
    try (split; by constructor).
  destruct (IH n) as [Ht Hd]. split; [|done]. constructor; [done|].
  apply Forall_take, Ha.
Qed.

Lemma insert_by_key_ordered x v : ordered_by_key v → ordered_by_key (insert_by_key key x v).
Proof.
  intros Hs. unfold insert_by_key, binary_search_by_key, vec_insert.
  pose proof (bisect_le_spec (S (length v)) v (key x) 0 (length v) Hs) as Hb.
  assert (∀ i, (∀ j a, v !! j = Some a → (j < i)%nat → key a ≤ key x) ∧
               (∀ j a, v !! j = Some a → (i ≤ j)%nat → key x ≤ key a) →
          ordered_by_key (take i v ++ x :: drop i v)) as Hins.
  { intros i [Hlo Hhi]. unfold ordered_by_key in *. rewrite fmap_app, fmap_cons, fmap_take, fmap_drop.
    destruct (StronglySorted_le_take_drop _ i Hs) as [Ht Hd].
    assert (∀ y, y ∈ drop i (key <$> v) → key x ≤ y) as Hx.
    { intros y (j & Hj)%list_elem_of_lookup. rewrite lookup_drop, list_lookup_fmap in Hj.
      apply fmap_Some in Hj as (a & Ha & ->). eapply Hhi; [done|lia]. }
    apply StronglySorted_le_app; [done|constructor; [done|by apply Forall_forall]|].
    intros y z (j & Hj)%list_elem_of_lookup Hz.
    apply lookup_take_Some in Hj as [Hj Hji]. rewrite list_lookup_fmap in Hj.
    apply fmap_Some in Hj as (a & Ha & ->). specialize (Hlo j a Ha Hji).
    apply elem_of_cons in Hz as [->|Hz]; [done|]. specialize (Hx z Hz). lia. }
  destruct (bisect _ _ _ _ _ _) as [n|n]; apply Hins, Hb; try lia; try done;
    intros i a Ha%lookup_lt_Some; lia.
Qed.

(** On an ordered vector, [take_while] up to a bound takes all there is up to it. *)
Lemma take_while_le x bound v :
  ordered_by_key v → x ∈ v → key x ≤ bound → x ∈ take_while (λ y, key y <=? bound) v.
Proof.
  induction v as [|y v IH]; intros Hs Hx Hb; [by apply elem_of_nil in Hx|].
  unfold ordered_by_key in Hs. rewrite fmap_cons in Hs. apply StronglySorted_inv in Hs as [Hs Hy].
  rewrite Forall_fmap, Forall_forall in Hy. cbn. apply elem_of_cons in Hx as [->|Hx].
  - destruct (Z.leb_spec (key y) bound); [left|lia].
  - specialize (Hy x Hx). cbn in Hy. destruct (Z.leb_spec (key y) bound); [|lia]. right. by apply IH.
Qed.
End Repetitions.
