(* ===== verification/Codec.v ===== *)
(** * SCALE encodings

    The fragment of the SCALE codec the pallets rely on when they build storage
    keys and cross-chain calls: little-endian fixed-width integers
    ([u32::to_le_bytes] and [u32::encode] produce the same four bytes),
    fixed-size byte arrays, and the leading index byte of an enum variant.
    A type with a codec is an instance of [Codec]; its law is the round trip
    with any trailing input left over, which makes the encoding prefix-free. *)

From S2P Require Import Prelude.

(** ** Little-endian integers *)

Fixpoint le_bytes (n : nat) (z : Z) : list byte :=
  match n with
  | O => []
  | S n' => byte_of_Z z :: le_bytes n' (z / 256)
  end.

Fixpoint le_value (l : list byte) : Z :=
  match l with
  | [] => 0
  | b :: l' => Z_of_byte b + 256 * le_value l'
  end.

Lemma length_le_bytes n z : length (le_bytes n z) = n.
Proof. revert z. induction n; intros; cbn; auto. Qed.

Lemma le_value_bytes n z :
  0 ≤ z < 256 ^ Z.of_nat n → le_value (le_bytes n z) = z.
Proof.
  revert z. induction n as [|n IH]; intros z Hz; cbn.
  { change (256 ^ Z.of_nat 0) with 1 in Hz. lia. }
  rewrite Nat2Z.inj_succ, Z.pow_succ_r in Hz by lia.
  rewrite Z_of_byte_of_Z, IH.
  - pose proof (Z.div_mod z 256). lia.
  - split; [apply Z.div_pos; lia|]. apply Z.div_lt_upper_bound; lia.
Qed.

(** ** The codec interface *)

Class Codec (A : Type) := {
  encode : A → list byte;
  decode : list byte → option (A * list byte);
  (** the values the Rust type has *)
  valid : A → Prop;
  decode_encode a rest : valid a → decode (encode a ++ rest) = Some (a, rest);
}.
Arguments encode : simpl never.
Arguments decode : simpl never.

Lemma encode_app_inj {A} `{Codec A} a b l k :
  valid a → valid b → encode a ++ l = encode b ++ k → a = b ∧ l = k.
Proof.
  intros Ha Hb Heq. pose proof (decode_encode a l Ha) as Hd.
  rewrite Heq, (decode_encode b k Hb) in Hd. naive_solver.
Qed.

Definition u32_to_le_bytes (z : Z) : list byte := le_bytes 4 z.

Arguments u32_to_le_bytes : simpl never.

Definition decode_u32 (l : list byte) : option (Z * list byte) :=
  if decide (4 ≤ length l)%nat then Some (le_value (take 4 l), drop 4 l) else None.

Lemma decode_u32_encode z rest :
  is_u32 z → decode_u32 (u32_to_le_bytes z ++ rest) = Some (z, rest).
Proof.
  intros Hz. unfold decode_u32, u32_to_le_bytes.
  rewrite length_app, length_le_bytes. case_decide; [|lia].
  rewrite take_app_length', drop_app_length' by (by rewrite length_le_bytes).
  rewrite le_value_bytes; [done|]. unfold is_u32, u32_max in Hz.
  change (256 ^ Z.of_nat 4) with (2 ^ 32). lia.
Qed.

(** [u32] *)
#[export] Instance u32_codec : Codec Z := {|
  encode := u32_to_le_bytes;
  decode := decode_u32;
  valid := is_u32;
  decode_encode := decode_u32_encode;
|}.

(** [[u8; n]] *)
Definition bytes_n (n : nat) : Type := vec byte n.

Definition decode_bytes (n : nat) (l : list byte) : option (vec byte n * list byte) :=
  v ← vec_of_list n (take n l); Some (v, drop n l).

Lemma decode_bytes_encode n (v : vec byte n) rest :
  decode_bytes n (vec_to_list v ++ rest) = Some (v, rest).
Proof.
  unfold decode_bytes.
  rewrite take_app_length', drop_app_length' by (by rewrite length_vec_to_list).
  by rewrite vec_of_list_to_list.
Qed.

#[export] Instance bytes_codec n : Codec (vec byte n) := {|
  encode := vec_to_list;
  decode := decode_bytes n;
  valid := λ _, True;
  decode_encode v rest _ := decode_bytes_encode n v rest;
|}.

Lemma decode_encode_array n (v : vec byte n) rest :
  decode (encode v ++ rest) = Some (v, rest).
Proof. by apply decode_encode. Qed.

(** [AccountId32] *)
Abbreviation AccountId32 := (vec byte 32).

(** An account whose bytes are all zero but the last. *)
Definition account (z : Z) : AccountId32 := vreplicate 31 Byte.x00 +++ [# byte_of_Z z].

(** ** Values of variable length

    [Compact<u32>]: the two low bits of the first byte give the width, and a
    value is only accepted in its shortest form. *)
Definition decode_le (n : nat) (l : list byte) : option (Z * list byte) :=
  if decide (n ≤ length l)%nat then Some (le_value (take n l), drop n l) else None.

Definition decode_compact (l : list byte) : option (Z * list byte) :=
  match l with
  | [] => None
  | prefix :: rest =>
      let p := Z_of_byte prefix in
      match Z.land p 3 with
      | 0 => Some (Z.shiftr p 2, rest)
      | 1 =>
          '(x, rest) ← decode_le 2 l;
          let x := Z.shiftr x 2 in
          if decide (63 < x) then Some (x, rest) else None
      | 2 =>
          '(x, rest) ← decode_le 4 l;
          let x := Z.shiftr x 2 in
          if decide (16383 < x) then Some (x, rest) else None
      | _ =>
          if decide (Z.shiftr p 2 = 0) then
            '(x, rest) ← decode_le 4 rest;
            if decide (Z.shiftr u32_max 2 < x) then Some (x, rest) else None
          else None
      end
  end.

(** [Vec<u8>] *)
Definition decode_vec (l : list byte) : option (list byte * list byte) :=
  '(n, rest) ← decode_compact l;
  if decide (n ≤ Z.of_nat (length rest)) then Some (take (Z.to_nat n) rest, drop (Z.to_nat n) rest)
  else None.

(** [i64] *)
Definition decode_i64 (l : list byte) : option (Z * list byte) :=
  '(x, rest) ← decode_le 8 l;
  Some (if decide (x < 2 ^ 63) then x else x - 2 ^ 64, rest).
