(* ===== verification/XcmTypes.v ===== *)
(** * XCM data types

    The cross-consensus message format the chains exchange
    ([xcm/src/v0/junction.rs], [xcm/src/v1/junction.rs],
    [xcm/src/v1/multilocation.rs], [xcm/src/v1/multiasset.rs],
    [xcm/src/v2/mod.rs], [xcm/src/v2/traits.rs] of the relay-chain tree).
    [Xcm<Call>] is a list of instructions; the payload of [Transact] is kept in
    its encoded form, the part of [DoubleEncoded] that travels. *)

From S2P Require Import Prelude.

Inductive NetworkId :=
| NetAny
| NetNamed (name : list byte)
| NetPolkadot
| NetKusama.

Inductive BodyId :=
| BodyUnit
| BodyNamed (name : list byte)
| BodyIndex (index : Z)
| BodyExecutive
| BodyTechnical
| BodyLegislative
| BodyJudicial.

Inductive BodyPart :=
| Voice
| Members (count : Z)
| Fraction (nom denom : Z)
| AtLeastProportion (nom denom : Z)
| MoreThanProportion (nom denom : Z).

Inductive Junction :=
| Parachain (id : Z)
| AccountId32J (network : NetworkId) (id : vec byte 32)
| AccountIndex64 (network : NetworkId) (index : Z)
| AccountKey20 (network : NetworkId) (key : vec byte 20)
| PalletInstance (index : Z)
| GeneralIndex (id : Z)
| GeneralKey (key : list byte)
| OnlyChild
| Plurality (id : BodyId) (part : BodyPart).

Inductive Junctions :=
| Here
| X1 (a : Junction)
| X2 (a b : Junction)
| X3 (a b c : Junction)
| X4 (a b c d : Junction)
| X5 (a b c d e : Junction)
| X6 (a b c d e f : Junction)
| X7 (a b c d e f g : Junction)
| X8 (a b c d e f g h : Junction).

Record MultiLocation := mkMultiLocation {
  parents : Z;
  interior : Junctions;
}.

#[export] Instance NetworkId_eq_dec : EqDecision NetworkId.
Proof. solve_decision. Defined.
#[export] Instance BodyId_eq_dec : EqDecision BodyId.
Proof. solve_decision. Defined.
#[export] Instance BodyPart_eq_dec : EqDecision BodyPart.
Proof. solve_decision. Defined.
#[export] Instance Junction_eq_dec : EqDecision Junction.
Proof. solve_decision. Defined.
#[export] Instance Junctions_eq_dec : EqDecision Junctions.
Proof. solve_decision. Defined.
#[export] Instance MultiLocation_eq_dec : EqDecision MultiLocation.
Proof. solve_decision. Defined.

Inductive AssetInstance :=
| UndefinedInstance
| IndexInstance (index : Z)
| Array4 (data : vec byte 4)
| Array8 (data : vec byte 8)
| Array16 (data : vec byte 16)
| Array32 (data : vec byte 32)
| Blob (data : list byte).

Inductive AssetId :=
| Concrete (location : MultiLocation)
| Abstract (name : list byte).

Inductive Fungibility :=
| Fungible (amount : Z)
| NonFungible (instance : AssetInstance).

Record MultiAsset := mkMultiAsset {
  asset_id : AssetId;
  asset_fun : Fungibility;
}.

Definition MultiAssets : Type := list MultiAsset.

Inductive WildFungibility := WildFungible | WildNonFungible.

Inductive WildMultiAsset :=
| All
| AllOf (id : AssetId) (fun_ : WildFungibility).

Inductive MultiAssetFilter :=
| Definite (assets : MultiAssets)
| Wild (wild : WildMultiAsset).

#[export] Instance AssetInstance_eq_dec : EqDecision AssetInstance.
Proof. solve_decision. Defined.
#[export] Instance AssetId_eq_dec : EqDecision AssetId.
Proof. solve_decision. Defined.
#[export] Instance Fungibility_eq_dec : EqDecision Fungibility.
Proof. solve_decision. Defined.
#[export] Instance MultiAsset_eq_dec : EqDecision MultiAsset.
Proof. solve_decision. Defined.

Inductive OriginKind := Native | SovereignAccount | Superuser | XcmKind.

#[export] Instance OriginKind_eq_dec : EqDecision OriginKind.
Proof. solve_decision. Defined.

Inductive WeightLimit := Unlimited | Limited (weight : Z).

(** [xcm::v2::Error]; the static strings of [FailedToTransactAsset] and
    [Transport] are not encoded and are left out. *)
Inductive XcmError :=
| Overflow | Unimplemented | UntrustedReserveLocation | UntrustedTeleportLocation
| MultiLocationFull | MultiLocationNotInvertible | XcmBadOrigin | InvalidLocation
| AssetNotFound | FailedToTransactAsset | NotWithdrawable | LocationCannotHold
| XcmExceedsMaxMessageSize | XcmDestinationUnsupported | XcmTransport | XcmUnroutable
| UnknownClaim | FailedToDecode | MaxWeightInvalid | NotHoldingFees | TooExpensive
| XcmTrap (code : Z)
| UnhandledXcmVersion | WeightLimitReached (weight : Z) | BarrierError | WeightNotComputable.

#[export] Instance XcmError_eq_dec : EqDecision XcmError.
Proof. solve_decision. Defined.

Inductive Response :=
| NullResponse
| AssetsResponse (assets : MultiAssets)
| ExecutionResult (result : option (Z * XcmError))
| VersionResponse (version : Z).

Inductive Instruction :=
| WithdrawAsset (assets : MultiAssets)
| ReserveAssetDeposited (assets : MultiAssets)
| ReceiveTeleportedAsset (assets : MultiAssets)
| QueryResponse (query_id : Z) (response : Response) (max_weight : Z)
| TransferAsset (assets : MultiAssets) (beneficiary : MultiLocation)
| TransferReserveAsset (assets : MultiAssets) (dest : MultiLocation) (xcm : list Instruction)
| Transact (origin_type : OriginKind) (require_weight_at_most : Z) (call : list byte)
| HrmpNewChannelOpenRequest (sender max_message_size max_capacity : Z)
| HrmpChannelAccepted (recipient : Z)
| HrmpChannelClosing (initiator sender recipient : Z)
| ClearOrigin
| DescendOrigin (location : Junctions)
| ReportError (query_id : Z) (dest : MultiLocation) (max_response_weight : Z)
| DepositAsset (assets : MultiAssetFilter) (max_assets : Z) (beneficiary : MultiLocation)
| DepositReserveAsset (assets : MultiAssetFilter) (max_assets : Z) (dest : MultiLocation)
    (xcm : list Instruction)
| ExchangeAsset (give : MultiAssetFilter) (receive : MultiAssets)
| InitiateReserveWithdraw (assets : MultiAssetFilter) (reserve : MultiLocation)
    (xcm : list Instruction)
| InitiateTeleport (assets : MultiAssetFilter) (dest : MultiLocation) (xcm : list Instruction)
| QueryHolding (query_id : Z) (dest : MultiLocation) (assets : MultiAssetFilter)
    (max_response_weight : Z)
| BuyExecution (fees : MultiAsset) (weight_limit : WeightLimit)
| RefundSurplus
| SetErrorHandler (xcm : list Instruction)
| SetAppendix (xcm : list Instruction)
| ClearError
| ClaimAsset (assets : MultiAssets) (ticket : MultiLocation)
| Trap (code : Z)
| SubscribeVersion (query_id max_response_weight : Z)
| UnsubscribeVersion.

Definition Xcm : Type := list Instruction.

Inductive SendError :=
| CannotReachDestination (dest : MultiLocation) (message : Xcm)
| Transport
| Unroutable
| DestinationUnsupported
| ExceedsMaxMessageSize.

(** [impl From<SendError> for Error] *)
Definition xcm_error_of_send (e : SendError) : XcmError :=
  match e with
  | CannotReachDestination _ _ | Unroutable => XcmUnroutable
  | Transport => XcmTransport
  | DestinationUnsupported => XcmDestinationUnsupported
  | ExceedsMaxMessageSize => XcmExceedsMaxMessageSize
  end.

Inductive Outcome :=
| Complete (weight : Z)
| Incomplete (weight : Z) (error : XcmError)
| OutcomeError (error : XcmError).

Definition weight_used (o : Outcome) : Z :=
  match o with Complete w => w | Incomplete w _ => w | OutcomeError _ => 0 end.

(** ** Senders

    [trait SendXcm]: what a pallet may use to send a message.  The state [Q] is
    that of the queues behind the sender, which belong to the transport. *)
Class SendXcm (Q : Type) := send_xcm : MultiLocation → Xcm → Q → Q * result SendError unit.

(** [impl SendXcm for Tuple]: the next sender is tried only when the previous
    one reports that it cannot reach the destination. *)
Fixpoint send_xcm_tuple {Q} (senders : list (SendXcm Q)) (dest : MultiLocation) (msg : Xcm)
    (q : Q) : Q * result SendError unit :=
  match senders with
  | [] => (q, Err (CannotReachDestination dest msg))
  | s :: senders' =>
      match s dest msg q with
      | (q', Err (CannotReachDestination d m)) => send_xcm_tuple senders' d m q'
      | o => o
      end
  end.

(** A sender that accepts everything, for examples: an outbox. *)
Definition outbox : Type := list (MultiLocation * Xcm).
Definition outbox_send : SendXcm outbox := λ dest msg q, (q ++ [(dest, msg)], Ok tt).

(** The one-instruction program by which a pallet makes another chain dispatch
    the encoded [call], and the location of a sibling chain. *)
Definition transact (call : list byte) : Xcm := [Transact Native 1000 call].
Definition sibling (para : Z) : MultiLocation := mkMultiLocation 1 (X1 (Parachain para)).
