(* ===== verification/MultiLocations.v ===== *)
(** * Locations

    [xcm/src/v1/multilocation.rs] of the relay-chain tree: a location is a
    number of steps up and at most eight junctions down.  [Junctions] has a
    variant per length; its operations are shown to be those of lists.  A
    location means a position of the hierarchy of consensus systems once the
    position of its holder is known; [reanchor], by which the executor rewrites
    the location of an asset for another chain, is shown to keep that meaning. *)

From S2P Require Import Prelude.
From S2P Require Import XcmTypes.

Module Junctions.
Definition to_list (j : Junctions) : list Junction :=
  match j with
  | Here => []
  | X1 a => [a]
  | X2 a b => [a; b]
  | X3 a b c => [a; b; c]
  | X4 a b c d => [a; b; c; d]
  | X5 a b c d e => [a; b; c; d; e]
  | X6 a b c d e f => [a; b; c; d; e; f]
  | X7 a b c d e f g => [a; b; c; d; e; f; g]
  | X8 a b c d e f g h => [a; b; c; d; e; f; g; h]
  end.

Definition MAX_JUNCTIONS : nat := 8.

Definition first (j : Junctions) : option Junction :=
  match j with
  | Here => None
  | X1 a => Some a
  | X2 a _ => Some a
  | X3 a _ _ => Some a
  | X4 a _ _ _ => Some a
  | X5 a _ _ _ _ => Some a
  | X6 a _ _ _ _ _ => Some a
  | X7 a _ _ _ _ _ _ => Some a
  | X8 a _ _ _ _ _ _ _ => Some a
  end.

Definition last (j : Junctions) : option Junction :=
  match j with
  | Here => None
  | X1 a => Some a
  | X2 _ a => Some a
  | X3 _ _ a => Some a
  | X4 _ _ _ a => Some a
  | X5 _ _ _ _ a => Some a
  | X6 _ _ _ _ _ a => Some a
  | X7 _ _ _ _ _ _ a => Some a
  | X8 _ _ _ _ _ _ _ a => Some a
  end.

Definition split_first (j : Junctions) : Junctions * option Junction :=
  match j with
  | Here => (Here, None)
  | X1 a => (Here, Some a)
  | X2 a b => (X1 b, Some a)
  | X3 a b c => (X2 b c, Some a)
  | X4 a b c d => (X3 b c d, Some a)
  | X5 a b c d e => (X4 b c d e, Some a)
  | X6 a b c d e f => (X5 b c d e f, Some a)
  | X7 a b c d e f g => (X6 b c d e f g, Some a)
  | X8 a b c d e f g h => (X7 b c d e f g h, Some a)
  end.

Definition split_last (j : Junctions) : Junctions * option Junction :=
  match j with
  | Here => (Here, None)
  | X1 a => (Here, Some a)
  | X2 a b => (X1 a, Some b)
  | X3 a b c => (X2 a b, Some c)
  | X4 a b c d => (X3 a b c, Some d)
  | X5 a b c d e => (X4 a b c d, Some e)
  | X6 a b c d e f => (X5 a b c d e, Some f)
  | X7 a b c d e f g => (X6 a b c d e f, Some g)
  | X8 a b c d e f g h => (X7 a b c d e f g, Some h)
  end.

(** The operations on [&mut self] return the new value and the result. *)
Definition take_first (j : Junctions) : Junctions * option Junction :=
  let '(tail, head) := split_first j in (tail, head).

Definition take_last (j : Junctions) : Junctions * option Junction :=
  let '(head, tail) := split_last j in (head, tail).

Definition pushed_with (j : Junctions) (new : Junction) :
    result (Junctions * Junction) Junctions :=
  match j with
  | Here => Ok (X1 new)
  | X1 a => Ok (X2 a new)
  | X2 a b => Ok (X3 a b new)
  | X3 a b c => Ok (X4 a b c new)
  | X4 a b c d => Ok (X5 a b c d new)
  | X5 a b c d e => Ok (X6 a b c d e new)
  | X6 a b c d e f => Ok (X7 a b c d e f new)
  | X7 a b c d e f g => Ok (X8 a b c d e f g new)
  | s => Err (s, new)
  end.

Definition pushed_front_with (j : Junctions) (new : Junction) :
    result (Junctions * Junction) Junctions :=
  match j with
  | Here => Ok (X1 new)
  | X1 a => Ok (X2 new a)
  | X2 a b => Ok (X3 new a b)
  | X3 a b c => Ok (X4 new a b c)
  | X4 a b c d => Ok (X5 new a b c d)
  | X5 a b c d e => Ok (X6 new a b c d e)
  | X6 a b c d e f => Ok (X7 new a b c d e f)
  | X7 a b c d e f g => Ok (X8 new a b c d e f g)
  | s => Err (s, new)
  end.

Definition push (j : Junctions) (new : Junction) : Junctions * result Junction unit :=
  match pushed_with j new with
  | Ok s => (s, Ok tt)
  | Err (s, j) => (s, Err j)
  end.

Definition push_front (j : Junctions) (new : Junction) : Junctions * result Junction unit :=
  match pushed_front_with j new with
  | Ok s => (s, Ok tt)
  | Err (s, j) => (s, Err j)
  end.

Definition len (j : Junctions) : nat :=
  match j with
  | Here => 0
  | X1 _ => 1
  | X2 _ _ => 2
  | X3 _ _ _ => 3
  | X4 _ _ _ _ => 4
  | X5 _ _ _ _ _ => 5
  | X6 _ _ _ _ _ _ => 6
  | X7 _ _ _ _ _ _ _ => 7
  | X8 _ _ _ _ _ _ _ _ => 8
  end.

Definition at_ (j : Junctions) (i : nat) : option Junction :=
  match i, j with
  | 0%nat, X1 a => Some a
  | 0%nat, X2 a _ => Some a
  | 0%nat, X3 a _ _ => Some a
  | 0%nat, X4 a _ _ _ => Some a
  | 0%nat, X5 a _ _ _ _ => Some a
  | 0%nat, X6 a _ _ _ _ _ => Some a
  | 0%nat, X7 a _ _ _ _ _ _ => Some a
  | 0%nat, X8 a _ _ _ _ _ _ _ => Some a
  | 1%nat, X2 _ a => Some a
  | 1%nat, X3 _ a _ => Some a
  | 1%nat, X4 _ a _ _ => Some a
  | 1%nat, X5 _ a _ _ _ => Some a
  | 1%nat, X6 _ a _ _ _ _ => Some a
  | 1%nat, X7 _ a _ _ _ _ _ => Some a
  | 1%nat, X8 _ a _ _ _ _ _ _ => Some a
  | 2%nat, X3 _ _ a => Some a
  | 2%nat, X4 _ _ a _ => Some a
  | 2%nat, X5 _ _ a _ _ => Some a
  | 2%nat, X6 _ _ a _ _ _ => Some a
  | 2%nat, X7 _ _ a _ _ _ _ => Some a
  | 2%nat, X8 _ _ a _ _ _ _ _ => Some a
  | 3%nat, X4 _ _ _ a => Some a
  | 3%nat, X5 _ _ _ a _ => Some a
  | 3%nat, X6 _ _ _ a _ _ => Some a
  | 3%nat, X7 _ _ _ a _ _ _ => Some a
  | 3%nat, X8 _ _ _ a _ _ _ _ => Some a
  | 4%nat, X5 _ _ _ _ a => Some a
  | 4%nat, X6 _ _ _ _ a _ => Some a
  | 4%nat, X7 _ _ _ _ a _ _ => Some a
  | 4%nat, X8 _ _ _ _ a _ _ _ => Some a
  | 5%nat, X6 _ _ _ _ _ a => Some a
  | 5%nat, X7 _ _ _ _ _ a _ => Some a
  | 5%nat, X8 _ _ _ _ _ a _ _ => Some a
  | 6%nat, X7 _ _ _ _ _ _ a => Some a
  | 6%nat, X8 _ _ _ _ _ _ a _ => Some a
  | 7%nat, X8 _ _ _ _ _ _ _ a => Some a
  | _, _ => None
  end.

(** [into_iter()] and [into_iter().rev()]: the junctions taken from the front,
    or from the back, until none is left; [n] bounds the number of takes. *)
Fixpoint iterate (take : Junctions → Junctions * option Junction) (n : nat) (j : Junctions) :
    list Junction :=
  match n with
  | O => []
  | S n => let '(j, o) := take j in
           match o with
           | None => []
           | Some x => x :: iterate take n j
           end
  end.

Definition into_iter (j : Junctions) : list Junction := iterate take_first MAX_JUNCTIONS j.
Definition into_iter_rev (j : Junctions) : list Junction := iterate take_last MAX_JUNCTIONS j.

Fixpoint match_prefix (self prefix : Junctions) (n i : nat) : bool :=
  match n with
  | O => true
  | S n => if decide (at_ prefix i = at_ self i) then match_prefix self prefix n (S i) else false
  end.

Definition match_and_split (self prefix : Junctions) : option Junction :=
  if decide (len prefix + 1 ≠ len self)%nat then None
  else if match_prefix self prefix (len prefix) 0 then at_ self (len prefix) else None.

(** ** Junctions are short lists *)

Lemma len_to_list j : len j = length (to_list j).
Proof. by destruct j. Qed.

Lemma len_max j : (length (to_list j) ≤ MAX_JUNCTIONS)%nat.
Proof. destruct j; cbn; unfold MAX_JUNCTIONS; lia. Qed.

Lemma to_list_inj j k : to_list j = to_list k → j = k.
Proof. destruct j, k; cbn; intros; simplify_eq; done. Qed.

Lemma first_to_list j : first j = head (to_list j).
Proof. by destruct j. Qed.

Lemma last_to_list j : last j = list.last (to_list j).
Proof. by destruct j. Qed.

Lemma at_to_list j i : at_ j i = to_list j !! i.
Proof. destruct j; do 9 (destruct i; [done|]); done. Qed.

Lemma take_first_spec j :
  to_list j = match (take_first j).2 with
              | Some x => x :: to_list (take_first j).1
              | None => []
              end ∧ ((take_first j).2 = None → j = Here).
Proof. by destruct j. Qed.

Lemma take_last_spec j :
  to_list j = match (take_last j).2 with
              | Some x => to_list (take_last j).1 ++ [x]
              | None => []
              end ∧ ((take_last j).2 = None → (take_last j).1 = Here).
Proof. by destruct j. Qed.

Lemma pushed_with_spec j x :
  if decide (length (to_list j) < MAX_JUNCTIONS)%nat
  then ∃ k, pushed_with j x = Ok k ∧ to_list k = to_list j ++ [x]
  else pushed_with j x = Err (j, x).
Proof. destruct j; case_decide; cbn in *; unfold MAX_JUNCTIONS in *; eauto; lia. Qed.

Lemma pushed_front_with_spec j x :
  if decide (length (to_list j) < MAX_JUNCTIONS)%nat
  then ∃ k, pushed_front_with j x = Ok k ∧ to_list k = x :: to_list j
  else pushed_front_with j x = Err (j, x).
Proof. destruct j; case_decide; cbn in *; unfold MAX_JUNCTIONS in *; eauto; lia. Qed.

Lemma into_iter_to_list j : into_iter j = to_list j.
Proof. by destruct j. Qed.

Lemma into_iter_rev_to_list j : into_iter_rev j = reverse (to_list j).
Proof. by destruct j. Qed.
End Junctions.

Module MultiLocation.
Import Junctions.

Definition here : MultiLocation := mkMultiLocation 0 Here.
Definition parent : MultiLocation := mkMultiLocation 1 Here.
Definition is_here (l : MultiLocation) : bool :=
  bool_decide (parents l = 0) && bool_decide (len (interior l) = 0%nat).
Definition contains_parents_only (l : MultiLocation) (count : Z) : bool :=
  match interior l with Here => bool_decide (parents l = count) | _ => false end.
Definition first_interior (l : MultiLocation) : option Junction := first (interior l).

Definition split_first_interior (l : MultiLocation) : MultiLocation * option Junction :=
  let '(suffix, first) := split_first (interior l) in
  (mkMultiLocation (parents l) suffix, first).
Definition split_last_interior (l : MultiLocation) : MultiLocation * option Junction :=
  let '(prefix, last) := split_last (interior l) in
  (mkMultiLocation (parents l) prefix, last).

Definition pushed_with_interior (l : MultiLocation) (new : Junction) :
    result (MultiLocation * Junction) MultiLocation :=
  match pushed_with (interior l) new with
  | Ok i => Ok (mkMultiLocation (parents l) i)
  | Err (i, j) => Err (mkMultiLocation (parents l) i, j)
  end.
Definition pushed_front_with_interior (l : MultiLocation) (new : Junction) :
    result (MultiLocation * Junction) MultiLocation :=
  match pushed_front_with (interior l) new with
  | Ok i => Ok (mkMultiLocation (parents l) i)
  | Err (i, j) => Err (mkMultiLocation (parents l) i, j)
  end.

Definition at_ (l : MultiLocation) (i : nat) : option Junction :=
  let num_parents := Z.to_nat (parents l) in
  if decide (i < num_parents)%nat then None
  else Junctions.at_ (interior l) (i - num_parents).

Definition dec_parent (l : MultiLocation) : MultiLocation :=
  mkMultiLocation (saturating_sub (parents l) 1) (interior l).

Definition take_last (l : MultiLocation) : MultiLocation * option Junction :=
  let '(i, j) := Junctions.take_last (interior l) in (mkMultiLocation (parents l) i, j).

Definition match_and_split (l prefix : MultiLocation) : option Junction :=
  if decide (parents l ≠ parents prefix) then None
  else Junctions.match_and_split (interior l) (interior prefix).

(** The pushes of a loop that [expect]s each of them: [None] is the panic. *)
Fixpoint expect_pushes (push : Junctions → Junction → Junctions * result Junction unit)
    (i : Junctions) (js : list Junction) : option Junctions :=
  match js with
  | [] => Some i
  | j :: js =>
      match push i j with
      | (i, Ok _) => expect_pushes push i js
      | (_, Err _) => None
      end
  end.

(** [None] is a panic; on an error [self] is unchanged. *)
Definition append_with (self : MultiLocation) (suffix : Junctions) :
    option (result Junctions MultiLocation) :=
  if decide (MAX_JUNCTIONS < len (interior self) + len suffix)%nat then Some (Err suffix)
  else
    i ← expect_pushes push (interior self) (into_iter suffix);
    Some (Ok (mkMultiLocation (parents self) i)).

(** [while self.parents > 0 && prefix.take_last().is_some() { self.dec_parent() }] *)
Fixpoint cancel (n : nat) (self prefix : MultiLocation) : MultiLocation * MultiLocation :=
  match n with
  | O => (self, prefix)
  | S n =>
      if decide (0 < parents self) then
        let '(prefix, taken) := take_last prefix in
        match taken with
        | Some _ => cancel n (dec_parent self) prefix
        | None => (self, prefix)
        end
      else (self, prefix)
  end.

Definition prepend_with (self prefix : MultiLocation) :
    option (result MultiLocation MultiLocation) :=
  let prepend_interior := (len (interior prefix) - Z.to_nat (parents self))%nat in
  let final_interior := (len (interior self) + prepend_interior)%nat in
  if decide (MAX_JUNCTIONS < final_interior)%nat then Some (Err prefix)
  else
    let suffix_parents := saturating_sub (parents self) (Z.of_nat (len (interior prefix))) in
    let final_parents := parents prefix + suffix_parents in
    if decide (255 < final_parents) then Some (Err prefix)
    else
      let '(self, prefix) := cancel (S MAX_JUNCTIONS) self prefix in
      let parents := Z.min 255 (parents self + parents prefix) in
      i ← expect_pushes push_front (interior self) (into_iter_rev (interior prefix));
      Some (Ok (mkMultiLocation parents i)).

Fixpoint invert_loop (n : nat) (ancestry junctions : Junctions) : result unit Junctions :=
  match n with
  | O => Ok junctions
  | S n =>
      let '(ancestry, taken) := Junctions.take_last ancestry in
      match pushed_front_with junctions (default OnlyChild taken) with
      | Ok junctions => invert_loop n ancestry junctions
      | Err _ => Err tt
      end
  end.

Definition inverted (self target : MultiLocation) : result unit MultiLocation :=
  match invert_loop (Z.to_nat (parents target)) (interior self) Here with
  | Ok junctions => Ok (mkMultiLocation (Z.of_nat (len (interior target))) junctions)
  | Err e => Err e
  end.

Fixpoint simplify_loop (n : nat) (self : MultiLocation) (context : Junctions) : MultiLocation :=
  match n with
  | O => self
  | S n =>
      if decide (0 < parents self) then
        let maybe := Junctions.at_ context (len context - Z.to_nat (parents self)) in
        match first (interior self), maybe with
        | Some i, Some j =>
            if decide (i = j) then
              simplify_loop n
                (mkMultiLocation (parents self - 1) (take_first (interior self)).1) context
            else self
        | _, _ => self
        end
      else self
  end.

Definition simplify (self : MultiLocation) (context : Junctions) : MultiLocation :=
  if decide (Z.of_nat (len context) < parents self) then self
  else simplify_loop (S MAX_JUNCTIONS) self context.

Definition reanchor (self target ancestry : MultiLocation) : option (result unit MultiLocation) :=
  match inverted ancestry target with
  | Err e => Some (Err e)
  | Ok inverted_target =>
      prepended ← prepend_with self inverted_target;
      match prepended with
      | Err _ => Some (Err tt)
      | Ok self => Some (Ok (simplify self (interior target)))
      end
  end.

(** ** What the operations compute *)

Definition path (l : MultiLocation) : list Junction := to_list (interior l).

(** [parents] is a [u8]. *)
Definition valid (l : MultiLocation) : Prop := 0 ≤ parents l ≤ 255.

Lemma location_ext l k : parents l = parents k → path l = path k → l = k.
Proof. destruct l, k. unfold path. cbn. intros -> ->%to_list_inj. done. Qed.

Lemma expect_pushes_back i js :
  (length (to_list i) + length js ≤ MAX_JUNCTIONS)%nat →
  ∃ k, expect_pushes push i js = Some k ∧ to_list k = to_list i ++ js.
Proof.
  revert i. induction js as [|j js IH]; intros i Hlen; [exists i; by rewrite app_nil_r|].
  cbn in *. pose proof (pushed_with_spec i j) as Hp. unfold push.
  rewrite decide_True in Hp by lia. destruct Hp as (k & -> & Hk).
  destruct (IH k) as (k' & Hk' & Heq); [rewrite Hk, length_app; cbn; lia|].
  exists k'. split; [done|]. by rewrite Heq, Hk, <-app_assoc.
Qed.

Lemma expect_pushes_front i js :
  (length (to_list i) + length js ≤ MAX_JUNCTIONS)%nat →
  ∃ k, expect_pushes push_front i js = Some k ∧ to_list k = reverse js ++ to_list i.
Proof.
  revert i. induction js as [|j js IH]; intros i Hlen; [exists i; done|].
  cbn [expect_pushes length] in *. pose proof (pushed_front_with_spec i j) as Hp. unfold push_front.
  rewrite decide_True in Hp by lia. destruct Hp as (k & -> & Hk).
  destruct (IH k) as (k' & Hk' & Heq); [rewrite Hk; cbn; lia|].
  exists k'. split; [done|]. by rewrite Heq, Hk, reverse_cons, <-app_assoc.
Qed.

(** [append_with] never panics: it appends, or refuses what does not fit. *)
Lemma append_with_spec self suffix :
  if decide (length (path self) + length (to_list suffix) ≤ MAX_JUNCTIONS)%nat
  then ∃ l, append_with self suffix = Some (Ok l) ∧ parents l = parents self
       ∧ path l = path self ++ to_list suffix
  else append_with self suffix = Some (Err suffix).
Proof.
  unfold append_with, path. rewrite !len_to_list, into_iter_to_list.
  case_decide; [rewrite decide_False by lia|by rewrite decide_True by lia].
  destruct (expect_pushes_back (interior self) (to_list suffix)) as (k & -> & Hk); [done|].
  eexists. cbn. split_and!; [done|done|]. done.
Qed.

Lemma cancel_spec n self prefix :
  0 ≤ parents self → (length (path prefix) < n)%nat →
  let p := Z.to_nat (parents self) in
  let m := length (path prefix) in
  let '(self', prefix') := cancel n self prefix in
  parents self' = Z.of_nat (p - m) ∧ interior self' = interior self ∧
  parents prefix' = parents prefix ∧ path prefix' = take (m - p) (path prefix).
Proof.
  revert self prefix. induction n as [|n IH]; intros self prefix Hp Hn; [lia|]. cbn [cancel].
  case_decide as Hpos.
  2: { replace (Z.to_nat (parents self)) with 0%nat by lia.
       rewrite Nat.sub_0_r, take_ge by lia. split_and!; try done; lia. }
  destruct (take_last prefix) as [prefix' o] eqn:E. unfold take_last in E.
  pose proof (take_last_spec (interior prefix)) as [Hl Hnone].
  destruct (Junctions.take_last (interior prefix)) as [i oj] eqn:E'. simplify_eq. cbn in Hl, Hnone.
  destruct o as [j|].
  - specialize (IH (dec_parent self) (mkMultiLocation (parents prefix) i)). cbn in IH.
    unfold path in *. cbn in IH. rewrite Hl, length_app in *. cbn in Hn |- *.
    destruct (cancel n _ _) as [self' prefix'].
    unfold saturating_sub in IH. destruct IH as (-> & -> & -> & ->); [lia|lia|].
    split_and!; try done; [lia|]. rewrite take_app_le by lia. f_equal. lia.
  - unfold path in *. rewrite Hl. cbn. rewrite take_nil.
    rewrite (Hnone eq_refl). cbn. split_and!; try done; lia.
Qed.

(** [prepend_with] never panics: it succeeds exactly when the result fits, and
    each step up of [self] cancels a junction of the prefix. *)
Lemma prepend_with_spec self prefix :
  valid self → valid prefix →
  let p := Z.to_nat (parents self) in
  let m := length (path prefix) in
  if decide ((length (path self) + (m - p) ≤ MAX_JUNCTIONS)%nat ∧
             parents prefix + Z.of_nat (p - m) ≤ 255)
  then ∃ l, prepend_with self prefix = Some (Ok l)
       ∧ parents l = parents prefix + Z.of_nat (p - m)
       ∧ path l = take (m - p) (path prefix) ++ path self
  else prepend_with self prefix = Some (Err prefix).
Proof.
  intros Hs Hp. unfold prepend_with, valid, saturating_sub in *. cbn zeta.
  rewrite !len_to_list. fold (path self) (path prefix).
  case_decide as Hfit.
  2: { repeat case_decide; try done. exfalso. apply Hfit. lia. }
  rewrite !decide_False by lia.
  pose proof (cancel_spec (S MAX_JUNCTIONS) self prefix) as Hc.
  destruct (cancel _ self prefix) as [self' prefix']. pose proof (len_max (interior prefix)).
  destruct Hc as (Hp1 & Hi1 & Hp2 & Hi2); [lia|unfold path; lia|].
  rewrite Hi1, into_iter_rev_to_list. fold (path prefix').
  destruct (expect_pushes_front (interior self) (reverse (path prefix'))) as (k & -> & Hk).
  { rewrite length_reverse, Hi2, length_take. fold (path self). lia. }
  eexists. split_and!; [done|cbn [parents]; lia|].
  unfold path at 1. cbn. by rewrite Hk, reverse_involutive, Hi2.
Qed.

Lemma invert_loop_spec n a js :
  if decide (n + length (to_list js) ≤ MAX_JUNCTIONS)%nat
  then ∃ k, invert_loop n a js = Ok k ∧
       to_list k = replicate (n - length (to_list a)) OnlyChild
                   ++ drop (length (to_list a) - n) (to_list a) ++ to_list js
  else invert_loop n a js = Err tt.
Proof.
  revert a js. induction n as [|n IH]; intros a js; cbn [invert_loop].
  { pose proof (len_max js). rewrite decide_True by lia. exists js.
    by rewrite Nat.sub_0_r, drop_all. }
  pose proof (take_last_spec a) as [Ha Hnone].
  destruct (Junctions.take_last a) as [a' o]. cbn in Ha, Hnone.
  pose proof (pushed_front_with_spec js (default OnlyChild o)) as Hp.
  destruct (decide (length (to_list js) < MAX_JUNCTIONS)%nat).
  2: { rewrite Hp, decide_False by lia. done. }
  destruct Hp as (k & -> & Hk). specialize (IH a' k). rewrite Hk in IH. cbn in IH.
  case_decide; [rewrite decide_True by lia|by rewrite decide_False by lia].
  destruct IH as (k' & -> & Hk'). exists k'. split; [done|]. rewrite Hk', Ha.
  destruct o as [x|]; cbn.
  - rewrite length_app. cbn. replace (S n - (length (to_list a') + 1))%nat
      with (n - length (to_list a'))%nat by lia.
    rewrite drop_app_le by lia. rewrite <-app_assoc.
    do 3 f_equal. lia.
  - rewrite (Hnone eq_refl). cbn. rewrite Nat.sub_0_r, app_comm_cons.
    change (OnlyChild :: replicate n OnlyChild) with (replicate (S n) OnlyChild).
    rewrite replicate_S_end. by rewrite <-app_assoc.
Qed.

(** ** What a location means

    A position is the list of junctions that leads to it from the root of the
    hierarchy.  A location held at position [ctx] means the position reached by
    its steps up and then down; it means none when it climbs over the root. *)

Definition resolve (ctx : list Junction) (l : MultiLocation) : option (list Junction) :=
  if decide (Z.to_nat (parents l) ≤ length ctx)%nat
  then Some (take (length ctx - Z.to_nat (parents l)) ctx ++ path l) else None.

Lemma resolve_Some ctx l x :
  resolve ctx l = Some x ↔
  (Z.to_nat (parents l) ≤ length ctx)%nat ∧
  x = take (length ctx - Z.to_nat (parents l)) ctx ++ path l.
Proof. unfold resolve. case_decide; naive_solver. Qed.

(** Prepending a prefix moves the holder of the location to where the prefix
    starts. *)
Lemma resolve_prepend ctx self prefix l c x :
  valid self → valid prefix →
  prepend_with self prefix = Some (Ok l) →
  resolve ctx prefix = Some c → resolve c self = Some x → resolve ctx l = Some x.
Proof.
  intros Hs Hp Hl [Hle ->]%resolve_Some [Hle' ->]%resolve_Some.
  pose proof (prepend_with_spec self prefix Hs Hp) as Hspec. cbn zeta in Hspec.
  case_decide; [|by rewrite Hl in Hspec]. destruct Hspec as (l' & Hl' & Hpar & Hpath).
  rewrite Hl in Hl'. simplify_eq. unfold valid in *. apply resolve_Some.
  rewrite length_app, length_take in Hle' |- *. rewrite Hpath, Hpar. split; [lia|].
  destruct (decide (Z.to_nat (parents self) ≤ length (path prefix))%nat).
  - rewrite take_app_ge by (rewrite length_take; lia).
    rewrite length_take, <-app_assoc. f_equal; [f_equal; lia|]. f_equal. f_equal. lia.
  - rewrite take_app_le by (rewrite length_take; lia). rewrite take_take.
    replace (length (path prefix) - Z.to_nat (parents self))%nat with 0%nat by lia.
    rewrite take_0. cbn. f_equal. f_equal. lia.
Qed.

(** The inverse of a location leads back from where it ends to where it is
    held. *)
Lemma resolve_inverted anc target t :
  valid target → parents anc = 0 → resolve (path anc) target = Some t →
  ∃ l, inverted anc target = Ok l ∧ resolve t l = Some (path anc)
     ∧ parents l = Z.of_nat (length (path target))
     ∧ length (path l) = Z.to_nat (parents target).
Proof.
  intros Hv Hanc [Hle ->]%resolve_Some. unfold inverted, valid in *.
  pose proof (invert_loop_spec (Z.to_nat (parents target)) (interior anc) Here) as Hi.
  pose proof (len_max (interior anc)). unfold path in Hle. cbn in Hi.
  rewrite decide_True in Hi by lia. destruct Hi as (k & -> & Hk).
  fold (path anc) in Hk, Hle. rewrite app_nil_r in Hk.
  replace (_ - length (path anc))%nat with 0%nat in Hk by lia. cbn in Hk.
  eexists. split; [done|]. rewrite len_to_list. fold (path target).
  assert (path (mkMultiLocation (Z.of_nat (length (path target))) k) = to_list k) as Hpk by done.
  split_and!; [|done|rewrite Hpk, Hk, length_drop; lia].
  apply resolve_Some. rewrite Hpk, Hk, length_app, length_take. cbn [parents]. split; [lia|].
  rewrite take_app_le by (rewrite length_take; lia). rewrite take_take.
  replace (_ `min` _)%nat with (length (path anc) - Z.to_nat (parents target))%nat by lia.
  by rewrite take_drop.
Qed.

(** Simplification in a context the position ends with keeps the meaning. *)
Lemma resolve_simplify_loop n pre context l :
  valid l → (Z.to_nat (parents l) ≤ length (to_list context))%nat →
  resolve (pre ++ to_list context) (simplify_loop n l context) =
  resolve (pre ++ to_list context) l ∧ valid (simplify_loop n l context).
Proof.
  revert l. induction n as [|n IH]; intros l Hv Hle; [done|]. cbn [simplify_loop].
  unfold valid in Hv. case_decide as Hpos; [|done].
  rewrite at_to_list, len_to_list, first_to_list.
  pose proof (take_first_spec (interior l)) as [Hi _].
  destruct (take_first (interior l)) as [i' o]. cbn in Hi |- *. rewrite Hi.
  destruct o as [i|]; [|done]. cbn.
  destruct (to_list context !! _) as [j|] eqn:Ej; [|done]. case_decide; [subst j|done].
  destruct (IH (mkMultiLocation (parents l - 1) i')) as [-> ?].
  { unfold valid. cbn. lia. }
  { cbn. lia. }
  split; [|done]. unfold resolve, path. cbn. rewrite Hi, length_app.
  rewrite !decide_True by lia. f_equal.
  replace (length pre + length (to_list context) - Z.to_nat (parents l - 1))%nat
    with (S (length pre + length (to_list context) - Z.to_nat (parents l)))%nat by lia.
  rewrite (take_S_r _ _ i), <-app_assoc; [done|].
  rewrite lookup_app_r by lia. rewrite <-Ej. f_equal. lia.
Qed.

Lemma resolve_simplify pre context l :
  valid l →
  resolve (pre ++ to_list context) (simplify l context) = resolve (pre ++ to_list context) l
  ∧ valid (simplify l context).
Proof.
  intros Hv. unfold simplify. rewrite len_to_list. case_decide; [done|].
  apply resolve_simplify_loop; [done|]. unfold valid in Hv. lia.
Qed.

(** C25. Re-anchoring keeps the meaning of a location: where a location and a
    target chain are both held at the position [ancestry], [reanchor] never
    panics, it succeeds exactly when the path to the common ancestor and down
    fits eight junctions, and the location it returns, held at the target,
    means the same position. *)
Theorem reanchor_keeps_position self target ancestry t x :
  valid self → valid target → parents ancestry = 0 →
  resolve (path ancestry) target = Some t →
  resolve (path ancestry) self = Some x →
  if decide (length (path self) + (Z.to_nat (parents target) - Z.to_nat (parents self))
             ≤ MAX_JUNCTIONS)%nat
  then ∃ l, reanchor self target ancestry = Some (Ok l) ∧ resolve t l = Some x
  else reanchor self target ancestry = Some (Err tt).
Proof.
  intros Hs Ht Ha Hrt Hrs. unfold reanchor.
  destruct (resolve_inverted _ _ _ Ht Ha Hrt) as (inv & -> & Hinv & Hip & Hil).
  pose proof (len_max (interior target)) as Hm. fold (path target) in Hm. unfold MAX_JUNCTIONS in Hm.
  assert (valid inv) as Hvi by (unfold valid; rewrite Hip; lia).
  pose proof (prepend_with_spec self inv Hs Hvi) as Hp. cbn zeta in Hp. rewrite Hil, Hip in Hp.
  assert (Z.to_nat (parents self) ≤ 8)%nat.
  { apply resolve_Some in Hrs as [Hle _]. pose proof (len_max (interior ancestry)).
    unfold path, MAX_JUNCTIONS in *. lia. }
  destruct (decide (length (path self) + _ ≤ MAX_JUNCTIONS)%nat) as [Hfit|Hfit];
    [rewrite decide_True in Hp by (split; [done|lia])|rewrite decide_False in Hp by (by intros [])].
  - destruct Hp as (l & Hl & Hpar & _). rewrite Hl. cbn. eexists. split; [done|].
    pose proof (resolve_prepend _ _ _ _ _ _ Hs Hvi Hl Hinv Hrs) as Hr.
    apply resolve_Some in Hrt as [_ ->].
    change (path target) with (to_list (interior target)) in Hr |- *.
    destruct (resolve_simplify (take (length (path ancestry) - Z.to_nat (parents target))
      (path ancestry)) (interior target) l) as [-> _]; [|done].
    unfold valid. rewrite Hpar. lia.
  - rewrite Hp. done.
Qed.

(** An account of parachain 2000 as parachain 3000 sees it. *)
Definition account_location : MultiLocation := mkMultiLocation 0 (X1 (PalletInstance 7)).
Definition para_2000 : MultiLocation := mkMultiLocation 0 (X1 (Parachain 2000)).

Lemma reanchor_keeps_position_witness :
  ∃ l, reanchor account_location (sibling 3000) para_2000 = Some (Ok l) ∧
    resolve [Parachain 3000] l = Some [Parachain 2000; PalletInstance 7].
Proof.
  apply (reanchor_keeps_position account_location (sibling 3000) para_2000);
    [split; cbn; lia|split; cbn; lia|reflexivity|reflexivity|reflexivity].
Defined.
End MultiLocation.
