(* ===== verification/Frame.v ===== *)
(** * FRAME

    What the pallets use of the framework they are written against.  Dispatch
    origins and the [ensure_*] functions belong to [frame_system] and
    [cumulus_pallet_xcm], which are not part of the repository: they are the
    interface [FrameOrigin], an argument of every dispatchable.  [RuntimeOrigin]
    is the origin type [construct_runtime!] builds for the parachain runtime,
    and an instance of the interface.  Storage maps are finite maps; a
    [ValueQuery] map reads its default where it has no entry. *)

From S2P Require Import Prelude.
From S2P Require Import XcmTypes.

Abbreviation BlockNumber := Z.
Abbreviation ParaId := Z.
Abbreviation Balance := Z.
Abbreviation Weight := Z.

Inductive DispatchError (E : Type) :=
| BadOrigin
| Other (message : string)
| Module (e : E).
Arguments BadOrigin {_}.
Arguments Other {_} _.
Arguments Module {_} _.

(** The [ensure_*] functions return [None] for [BadOrigin]. *)
Class FrameOrigin (O A : Type) := {
  ensure_root : O → option unit;
  ensure_signed : O → option A;
  ensure_none : O → option unit;
  ensure_sibling_para : O → option ParaId;
}.

(** A dispatchable body on storage [S] with module errors [E]. *)
Abbreviation Dispatch S E := (M S (DispatchError E) unit).

Definition or_bad_origin {S E B} (o : option B) : M S (DispatchError E) B :=
  lift (ok_or o BadOrigin).

Lemma or_bad_origin_Some {S E B} (b : B) (s : S) :
  or_bad_origin (E := E) (Some b) s = (s, Ok b).
Proof. done. Qed.

Section StorageMap.
Context {K V : Type} `{Countable K}.

Definition contains_key (k : K) (m : gmap K V) : bool := bool_decide (is_Some (m !! k)).

(** [ValueQuery]: the default stands for an absent entry. *)
Definition value_query (dflt : V) (k : K) (m : gmap K V) : V := default dflt (m !! k).

Lemma contains_key_true k m : contains_key k m = true ↔ is_Some (m !! k).
Proof. unfold contains_key. by rewrite bool_decide_eq_true. Qed.

Lemma contains_key_false k m : contains_key k m = false ↔ m !! k = None.
Proof. unfold contains_key. by rewrite bool_decide_eq_false, eq_None_not_Some. Qed.

Lemma value_query_insert dflt k k' v m :
  value_query dflt k' (<[k := v]> m) = if decide (k = k') then v else value_query dflt k' m.
Proof.
  unfold value_query. rewrite lookup_insert. by case_decide.
Qed.

Lemma value_query_delete dflt k k' m :
  value_query dflt k' (delete k m) = if decide (k = k') then dflt else value_query dflt k' m.
Proof.
  unfold value_query. rewrite lookup_delete. by case_decide.
Qed.
End StorageMap.

(** ** The origin of the parachain runtime *)

Inductive RuntimeOrigin (A : Type) :=
| Root
| Signed (who : A)
| NoOrigin
| RelayOrigin
| SiblingParachain (id : ParaId)
| XcmPalletOrigin (location : MultiLocation).
Arguments Root {_}.
Arguments Signed {_} _.
Arguments NoOrigin {_}.
Arguments RelayOrigin {_}.
Arguments SiblingParachain {_} _.
Arguments XcmPalletOrigin {_} _.

#[export] Instance runtime_origin A : FrameOrigin (RuntimeOrigin A) A := {|
  ensure_root o := match o with Root => Some tt | _ => None end;
  ensure_signed o := match o with Signed a => Some a | _ => None end;
  ensure_none o := match o with NoOrigin => Some tt | _ => None end;
  ensure_sibling_para o := match o with SiblingParachain p => Some p | _ => None end;
|}.

(** ** Automation

    [dispatch_cases H] splits a run of a dispatchable body over its guards. *)

Ltac deex :=
  repeat match goal with
  | H : ∃ x, _ |- _ => let y := fresh x in destruct H as [y H]
  end.

Ltac unfold_dispatch :=
  unfold or_bad_origin, lift, ok_or, ensure, gets, get, modify, throw,
    mbind, M_bind, mret, M_ret in *.

Ltac case_storage :=
  repeat match goal with
  | H : contains_key _ _ = true |- _ => apply contains_key_true in H
  | H : contains_key _ _ = false |- _ => apply contains_key_false in H
  | H : negb _ = true |- _ => apply negb_true_iff in H
  | H : negb _ = false |- _ => apply negb_false_iff in H
  | H : bool_decide _ = true |- _ => apply bool_decide_eq_true in H
  | H : bool_decide _ = false |- _ => apply bool_decide_eq_false in H
  end.

Ltac dispatch_cases :=
  unfold_dispatch; cbn in *;
  repeat (case_match; cbn in *; simplify_eq); case_storage; simplify_eq.
