(* ===== verification/XcmBuilder.v ===== *)
(** * The parts an XCM configuration is built from

    [xcm/xcm-builder/src] of the relay-chain tree: the weigher
    [FixedWeightBounds] ([weight.rs]), the execution barriers ([barriers.rs] and
    the tuple of [xcm-executor/src/traits/should_execute.rs]), the conversions
    of origins and locations ([origin_conversion.rs], [location_conversion.rs],
    the tuples of [xcm-executor/src/traits/conversion.rs], [XcmPassthrough] of
    [pallet-xcm]). *)

From S2P Require Import Prelude.
From S2P Require Import Codec.
From S2P Require Import XcmTypes.
From S2P Require Import MultiLocations.
From S2P Require Import Frame.

(** Induction over instructions, with the hypothesis for the programs an
    instruction carries. *)
Section InstructionInd.
Context (P : Instruction → Prop) (Q : Xcm → Prop)
  (HQ : ∀ x, Forall P x → Q x)
  (Hhandler : ∀ x, Q x → P (SetErrorHandler x))
  (Happendix : ∀ x, Q x → P (SetAppendix x))
  (Hother : ∀ i, (∀ x, i ≠ SetErrorHandler x) → (∀ x, i ≠ SetAppendix x) → P i).

Fixpoint instruction_ind (i : Instruction) : P i.
Proof.
  destruct i; try (apply Hother; intros; discriminate);
    [apply Hhandler|apply Happendix]; apply HQ;
    (induction xcm as [|j xcm IH]; [constructor|constructor; [apply instruction_ind|exact IH]]).
Qed.
End InstructionInd.

Module FixedWeightBounds.
Section Weigher.
(** [T::get()], the weight of one instruction, and [M::get()], the bound on the
    number of instructions. *)
Context (unit_weight max_instructions : Z).

Definition u64_checked_add (a b : Z) : option Z :=
  if decide (a + b ≤ u64_max) then Some (a + b) else None.

(** The loop over the instructions of a message, with the instruction limit as
    state. *)
Definition weight_loop (instr_weight : Instruction → Z → result unit (Z * Z)) :
    Xcm → Z → Z → result unit (Z * Z) :=
  fix loop message limit r :=
    match message with
    | [] => Ok (r, limit)
    | m :: message =>
        match instr_weight m limit with
        | Err e => Err e
        | Ok (w, limit) =>
            match u64_checked_add r w with
            | None => Err tt
            | Some r => loop message limit r
            end
        end
    end.

Definition checked_message_weight (instr_weight : Instruction → Z → result unit (Z * Z))
    (message : Xcm) (limit : Z) : result unit (Z * Z) :=
  if decide (limit < len32 message) then Err tt
  else weight_loop instr_weight message (limit - len32 message) 0.

(** Returns the weight and what is left of the limit. *)
Fixpoint instr_weight_with_limit (instruction : Instruction) (limit : Z) {struct instruction} :
    result unit (Z * Z) :=
  let inner :=
    match instruction with
    | Transact _ require_weight_at_most _ => Ok (require_weight_at_most, limit)
    | SetErrorHandler xcm | SetAppendix xcm =>
        checked_message_weight instr_weight_with_limit xcm limit
    | _ => Ok (0, limit)
    end in
  match inner with
  | Err e => Err e
  | Ok (w, limit) =>
      match u64_checked_add unit_weight w with
      | None => Err tt
      | Some r => Ok (r, limit)
      end
  end.

Definition weight_with_limit (message : Xcm) (limit : Z) : result unit (Z * Z) :=
  checked_message_weight instr_weight_with_limit message limit.

Definition weight (message : Xcm) : result unit Z :=
  match weight_with_limit message max_instructions with
  | Ok (w, _) => Ok w
  | Err e => Err e
  end.

Definition instr_weight (instruction : Instruction) : result unit Z :=
  match instr_weight_with_limit instruction u32_max with
  | Ok (w, _) => Ok w
  | Err e => Err e
  end.

(** ** The weight as a sum

    The instructions of a message with those of its handlers and appendices,
    and the sum of their weights. *)

Fixpoint instr_size (i : Instruction) : Z :=
  match i with
  | SetErrorHandler xcm | SetAppendix xcm => 1 + foldr (λ j n, instr_size j + n) 0 xcm
  | _ => 1
  end.
Definition size (x : Xcm) : Z := foldr (λ j n, instr_size j + n) 0 x.

Fixpoint instr_gross (i : Instruction) : Z :=
  unit_weight +
  match i with
  | Transact _ w _ => w
  | SetErrorHandler xcm | SetAppendix xcm => foldr (λ j n, instr_gross j + n) 0 xcm
  | _ => 0
  end.
Definition gross (x : Xcm) : Z := foldr (λ j n, instr_gross j + n) 0 x.

(** The weights declared by [Transact] are [u64]. *)
Fixpoint instr_wf (i : Instruction) : Prop :=
  match i with
  | Transact _ w _ => is_u64 w
  | SetErrorHandler xcm | SetAppendix xcm => foldr (λ j p, instr_wf j ∧ p) True xcm
  | _ => True
  end.
Definition wf (x : Xcm) : Prop := foldr (λ j p, instr_wf j ∧ p) True x.

Context (Hunit : 0 ≤ unit_weight).

Lemma instr_size_pos i : 1 ≤ instr_size i.
Proof.
  apply (instruction_ind (λ i, 1 ≤ instr_size i) (λ x, 0 ≤ size x)); cbn.
  - intros x. induction 1 as [|j x Hj _ IH]; cbn; [lia|]. fold (size x). lia.
  - intros x Hx. fold (size x). lia.
  - intros x Hx. fold (size x). lia.
  - intros [] Hh Ha; cbn; try lia; [by destruct (Hh xcm)|by destruct (Ha xcm)].
Qed.

Lemma size_length x : Z.of_nat (length x) ≤ size x.
Proof. induction x as [|i x IH]; cbn; [lia|]. pose proof (instr_size_pos i). fold (size x). lia. Qed.

Lemma gross_nonneg x : wf x → 0 ≤ gross x.
Proof.
  assert (∀ i, instr_wf i → 0 ≤ instr_gross i) as Hi.
  { intros i. apply (instruction_ind (λ i, instr_wf i → 0 ≤ instr_gross i)
      (λ x, wf x → 0 ≤ gross x)).
    - intros y. induction 1 as [|j y Hj _ IH]; cbn; [lia|]. intros [? ?].
      fold (gross y). specialize (Hj ltac:(done)). specialize (IH ltac:(done)). lia.
    - intros y Hy Hw. cbn. fold (gross y). specialize (Hy Hw). lia.
    - intros y Hy Hw. cbn. fold (gross y). specialize (Hy Hw). lia.
    - intros [] Hh Ha; cbn; unfold is_u64; try lia; [by destruct (Hh xcm)|by destruct (Ha xcm)]. }
  induction x as [|i x IH]; cbn; [lia|]. intros [Hw ?]. fold (gross x).
  specialize (Hi i Hw). specialize (IH ltac:(done)). lia.
Qed.

Definition instr_spec (i : Instruction) : Prop :=
  ∀ limit, instr_wf i → instr_size i ≤ u32_max → 0 ≤ limit →
  instr_weight_with_limit i limit =
    if decide (instr_size i - 1 ≤ limit ∧ instr_gross i ≤ u64_max)
    then Ok (instr_gross i, limit - (instr_size i - 1)) else Err tt.

Definition message_spec (x : Xcm) : Prop :=
  ∀ limit, wf x → size x ≤ u32_max →
  weight_with_limit x limit =
    if decide (size x ≤ limit ∧ gross x ≤ u64_max) then Ok (gross x, limit - size x) else Err tt.

Lemma weight_loop_spec x limit r :
  Forall instr_spec x → wf x → size x ≤ u32_max → 0 ≤ r ≤ u64_max → 0 ≤ limit →
  let extra := size x - Z.of_nat (length x) in
  weight_loop instr_weight_with_limit x limit r =
    if decide (extra ≤ limit ∧ r + gross x ≤ u64_max) then Ok (r + gross x, limit - extra)
    else Err tt.
Proof.
  intros Hx. revert limit r. induction Hx as [|i x Hi _ IH]; intros limit r Hwf Hsz Hr Hl; cbn zeta.
  { cbn. rewrite decide_True by lia. do 2 f_equal; lia. }
  destruct Hwf as [Hwi Hwx]. fold (wf x) in Hwx.
  pose proof (gross_nonneg x Hwx) as Hg. pose proof (gross_nonneg [i] (conj Hwi I)) as Hgi.
  pose proof (instr_size_pos i). pose proof (size_length x).
  unfold size in Hsz. cbn in Hsz, Hgi. fold (size x) in Hsz.
  assert (gross (i :: x) = instr_gross i + gross x) as -> by done.
  assert (size (i :: x) = instr_size i + size x) as -> by done.
  cbn [weight_loop length]. rewrite Hi by (done || lia). unfold u64_checked_add.
  destruct (decide (instr_size i - 1 ≤ limit ∧ instr_gross i ≤ u64_max)).
  2: { rewrite decide_False; [done|]. lia. }
  case_decide; [|rewrite decide_False; [done|lia]].
  cbn zeta in IH. rewrite IH by (done || lia).
  repeat case_decide; try done; try lia. do 2 f_equal; lia.
Qed.

Lemma message_weight_spec x : Forall instr_spec x → message_spec x.
Proof.
  intros Hx limit Hwf Hsz. unfold weight_with_limit, checked_message_weight, len32.
  pose proof (size_length x). rewrite wrap32_small by (unfold is_u32; lia).
  case_decide; [rewrite decide_False; [done|lia]|].
  pose proof (weight_loop_spec x (limit - Z.of_nat (length x)) 0 Hx Hwf Hsz) as Hloop.
  cbn zeta in Hloop. rewrite Hloop; [|unfold u64_max; lia|lia].
  rewrite Z.add_0_l. repeat case_decide; try done; try lia. do 2 f_equal; lia.
Qed.

Lemma all_instr_spec i : instr_spec i.
Proof.
  apply (instruction_ind instr_spec message_spec); [apply message_weight_spec| | |].
  1, 2: intros x Hx limit Hwf Hsz Hl; cbn [instr_weight_with_limit instr_size instr_gross] in *;
    fold (size x) (gross x) in *; fold (weight_with_limit x limit);
    pose proof (gross_nonneg x Hwf); rewrite Hx by (done || lia); unfold u64_checked_add;
    repeat (case_decide; cbn); try done; try lia; do 2 f_equal; lia.
  intros j Hh Ha limit Hwf Hsz Hl.
  destruct j; try (by destruct (Hh xcm)); try (by destruct (Ha xcm)); cbn in *;
    unfold u64_checked_add, is_u64 in *; repeat case_decide; try done; try lia; do 2 f_equal; lia.
Qed.

Lemma message_spec_all x : message_spec x.
Proof. apply message_weight_spec, Forall_forall. intros i _. apply all_instr_spec. Qed.

(** The weigher computes the sum: a message, with its nested handlers and
    appendices, weighs the unit weight per instruction plus what its [Transact]s
    declare; the weigher returns exactly this sum, and fails exactly when the
    sum does not fit a [u64] or there are more instructions than the bound. *)
Theorem weight_is_sum x :
  wf x → size x ≤ u32_max →
  weight x = if decide (size x ≤ max_instructions ∧ gross x ≤ u64_max) then Ok (gross x) else Err tt.
Proof.
  intros Hwf Hsz. unfold weight. rewrite (message_spec_all x _ Hwf Hsz). by case_decide.
Qed.
End Weigher.

Lemma weight_is_sum_witness :
  weight 1000000000 100 [SetAppendix [Transact Native 1000 []]; ClearOrigin] = Ok 3000001000.
Proof.
  apply (weight_is_sum 1000000000 100); [lia|vm_compute; intuition congruence|vm_compute; congruence].
Defined.
End FixedWeightBounds.

(** ** Barriers

    [should_execute] may change the message and the weight credit, which are
    the state of the computation. *)

Definition ShouldExecute : Type := MultiLocation → Z → M (Xcm * Z) unit unit.

Definition TakeWeightCredit : ShouldExecute :=
  λ _ max_weight '(message, weight_credit),
    if decide (max_weight ≤ weight_credit) then ((message, weight_credit - max_weight), Ok tt)
    else ((message, weight_credit), Err tt).

(** The instructions that may come first in a paid program: they put assets in
    holding. *)
Definition funds_holding (i : Instruction) : bool :=
  match i with
  | ReceiveTeleportedAsset _ | WithdrawAsset _ | ReserveAssetDeposited _ | ClaimAsset _ _ => true
  | _ => false
  end.

(** The rest of a paid program, with the limit of its [BuyExecution] set to
    [max_weight]; [None] when it does not buy enough. *)
Fixpoint buy_execution (max_weight : Z) (rest : Xcm) : option Xcm :=
  match rest with
  | ClearOrigin :: rest => cons ClearOrigin <$> buy_execution max_weight rest
  | BuyExecution fees (Limited weight) :: rest =>
      if decide (max_weight ≤ weight) then Some (BuyExecution fees (Limited max_weight) :: rest)
      else None
  | BuyExecution fees Unlimited :: rest => Some (BuyExecution fees (Limited max_weight) :: rest)
  | _ => None
  end.

Definition AllowTopLevelPaidExecutionFrom (contains : MultiLocation → bool) : ShouldExecute :=
  λ origin max_weight '(message, weight_credit),
    if negb (contains origin) then ((message, weight_credit), Err tt)
    else
      match message with
      | [] => ((message, weight_credit), Err tt)
      | i :: rest =>
          if funds_holding i then
            match buy_execution max_weight rest with
            | Some rest => ((i :: rest, weight_credit), Ok tt)
            | None => ((message, weight_credit), Err tt)
            end
          else ((message, weight_credit), Err tt)
      end.

Definition AllowUnpaidExecutionFrom (contains : MultiLocation → bool) : ShouldExecute :=
  λ origin _ s, if contains origin then (s, Ok tt) else (s, Err tt).

Definition AllowKnownQueryResponses (expecting_response : MultiLocation → Z → bool) :
    ShouldExecute :=
  λ origin _ '(message, weight_credit),
    match message with
    | QueryResponse query_id _ _ :: _ =>
        if expecting_response origin query_id then ((message, weight_credit), Ok tt)
        else ((message, weight_credit), Err tt)
    | _ => ((message, weight_credit), Err tt)
    end.

Definition AllowSubscriptionsFrom (contains : MultiLocation → bool) : ShouldExecute :=
  λ origin _ '(message, weight_credit),
    if negb (contains origin) then ((message, weight_credit), Err tt)
    else
      match message with
      | [SubscribeVersion _ _] | [UnsubscribeVersion] => ((message, weight_credit), Ok tt)
      | _ => ((message, weight_credit), Err tt)
      end.

(** The tuple: the first barrier that accepts decides. *)
Fixpoint should_execute_tuple (barriers : list ShouldExecute) : ShouldExecute :=
  λ origin max_weight s,
    match barriers with
    | [] => (s, Err tt)
    | b :: barriers =>
        match b origin max_weight s with
        | (s, Ok _) => (s, Ok tt)
        | (s, Err _) => should_execute_tuple barriers origin max_weight s
        end
    end.

(** What a program that pays for its execution looks like. *)
Definition pays (max_weight : Z) (message : Xcm) : Prop :=
  ∃ i n fees limit rest,
    message = i :: replicate n ClearOrigin ++ BuyExecution fees limit :: rest ∧
    funds_holding i = true ∧
    match limit with Unlimited => True | Limited w => max_weight ≤ w end.

Lemma buy_execution_Some max_weight rest :
  is_Some (buy_execution max_weight rest) ↔
  ∃ n fees limit rest', rest = replicate n ClearOrigin ++ BuyExecution fees limit :: rest' ∧
    match limit with Unlimited => True | Limited w => max_weight ≤ w end.
Proof.
  split.
  - induction rest as [|i rest IH]; [by intros [? ?]|]. intros Hs.
    destruct i; cbn in Hs; try by destruct Hs.
    + apply fmap_is_Some in Hs. destruct (IH Hs) as (n & fees & l & r & -> & Hl).
      by exists (S n), fees, l, r.
    + destruct weight_limit as [|w]; [by exists 0%nat, fees, Unlimited, rest|].
      case_decide; [|by destruct Hs]. by exists 0%nat, fees, (Limited w), rest.
  - intros (n & fees & l & r & -> & Hl). induction n as [|n IH]; cbn.
    + destruct l as [|w]; [eauto|]. rewrite decide_True by done. eauto.
    + by apply fmap_is_Some.
Qed.

(** What a passed barrier leaves: the same program, except that the purchase is
    limited to the weight of the program. *)
Lemma buy_execution_shape max_weight n fees limit rest :
  match limit with Unlimited => True | Limited w => max_weight ≤ w end →
  buy_execution max_weight (replicate n ClearOrigin ++ BuyExecution fees limit :: rest) =
  Some (replicate n ClearOrigin ++ BuyExecution fees (Limited max_weight) :: rest).
Proof.
  intros Hl. induction n as [|n IH]; cbn.
  - destruct limit; [done|]. by rewrite decide_True.
  - by rewrite IH.
Qed.

(** ** Conversions of locations to accounts

    [into_account_truncating] of a sibling chain belongs to [sp_runtime]: it is
    the argument [sibling_account]. *)

Definition location_converter : Type := MultiLocation → option AccountId32.

(** [b"Parent"] followed by zeros. *)
Definition parent_account : AccountId32 :=
  [# byte_of_Z 80; byte_of_Z 97; byte_of_Z 114; byte_of_Z 101; byte_of_Z 110; byte_of_Z 116]
  +++ vreplicate 26 Byte.x00.

Definition ParentIsPreset : location_converter :=
  λ location, if MultiLocation.contains_parents_only location 1 then Some parent_account else None.

Definition SiblingParachainConvertsVia (sibling_account : ParaId → AccountId32) :
    location_converter :=
  λ location,
    match location with
    | mkMultiLocation 1 (X1 (Parachain id)) => Some (sibling_account id)
    | _ => None
    end.

Definition AccountId32Aliases (network : NetworkId) : location_converter :=
  λ location,
    match location with
    | mkMultiLocation 0 (X1 (AccountId32J NetAny id)) => Some id
    | mkMultiLocation 0 (X1 (AccountId32J n id)) =>
        if decide (n = network) then Some id else None
    | _ => None
    end.

Fixpoint convert_tuple (converters : list location_converter) : location_converter :=
  λ location,
    match converters with
    | [] => None
    | c :: converters =>
        match c location with
        | Some a => Some a
        | None => convert_tuple converters location
        end
    end.

(** ** Conversions of locations to origins *)

Definition ConvertOrigin (O : Type) : Type := MultiLocation → OriginKind → result MultiLocation O.

Section Origins.
Abbreviation Origin := (RuntimeOrigin AccountId32).

Definition SovereignSignedViaLocation (convert : location_converter) : ConvertOrigin Origin :=
  λ origin kind,
    match kind with
    | SovereignAccount =>
        match convert origin with
        | Some location => Ok (Signed location)
        | None => Err origin
        end
    | _ => Err origin
    end.

Definition RelayChainAsNative : ConvertOrigin Origin :=
  λ origin kind,
    if bool_decide (kind = Native) && MultiLocation.contains_parents_only origin 1
    then Ok RelayOrigin else Err origin.

Definition SiblingParachainAsNative : ConvertOrigin Origin :=
  λ origin kind,
    match kind, origin with
    | Native, mkMultiLocation 1 (X1 (Parachain id)) => Ok (SiblingParachain id)
    | _, origin => Err origin
    end.

Definition SignedAccountId32AsNative (network : NetworkId) : ConvertOrigin Origin :=
  λ origin kind,
    match kind, origin with
    | Native, mkMultiLocation 0 (X1 (AccountId32J n id)) =>
        if bool_decide (n = NetAny) || bool_decide (n = network) then Ok (Signed id)
        else Err origin
    | _, origin => Err origin
    end.

Definition ParentAsSuperuser : ConvertOrigin Origin :=
  λ origin kind,
    if bool_decide (kind = Superuser) && MultiLocation.contains_parents_only origin 1
    then Ok Root else Err origin.

Definition XcmPassthrough : ConvertOrigin Origin :=
  λ origin kind, match kind with XcmKind => Ok (XcmPalletOrigin origin) | _ => Err origin end.

Fixpoint convert_origin_tuple (converters : list (ConvertOrigin Origin)) : ConvertOrigin Origin :=
  λ origin kind,
    match converters with
    | [] => Err origin
    | c :: converters =>
        match c origin kind with
        | Err o => convert_origin_tuple converters o kind
        | r => r
        end
    end.
End Origins.

(** ** The location inverter *)

Module LocationInverter.
Import Junctions MultiLocation.

Fixpoint invert_location_loop (n : nat) (ancestry junctions : Junctions) : result unit Junctions :=
  match n with
  | O => Ok junctions
  | S n =>
      let '(ancestry, taken) := take_first ancestry in
      match pushed_with junctions (default OnlyChild taken) with
      | Ok junctions => invert_location_loop n ancestry junctions
      | Err _ => Err tt
      end
  end.

Definition invert_location (ancestry location : MultiLocation) : result unit MultiLocation :=
  match invert_location_loop (Z.to_nat (parents location)) (interior ancestry) Here with
  | Ok junctions => Ok (mkMultiLocation (Z.of_nat (len (interior location))) junctions)
  | Err e => Err e
  end.

Lemma invert_location_loop_spec n a js :
  (n ≤ length (to_list a))%nat → (length (to_list js) + n ≤ MAX_JUNCTIONS)%nat →
  ∃ k, invert_location_loop n a js = Ok k ∧ to_list k = to_list js ++ take n (to_list a).
Proof.
  revert a js. induction n as [|n IH]; intros a js Ha Hlen; cbn [invert_location_loop].
  { exists js. by rewrite take_0, app_nil_r. }
  pose proof (take_first_spec a) as [Hl _]. destruct (take_first a) as [a' o]. cbn in Hl.
  rewrite Hl in Ha |- *. destruct o as [x|]; cbn in Ha; [|lia].
  change (default OnlyChild (Some x)) with x.
  pose proof (pushed_with_spec js x) as Hp. rewrite decide_True in Hp by lia.
  destruct Hp as (k & -> & Hk).
  destruct (IH a' k) as (k' & -> & Hk'); [lia|rewrite Hk, length_app; cbn; lia|].
  exists k'. split; [done|]. rewrite Hk', Hk. cbn. by rewrite <-app_assoc.
Qed.

(** When inverting a location is right: for a target below the root of the
    hierarchy the inverter of the XCM configuration returns a location, and
    that location leads from the target back to this chain exactly when the
    first junctions of the ancestry, as many as the target has steps up, are
    also its last ones.  It is so when the target's path climbs to the root, as
    on a parachain whose ancestry is one junction, and fails for most partial
    climbs. *)
Theorem invert_location_back_iff ancestry target t :
  valid target → parents ancestry = 0 →
  resolve (path ancestry) target = Some t →
  let n := Z.to_nat (parents target) in
  ∃ l, invert_location ancestry target = Ok l ∧
    (resolve t l = Some (path ancestry) ↔
     take n (path ancestry) = drop (length (path ancestry) - n) (path ancestry)).
Proof.
  intros Hv Ha [Hle ->]%resolve_Some. cbn zeta. unfold invert_location.
  pose proof (len_max (interior ancestry)) as Hmax. fold (path ancestry) in Hmax.
  destruct (invert_location_loop_spec (Z.to_nat (parents target)) (interior ancestry) Here)
    as (k & -> & Hk); [done|cbn; lia|]. fold (path ancestry) in Hk. cbn in Hk.
  eexists. split; [done|]. rewrite len_to_list, resolve_Some. fold (path target).
  assert (path (mkMultiLocation (Z.of_nat (length (path target))) k) = to_list k) as -> by done.
  cbn [parents]. rewrite Hk, length_app, length_take.
  rewrite take_app_le by (rewrite length_take; lia). rewrite take_take.
  replace (_ `min` (length (path ancestry) - Z.to_nat (parents target)))%nat
    with (length (path ancestry) - Z.to_nat (parents target))%nat by lia.
  split.
  - intros [_ Heq]. symmetry.
    rewrite <-(take_drop (length (path ancestry) - Z.to_nat (parents target)) (path ancestry))
      in Heq at 1. by apply app_inv_head in Heq.
  - intros Heq. split; [lia|]. by rewrite Heq, take_drop.
Qed.

(** One step up from a pallet of parachain 2000: the inverter answers with the
    parachain instead of the pallet. *)
Definition pallet_ancestry : MultiLocation := mkMultiLocation 0 (X2 (Parachain 2000) (PalletInstance 7)).

Lemma invert_location_back_iff_witness :
  invert_location pallet_ancestry parent = Ok (mkMultiLocation 0 (X1 (Parachain 2000))) ∧
  resolve [Parachain 2000] (mkMultiLocation 0 (X1 (Parachain 2000))) ≠ Some (path pallet_ancestry).
Proof.
  split; [reflexivity|].
  pose proof (invert_location_back_iff pallet_ancestry parent [Parachain 2000]) as H.
  destruct H as (l & Hl & Hiff); [split; cbn; lia|reflexivity|reflexivity|].
  injection Hl as <-. intros Hr. apply Hiff in Hr. discriminate.
Defined.
End LocationInverter.
