(* ===== verification/XcmConfig.v ===== *)
(** * The XCM configuration of the parachain runtime

    [common-parachain-node/runtime/src/xcm_config.rs]: which messages the chain
    executes, under which weight, and which dispatch origin a [Transact]
    gets. *)

From S2P Require Import Prelude.
From S2P Require Import Codec.
From S2P Require Import XcmTypes.
From S2P Require Import MultiLocations.
From S2P Require Import Frame.
From S2P Require Import XcmBuilder.

Module XcmConfig.

Definition UnitWeightCost : Z := 1000000000.
Definition MaxInstructions : Z := 100.
Definition RelayNetwork : NetworkId := NetAny.
Definition RelayLocation : MultiLocation := MultiLocation.parent.
Definition Ancestry (parachain_id : ParaId) : MultiLocation :=
  mkMultiLocation 0 (X1 (Parachain parachain_id)).

Definition ParentOrParentsExecutivePlurality (l : MultiLocation) : bool :=
  match l with
  | mkMultiLocation 1 Here => true
  | mkMultiLocation 1 (X1 (Plurality BodyExecutive _)) => true
  | mkMultiLocation 1 (X1 (Parachain 2000)) => true
  | mkMultiLocation 1 (X1 (Parachain 3000)) => true
  | _ => false
  end.

Definition DenyThenTry (deny allow : ShouldExecute) : ShouldExecute :=
  λ origin max_weight s,
    match deny origin max_weight s with
    | (s, Err e) => (s, Err e)
    | (s, Ok _) => allow origin max_weight s
    end.

(** A reserve transfer to the relay chain. *)
Definition to_relay (i : Instruction) : bool :=
  match i with
  | InitiateReserveWithdraw _ (mkMultiLocation 1 Here) _ => true
  | DepositReserveAsset _ _ (mkMultiLocation 1 Here) _ => true
  | TransferReserveAsset _ (mkMultiLocation 1 Here) _ => true
  | _ => false
  end.

Definition DenyReserveTransferToRelayChain : ShouldExecute :=
  λ _ _ '(message, weight_credit),
    if existsb to_relay message then ((message, weight_credit), Err tt)
    else ((message, weight_credit), Ok tt).

Definition Everything (l : MultiLocation) : bool := true.

Definition Barrier : ShouldExecute :=
  DenyThenTry DenyReserveTransferToRelayChain
    (should_execute_tuple
       [TakeWeightCredit;
        AllowTopLevelPaidExecutionFrom Everything;
        AllowUnpaidExecutionFrom ParentOrParentsExecutivePlurality]).

Definition Weigher : Xcm → result unit Z := FixedWeightBounds.weight UnitWeightCost MaxInstructions.
Definition instr_weight : Instruction → result unit Z := FixedWeightBounds.instr_weight UnitWeightCost.

(** [IsReserve]: a chain is the reserve of the asset it names. *)
Definition NativeAsset (asset : MultiAsset) (origin : MultiLocation) : bool :=
  match asset_id asset with Concrete id => bool_decide (id = origin) | Abstract _ => false end.

(** [IsConcrete<RelayLocation>], the only asset of the chain. *)
Definition matches_fungible (asset : MultiAsset) : option Z :=
  match asset_id asset, asset_fun asset with
  | Concrete id, Fungible amount => if decide (id = RelayLocation) then Some amount else None
  | _, _ => None
  end.

Section Conversions.
Context (sibling_account : ParaId → AccountId32).

Definition LocationToAccountId : location_converter :=
  convert_tuple
    [ParentIsPreset; SiblingParachainConvertsVia sibling_account; AccountId32Aliases RelayNetwork].

Definition XcmOriginToTransactDispatchOrigin : ConvertOrigin (RuntimeOrigin AccountId32) :=
  convert_origin_tuple
    [SovereignSignedViaLocation LocationToAccountId; RelayChainAsNative; SiblingParachainAsNative;
     SignedAccountId32AsNative RelayNetwork; XcmPassthrough].

(** ** Who may execute *)

(** What the barrier lets through: a message passes exactly when no
    instruction of it is a reserve transfer to the relay chain, and its weight
    is covered by the credit, or the program buys at least its weight after
    putting assets in holding, or it comes from the relay chain, its executive,
    or parachain 2000 or 3000. *)
Theorem barrier_accepts origin max_weight message credit :
  (Barrier origin max_weight (message, credit)).2 = Ok tt ↔
  existsb to_relay message = false ∧
  (max_weight ≤ credit ∨ pays max_weight message ∨
   ParentOrParentsExecutivePlurality origin = true).
Proof.
  unfold Barrier, DenyThenTry, DenyReserveTransferToRelayChain.
  destruct (existsb to_relay message); cbn; [split; [done|by intros [? _]]|].
  unfold TakeWeightCredit. case_decide; cbn; [naive_solver|].
  assert (∀ s, (match AllowUnpaidExecutionFrom ParentOrParentsExecutivePlurality origin max_weight s with
                | (s, Ok _) => (s, Ok ())
                | (s, Err _) => (s, Err ())
                end).2 = Ok tt ↔ ParentOrParentsExecutivePlurality origin = true) as Hfree.
  { intros s. unfold AllowUnpaidExecutionFrom. by destruct (ParentOrParentsExecutivePlurality _). }
  assert (pays max_weight message ↔
          match message with
          | i :: rest => funds_holding i = true ∧ is_Some (buy_execution max_weight rest)
          | [] => False
          end) as Hpays.
  { unfold pays. split.
    - intros (i & n & fees & l & r & -> & Hi & Hl). split; [done|]. apply buy_execution_Some. eauto 10.
    - destruct message as [|i rest]; [done|]. intros [Hi (n & f & l & r & -> & Hl)%buy_execution_Some].
      exists i, n, f, l, r. done. }
  rewrite Hpays. destruct message as [|i rest]; cbn; [rewrite Hfree; naive_solver|].
  destruct (funds_holding i); cbn; [|rewrite Hfree; naive_solver].
  destruct (buy_execution max_weight rest) as [r|] eqn:E; cbn.
  - split; [|done]. intros _. split; [done|]. right. left. eauto.
  - rewrite Hfree. split; [naive_solver|]. intros [_ [?|[[_ [? ?]]|?]]]; [lia|done|done].
Qed.

(** The barrier rewards nobody: it changes nothing of a message but the
    limit of its purchase, which it sets to the weight of the message, and
    takes from the credit at most that weight, and only when it pays for it. *)
Theorem barrier_effects origin max_weight message credit message' credit' :
  0 ≤ max_weight →
  Barrier origin max_weight (message, credit) = ((message', credit'), Ok tt) →
  credit' ≤ credit ∧ (credit' = credit ∨ credit' = credit - max_weight ∧ 0 ≤ credit') ∧
  (message' = message ∨
   ∃ i n fees limit rest,
     message = i :: replicate n ClearOrigin ++ BuyExecution fees limit :: rest ∧
     message' = i :: replicate n ClearOrigin ++ BuyExecution fees (Limited max_weight) :: rest).
Proof.
  intros Hw. unfold Barrier, DenyThenTry, DenyReserveTransferToRelayChain.
  destruct (existsb to_relay message); cbn; [done|].
  unfold TakeWeightCredit. case_decide; cbn.
  { intros [= <- <-]. split; [lia|]. split; [right; lia|by left]. }
  unfold AllowUnpaidExecutionFrom. destruct message as [|i rest]; cbn.
  { destruct (ParentOrParentsExecutivePlurality origin); [|done]. intros [= <- <-]. split_and!; [lia|by left|by left]. }
  destruct (funds_holding i); cbn;
    [|destruct (ParentOrParentsExecutivePlurality origin); [|done]; intros [= <- <-]; split_and!; [lia|by left|by left]].
  destruct (buy_execution max_weight rest) as [r|] eqn:E; cbn.
  - intros [= <- <-]. split; [lia|]. split; [by left|]. right.
    destruct (proj1 (buy_execution_Some max_weight rest)) as (n & f & l & r' & -> & Hl); [by eexists|].
    rewrite buy_execution_shape in E by done. simplify_eq. eauto 10.
  - destruct (ParentOrParentsExecutivePlurality origin); [|done]. intros [= <- <-]. split_and!; [lia|by left|by left].
Qed.

(** ** Who a message acts as *)

(** C28. The origin of a [Transact] is authentic: no location and no kind give
    root; the origin of a sibling chain is given to that sibling's location
    only, under the native kind, and the relay chain's to the parent only. *)
Theorem transact_origin_authentic origin kind o :
  XcmOriginToTransactDispatchOrigin origin kind = Ok o →
  match o with
  | Root | NoOrigin => False
  | SiblingParachain id => kind = Native ∧ origin = sibling id
  | RelayOrigin => kind = Native ∧ origin = RelayLocation
  | XcmPalletOrigin l => kind = XcmKind ∧ l = origin
  | Signed a => kind = SovereignAccount ∧ LocationToAccountId origin = Some a ∨
                kind = Native ∧ ∃ n, origin = mkMultiLocation 0 (X1 (AccountId32J n a))
  end.
Proof.
  unfold XcmOriginToTransactDispatchOrigin, SovereignSignedViaLocation, RelayChainAsNative,
    SiblingParachainAsNative, SignedAccountId32AsNative, XcmPassthrough.
  generalize LocationToAccountId as convert. intros convert. cbn.
  destruct kind; cbn.
  - rewrite bool_decide_true by done. cbn.
    destruct (MultiLocation.contains_parents_only origin 1) eqn:E.
    { intros [= <-]. split; [done|]. unfold MultiLocation.contains_parents_only in E.
      destruct origin as [p []]; cbn in E; try done. by apply bool_decide_eq_true in E as ->. }
    destruct origin as [p i]. intros Ho.
    repeat (case_match; simplify_eq); eauto.
  - destruct (convert origin) as [a|]; [intros [= <-]; by left|]. by rewrite bool_decide_false.
  - by rewrite bool_decide_false.
  - rewrite bool_decide_false by done. cbn. by intros [= <-].
Qed.
End Conversions.

Lemma barrier_effects_witness :
  Barrier (sibling 7) 5 ([WithdrawAsset []; BuyExecution (mkMultiAsset (Abstract []) (Fungible 1)) Unlimited], 0)
  = (([WithdrawAsset []; BuyExecution (mkMultiAsset (Abstract []) (Fungible 1)) (Limited 5)], 0), Ok tt) ∧
  0 ≤ 0.
Proof.
  split; [reflexivity|].
  apply (barrier_effects (sibling 7) 5
    [WithdrawAsset []; BuyExecution (mkMultiAsset (Abstract []) (Fungible 1)) Unlimited] 0
    [WithdrawAsset []; BuyExecution (mkMultiAsset (Abstract []) (Fungible 1)) (Limited 5)] 0);
    [lia|reflexivity].
Defined.

Lemma transact_origin_authentic_witness :
  XcmOriginToTransactDispatchOrigin (λ _, parent_account) (sibling 2000) Native
  = Ok (SiblingParachain 2000) ∧ Native = Native ∧ sibling 2000 = sibling 2000.
Proof.
  split; [reflexivity|].
  apply (transact_origin_authentic (λ _, parent_account) (sibling 2000) Native
           (SiblingParachain 2000)).
  reflexivity.
Defined.
End XcmConfig.
