(* ===== verification/SimRenault.v ===== *)
(** * The Renault pallet

    [common-parachain-node/pallets/sim_renault/src/lib.rs]: the registry of
    factories and vehicles.  Root registers factories, a factory registers
    vehicles, a vehicle initialises itself.  [State] holds the three storage
    maps and the events; each dispatchable is the whole body of the call. *)

From S2P Require Import Prelude.
From S2P Require Import XcmTypes.
From S2P Require Import Frame.

Module SimRenault.
Section Pallet.
Context {A O : Type} `{Countable A} `{!FrameOrigin O A}.

Inductive Event :=
| FactoryStored (factory_id : A)
| VehicleStored (vehicle_id factory_id : A)
| VehicleInitialized (vehicle_id : A).

Inductive Error :=
| FactoryAlreadyStored
| UnknownFactory
| UnknownVehicle
| VehicleAlreadyStored
| VehicleNotMatchingOrigin.

Record State := mkState {
  Factories : gmap A BlockNumber;
  Vehicles : gmap A (A * BlockNumber);
  VehiclesStatus : gmap A bool;
  events : list Event;
}.

Definition empty_state : State := mkState ∅ ∅ ∅ [].

Definition set_Factories f (s : State) : State :=
  mkState (f (Factories s)) (Vehicles s) (VehiclesStatus s) (events s).
Definition set_Vehicles f (s : State) : State :=
  mkState (Factories s) (f (Vehicles s)) (VehiclesStatus s) (events s).
Definition set_VehiclesStatus f (s : State) : State :=
  mkState (Factories s) (Vehicles s) (f (VehiclesStatus s)) (events s).
Definition deposit_event (e : Event) : Dispatch State Error :=
  modify (λ s, mkState (Factories s) (Vehicles s) (VehiclesStatus s) (events s ++ [e])).

Definition create_factory (now : BlockNumber) (origin : O) (factory_id : A) :
    Dispatch State Error :=
  _ ← or_bad_origin (ensure_root origin);
  s ← get;
  ensure (negb (contains_key factory_id (Factories s))) (Module FactoryAlreadyStored) ;;
  modify (set_Factories (insert factory_id now)) ;;
  deposit_event (FactoryStored factory_id).

Definition create_vehicle (now : BlockNumber) (origin : O) (vehicle_id : A) :
    Dispatch State Error :=
  who ← or_bad_origin (ensure_signed origin);
  s ← get;
  ensure (contains_key who (Factories s)) (Module UnknownFactory) ;;
  ensure (negb (contains_key vehicle_id (Vehicles s))) (Module VehicleAlreadyStored) ;;
  modify (set_Vehicles (insert vehicle_id (who, now))) ;;
  deposit_event (VehicleStored vehicle_id who).

Definition init_vehicle (origin : O) (vehicle_id : A) : Dispatch State Error :=
  who ← or_bad_origin (ensure_signed origin);
  s ← get;
  ensure (contains_key who (Vehicles s)) (Module UnknownVehicle) ;;
  ensure (bool_decide (who = vehicle_id)) (Module VehicleNotMatchingOrigin) ;;
  modify (set_VehiclesStatus (insert vehicle_id true)) ;;
  deposit_event (VehicleInitialized vehicle_id).

Definition is_vehicle (vehicle_id : A) (s : State) : bool :=
  let status := default false (VehiclesStatus s !! vehicle_id) in
  if status then true else false.

(** [GenesisConfig::build] *)
Definition genesis_build (now : BlockNumber) (init_factory_and_vehicle : option A) : State :=
  match init_factory_and_vehicle with
  | Some i =>
      set_VehiclesStatus (insert i true)
        (set_Vehicles (insert i (i, now)) (set_Factories (insert i now) empty_state))
  | None => empty_state
  end.

(** The [Call] enum of the pallet, and its dispatch. *)
Inductive Call :=
| create_factory_call (factory_id : A)
| create_vehicle_call (vehicle_id : A)
| init_vehicle_call (vehicle_id : A).

Definition dispatch (now : BlockNumber) (origin : O) (c : Call) : Dispatch State Error :=
  match c with
  | create_factory_call f => create_factory now origin f
  | create_vehicle_call v => create_vehicle now origin v
  | init_vehicle_call v => init_vehicle origin v
  end.

(** ** The registry *)

(** Every vehicle was registered by a known factory, and every vehicle with a
    status is a registered, initialised vehicle. *)
Record registry_ok (s : State) : Prop := {
  vehicle_factory v f n : Vehicles s !! v = Some (f, n) → is_Some (Factories s !! f);
  status_vehicle v b : VehiclesStatus s !! v = Some b → b = true ∧ is_Some (Vehicles s !! v);
}.

(** States the pallet reaches from genesis by calls with any origin at any
    block, under either storage policy. *)
Inductive reachable : State → Prop :=
| reachable_genesis now init : reachable (genesis_build now init)
| reachable_call s p now origin c :
    reachable s → reachable (run p (dispatch now origin c) s).1.

Lemma genesis_registry_ok now init : registry_ok (genesis_build now init).
Proof.
  destruct init as [i|]; split; cbn; intros *.
  - intros Hv. apply lookup_insert_Some in Hv as [[<- ?]|[_ Hv]]; [|set_solver].
    simplify_eq. by rewrite lookup_insert_eq.
  - intros Hv. apply lookup_insert_Some in Hv as [[<- ?]|[_ Hv]]; [|set_solver].
    rewrite lookup_insert_eq. naive_solver.
  - set_solver.
  - set_solver.
Qed.

Lemma create_factory_ok now f s es : registry_ok s →
  registry_ok (mkState (<[f := now]> (Factories s)) (Vehicles s) (VehiclesStatus s) es).
Proof.
  intros [Hf Hs]. split; cbn; [|done]. intros v f' n Hv.
  apply Hf in Hv. rewrite lookup_insert_is_Some'. by right.
Qed.

Lemma create_vehicle_ok now f v s es : registry_ok s → is_Some (Factories s !! f) →
  registry_ok (mkState (Factories s) (<[v := (f, now)]> (Vehicles s)) (VehiclesStatus s) es).
Proof.
  intros [Hf Hs] Hk. split; cbn.
  - intros v' f' n [[<- ?]|[_ Hv]]%lookup_insert_Some; [by simplify_eq|by eapply Hf].
  - intros v' b Hb. destruct (Hs v' b Hb) as [-> Hv]. split; [done|].
    rewrite lookup_insert_is_Some'. by right.
Qed.

Lemma init_vehicle_ok v s es : registry_ok s → is_Some (Vehicles s !! v) →
  registry_ok (mkState (Factories s) (Vehicles s) (<[v := true]> (VehiclesStatus s)) es).
Proof.
  intros [Hf Hs] Hk. split; cbn; [done|].
  intros v' b [[<- ?]|[_ Hv]]%lookup_insert_Some; [by subst|by eapply Hs].
Qed.

#[local] Hint Resolve create_factory_ok create_vehicle_ok init_vehicle_ok : core.

Lemma dispatch_registry_ok now origin c s :
  registry_ok s → registry_ok (dispatch now origin c s).1.
Proof.
  intros Hs. destruct c; cbn;
    unfold create_factory, create_vehicle, init_vehicle; dispatch_cases; eauto.
Qed.

(** In every state the pallet reaches from genesis, through any sequence
    of calls by any origins, the factory of every vehicle is a registered
    factory, and every vehicle that has a status is a registered vehicle
    whose status is "initialised". *)
Theorem reachable_registry_ok s : reachable s → registry_ok s.
Proof.
  induction 1 as [now init|s p now origin c _ IH]; [apply genesis_registry_ok|].
  apply run_preserves; [done|by apply dispatch_registry_ok].
Qed.

(** Who may write what, and that nothing written is ever changed. *)
Record authorised (origin : O) (s s' : State) : Prop := {
  auth_factories_kept f n : Factories s !! f = Some n → Factories s' !! f = Some n;
  auth_factories_new f : Factories s !! f = None → is_Some (Factories s' !! f) →
    ensure_root origin = Some tt;
  auth_vehicles_kept v x : Vehicles s !! v = Some x → Vehicles s' !! v = Some x;
  auth_vehicles_new v f n : Vehicles s !! v = None → Vehicles s' !! v = Some (f, n) →
    ensure_signed origin = Some f ∧ is_Some (Factories s !! f);
  auth_status_kept v : is_vehicle v s = true → is_vehicle v s' = true;
  auth_status_new v : is_vehicle v s = false → is_vehicle v s' = true →
    ensure_signed origin = Some v ∧ is_Some (Vehicles s !! v);
}.

#[local] Ltac auth_solver :=
  try done; unfold is_Some, is_vehicle in *; repeat case_bool_decide; cbn in *;
  destruct_and?; deex; simplify_eq;
  try congruence; eauto.

Lemma authorised_refl origin s : authorised origin s s.
Proof. split; intros; auth_solver. Qed.

Lemma is_vehicle_spec v s : is_vehicle v s = true ↔ VehiclesStatus s !! v = Some true.
Proof.
  unfold is_vehicle. destruct (VehiclesStatus s !! v) as [[]|]; naive_solver.
Qed.

Lemma is_vehicle_insert v w s es :
  is_vehicle w (mkState (Factories s) (Vehicles s) (<[v := true]> (VehiclesStatus s)) es) =
  bool_decide (v = w) || is_vehicle w s.
Proof.
  unfold is_vehicle. cbn. rewrite lookup_insert. by case_decide; case_bool_decide.
Qed.

Lemma create_factory_authorised now origin f s :
  authorised origin s (create_factory now origin f s).1.
Proof.
  unfold create_factory; dispatch_cases; try apply authorised_refl.
  destruct a. split; cbn; intros *; rewrite ?lookup_insert;
    try case_decide; intros; auth_solver.
Qed.

Lemma create_vehicle_authorised now origin v s :
  authorised origin s (create_vehicle now origin v s).1.
Proof.
  unfold create_vehicle; dispatch_cases; try apply authorised_refl.
  split; cbn; intros *; rewrite ?lookup_insert;
    try case_decide; intros; auth_solver.
Qed.

Lemma init_vehicle_authorised origin v s :
  authorised origin s (init_vehicle origin v s).1.
Proof.
  unfold init_vehicle; dispatch_cases; try apply authorised_refl.
  split; cbn; intros *; rewrite ?is_vehicle_insert;
    intros; auth_solver.
Qed.

(** A call by any origin under any storage policy: no factory, vehicle or
    initialised status that is already stored changes or disappears; a new
    factory needs Root; a new vehicle carries the signer of the call, which
    is a registered factory; a vehicle becomes initialised only by a call it
    signed itself, and only if it is registered. *)
Theorem dispatch_authorised p now origin c s :
  authorised origin s (run p (dispatch now origin c) s).1.
Proof.
  apply run_preserves; [apply authorised_refl|].
  destruct c; cbn; [apply create_factory_authorised | apply create_vehicle_authorised |
    apply init_vehicle_authorised].
Qed.

End Pallet.
Arguments State A {_ _}.
Arguments Event : clear implicits.
Arguments Call : clear implicits.

(** A factory set at genesis registers a vehicle, which initialises itself. *)
Definition example_state : State Z :=
  (run Plain (dispatch 2 (Signed 9) (init_vehicle_call 9))
     (run Plain (dispatch 1 (Signed 7) (create_vehicle_call 9))
        (genesis_build 0 (Some 7))).1).1.

Lemma reachable_registry_ok_witness :
  registry_ok example_state ∧ Vehicles example_state !! 9 = Some (7, 1) ∧
  is_vehicle 9 example_state = true.
Proof.
  split; [|vm_compute; split; reflexivity].
  apply (reachable_registry_ok (O := RuntimeOrigin Z)).
  apply reachable_call, reachable_call, reachable_genesis.
Defined.
End SimRenault.
