(* ===== verification/SimInsurance.v ===== *)
(** * The insurance pallet

    [common-parachain-node/pallets/sim_insurance/src/lib.rs]: drivers subscribe
    to an insurance plan with a profile.  A new subscription by the same driver
    replaces the previous one. *)

From S2P Require Import Prelude.
From S2P Require Import XcmTypes.
From S2P Require Import Frame.

Module SimInsurance.

Inductive ContractPlan := Premium | Standard | Minimal.

(** [name] and [licence_code] are byte vectors, [age] a [u8], the contract
    bounds [i64]. *)
Record DriverProfile (A : Type) := mkDriverProfile {
  name : list byte;
  age : Z;
  licence_code : list byte;
  contract_start : Z;
  contract_end : Z;
  contract_plan : ContractPlan;
  vehicle_id : A;
}.
Arguments mkDriverProfile {_} _ _ _ _ _ _ _.
Arguments vehicle_id {_} _.

Section Pallet.
Context {A O : Type} `{Countable A} `{!FrameOrigin O A}.

Inductive Event :=
| NewSignUp (who : A) (subscription : DriverProfile A * BlockNumber).

(** The pallet declares no error. *)
Inductive Error :=.

Record State := mkState {
  Subscriptions : gmap A (DriverProfile A * BlockNumber);
  events : list Event;
}.

Definition empty_state : State := mkState ∅ [].

Definition sign_up (now : BlockNumber) (origin : O) (driver_profile : DriverProfile A) :
    Dispatch State Error :=
  who ← or_bad_origin (ensure_signed origin);
  modify (λ s, mkState (<[who := (driver_profile, now)]> (Subscriptions s)) (events s)) ;;
  modify (λ s, mkState (Subscriptions s) (events s ++ [NewSignUp who (driver_profile, now)])).

Definition is_driver (driver_id : A) (s : State) : bool :=
  let status := contains_key driver_id (Subscriptions s) in
  if status then true else false.

(** The profile of the driver set at genesis. *)
Definition genesis_profile (init_driver : A) : DriverProfile A :=
  mkDriverProfile
    (byte_of_Z <$> [76; 117; 99; 32; 71; 101; 114; 114; 105; 116; 115]) (* "Luc Gerrits" *)
    26
    (byte_of_Z <$> [65; 66; 32; 49; 50; 51; 32; 67; 68]) (* "AB 123 CD" *)
    2022 2025 Standard init_driver.

Definition genesis_build (now : BlockNumber) (init_driver : option A) : State :=
  match init_driver with
  | Some d => mkState {[ d := (genesis_profile d, now) ]} []
  | None => empty_state
  end.

(** ** The subscription register as a function of the history *)

(** A history of calls: block, origin, profile. *)
Abbreviation history := (list (BlockNumber * O * DriverProfile A)).

Definition run_history (p : StoragePolicy) (s : State) (h : history) : State :=
  fold_left (λ s '(now, o, d), (run p (sign_up now o d) s).1) h s.

(** What the register promises: the latest call a driver signed decides. *)
Definition latest (d : A) (h : history) : option (DriverProfile A * BlockNumber) :=
  fold_left (λ acc '(now, o, p),
    if decide (ensure_signed o = Some d) then Some (p, now) else acc) h None.

Lemma sign_up_lookup p now o prof s d :
  Subscriptions (run p (sign_up now o prof) s).1 !! d =
    if decide (ensure_signed o = Some d) then Some (prof, now) else Subscriptions s !! d.
Proof.
  unfold run, sign_up. unfold_dispatch.
  destruct (ensure_signed o) as [who|]; cbn.
  - rewrite lookup_insert. repeat case_decide; naive_solver.
  - case_decide; [done|]. by destruct p.
Qed.

Lemma fold_latest_default d (h : history) acc :
  fold_left (λ acc '(now, o, p),
    if decide (ensure_signed o = Some d) then Some (p, now) else acc) h acc =
  match latest d h with Some x => Some x | None => acc end.
Proof.
  unfold latest. revert acc.
  induction h as [|[[now o] prof] h IH] using rev_ind; intros acc; [done|].
  rewrite !fold_left_app; cbn. case_decide; [done|]. apply IH.
Qed.

(** After any sequence of calls by any origins, the register holds for
    each driver exactly the profile and block of the last [sign_up] the
    driver signed, or what it held at the start when there is none; so
    [is_driver] answers whether the driver ever subscribed. *)
Theorem subscriptions_are_latest p s h d :
  let s' := run_history p s h in
  Subscriptions s' !! d =
    match latest d h with Some x => Some x | None => Subscriptions s !! d end
  ∧ is_driver d s' = is_driver d s || bool_decide (is_Some (latest d h)).
Proof.
  intros s'. assert (Subscriptions s' !! d =
    match latest d h with Some x => Some x | None => Subscriptions s !! d end) as Hd.
  { subst s'. rewrite <-fold_latest_default. unfold run_history. revert s.
    induction h as [|[[now o] prof] h IH]; intros s; cbn; [done|].
    by rewrite IH, sign_up_lookup. }
  split; [done|]. unfold is_driver, contains_key. rewrite Hd.
  destruct (latest d h); repeat case_bool_decide; naive_solver.
Qed.
End Pallet.
End SimInsurance.
