(* ===== verification/Sha256.v ===== *)
(** * Composite keys

    Both accident pallets file their entries under a SHA-256 digest of the
    concatenation of an account and a counter ([create_composite_key] in
    [sim_renault_accident] and [sim_insurance_accident], which have the same
    body).  The hash is that of the [sha2] crate: it is a parameter, and no
    theorem assumes it to be injective.  Where a collision would matter, the
    statement names the two entries that collide. *)

From S2P Require Import Prelude.
From S2P Require Import Codec.

Class Sha256 := sha256 : list byte → vec byte 32.

Section CompositeKey.
Context `{!Sha256}.

(** [parts.iter().fold(Vec::new(), |res, new| { res.extend(new); res })] *)
Definition concat_parts (parts : list (list byte)) : list byte :=
  fold_left (λ res new, res ++ new) parts [].

Definition create_composite_key (parts : list (list byte)) : vec byte 32 :=
  sha256 (concat_parts parts).

(** The key both pallets build from an account and a [u32] counter. *)
Definition accident_key {A} `{Codec A} (who : A) (count : Z) : vec byte 32 :=
  create_composite_key [encode who; u32_to_le_bytes count].

Lemma accident_key_eq {A} `{Codec A} (who : A) count :
  accident_key who count = sha256 (encode who ++ u32_to_le_bytes count).
Proof. done. Qed.

(** The hashed bytes determine the account and the counter, so two entries
    under one key are a collision of SHA-256. *)
Lemma accident_key_input_inj {A} `{Codec A} (v w : A) (n m : Z) :
  valid v → valid w → is_u32 n → is_u32 m →
  encode v ++ u32_to_le_bytes n = encode w ++ u32_to_le_bytes m → v = w ∧ n = m.
Proof.
  intros Hv Hw Hn Hm Heq. destruct (encode_app_inj _ _ _ _ Hv Hw Heq) as [-> Heq'].
  split; [done|]. pose proof (decode_u32_encode n [] Hn) as Hd.
  rewrite Heq', (decode_u32_encode m [] Hm) in Hd. naive_solver.
Qed.
End CompositeKey.
Arguments create_composite_key : simpl never.
Arguments accident_key : simpl never.

(** A computable stand-in for examples: the first 32 bytes, padded.  It has no
    collision between inputs of one length up to 32. *)
Definition pad32 : Sha256 := λ l, fun_to_vec (λ i : fin 32, default Byte.x00 (l !! fin_to_nat i)).

Lemma pad32_inj (l k : list byte) :
  length l = length k → (length l ≤ 32)%nat → pad32 l = pad32 k → l = k.
Proof.
  intros Hlen Hle Heq. apply list_eq. intros i.
  destruct (decide (i < length l)%nat) as [Hi|Hi].
  - assert (i < 32)%nat as Hi32 by lia.
    assert (pad32 l !!! nat_to_fin Hi32 = pad32 k !!! nat_to_fin Hi32) as He by (by rewrite Heq).
    unfold pad32 in He. rewrite !lookup_fun_to_vec, !fin_to_nat_to_fin in He.
    destruct (lookup_lt_is_Some_2 l i Hi) as [x Hx].
    destruct (lookup_lt_is_Some_2 k i) as [y Hy]; [lia|].
    rewrite Hx, Hy in *. cbn in He. by subst.
  - rewrite !lookup_ge_None_2 by lia. done.
Qed.

Lemma pad32_accident_key (v w n m : Z) :
  is_u32 v → is_u32 w → is_u32 n → is_u32 m →
  @accident_key pad32 Z u32_codec v n = @accident_key pad32 Z u32_codec w m → v = w ∧ n = m.
Proof.
  intros Hv Hw Hn Hm Heq. apply (accident_key_input_inj (A := Z)); try done.
  change (sha256 (Sha256 := pad32) (encode v ++ u32_to_le_bytes n) =
          sha256 (Sha256 := pad32) (encode w ++ u32_to_le_bytes m)) in Heq.
  assert (∀ a b : Z, length (encode a ++ u32_to_le_bytes b) = 8%nat) as Hl.
  { intros a b. rewrite length_app. unfold u32_to_le_bytes. by rewrite length_le_bytes. }
  apply pad32_inj in Heq; rewrite ?Hl; [done|done|lia].
Qed.
