(* ===== verification/BTree.v ===== *)
(** * Ordered maps and the order of asset identifiers

    [BTreeMap] and [BTreeSet] as lists sorted by key, which is the order of
    their iterators, and the order [derive(Ord)] gives to the identifiers of
    assets: constructors in the order of their declaration, then fields from
    left to right.  Every value has a key, a list of integers, such that the
    derived order is the lexicographic order of the keys. *)

From S2P Require Import Prelude.
From S2P Require Import XcmTypes.
From S2P Require Import MultiLocations.

Class TotalCmp (K : Type) := {
  cmp : K → K → comparison;
  cmp_eq a b : cmp a b = Eq ↔ a = b;
  cmp_opp a b : cmp b a = CompOpp (cmp a b);
  cmp_trans a b c : cmp a b = Lt → cmp b c = Lt → cmp a c = Lt;
}.
Arguments cmp : simpl never.

(** ** Lexicographic order *)

Fixpoint lex (a b : list Z) : comparison :=
  match a, b with
  | [], [] => Eq
  | [], _ :: _ => Lt
  | _ :: _, [] => Gt
  | x :: a, y :: b => match (x ?= y)%Z with Eq => lex a b | c => c end
  end.

Lemma lex_eq a b : lex a b = Eq ↔ a = b.
Proof.
  revert b. induction a as [|x a IH]; intros [|y b]; cbn; try done.
  destruct (Z.compare_spec x y) as [->|?|?]; [rewrite IH; naive_solver|naive_solver lia|naive_solver lia].
Qed.

Lemma lex_opp a b : lex b a = CompOpp (lex a b).
Proof.
  revert b. induction a as [|x a IH]; intros [|y b]; cbn; try done.
  rewrite (Z.compare_antisym x y). destruct (x ?= y)%Z; cbn; [apply IH|done|done].
Qed.

Lemma lex_trans a b c : lex a b = Lt → lex b c = Lt → lex a c = Lt.
Proof.
  revert b c. induction a as [|x a IH]; intros [|y b] [|z c]; cbn; try done.
  destruct (Z.compare_spec x y) as [->|?|?]; [| |done].
  - destruct (y ?= z)%Z; [apply IH|done|done].
  - intros _. destruct (Z.compare_spec y z) as [->|?|?]; [| |done]; intros _;
      (destruct (Z.compare_spec x z); [lia|done|lia]).
Qed.

(** ** Keys *)

(** No key is a proper prefix of another one, so keys of fields concatenate. *)
Class OrdKey (A : Type) := {
  key : A → list Z;
  key_app_inj a b r s : key a ++ r = key b ++ s → a = b ∧ r = s;
}.
Arguments key : simpl never.

Lemma lex_app a b r s :
  (∀ t, b ≠ a ++ t) → (∀ t, a ≠ b ++ t) → lex (a ++ r) (b ++ s) = lex a b.
Proof.
  revert b. induction a as [|x a IH]; intros [|y b] Ha Hb; cbn.
  - by destruct (Ha []).
  - by destruct (Ha (y :: b)).
  - by destruct (Hb (x :: a)).
  - destruct (Z.compare_spec x y) as [->|?|?]; [|done..]. apply IH.
    + intros t ->. by apply (Ha t).
    + intros t ->. by apply (Hb t).
Qed.

(** The order of a concatenation is decided by its first parts, unless they
    are equal. *)
Lemma lex_key_app `{OrdKey A} (a b : A) r s :
  a ≠ b → lex (key a ++ r) (key b ++ s) = lex (key a) (key b).
Proof.
  intros Hne. apply lex_app.
  - intros t Heq. apply Hne. apply (key_app_inj a b t []). by rewrite app_nil_r.
  - intros t Heq. apply Hne. apply (key_app_inj a b [] t). by rewrite app_nil_r.
Qed.

#[export] Program Instance ord_key_cmp `{OrdKey A} : TotalCmp A := {| cmp a b := lex (key a) (key b) |}.
Next Obligation.
  intros A HA a b. rewrite lex_eq. split; [|by intros ->]. intros Hab.
  apply (key_app_inj a b [] []). by rewrite !app_nil_r.
Qed.
Next Obligation. intros A HA a b. apply lex_opp. Qed.
Next Obligation. intros A HA a b c. apply lex_trans. Qed.

#[export] Program Instance pair_key `{OrdKey A, OrdKey B} : OrdKey (A * B) :=
  {| key p := key p.1 ++ key p.2 |}.
Next Obligation.
  intros A HA B HB [a b] [a' b'] r s. cbn. rewrite <-!app_assoc.
  intros [-> [-> ->]%key_app_inj]%key_app_inj. done.
Qed.

(** A byte vector: its bytes, then an end mark below every byte. *)
Definition bytes_key (l : list byte) : list Z := map Z_of_byte l ++ [-1].

Lemma bytes_key_app_inj a b r s : bytes_key a ++ r = bytes_key b ++ s → a = b ∧ r = s.
Proof.
  unfold bytes_key. revert b. induction a as [|x a IH]; intros [|y b]; cbn; intros Heq;
    [by injection Heq as ->|injection Heq as Hx Hr..].
  - pose proof (Z_of_byte_range y). lia.
  - pose proof (Z_of_byte_range x). lia.
  - apply IH in Hr as [-> ->]. split; [|done]. f_equal.
    by rewrite <-(byte_of_Z_of_byte x), <-(byte_of_Z_of_byte y), Hx.
Qed.

Lemma array_key_app_inj {n} (a b : vec byte n) r s :
  bytes_key (vec_to_list a) ++ r = bytes_key (vec_to_list b) ++ s → a = b ∧ r = s.
Proof. intros [Hab ->]%bytes_key_app_inj. split; [|done]. by apply vec_to_list_inj2. Qed.

Definition network_key (n : NetworkId) : list Z :=
  match n with
  | NetAny => [0]
  | NetNamed name => 1 :: bytes_key name
  | NetPolkadot => [2]
  | NetKusama => [3]
  end.
Definition body_id_key (b : BodyId) : list Z :=
  match b with
  | BodyUnit => [0]
  | BodyNamed name => 1 :: bytes_key name
  | BodyIndex i => [2; i]
  | BodyExecutive => [3]
  | BodyTechnical => [4]
  | BodyLegislative => [5]
  | BodyJudicial => [6]
  end.
Definition body_part_key (b : BodyPart) : list Z :=
  match b with
  | Voice => [0]
  | Members n => [1; n]
  | Fraction n d => [2; n; d]
  | AtLeastProportion n d => [3; n; d]
  | MoreThanProportion n d => [4; n; d]
  end.

#[export] Program Instance NetworkId_key : OrdKey NetworkId := {| key := network_key |}.
Next Obligation.
  intros [] [] r s; cbn; intros Heq; simplify_eq; try done.
  by apply bytes_key_app_inj in Heq as [-> ->].
Qed.
#[export] Program Instance BodyId_key : OrdKey BodyId := {| key := body_id_key |}.
Next Obligation.
  intros [] [] r s; cbn; intros Heq; simplify_eq; try done.
  by apply bytes_key_app_inj in Heq as [-> ->].
Qed.
#[export] Program Instance BodyPart_key : OrdKey BodyPart := {| key := body_part_key |}.
Next Obligation. intros [] [] r s; cbn; intros Heq; simplify_eq; done. Qed.

Definition junction_key (j : Junction) : list Z :=
  match j with
  | Parachain id => [0; id]
  | AccountId32J network id => 1 :: key network ++ bytes_key (vec_to_list id)
  | AccountIndex64 network index => 2 :: key network ++ [index]
  | AccountKey20 network k => 3 :: key network ++ bytes_key (vec_to_list k)
  | PalletInstance i => [4; i]
  | GeneralIndex i => [5; i]
  | GeneralKey k => 6 :: bytes_key k
  | OnlyChild => [7]
  | Plurality id part => 8 :: key id ++ key part
  end.

#[export] Program Instance Junction_key : OrdKey Junction := {| key := junction_key |}.
Next Obligation.
  intros a b r s. destruct a, b; cbn [junction_key app]; rewrite <-?app_assoc; intros Heq; simplify_eq; try done.
  - apply key_app_inj in Heq as [-> Heq]. by apply array_key_app_inj in Heq as [-> ->].
  - apply key_app_inj in Heq as [-> Heq]. by simplify_eq.
  - apply key_app_inj in Heq as [-> Heq]. by apply array_key_app_inj in Heq as [-> ->].
  - by apply bytes_key_app_inj in Heq as [-> ->].
  - apply key_app_inj in Heq as [-> Heq]. by apply key_app_inj in Heq as [-> ->].
Qed.

(** [Here] comes first, then [X1] to [X8]. *)
Definition junctions_key (j : Junctions) : list Z :=
  Z.of_nat (Junctions.len j) :: concat (map key (Junctions.to_list j)).

Lemma concat_keys_inj `{OrdKey A} (a b : list A) r s :
  length a = length b → concat (map key a) ++ r = concat (map key b) ++ s → a = b ∧ r = s.
Proof.
  revert b. induction a as [|x a IH]; intros [|y b]; cbn; try done. intros [= Hlen].
  rewrite <-!app_assoc. intros [-> Heq]%key_app_inj. by apply IH in Heq as [-> ->].
Qed.

#[export] Program Instance Junctions_key : OrdKey Junctions := {| key := junctions_key |}.
Next Obligation.
  intros a b r s. unfold junctions_key. cbn [app]. rewrite !Junctions.len_to_list.
  intros [= Hlen Heq]. destruct (concat_keys_inj (Junctions.to_list a) (Junctions.to_list b) r s) as [Hab ->];
    [lia|exact Heq|].
  by apply Junctions.to_list_inj in Hab as ->.
Qed.

#[export] Program Instance MultiLocation_key : OrdKey MultiLocation :=
  {| key l := parents l :: key (interior l) |}.
Next Obligation.
  intros [p i] [q j] r s Heq. change (p :: (key i ++ r) = q :: (key j ++ s)) in Heq.
  assert (key i ++ r = key j ++ s) as [-> ->]%key_app_inj by congruence.
  split; [|done]. f_equal. by injection Heq.
Qed.

#[export] Program Instance AssetId_key : OrdKey AssetId :=
  {| key a := match a with
              | Concrete l => 0 :: key l
              | Abstract name => 1 :: bytes_key name
              end |}.
Next Obligation.
  intros [l|n] [k|m] r s Heq; try done.
  - change (0 :: (key l ++ r) = 0 :: (key k ++ s)) in Heq.
    by assert (key l ++ r = key k ++ s) as [-> ->]%key_app_inj by congruence.
  - change (1 :: (bytes_key n ++ r) = 1 :: (bytes_key m ++ s)) in Heq.
    by assert (bytes_key n ++ r = bytes_key m ++ s) as [-> ->]%bytes_key_app_inj by congruence.
Qed.

#[export] Program Instance AssetInstance_key : OrdKey AssetInstance :=
  {| key i := match i with
              | UndefinedInstance => [0]
              | IndexInstance n => [1; n]
              | Array4 a => 2 :: bytes_key (vec_to_list a)
              | Array8 a => 3 :: bytes_key (vec_to_list a)
              | Array16 a => 4 :: bytes_key (vec_to_list a)
              | Array32 a => 5 :: bytes_key (vec_to_list a)
              | Blob l => 6 :: bytes_key l
              end |}.
Next Obligation.
  intros a b r s. destruct a, b; cbn [app]; intros Heq; simplify_eq; try done.
  1-4: by apply array_key_app_inj in Heq as [-> ->].
  by apply bytes_key_app_inj in Heq as [-> ->].
Qed.

(** ** Maps *)

Module BTreeMap.
Section Map.
Context {K V : Type} `{!TotalCmp K}.

Definition t : Type := list (K * V).

Fixpoint get (k : K) (m : t) : option V :=
  match m with
  | [] => None
  | (k', v) :: m => match cmp k k' with Eq => Some v | _ => get k m end
  end.

Fixpoint insert (k : K) (v : V) (m : t) : t :=
  match m with
  | [] => [(k, v)]
  | (k', v') :: m' =>
      match cmp k k' with
      | Lt => (k, v) :: m
      | Eq => (k, v) :: m'
      | Gt => (k', v') :: insert k v m'
      end
  end.

Fixpoint remove (k : K) (m : t) : t :=
  match m with
  | [] => []
  | (k', v') :: m => match cmp k k' with Eq => m | _ => (k', v') :: remove k m end
  end.

(** [a.append(&mut b)]: the entries of [b] replace those of [a]. *)
Definition append (a b : t) : t := fold_left (λ m '(k, v), insert k v m) b a.

(** [iter.collect()] *)
Definition collect (l : list (K * V)) : t := append [] l.

Definition below (k : K) (m : t) : Prop := Forall (λ e, cmp k e.1 = Lt) m.

(** The invariant of the representation. *)
Fixpoint sorted (m : t) : Prop :=
  match m with
  | [] => True
  | (k, _) :: m => below k m ∧ sorted m
  end.

Lemma cmp_refl (k : K) : cmp k k = Eq.
Proof. by apply cmp_eq. Qed.

Lemma cmp_gt (a b : K) : cmp a b = Gt ↔ cmp b a = Lt.
Proof. rewrite (cmp_opp a b). destruct (cmp a b); done. Qed.

Lemma below_trans a b m : cmp a b = Lt → below b m → below a m.
Proof. intros Hab Hb. eapply Forall_impl; [exact Hb|]. intros e. by apply cmp_trans. Qed.

Lemma below_get k m : below k m → get k m = None.
Proof.
  induction m as [|[k' v] m IH]; intros Hb; [done|]. cbn.
  apply Forall_cons in Hb as [Hk Hb]. cbn in Hk. rewrite Hk. by apply IH.
Qed.

Lemma get_insert k k' v m :
  sorted m → get k (insert k' v m) = match cmp k k' with Eq => Some v | _ => get k m end.
Proof.
  induction m as [|[j w] m IH]; cbn; intros Hs; [done|]. destruct Hs as [Hb Hs].
  destruct (cmp k' j) eqn:E; cbn.
  - apply cmp_eq in E as ->. by destruct (cmp k j).
  - done.
  - destruct (cmp k j) eqn:Ej; [|by apply IH..].
    apply cmp_eq in Ej as ->. apply cmp_gt in E. by rewrite E.
Qed.

Lemma below_insert k k' v m : cmp k k' = Lt → below k m → below k (insert k' v m).
Proof.
  intros Hlt. induction m as [|[j w] m IH]; intros Hb; cbn.
  - by repeat constructor.
  - apply Forall_cons in Hb as [Hj Hb].
    destruct (cmp k' j); repeat (constructor; try done). by apply IH.
Qed.

Lemma insert_sorted k v m : sorted m → sorted (insert k v m).
Proof.
  induction m as [|[j w] m IH]; cbn; intros Hs; [by repeat constructor|]. destruct Hs as [Hb Hs].
  destruct (cmp k j) eqn:E; cbn.
  - apply cmp_eq in E as ->. done.
  - split_and!; try done. constructor; [done|]. by eapply below_trans.
  - split; [|by apply IH]. apply below_insert; [by apply cmp_gt|done].
Qed.

Lemma below_remove k k' m : below k m → below k (remove k' m).
Proof.
  induction m as [|[j w] m IH]; intros Hb; cbn; [done|]. apply Forall_cons in Hb as [Hj Hb].
  destruct (cmp k' j); [done|constructor; [done|by apply IH]..].
Qed.

Lemma remove_sorted k m : sorted m → sorted (remove k m).
Proof.
  induction m as [|[j w] m IH]; cbn; intros Hs; [done|]. destruct Hs as [Hb Hs].
  destruct (cmp k j); cbn; try done; (split; [by apply below_remove|by apply IH]).
Qed.

Lemma get_remove k k' m :
  sorted m → get k (remove k' m) = match cmp k k' with Eq => None | _ => get k m end.
Proof.
  induction m as [|[j w] m IH]; cbn; intros Hs; [by destruct (cmp k k')|]. destruct Hs as [Hb Hs].
  destruct (cmp k' j) eqn:E; cbn.
  - apply cmp_eq in E as ->. destruct (cmp k j) eqn:Ej; [|done..].
    apply cmp_eq in Ej as ->. by apply below_get.
  - rewrite IH by done. destruct (cmp k j) eqn:Ej; [|done..].
    apply cmp_eq in Ej as ->. rewrite (cmp_opp k' j), E. done.
  - rewrite IH by done. destruct (cmp k j) eqn:Ej; [|done..].
    apply cmp_eq in Ej as ->. rewrite (cmp_opp k' j), E. done.
Qed.

Lemma append_sorted a b : sorted a → sorted (append a b).
Proof.
  unfold append. revert a. induction b as [|[k v] b IH]; intros a Ha; [done|].
  cbn. by apply IH, insert_sorted.
Qed.

Lemma get_append k a b :
  sorted a → sorted b → get k (append a b) = match get k b with Some v => Some v | None => get k a end.
Proof.
  unfold append. revert a. induction b as [|[j v] b IH]; intros a Ha Hb; [done|].
  cbn in *. destruct Hb as [Hj Hb]. rewrite IH by (try apply insert_sorted; done).
  rewrite get_insert by done. destruct (cmp k j) eqn:E; [|done..].
  apply cmp_eq in E as ->. by rewrite below_get.
Qed.

Lemma get_Some_elem k v m : get k m = Some v → (k, v) ∈ m.
Proof.
  induction m as [|[j w] m IH]; cbn; [done|]. destruct (cmp k j) eqn:E.
  - intros [= ->]. apply cmp_eq in E as ->. by apply elem_of_cons; left.
  - intros Hg. apply elem_of_cons. right. by apply IH.
  - intros Hg. apply elem_of_cons. right. by apply IH.
Qed.

Lemma elem_get k v m : sorted m → (k, v) ∈ m → get k m = Some v.
Proof.
  induction m as [|[j w] m IH]; cbn; [by intros _ ?%elem_of_nil|]. intros [Hb Hs].
  intros [[= -> ->]|Hin]%elem_of_cons; [by rewrite cmp_refl|].
  pose proof (proj1 (Forall_forall _ _) Hb _ Hin) as Hlt. cbn in Hlt.
  rewrite (cmp_opp j k), Hlt. by apply IH.
Qed.
End Map.
Arguments t : clear implicits.
End BTreeMap.
