(* ===== verification/MultiAssets.v ===== *)
(** * Lists of assets

    [xcm/src/v1/multiasset.rs]: the order of assets, building a canonical
    [MultiAssets] from a vector, checking a decoded one, and re-anchoring. *)

From S2P Require Import Prelude.
From S2P Require Import XcmTypes.
From S2P Require Import MultiLocations.
From S2P Require Import BTree.

Definition u128_max : Z := 2 ^ 128 - 1.
Definition u128_saturating_add (a b : Z) : Z := Z.min u128_max (a + b).

Module MultiAssets.

Definition is_fungible (a : MultiAsset) : bool :=
  match asset_fun a with Fungible _ => true | NonFungible _ => false end.
Definition is_non_fungible (a : MultiAsset) : bool := negb (is_fungible a).

(** [impl Ord for MultiAsset]: fungible assets come first, then the order of
    identifier and content. *)
Definition asset_key (a : MultiAsset) : list Z :=
  match asset_fun a with
  | Fungible amount => 0 :: key (asset_id a) ++ [amount]
  | NonFungible i => 1 :: key (asset_id a) ++ key i
  end.

#[export] Program Instance MultiAsset_key : OrdKey MultiAsset := {| key := asset_key |}.
Next Obligation.
  intros [i [n|x]] [j [m|y]] r s; unfold asset_key; cbn [asset_fun asset_id]; try discriminate.
  - change (0 :: (key i ++ [n]) ++ r = 0 :: (key j ++ [m]) ++ s →
      mkMultiAsset i (Fungible n) = mkMultiAsset j (Fungible m) ∧ r = s).
    rewrite <-!app_assoc. intros Heq.
    assert (key i ++ [n] ++ r = key j ++ [m] ++ s) as [-> Hr]%key_app_inj by congruence.
    cbn in Hr. by simplify_eq.
  - change (1 :: (key i ++ key x) ++ r = 1 :: (key j ++ key y) ++ s →
      mkMultiAsset i (NonFungible x) = mkMultiAsset j (NonFungible y) ∧ r = s).
    rewrite <-!app_assoc. intros Heq.
    assert (key i ++ key x ++ r = key j ++ key y ++ s) as [-> [-> ->]%key_app_inj]%key_app_inj
      by congruence. done.
Qed.

(** [Vec::sort]; equal assets are identical, so every sort gives this list. *)
Fixpoint insert_asset (a : MultiAsset) (l : list MultiAsset) : list MultiAsset :=
  match l with
  | [] => [a]
  | b :: l' => match cmp a b with Gt => b :: insert_asset a l' | _ => a :: l end
  end.
Definition sort (l : list MultiAsset) : list MultiAsset := foldr insert_asset [] l.

(** The closure of the fold of [from]: merge [b] into [a], or push [a]. *)
Definition merge_or_push (a b : MultiAsset) : option MultiAsset :=
  match asset_fun a, asset_fun b with
  | Fungible a_amount, Fungible b_amount =>
      if decide (asset_id a = asset_id b)
      then Some (mkMultiAsset (asset_id a) (Fungible (u128_saturating_add a_amount b_amount)))
      else None
  | NonFungible a_instance, NonFungible b_instance =>
      if decide (asset_id a = asset_id b ∧ a_instance = b_instance)
      then Some (mkMultiAsset (asset_id a) (NonFungible a_instance)) else None
  | _, _ => None
  end.

Fixpoint fold_merge (a : MultiAsset) (l : list MultiAsset) : list MultiAsset :=
  match l with
  | [] => [a]
  | b :: l =>
      match merge_or_push a b with
      | Some c => fold_merge c l
      | None => a :: fold_merge b l
      end
  end.

(** [impl From<Vec<MultiAsset>> for MultiAssets] *)
Definition from_vec (assets : list MultiAsset) : MultiAssets :=
  match sort assets with
  | [] => []
  | first :: rest => fold_merge first rest
  end.

(** The condition between neighbours. *)
Definition in_order (a b : MultiAsset) : bool :=
  match cmp (asset_id a) (asset_id b) with
  | Lt => true
  | _ => match cmp a b with
         | Lt => is_non_fungible a || is_non_fungible b
         | _ => false
         end
  end.

Fixpoint all_in_order (a : MultiAsset) (l : list MultiAsset) : bool :=
  match l with
  | [] => true
  | b :: l => in_order a b && all_in_order b l
  end.

Definition from_sorted_and_deduplicated (r : list MultiAsset) : result unit MultiAssets :=
  match r with
  | [] => Ok []
  | a :: l => if all_in_order a l then Ok r else Err tt
  end.

(** [AssetId::reanchor]; [MultiLocation::reanchor] does not panic
    ([MultiLocation.prepend_with_spec]), so its panic is not told apart from an
    error. *)
Definition asset_id_reanchor (target ancestry : MultiLocation) (id : AssetId) :
    result unit AssetId :=
  match id with
  | Concrete l =>
      match MultiLocation.reanchor l target ancestry with
      | Some (Ok l) => Ok (Concrete l)
      | _ => Err tt
      end
  | Abstract _ => Ok id
  end.

(** [try_for_each]: the assets before a failing one are already changed, which
    no caller looks at. *)
Fixpoint reanchor (target ancestry : MultiLocation) (assets : MultiAssets) :
    result unit MultiAssets :=
  match assets with
  | [] => Ok []
  | a :: assets =>
      match asset_id_reanchor target ancestry (asset_id a) with
      | Err e => Err e
      | Ok id =>
          match reanchor target ancestry assets with
          | Err e => Err e
          | Ok assets => Ok (mkMultiAsset id (asset_fun a) :: assets)
          end
      end
  end.

Definition is_kind (f : Fungibility) (w : WildFungibility) : bool :=
  match f, w with
  | Fungible _, WildFungible | NonFungible _, WildNonFungible => true
  | _, _ => false
  end.

Definition asset_contains (self inner : MultiAsset) : bool :=
  if decide (asset_id self = asset_id inner) then
    match asset_fun self, asset_fun inner with
    | Fungible a, Fungible i => bool_decide (i ≤ a)
    | NonFungible a, NonFungible i => bool_decide (a = i)
    | _, _ => false
    end
  else false.

Definition wild_contains (self : WildMultiAsset) (inner : MultiAsset) : bool :=
  match self with
  | AllOf id fun_ => is_kind (asset_fun inner) fun_ && bool_decide (asset_id inner = id)
  | All => true
  end.

Definition filter_contains (self : MultiAssetFilter) (inner : MultiAsset) : bool :=
  match self with
  | Definite assets => existsb (λ a, asset_contains a inner) assets
  | Wild wild => wild_contains wild inner
  end.

(** ** A vector becomes canonical *)

Definition le (a b : MultiAsset) : Prop := cmp a b ≠ Gt.

Lemma le_trans a b c : le a b → le b c → le a c.
Proof.
  unfold le. destruct (cmp a b) eqn:Eab; [|intros _|done].
  - apply cmp_eq in Eab as ->. done.
  - destruct (cmp b c) eqn:Ebc; [|intros _|done].
    + apply cmp_eq in Ebc as ->. by rewrite Eab.
    + by rewrite (cmp_trans _ _ _ Eab Ebc).
Qed.

Lemma insert_asset_sorted a l : StronglySorted le l → StronglySorted le (insert_asset a l).
Proof.
  intros Hl. induction Hl as [|b l Hl IH Hb]; cbn; [by repeat constructor|].
  destruct (cmp a b) eqn:E.
  - constructor; [by constructor|]. constructor; [unfold le; by rewrite E|].
    eapply Forall_impl; [exact Hb|]. intros x Hx. eapply le_trans; [|exact Hx].
    unfold le. by rewrite E.
  - constructor; [by constructor|]. constructor; [unfold le; by rewrite E|].
    eapply Forall_impl; [exact Hb|]. intros x Hx. eapply le_trans; [|exact Hx].
    unfold le. by rewrite E.
  - constructor; [done|]. assert (le b a) as Hba.
    { unfold le. rewrite (cmp_opp a b), E. done. }
    clear IH. induction Hb as [|c l Hc Hb IH]; cbn; [by constructor|].
    apply StronglySorted_inv in Hl as [Hl _]. specialize (IH Hl).
    destruct (cmp a c); by repeat constructor.
Qed.

Lemma sort_sorted l : StronglySorted le (sort l).
Proof. induction l as [|a l IH]; cbn; [constructor|]. by apply insert_asset_sorted. Qed.

(** The same kind and identifier (and instance): what the fold merges. *)
Definition same_class (a b : MultiAsset) : Prop :=
  match asset_fun a, asset_fun b with
  | Fungible _, Fungible _ => asset_id a = asset_id b
  | NonFungible i, NonFungible j => asset_id a = asset_id b ∧ i = j
  | _, _ => False
  end.

Lemma cmp_fungible i j n m :
  i ≠ j → cmp (mkMultiAsset i (Fungible n)) (mkMultiAsset j (Fungible m)) = cmp i j.
Proof. intros Hne. exact (lex_key_app i j [n] [m] Hne). Qed.

Lemma merge_or_push_spec a b :
  match merge_or_push a b with
  | Some c => same_class c b
  | None => le a b → in_order a b = true
  end.
Proof.
  destruct a as [i [n|x]], b as [j [m|y]]; unfold merge_or_push, same_class; cbn.
  - case_decide; [done|]. unfold le, in_order. cbn. rewrite cmp_fungible by done.
    destruct (cmp i j) eqn:E; [by apply cmp_eq in E|done|done].
  - intros _. unfold in_order. cbn. by destruct (cmp i j).
  - unfold le. intros Hle. by destruct Hle.
  - case_decide as Heq; [done|]. unfold le, in_order. cbn. intros Hle.
    destruct (cmp i j); [|done|]; destruct (cmp (mkMultiAsset i _) _) eqn:E; try done;
      apply cmp_eq in E; simplify_eq; by destruct Heq.
Qed.

#[export] Instance same_class_equiv : Equivalence same_class.
Proof.
  split.
  - intros [i [n|x]]; done.
  - intros [i [n|x]] [j [m|y]]; unfold same_class; cbn; naive_solver.
  - intros [i [n|x]] [j [m|y]] [k [o|z]]; unfold same_class; cbn; naive_solver.
Qed.

(** The order of neighbours depends on their classes only. *)
#[export] Instance in_order_proper : Proper (same_class ==> same_class ==> eq) in_order.
Proof.
  intros [i [n|x]] [i' [n'|x']] Ha [j [m|y]] [j' [m'|y']] Hb;
    unfold same_class in Ha, Hb; cbn in Ha, Hb; try done; unfold in_order; cbn.
  - subst. destruct (cmp i' j'); try done; by repeat case_match.
  - destruct Hb as [-> ->]. subst. by destruct (cmp i' j').
  - destruct Ha as [-> ->]. subst. destruct (cmp i' j'); try done;
      by destruct (cmp (mkMultiAsset i' _) (mkMultiAsset j' _)) eqn:E.
  - by destruct Ha as [-> ->], Hb as [-> ->].
Qed.

Lemma merge_or_push_None a b c :
  same_class a b → merge_or_push a c = None → merge_or_push b c = None.
Proof.
  destruct a as [i [n|x]], b as [j [m|y]], c as [k [o|z]]; unfold same_class, merge_or_push; cbn;
    try done; [intros ->|intros [-> ->]]; repeat case_decide; done.
Qed.

(** The fold keeps neighbours in order; its first asset is of the class of the
    first one of the input. *)
Lemma fold_merge_in_order a b l :
  same_class a b → StronglySorted le (b :: l) →
  ∃ c r, fold_merge a l = c :: r ∧ same_class c a ∧ all_in_order c r = true.
Proof.
  revert a b. induction l as [|d l IH]; intros a b Hab Hs; cbn; [by exists a, []|].
  apply StronglySorted_inv in Hs as [Hs Hb]. apply Forall_cons in Hb as [Hbd _].
  destruct (merge_or_push a d) as [c|] eqn:E.
  - pose proof (merge_or_push_spec a d) as Hm. rewrite E in Hm.
    destruct (IH c d Hm Hs) as (c' & r & -> & Hc & Hr). exists c', r. split_and!; try done.
    etrans; [exact Hc|]. unfold merge_or_push in E.
    destruct a as [i [n|x]], d as [j [m|y]]; cbn in E; try done; case_decide; by simplify_eq.
  - destruct (IH d d) as (c & r & -> & Hc & Hr); [done|done|].
    exists a, (c :: r). split_and!; try done. cbn. rewrite Hr, andb_true_r, Hc, Hab.
    pose proof (merge_or_push_spec b d) as Hm. rewrite (merge_or_push_None a b d) in Hm by done.
    by apply Hm.
Qed.

(** C32. A vector becomes a canonical list of assets: whatever the vector, with
    repetitions and in any order, the conversion gives a list that passes the
    check made when a list of assets is decoded. *)
Theorem from_vec_canonical assets :
  from_sorted_and_deduplicated (from_vec assets) = Ok (from_vec assets).
Proof.
  unfold from_vec. pose proof (sort_sorted assets) as Hs.
  destruct (sort assets) as [|a l]; [done|].
  destruct (fold_merge_in_order a a l) as (c & r & -> & _ & Hr); [done|done|].
  cbn. by rewrite Hr.
Qed.

(** The check of decoded lists is not complete: it accepts a list out of
    order, in which a fungible asset occurs twice with an instance of a smaller
    class in between. *)
Theorem from_sorted_accepts_duplicates (i j : AssetId) (x : AssetInstance) (n m : Z) :
  cmp i j = Lt →
  let r := [mkMultiAsset j (Fungible n); mkMultiAsset i (NonFungible x);
            mkMultiAsset j (Fungible m)] in
  from_sorted_and_deduplicated r = Ok r ∧ ¬ StronglySorted le r.
Proof.
  intros Hij. split.
  - cbn. unfold in_order. cbn. rewrite (cmp_opp i j), Hij. done.
  - intros [[_ Hle]%StronglySorted_inv _]%StronglySorted_inv.
    apply Forall_cons in Hle as [Hle _]. by destruct Hle.
Qed.

Lemma from_sorted_accepts_duplicates_witness :
  let j := Abstract [Byte.x02] in
  let i := Abstract [Byte.x01] in
  from_sorted_and_deduplicated
    [mkMultiAsset j (Fungible 5); mkMultiAsset i (NonFungible UndefinedInstance);
     mkMultiAsset j (Fungible 7)] =
  Ok [mkMultiAsset j (Fungible 5); mkMultiAsset i (NonFungible UndefinedInstance);
      mkMultiAsset j (Fungible 7)].
Proof.
  apply (from_sorted_accepts_duplicates (Abstract [Byte.x01]) (Abstract [Byte.x02])
           UndefinedInstance 5 7). reflexivity.
Defined.
End MultiAssets.
