(* ===== verification/Holding.v ===== *)
(** * The holding register

    [xcm/xcm-executor/src/assets.rs]: the assets an XCM program holds while it
    runs, fungible ones with an amount and non-fungible ones as a set, and the
    operations that add to and take from them. *)

From S2P Require Import Prelude.
From S2P Require Import XcmTypes.
From S2P Require Import MultiLocations.
From S2P Require Import BTree.
From S2P Require Import MultiAssets.

Module Assets.
Import BTreeMap.

Record Assets := mkAssets {
  fungible : BTreeMap.t AssetId Z;
  non_fungible : BTreeMap.t (AssetId * AssetInstance) unit;
}.

Inductive TakeError := AssetUnderflow (asset : MultiAsset).

Definition new : Assets := mkAssets [] [].

Definition len (a : Assets) : Z := Z.of_nat (length (fungible a) + length (non_fungible a)).

Definition is_empty (a : Assets) : bool :=
  match fungible a, non_fungible a with [], [] => true | _, _ => false end.

Definition fungible_assets_iter (a : Assets) : list MultiAsset :=
  map (λ '(id, amount), mkMultiAsset id (Fungible amount)) (fungible a).
Definition non_fungible_assets_iter (a : Assets) : list MultiAsset :=
  map (λ '((id, instance), _), mkMultiAsset id (NonFungible instance)) (non_fungible a).
Definition assets_iter (a : Assets) : list MultiAsset :=
  fungible_assets_iter a ++ non_fungible_assets_iter a.

Definition set_fungible (f : BTreeMap.t AssetId Z) (a : Assets) : Assets :=
  mkAssets f (non_fungible a).
Definition set_non_fungible (n : BTreeMap.t (AssetId * AssetInstance) unit) (a : Assets) : Assets :=
  mkAssets (fungible a) n.

Definition subsume (asset : MultiAsset) (self : Assets) : Assets :=
  match asset_fun asset with
  | Fungible amount =>
      let amount' := match get (asset_id asset) (fungible self) with
                     | Some e => u128_saturating_add e amount
                     | None => amount
                     end in
      set_fungible (insert (asset_id asset) amount' (fungible self)) self
  | NonFungible instance =>
      set_non_fungible (insert (asset_id asset, instance) tt (non_fungible self)) self
  end.

Definition from_vec (assets : list MultiAsset) : Assets :=
  fold_left (λ self asset, subsume asset self) assets new.

(** The loop of [subsume_assets], with the current elements [f] and [g] of the
    two iterators and what is left of them; returns the entries of [assets]
    from [f] on, with the amounts of [self] added as the loop does. *)
Definition le (a b : AssetId) : bool := match cmp a b with Gt => false | _ => true end.

Fixpoint merge_loop (f : AssetId * Z) (fs : list (AssetId * Z)) {struct fs} :
    AssetId * Z → list (AssetId * Z) → list (AssetId * Z) :=
  fix inner (g : AssetId * Z) (gs : list (AssetId * Z)) {struct gs} :=
    let f' := match cmp f.1 g.1 with
              | Eq => (f.1, u128_saturating_add f.2 g.2)
              | _ => f
              end in
    if le f.1 g.1 then
      match fs with
      | [] => [f']
      | f1 :: fs1 =>
          if le g.1 f1.1 then
            match gs with
            | [] => f' :: f1 :: fs1
            | g1 :: gs1 => f' :: merge_loop f1 fs1 g1 gs1
            end
          else f' :: merge_loop f1 fs1 g gs
      end
    else
      match gs with
      | [] => f' :: fs
      | g1 :: gs1 => inner g1 gs1
      end.

Definition subsume_assets (assets self : Assets) : Assets :=
  let merged := match fungible assets, fungible self with
                | f :: fs, g :: gs => merge_loop f fs g gs
                | l, _ => l
                end in
  mkAssets (append (fungible self) merged)
    (append (non_fungible self) (non_fungible assets)).

(** [reanchor] with the optional bin for what cannot be re-anchored; returns
    [self] and the bin. *)
Definition reanchor_with {K V} `{!TotalCmp K} (f : K → result unit K)
    (l : BTreeMap.t K V) (bin : BTreeMap.t K V) : BTreeMap.t K V * BTreeMap.t K V :=
  let '(ok, bin) :=
    fold_left (λ '(ok, bin) '(k, v),
      match f k with
      | Ok k' => (ok ++ [(k', v)], bin)
      | Err _ => (ok, insert k v bin)
      end) l ([], bin) in
  (collect ok, bin).

Definition reanchor (target ancestry : MultiLocation) (maybe_failed_bin : option Assets)
    (self : Assets) : Assets * option Assets :=
  let f := MultiAssets.asset_id_reanchor target ancestry in
  let g '(class, inst) := match f class with Ok c => Ok (c, inst) | Err e => Err e end in
  let bin := default new maybe_failed_bin in
  let '(fu, bf) := reanchor_with f (fungible self) (fungible bin) in
  let '(nf, bn) := reanchor_with g (non_fungible self) (non_fungible bin) in
  (mkAssets fu nf, (λ _, mkAssets bf bn) <$> maybe_failed_bin).

Fixpoint ensure_contains (assets : MultiAssets) (self : Assets) : result TakeError unit :=
  match assets with
  | [] => Ok tt
  | asset :: assets =>
      match asset_fun asset with
      | Fungible amount =>
          match get (asset_id asset) (fungible self) with
          | None => Err (AssetUnderflow asset)
          | Some a => if decide (a < amount) then Err (AssetUnderflow asset)
                      else ensure_contains assets self
          end
      | NonFungible instance =>
          match get (asset_id asset, instance) (non_fungible self) with
          | None => Err (AssetUnderflow asset)
          | Some _ => ensure_contains assets self
          end
      end
  end.

(** One round of the loop over definite assets. *)
Definition take_one (asset : MultiAsset) (self taken : Assets) : Assets * Assets :=
  match asset_fun asset with
  | Fungible amount =>
      let id := asset_id asset in
      match get id (fungible self) with
      | Some self_amount =>
          let amount := Z.min amount self_amount in
          let self_amount := self_amount - amount in
          let self := if decide (self_amount = 0)
                      then set_fungible (remove id (fungible self)) self
                      else set_fungible (insert id self_amount (fungible self)) self in
          (self, if decide (0 < amount)
                 then subsume (mkMultiAsset id (Fungible amount)) taken else taken)
      | None => (self, taken)
      end
  | NonFungible instance =>
      let id_instance := (asset_id asset, instance) in
      match get id_instance (non_fungible self) with
      | Some _ => (set_non_fungible (remove id_instance (non_fungible self)) self,
                   subsume asset taken)
      | None => (self, taken)
      end
  end.

Fixpoint take_definite (limit : Z) (assets : MultiAssets) (self taken : Assets) :
    Assets * Assets :=
  match assets with
  | [] => (self, taken)
  | asset :: assets =>
      let '(self, taken) := take_one asset self taken in
      if decide (len taken = limit) then (self, taken)
      else take_definite limit assets self taken
  end.

(** The loops that take the entries of [self] out and put each one in [taken] or
    back, as [room] decides on the entry and what [taken] has so far. *)
Definition split_map {K V} `{!TotalCmp K} (room : K → BTreeMap.t K V → bool)
    (l self taken : BTreeMap.t K V) : BTreeMap.t K V * BTreeMap.t K V :=
  fold_left (λ '(self, taken) '(k, v),
    if room k taken then (self, insert k v taken) else (insert k v self, taken)) l (self, taken).

(** Returns [self] and the result. *)
Definition general_take (mask : MultiAssetFilter) (saturate : bool) (limit : Z) (self : Assets) :
    Assets * result TakeError Assets :=
  match mask with
  | Wild All =>
      if decide (len self ≤ limit) then (new, Ok self)
      else
        let '(f, taken_f) :=
          split_map (λ _ t, bool_decide (Z.of_nat (length t) < limit)) (fungible self) [] [] in
        let '(n, taken_n) :=
          split_map (λ _ t, bool_decide (Z.of_nat (length taken_f + length t) < limit))
            (non_fungible self) [] [] in
        (mkAssets f n, Ok (mkAssets taken_f taken_n))
  | Wild (AllOf id WildFungible) =>
      match get id (fungible self) with
      | Some amount => (set_fungible (remove id (fungible self)) self,
                        Ok (set_fungible (insert id amount []) new))
      | None => (self, Ok new)
      end
  | Wild (AllOf id WildNonFungible) =>
      let '(n, taken_n) :=
        split_map (λ k t, bool_decide (k.1 = id) && bool_decide (Z.of_nat (length t) < limit))
          (non_fungible self) [] [] in
      (mkAssets (fungible self) n, Ok (mkAssets [] taken_n))
  | Definite assets =>
      match (if saturate then Ok tt else ensure_contains assets self) with
      | Err e => (self, Err e)
      | Ok _ => let '(self, taken) := take_definite limit assets self new in (self, Ok taken)
      end
  end.

Definition usize_max : Z := u64_max.

(** [expect]s that a saturating take does not fail. *)
Definition limited_saturating_take (asset : MultiAssetFilter) (limit : Z) (self : Assets) :
    Assets * Assets :=
  match general_take asset true limit self with
  | (self, Ok taken) => (self, taken)
  | (self, Err _) => (self, new)
  end.
Definition saturating_take (asset : MultiAssetFilter) (self : Assets) : Assets * Assets :=
  limited_saturating_take asset usize_max self.
Definition try_take (mask : MultiAssetFilter) (self : Assets) :
    Assets * result TakeError Assets :=
  general_take mask false usize_max self.

Definition checked_sub (asset : MultiAsset) (self : Assets) : result Assets Assets :=
  match asset_fun asset with
  | Fungible amount =>
      match get (asset_id asset) (fungible self) with
      | Some balance =>
          if decide (amount ≤ balance) then
            let balance := balance - amount in
            if decide (balance = 0)
            then Ok (set_fungible (remove (asset_id asset) (fungible self)) self)
            else Ok (set_fungible (insert (asset_id asset) balance (fungible self)) self)
          else Err self
      | None => Err self
      end
  | NonFungible instance =>
      match get (asset_id asset, instance) (non_fungible self) with
      | Some _ => Ok (set_non_fungible (remove (asset_id asset, instance) (non_fungible self)) self)
      | None => Err self
      end
  end.

Definition min (mask : MultiAssetFilter) (self : Assets) : Assets :=
  match mask with
  | Wild All => self
  | Wild (AllOf id WildFungible) =>
      match get id (fungible self) with
      | Some amount => set_fungible (insert id amount []) new
      | None => new
      end
  | Wild (AllOf id WildNonFungible) =>
      set_non_fungible
        (fold_left (λ m '(k, _), if decide (k.1 = id) then insert k tt m else m)
           (non_fungible self) []) new
  | Definite assets =>
      fold_left (λ masked asset,
        match asset_fun asset with
        | Fungible amount =>
            match get (asset_id asset) (fungible self) with
            | Some m => subsume (mkMultiAsset (asset_id asset) (Fungible (Z.min amount m))) masked
            | None => masked
            end
        | NonFungible instance =>
            match get (asset_id asset, instance) (non_fungible self) with
            | Some _ => subsume asset masked
            | None => masked
            end
        end) assets new
  end.

(** ** Taking moves assets *)

Definition amount (id : AssetId) (a : Assets) : Z := default 0 (get id (fungible a)).
Definition holds (x : AssetId * AssetInstance) (a : Assets) : Prop :=
  is_Some (get x (non_fungible a)).

Record wf (a : Assets) : Prop := {
  wf_fungible : sorted (fungible a);
  wf_non_fungible : sorted (non_fungible a);
  wf_amount id n : get id (fungible a) = Some n → 0 ≤ n ≤ u128_max;
}.

Definition mask_ok (mask : MultiAssetFilter) : Prop :=
  match mask with
  | Definite assets => Forall (λ a, match asset_fun a with Fungible n => 0 ≤ n | _ => True end) assets
  | Wild _ => True
  end.

(** [a] and [b] together are [whole]. *)
Definition parts (whole a b : Assets) : Prop :=
  (∀ id, amount id whole = amount id a + amount id b) ∧
  (∀ x, (holds x whole ↔ holds x a ∨ holds x b) ∧ ¬ (holds x a ∧ holds x b)).

Lemma wf_new : wf new.
Proof. by split. Qed.

Lemma amount_range id a : wf a → 0 ≤ amount id a ≤ u128_max.
Proof.
  intros Ha. unfold amount. destruct (get id (fungible a)) as [n|] eqn:E; cbn.
  - by apply (wf_amount a Ha id).
  - unfold u128_max. lia.
Qed.

(** An entry goes to exactly one of the two maps, the others stay. *)
Lemma split_map_spec {K V} `{!TotalCmp K} room (l self taken : BTreeMap.t K V) :
  sorted l → sorted self → sorted taken →
  (∀ k v, get k l = Some v → get k self = None ∧ get k taken = None) →
  let '(self', taken') := split_map room l self taken in
  sorted self' ∧ sorted taken' ∧
  (∀ k, match get k l with
        | Some v => (get k self' = Some v ∧ get k taken' = None) ∨
                    (get k self' = None ∧ get k taken' = Some v)
        | None => get k self' = get k self ∧ get k taken' = get k taken
        end).
Proof.
  unfold split_map. revert self taken.
  induction l as [|[k v] l IH]; intros self taken Hl Hs Ht Hfresh; [done|].
  cbn [fold_left]. destruct Hl as [Hb Hl]. pose proof (below_get k l Hb) as Hkl.
  destruct (Hfresh k v) as [Hks Hkt]; [cbn; by rewrite cmp_refl|].
  assert (∀ j w, get j l = Some w → cmp j k ≠ Eq ∧ get j self = None ∧ get j taken = None) as Hj.
  { intros j w Hj. destruct (cmp j k) eqn:E; [apply cmp_eq in E as ->; congruence|..];
      (split; [done|]; apply (Hfresh j w); cbn; by rewrite E). }
  destruct (room k taken).
  - specialize (IH self (insert k v taken) Hl Hs (insert_sorted k v taken Ht)).
    destruct (fold_left _ l (self, insert k v taken)) as [self' taken'].
    destruct IH as (? & ? & Hg).
    { intros j w Hjw. destruct (Hj j w Hjw) as (Hne & ? & ?). split; [done|].
      rewrite get_insert by done. by destruct (cmp j k). }
    split_and!; [done..|]. intros j. specialize (Hg j). cbn. rewrite get_insert in Hg by done.
    destruct (cmp j k) eqn:E; [|done..]. apply cmp_eq in E as ->. rewrite Hkl in Hg.
    right. destruct Hg as [-> ->]. done.
  - specialize (IH (insert k v self) taken Hl (insert_sorted k v self Hs) Ht).
    destruct (fold_left _ l (insert k v self, taken)) as [self' taken'].
    destruct IH as (? & ? & Hg).
    { intros j w Hjw. destruct (Hj j w Hjw) as (Hne & ? & ?). split; [|done].
      rewrite get_insert by done. by destruct (cmp j k). }
    split_and!; [done..|]. intros j. specialize (Hg j). cbn. rewrite get_insert in Hg by done.
    destruct (cmp j k) eqn:E; [|done..]. apply cmp_eq in E as ->. rewrite Hkl in Hg.
    left. destruct Hg as [-> ->]. done.
Qed.

(** Moving [n] of one fungible asset, or one instance. *)
Lemma subsume_fungible_amount id n j a :
  wf a → 0 ≤ n → amount id a + n ≤ u128_max →
  wf (subsume (mkMultiAsset id (Fungible n)) a) ∧
  amount j (subsume (mkMultiAsset id (Fungible n)) a) =
    (if decide (j = id) then amount j a + n else amount j a).
Proof.
  intros Ha Hn Hmax. pose proof (amount_range id a Ha) as Hr. destruct Ha as [Hf Hnf Hamt].
  unfold subsume, amount in *. cbn.
  assert ((match get id (fungible a) with
           | Some e => u128_saturating_add e n | None => n end)
          = default 0 (get id (fungible a)) + n) as ->.
  { destruct (get id (fungible a)); cbn in *; unfold u128_saturating_add; lia. }
  split.
  - split; cbn; [by apply insert_sorted|done|]. intros i m. rewrite get_insert by done.
    destruct (cmp i id); [intros [= <-]; lia|apply Hamt..].
  - rewrite get_insert by done. destruct (decide (j = id)) as [->|Hne].
    + by rewrite cmp_refl.
    + by destruct (cmp j id) eqn:E; [apply cmp_eq in E|..].
Qed.

Lemma remove_fungible_amount id n j a :
  wf a → get id (fungible a) = Some n → 
  wf (set_fungible (remove id (fungible a)) a) ∧
  amount j (set_fungible (remove id (fungible a)) a) = (if decide (j = id) then 0 else amount j a).
Proof.
  intros [Hf Hnf Hamt] Hg. unfold amount. cbn. split.
  - split; cbn; [by apply remove_sorted|done|]. intros i m. rewrite get_remove by done.
    destruct (cmp i id); [done|apply Hamt..].
  - rewrite get_remove by done. destruct (decide (j = id)) as [->|Hne].
    + by rewrite cmp_refl.
    + by destruct (cmp j id) eqn:E; [apply cmp_eq in E|..].
Qed.

Lemma insert_fungible_amount id n j a :
  wf a → 0 ≤ n ≤ u128_max →
  wf (set_fungible (insert id n (fungible a)) a) ∧
  amount j (set_fungible (insert id n (fungible a)) a) = (if decide (j = id) then n else amount j a).
Proof.
  intros [Hf Hnf Hamt] Hn. unfold amount. cbn. split.
  - split; cbn; [by apply insert_sorted|done|]. intros i m. rewrite get_insert by done.
    destruct (cmp i id); [by intros [= <-]|apply Hamt..].
  - rewrite get_insert by done. destruct (decide (j = id)) as [->|Hne].
    + by rewrite cmp_refl.
    + by destruct (cmp j id) eqn:E; [apply cmp_eq in E|..].
Qed.

Lemma take_one_fungible whole id n self taken :
  0 ≤ n → wf whole → wf self → wf taken → parts whole self taken →
  let '(self', taken') := take_one (mkMultiAsset id (Fungible n)) self taken in
  wf self' ∧ wf taken' ∧ parts whole self' taken'.
Proof.
  intros Hn Hw Hs Ht [Hsum Hnf]. unfold take_one. cbn [asset_fun asset_id].
  destruct (get id (fungible self)) as [have|] eqn:E; [|done].
  pose proof (wf_amount self Hs id have E) as Hhave.
  assert (amount id self = have) as Hid by (unfold amount; by rewrite E).
  pose proof (amount_range id whole Hw) as Hwr. rewrite Hsum, Hid in Hwr.
  pose proof (amount_range id taken Ht) as Htr.
  set (m := Z.min n have).
  set (self' := if decide (have - m = 0) then _ else _).
  assert (wf self' ∧ (∀ j, amount j self' = if decide (j = id) then have - m else amount j self)
          ∧ non_fungible self' = non_fungible self) as (Hws & Has & Hns).
  { subst self'. case_decide as Hz.
    - destruct (remove_fungible_amount id have id self Hs E) as [Hwf _]. split_and!; [done| |done].
      intros j. destruct (remove_fungible_amount id have j self Hs E) as [_ ->].
      case_decide; lia.
    - destruct (insert_fungible_amount id (have - m) id self Hs) as [Hwf _]; [lia|].
      split_and!; [done| |done]. intros j.
      by destruct (insert_fungible_amount id (have - m) j self Hs) as [_ ->]; [lia|]. }
  set (taken' := if decide (0 < m) then _ else _).
  assert (wf taken' ∧ (∀ j, amount j taken' = if decide (j = id) then amount j taken + m else amount j taken)
          ∧ non_fungible taken' = non_fungible taken) as (Hwt & Hat & Hnt).
  { subst taken'. case_decide as Hm.
    - destruct (subsume_fungible_amount id m id taken Ht) as [Hwf _]; [lia|lia|].
      split_and!; [done| |done]. intros j.
      by destruct (subsume_fungible_amount id m j taken Ht) as [_ ->]; [lia|lia|].
    - split_and!; [done| |done]. intros j. case_decide; lia. }
  split_and!; [done..|]. split.
  - intros j. rewrite Hsum, Has, Hat. case_decide; [subst j|]; lia.
  - intros x. unfold holds in *. by rewrite Hns, Hnt.
Qed.

Lemma take_one_instance whole id i self taken :
  wf self → wf taken → parts whole self taken →
  let '(self', taken') := take_one (mkMultiAsset id (NonFungible i)) self taken in
  wf self' ∧ wf taken' ∧ parts whole self' taken'.
Proof.
  intros Hs Ht [Hsum Hnf]. unfold take_one. cbn.
  destruct (get (id, i) (non_fungible self)) as [u|] eqn:E; [|done].
  destruct Hs as [? ? ?], Ht as [? ? ?]. unfold subsume. cbn. split_and!.
  - split; cbn; [done|by apply remove_sorted|done].
  - split; cbn; [done|by apply insert_sorted|done].
  - split; [done|]. intros x. specialize (Hnf x). unfold holds in *. cbn.
    rewrite get_remove, get_insert by done.
    destruct (cmp x (id, i)) eqn:Ex; [|done..]. apply cmp_eq in Ex as ->. rewrite E in Hnf.
    destruct Hnf as [[_ Hl] _]. split; [|by intros [[? ?] _]].
    split; [intros _; right; eauto|intros _; apply Hl; left; eauto].
Qed.

Lemma take_definite_parts whole limit assets self taken :
  mask_ok (Definite assets) → wf whole → wf self → wf taken → parts whole self taken →
  let '(self', taken') := take_definite limit assets self taken in
  wf self' ∧ wf taken' ∧ parts whole self' taken'.
Proof.
  intros Hm Hw. revert self taken.
  induction assets as [|[id [n|i]] assets IH]; intros self taken Hs Ht Hp; [done|..].
  all: apply Forall_cons in Hm as [Hn Hm]; cbn in Hn; cbn [take_definite].
  - pose proof (take_one_fungible whole id n self taken Hn Hw Hs Ht Hp) as Hone.
    destruct (take_one _ self taken) as [s t]. destruct Hone as (? & ? & ?).
    case_decide; [done|]. by apply IH.
  - pose proof (take_one_instance whole id i self taken Hs Ht Hp) as Hone.
    destruct (take_one _ self taken) as [s t]. destruct Hone as (? & ? & ?).
    case_decide; [done|]. by apply IH.
Qed.

Lemma parts_new a : parts a new a.
Proof.
  split; [intros id; unfold amount at 2; cbn; lia|]. intros x. unfold holds. cbn.
  split; [split; [by right|by intros [[? ?]|?]]|by intros [[? ?] _]].
Qed.

Lemma parts_comm whole a b : parts whole a b → parts whole b a.
Proof.
  intros [Hsum Hnf]. split; [intros id; rewrite Hsum; lia|].
  intros x. destruct (Hnf x) as [-> Hd]. split; [naive_solver|naive_solver].
Qed.

(** Two maps partition a third one. *)
Definition partition {K V} `{!TotalCmp K} (l a b : BTreeMap.t K V) : Prop :=
  sorted a ∧ sorted b ∧
  ∀ k, match get k l with
       | Some v => (get k a = Some v ∧ get k b = None) ∨ (get k a = None ∧ get k b = Some v)
       | None => get k a = None ∧ get k b = None
       end.

Lemma partition_all {K V} `{!TotalCmp K} (l : BTreeMap.t K V) : sorted l → partition l l [].
Proof. intros Hl. split_and!; [done|done|]. intros k. destruct (get k l); [by left|done]. Qed.

Lemma split_map_partition {K V} `{!TotalCmp K} room (l a b : BTreeMap.t K V) :
  sorted l → split_map room l [] [] = (a, b) → partition l a b.
Proof.
  intros Hl E. pose proof (split_map_spec room l [] [] Hl I I ltac:(done)) as Hs.
  by rewrite E in Hs.
Qed.

Lemma parts_of_partition self f tf n tn :
  wf self → partition (fungible self) f tf → partition (non_fungible self) n tn →
  wf (mkAssets f n) ∧ wf (mkAssets tf tn) ∧ parts self (mkAssets f n) (mkAssets tf tn).
Proof.
  intros [Hf Hn Hamt] (? & ? & HF) (? & ? & HN). split_and!.
  - split; cbn; try done. intros id m Hm. specialize (HF id). apply (Hamt id).
    destruct (get id (fungible self)); naive_solver.
  - split; cbn; try done. intros id m Hm. specialize (HF id). apply (Hamt id).
    destruct (get id (fungible self)); naive_solver.
  - split.
    + intros id. unfold amount. cbn. specialize (HF id).
      destruct (get id (fungible self)); [destruct HF as [[-> ->]|[-> ->]]|destruct HF as [-> ->]];
        cbn; lia.
    + intros x. unfold holds. cbn. specialize (HN x).
      destruct (get x (non_fungible self)) as [u|].
      * destruct HN as [[-> ->]|[-> ->]]; (split; [|by intros [[] []]]); naive_solver.
      * destruct HN as [-> ->]. split; [|by intros [[] []]]. naive_solver.
Qed.

Lemma take_fungible_parts id n self :
  wf self → get id (fungible self) = Some n →
  wf (set_fungible (insert id n []) new) ∧
  parts self (set_fungible (remove id (fungible self)) self) (set_fungible (insert id n []) new).
Proof.
  intros Hs Hg. pose proof (wf_amount self Hs id n Hg) as Hn.
  destruct (insert_fungible_amount id n id new wf_new Hn) as [Hw _]. split; [done|]. split.
  - intros j. destruct (remove_fungible_amount id n j self Hs Hg) as [_ ->].
    destruct (insert_fungible_amount id n j new wf_new Hn) as [_ Hj]. cbn in Hj |- *. rewrite Hj.
    unfold amount. cbn. case_decide; [subst j; rewrite Hg; cbn|]; lia.
  - intros x. unfold holds. cbn. split; [|by intros [_ []]]. naive_solver.
Qed.

(** C23. Taking moves assets and makes none: whatever the mask and the limit,
    what is taken and what is left are together exactly what was held, amount
    by amount and instance by instance, and both are well-formed. *)
Theorem general_take_conserves mask saturate limit self self' taken :
  wf self → mask_ok mask →
  general_take mask saturate limit self = (self', Ok taken) →
  wf self' ∧ wf taken ∧ parts self self' taken.
Proof.
  intros Hs Hm. destruct mask as [assets|[|id []]]; cbn.
  - destruct (if saturate then Ok tt else ensure_contains assets self) as [_|e]; [|done].
    pose proof (take_definite_parts self limit assets self new Hm Hs Hs wf_new
      (parts_comm _ _ _ (parts_new self))) as Hd.
    destruct (take_definite limit assets self new). by intros [= <- <-].
  - case_decide; [intros [= <- <-]; split_and!; [apply wf_new|done|apply parts_new]|].
    destruct (split_map _ (fungible self) [] []) as [f tf] eqn:Ef.
    destruct (split_map _ (non_fungible self) [] []) as [n tn] eqn:En. intros [= <- <-].
    apply parts_of_partition; [done|..].
    + by eapply split_map_partition; [apply (wf_fungible self Hs)|].
    + by eapply split_map_partition; [apply (wf_non_fungible self Hs)|].
  - destruct (get id (fungible self)) as [n|] eqn:E; intros [= <- <-].
    + destruct (take_fungible_parts id n self Hs E).
      by destruct (remove_fungible_amount id n id self Hs E).
    + split_and!; [done|apply wf_new|apply parts_comm, parts_new].
  - destruct (split_map _ (non_fungible self) [] []) as [n tn] eqn:En. intros [= <- <-].
    apply parts_of_partition; [done|apply partition_all, (wf_fungible self Hs)|].
    by eapply split_map_partition; [apply (wf_non_fungible self Hs)|].
Qed.

(** ** The limit on the number of assets taken *)

Lemma length_insert {K V} `{!TotalCmp K} k v (m : BTreeMap.t K V) :
  (length (insert k v m) ≤ S (length m))%nat.
Proof.
  induction m as [|[j w] m IH]; cbn; [lia|]. destruct (cmp k j); cbn; lia.
Qed.

Lemma split_map_length {K V} `{!TotalCmp K} room limit (l self taken a b : BTreeMap.t K V) :
  split_map room l self taken = (a, b) →
  (∀ k t, room k t = true → Z.of_nat (length t) < limit) → Z.of_nat (length taken) ≤ limit →
  Z.of_nat (length b) ≤ limit.
Proof.
  intros Heq Hroom. revert self taken Heq. unfold split_map.
  induction l as [|[k v] l IH]; intros self taken Heq Ht; [cbn in Heq; by simplify_eq|].
  cbn [fold_left] in Heq.
  destruct (room k taken) eqn:E; apply IH in Heq; try done.
  pose proof (length_insert k v taken). specialize (Hroom _ _ E). lia.
Qed.

Lemma len_subsume asset a : len (subsume asset a) ≤ len a + 1.
Proof.
  unfold len, subsume. destruct (asset_fun asset) as [n|i]; cbn.
  - pose proof (length_insert (asset_id asset) (match get (asset_id asset) (fungible a) with
      | Some e => u128_saturating_add e n | None => n end) (fungible a)). lia.
  - pose proof (length_insert (asset_id asset, i) tt (non_fungible a)). lia.
Qed.

Lemma take_definite_len limit assets self taken :
  len taken < limit → len (take_definite limit assets self taken).2 ≤ limit.
Proof.
  revert self taken. induction assets as [|asset assets IH]; intros self taken Ht; cbn; [lia|].
  assert (len (take_one asset self taken).2 ≤ len taken + 1) as Hone.
  { unfold take_one. pose proof (len_subsume asset taken).
    destruct (asset_fun asset) as [n|i]; case_match; cbn [fst snd]; try lia.
    case_decide; [apply len_subsume|lia]. }
  destruct (take_one asset self taken) as [s t]. cbn in Hone.
  case_decide; cbn; [lia|]. apply IH. lia.
Qed.

(** At most [limit] assets are taken, for every mask, as long as the limit
    is positive. *)
Theorem general_take_limit mask saturate limit self self' taken :
  0 < limit →
  general_take mask saturate limit self = (self', Ok taken) →
  len taken ≤ limit.
Proof.
  intros Hl. destruct mask as [assets|[|id []]]; cbn.
  - destruct (if saturate then Ok tt else ensure_contains assets self) as [_|e]; [|done].
    pose proof (take_definite_len limit assets self new Hl) as Hd.
    destruct (take_definite limit assets self new). by intros [= <- <-].
  - case_decide; [by intros [= <- <-]|].
    destruct (split_map _ (fungible self) [] []) as [f tf] eqn:Ef.
    destruct (split_map _ (non_fungible self) [] []) as [n tn] eqn:En. intros [= <- <-].
    unfold len. cbn. rewrite Nat2Z.inj_add.
    cut (Z.of_nat (length tf) ≤ limit); [intros Htf|].
    + cut (Z.of_nat (length tn) ≤ limit - Z.of_nat (length tf)); [lia|].
      apply (split_map_length _ _ _ _ _ _ _ En); [|cbn; lia].
      intros _ t ?%bool_decide_eq_true. lia.
    + apply (split_map_length _ _ _ _ _ _ _ Ef); [|cbn; lia].
      by intros _ t ?%bool_decide_eq_true.
  - destruct (get id (fungible self)); intros [= <- <-]; unfold len; cbn; lia.
  - destruct (split_map _ (non_fungible self) [] []) as [n tn] eqn:En. intros [= <- <-].
    apply (split_map_length _ _ _ _ _ _ _ En); [|cbn; lia].
    by intros k t [_ ?%bool_decide_eq_true]%andb_true_iff.
Qed.

(** A limit of zero is no limit for definite assets: the loop compares the
    number taken with the limit only after it has taken, so every asset of the
    mask that is held is taken. *)
Theorem take_zero_limit id n have self :
  0 < n → 0 < have → get id (fungible self) = Some have →
  ∃ self' taken,
    general_take (Definite [mkMultiAsset id (Fungible n)]) true 0 self = (self', Ok taken) ∧
    amount id taken = Z.min n have ∧ len taken = 1.
Proof.
  intros Hn Hh Hg. cbn. unfold take_one. cbn. rewrite Hg.
  rewrite (decide_True (P := 0 < Z.min n have)) by lia. cbn.
  eexists _, _. split; [reflexivity|]. split; [|done].
  unfold amount. cbn. by rewrite cmp_refl.
Qed.

(** ** Merging two registers *)

(** The sum that [subsume_assets] is to compute. *)
Definition merged_amount (id : AssetId) (assets self : Assets) : option Z :=
  match get id (fungible assets), get id (fungible self) with
  | Some a, Some b => Some (u128_saturating_add a b)
  | Some a, None => Some a
  | None, b => b
  end.

Lemma merge_loop_single id a g gs :
  sorted (g :: gs) →
  merge_loop (id, a) [] g gs =
  [(id, match get id (g :: gs) with Some b => u128_saturating_add a b | None => a end)].
Proof.
  revert g. induction gs as [|g1 gs IH]; intros [j b] Hs; cbn -[get]; cbn [get]; unfold le.
  - destruct (cmp id j) eqn:E; cbn; by rewrite ?E.
  - destruct (cmp id j) eqn:E; [done|..].
    + destruct Hs as [Hb _]. assert (get id (g1 :: gs) = None) as Hn
        by (eapply below_get, below_trans; [exact E|done]).
      cbn in Hn. by rewrite Hn.
    + apply IH. apply Hs.
Qed.

(** Merging one fungible asset is right: when the register merged in has at
    most one fungible asset, as after buying execution, every amount is the
    (saturating) sum. *)
Theorem subsume_assets_single assets self id :
  wf assets → wf self → (length (fungible assets) ≤ 1)%nat →
  get id (fungible (subsume_assets assets self)) = merged_amount id assets self.
Proof.
  intros Ha Hs Hlen. unfold subsume_assets, merged_amount. cbn.
  destruct (fungible assets) as [|[j a] [|? ?]] eqn:Ef; cbn in Hlen; [|..|lia].
  - cbn. done.
  - assert (match fungible self with
            | [] => [(j, a)]
            | g :: gs => merge_loop (j, a) [] g gs
            end = [(j, match get j (fungible self) with
                       | Some b => u128_saturating_add a b | None => a end)]) as ->.
    { destruct (fungible self) as [|g gs] eqn:Es; [done|]. apply merge_loop_single.
      rewrite <-Es. apply (wf_fungible self Hs). }
    rewrite get_append; [|apply (wf_fungible self Hs)|by repeat constructor].
    cbn. destruct (cmp id j) eqn:E; [|by destruct (get id (fungible self))..].
    apply cmp_eq in E as ->. by destruct (get j (fungible self)).
Qed.

(** C34. Merging two fungible assets can lose one: the loop tests its second
    condition after it has moved on in the first register, so a pair of equal
    identifiers that follows a smaller one is skipped, and the amount held is
    overwritten by the one merged in. *)
Theorem subsume_assets_loses i j a b n :
  cmp i j = Lt →
  let self := mkAssets [(j, n)] [] in
  let assets := mkAssets [(i, a); (j, b)] [] in
  amount j (subsume_assets assets self) = b.
Proof.
  intros Hij. unfold subsume_assets, amount. cbn. unfold le. rewrite Hij, cmp_refl. cbn.
  rewrite Hij. cbn. rewrite (cmp_opp i j), Hij, cmp_refl. cbn.
  by rewrite (cmp_opp i j), Hij, cmp_refl.
Qed.

(** What cannot be re-anchored overwrites: an asset returned to the bin
    replaces the amount of the same asset that is already there, instead of
    being added to it. *)
Theorem reanchor_bin_overwrites target ancestry id a bin :
  wf bin →
  MultiAssets.asset_id_reanchor target ancestry id = Err tt →
  ∃ bin', reanchor target ancestry (Some bin) (mkAssets [(id, a)] []) = (new, Some bin') ∧
    amount id bin' = a.
Proof.
  intros Hb Hr. unfold reanchor, reanchor_with. cbn. rewrite Hr. cbn.
  eexists. split; [reflexivity|]. unfold amount. cbn.
  rewrite get_insert by apply (wf_fungible bin Hb). by rewrite cmp_refl.
Qed.

(** ** Examples *)

Definition asset_a : AssetId := Abstract [Byte.x01].
Definition asset_b : AssetId := Abstract [Byte.x02].
Definition held : Assets := mkAssets [(asset_a, 10); (asset_b, 60)] [].

Lemma wf_held : wf held.
Proof.
  split; [by repeat constructor|done|]. intros id n. cbn.
  destruct (cmp id asset_a); [intros [= <-]; unfold u128_max; lia|..];
    (destruct (cmp id asset_b); [intros [= <-]; unfold u128_max; lia|done..]).
Qed.

Lemma general_take_conserves_witness :
  parts held (general_take (Definite [mkMultiAsset asset_b (Fungible 40)]) true 5 held).1
    (mkAssets [(asset_b, 40)] []).
Proof.
  apply (general_take_conserves (Definite [mkMultiAsset asset_b (Fungible 40)]) true 5 held);
    [exact wf_held|by repeat constructor|reflexivity].
Defined.

Lemma general_take_limit_witness : len (mkAssets [(asset_a, 10)] []) ≤ 1.
Proof.
  apply (general_take_limit (Wild All) true 1 held (mkAssets [(asset_b, 60)] []));
    [lia|reflexivity].
Defined.

Lemma take_zero_limit_witness :
  ∃ self' taken,
    general_take (Definite [mkMultiAsset asset_b (Fungible 40)]) true 0 held = (self', Ok taken) ∧
    amount asset_b taken = 40 ∧ len taken = 1.
Proof. apply (take_zero_limit asset_b 40 60 held); [lia|lia|reflexivity]. Defined.

Lemma subsume_assets_single_witness :
  get asset_b (fungible (subsume_assets (mkAssets [(asset_b, 5)] []) held)) = Some 65.
Proof.
  apply (subsume_assets_single (mkAssets [(asset_b, 5)] []) held asset_b);
    [|exact wf_held|cbn; lia].
  split; [by repeat constructor|done|]. intros id n. cbn.
  destruct (cmp id asset_b); [intros [= <-]; unfold u128_max; lia|done..].
Defined.

Lemma subsume_assets_loses_witness :
  amount asset_b (subsume_assets (mkAssets [(asset_a, 1); (asset_b, 2)] []) (mkAssets [(asset_b, 60)] []))
  = 2.
Proof. apply (subsume_assets_loses asset_a asset_b 1 2 60). reflexivity. Defined.

(** An asset seven junctions deep cannot be named from two levels down. *)
Definition deep_asset : AssetId :=
  Concrete (mkMultiLocation 0 (X8 OnlyChild OnlyChild OnlyChild OnlyChild OnlyChild OnlyChild
    OnlyChild OnlyChild)).

Lemma reanchor_bin_overwrites_witness :
  ∃ bin', reanchor (sibling 3000) MultiLocation.para_2000 (Some (mkAssets [(deep_asset, 60)] []))
            (mkAssets [(deep_asset, 40)] []) = (new, Some bin') ∧ amount deep_asset bin' = 40.
Proof.
  apply (reanchor_bin_overwrites (sibling 3000) MultiLocation.para_2000 deep_asset 40
           (mkAssets [(deep_asset, 60)] [])); [|reflexivity].
  split; [by repeat constructor|done|]. intros id n. cbn.
  destruct (cmp id deep_asset); [intros [= <-]; unfold u128_max; lia|done..].
Defined.
End Assets.
