(* ===== verification/XcmExecutor.v ===== *)
(** * The XCM executor

    [xcm/xcm-executor/src/lib.rs]: the virtual machine that runs an XCM program
    on a chain.  The chain around it, its asset transactor, trader, router,
    calls and the other items of [config.rs], is the interface [Config]; the
    weigher is [FixedWeightBounds], the one the runtimes of the repository
    use. *)

From S2P Require Import Prelude.
From S2P Require Import XcmTypes.
From S2P Require Import MultiLocations.
From S2P Require Import BTree.
From S2P Require Import MultiAssets.
From S2P Require Import Holding.
From S2P Require Import XcmBuilder.

(** A chain with storage [W], calls [Call], dispatch origins [O] and fee traders
    [T]. *)
Class Config (W Call O T : Type) := {
  withdraw_asset : MultiAsset → MultiLocation → W → W * result XcmError unit;
  deposit_asset : MultiAsset → MultiLocation → W → W * result XcmError unit;
  transfer_asset : MultiAsset → MultiLocation → MultiLocation → W → W * result XcmError unit;
  can_check_in : MultiLocation → MultiAsset → W → result XcmError unit;
  check_in : MultiLocation → MultiAsset → W → W;
  check_out : MultiLocation → MultiAsset → W → W;
  is_reserve : MultiAsset → MultiLocation → bool;
  is_teleporter : MultiAsset → MultiLocation → bool;
  xcm_sender : MultiLocation → Xcm → W → W * result SendError unit;
  trader_new : T;
  buy_weight : Z → Assets.Assets → T → W → T * W * result XcmError Assets.Assets;
  refund_weight : Z → T → W → T * W * option MultiAsset;
  trader_drop : T → W → W;
  take_decoded : list byte → option Call;
  dispatch_weight : Call → Z;
  dispatch_call : Call → O → W → W * option Z;
  convert_origin : MultiLocation → OriginKind → option O;
  on_response : MultiLocation → Z → Response → Z → W → W;
  claim_assets : MultiLocation → MultiLocation → MultiAssets → W → W * bool;
  drop_assets : MultiLocation → Assets.Assets → W → W * Z;
  subscribe : MultiLocation → Z → Z → W → W * result XcmError unit;
  unsubscribe : MultiLocation → W → W * result XcmError unit;
  location_ancestry : MultiLocation;
}.

Module XcmExecutor.
Section Executor.
Context {W Call O T : Type} `{!Config W Call O T} (unit_weight max_instructions : Z).

Abbreviation weigh := (FixedWeightBounds.weight unit_weight max_instructions).
Abbreviation instr_weight := (FixedWeightBounds.instr_weight unit_weight).

(** The fields of [XcmExecutor], the chain, and [steps], which counts the
    instructions processed and is not part of the code. *)
Record VM := mkVM {
  holding : Assets.Assets;
  origin : option MultiLocation;
  original_origin : MultiLocation;
  trader : T;
  error : option (Z * XcmError);
  total_surplus : Z;
  total_refunded : Z;
  error_handler : Xcm;
  error_handler_weight : Z;
  appendix : Xcm;
  appendix_weight : Z;
  world : W;
  steps : Z;
}.

Abbreviation Exec A := (M VM XcmError A).

Definition set_holding (h : Assets.Assets) (s : VM) : VM :=
  mkVM h (origin s) (original_origin s) (trader s) (error s) (total_surplus s) (total_refunded s)
    (error_handler s) (error_handler_weight s) (appendix s) (appendix_weight s) (world s) (steps s).
Definition set_origin (o : option MultiLocation) (s : VM) : VM :=
  mkVM (holding s) o (original_origin s) (trader s) (error s) (total_surplus s) (total_refunded s)
    (error_handler s) (error_handler_weight s) (appendix s) (appendix_weight s) (world s) (steps s).
Definition set_trader (t : T) (s : VM) : VM :=
  mkVM (holding s) (origin s) (original_origin s) t (error s) (total_surplus s) (total_refunded s)
    (error_handler s) (error_handler_weight s) (appendix s) (appendix_weight s) (world s) (steps s).
Definition set_error (e : option (Z * XcmError)) (s : VM) : VM :=
  mkVM (holding s) (origin s) (original_origin s) (trader s) e (total_surplus s) (total_refunded s)
    (error_handler s) (error_handler_weight s) (appendix s) (appendix_weight s) (world s) (steps s).
Definition accrue_surplus (w : Z) (s : VM) : VM :=
  mkVM (holding s) (origin s) (original_origin s) (trader s) (error s)
    (u64_saturating_add (total_surplus s) w) (total_refunded s)
    (error_handler s) (error_handler_weight s) (appendix s) (appendix_weight s) (world s) (steps s).
Definition accrue_refunded (w : Z) (s : VM) : VM :=
  mkVM (holding s) (origin s) (original_origin s) (trader s) (error s) (total_surplus s)
    (u64_saturating_add (total_refunded s) w)
    (error_handler s) (error_handler_weight s) (appendix s) (appendix_weight s) (world s) (steps s).
Definition set_error_handler (h : Xcm) (w : Z) (s : VM) : VM :=
  mkVM (holding s) (origin s) (original_origin s) (trader s) (error s) (total_surplus s)
    (total_refunded s) h w (appendix s) (appendix_weight s) (world s) (steps s).
Definition set_appendix (a : Xcm) (w : Z) (s : VM) : VM :=
  mkVM (holding s) (origin s) (original_origin s) (trader s) (error s) (total_surplus s)
    (total_refunded s) (error_handler s) (error_handler_weight s) a w (world s) (steps s).
Definition set_world (w : W) (s : VM) : VM :=
  mkVM (holding s) (origin s) (original_origin s) (trader s) (error s) (total_surplus s)
    (total_refunded s) (error_handler s) (error_handler_weight s) (appendix s) (appendix_weight s)
    w (steps s).
Definition count_step (s : VM) : VM :=
  mkVM (holding s) (origin s) (original_origin s) (trader s) (error s) (total_surplus s)
    (total_refunded s) (error_handler s) (error_handler_weight s) (appendix s) (appendix_weight s)
    (world s) (steps s + 1).

(** Calls on the chain. *)
Definition on_world (f : W → W * result XcmError unit) : Exec unit :=
  λ s, let '(w, r) := f (world s) in (set_world w s, r).
Definition modify_world (f : W → W) : Exec unit := modify (λ s, set_world (f (world s)) s).

Definition get_origin : Exec MultiLocation :=
  s ← get; lift (ok_or (origin s) XcmBadOrigin).

Definition subsume (asset : MultiAsset) : Exec unit :=
  modify (λ s, set_holding (Assets.subsume asset (holding s)) s).

Fixpoint for_each (l : list MultiAsset) (f : MultiAsset → Exec unit) : Exec unit :=
  match l with
  | [] => mret tt
  | a :: l => f a ;; for_each l f
  end.

(** [Config::XcmSender::send_xcm(..).map_err(Into::into)] *)
Definition send (dest : MultiLocation) (msg : Xcm) : Exec unit :=
  on_world (λ w, let '(w, r) := xcm_sender dest msg w in
                 (w, match r with Ok u => Ok u | Err e => Err (xcm_error_of_send e) end)).

(** [reanchored]: returns the assets for the message and the bin. *)
Definition reanchored (assets : Assets.Assets) (dest : MultiLocation) (bin : option Assets.Assets) :
    MultiAssets * option Assets.Assets :=
  let '(assets, bin) := Assets.reanchor dest location_ancestry bin assets in
  (MultiAssets.from_vec (Assets.assets_iter assets), bin).

Definition refund_surplus : Exec unit :=
  s ← get;
  let current_surplus := saturating_sub (total_surplus s) (total_refunded s) in
  if decide (0 < current_surplus) then
    modify (accrue_refunded current_surplus) ;;
    s ← get;
    let '(t, w, refund) := refund_weight current_surplus (trader s) (world s) in
    modify (λ s, set_world w (set_trader t s)) ;;
    match refund with
    | Some a => subsume a
    | None => mret tt
    end
  else mret tt.

(** [append_with] does not panic ([MultiLocation.append_with_spec]). *)
Definition descend (l : MultiLocation) (who : Junctions) : result XcmError MultiLocation :=
  match MultiLocation.append_with l who with
  | Some (Ok l) => Ok l
  | _ => Err MultiLocationFull
  end.

Definition take_from_holding (f : Assets.Assets → Assets.Assets * Assets.Assets) : Exec Assets.Assets :=
  λ s, let '(h, taken) := f (holding s) in (set_holding h s, Ok taken).

Definition process_instruction (instr : Instruction) : Exec unit :=
  match instr with
  | WithdrawAsset assets =>
      origin ← get_origin;
      for_each assets (λ asset, on_world (withdraw_asset asset origin) ;; subsume asset)
  | ReserveAssetDeposited assets =>
      origin ← get_origin;
      for_each assets (λ asset,
        ensure (is_reserve asset origin) UntrustedReserveLocation ;; subsume asset)
  | TransferAsset assets beneficiary =>
      origin ← get_origin;
      for_each assets (λ asset, on_world (transfer_asset asset origin beneficiary))
  | TransferReserveAsset assets dest xcm =>
      origin ← get_origin;
      for_each assets (λ asset, on_world (transfer_asset asset origin dest)) ;;
      match MultiAssets.reanchor dest location_ancestry assets with
      | Err _ => throw MultiLocationFull
      | Ok assets => send dest (ReserveAssetDeposited assets :: ClearOrigin :: xcm)
      end
  | ReceiveTeleportedAsset assets =>
      origin ← get_origin;
      for_each assets (λ asset,
        ensure (is_teleporter asset origin) UntrustedTeleportLocation ;;
        s ← get;
        lift (can_check_in origin asset (world s))) ;;
      for_each assets (λ asset, modify_world (check_in origin asset) ;; subsume asset)
  | Transact origin_type require_weight_at_most call =>
      origin ← get_origin;
      message_call ← lift (ok_or (take_decoded call) FailedToDecode);
      dispatch_origin ← lift (ok_or (convert_origin origin origin_type) XcmBadOrigin);
      let weight := dispatch_weight message_call in
      ensure (bool_decide (weight ≤ require_weight_at_most)) MaxWeightInvalid ;;
      s ← get;
      let '(w, actual) := dispatch_call message_call dispatch_origin (world s) in
      modify (set_world w) ;;
      let actual_weight := default weight actual in
      let surplus := saturating_sub weight actual_weight in
      modify (accrue_surplus surplus)
  | QueryResponse query_id response max_weight =>
      origin ← get_origin;
      modify_world (on_response origin query_id response max_weight)
  | DescendOrigin who =>
      origin ← get_origin;
      location ← lift (descend origin who);
      modify (set_origin (Some location))
  | ClearOrigin => modify (set_origin None)
  | ReportError query_id dest max_response_weight =>
      s ← get;
      send dest [QueryResponse query_id (ExecutionResult (error s)) max_response_weight]
  | DepositAsset assets max_assets beneficiary =>
      deposited ← take_from_holding (Assets.limited_saturating_take assets max_assets);
      for_each (Assets.assets_iter deposited) (λ asset, on_world (deposit_asset asset beneficiary))
  | DepositReserveAsset assets max_assets dest xcm =>
      deposited ← take_from_holding (Assets.limited_saturating_take assets max_assets);
      for_each (Assets.assets_iter deposited) (λ asset, on_world (deposit_asset asset dest)) ;;
      let '(assets, _) := reanchored deposited dest None in
      send dest (ReserveAssetDeposited assets :: ClearOrigin :: xcm)
  | InitiateReserveWithdraw assets reserve xcm =>
      taken ← take_from_holding (Assets.saturating_take assets);
      s ← get;
      let '(assets, bin) := reanchored taken reserve (Some (holding s)) in
      modify (set_holding (default (holding s) bin)) ;;
      send reserve (WithdrawAsset assets :: ClearOrigin :: xcm)
  | InitiateTeleport assets dest xcm =>
      assets ← take_from_holding (Assets.saturating_take assets);
      for_each (Assets.assets_iter assets) (λ asset, modify_world (check_out dest asset)) ;;
      let '(assets, _) := reanchored assets dest None in
      send dest (ReceiveTeleportedAsset assets :: ClearOrigin :: xcm)
  | QueryHolding query_id dest assets max_response_weight =>
      s ← get;
      let '(assets, _) := reanchored (Assets.min assets (holding s)) dest None in
      send dest [QueryResponse query_id (AssetsResponse assets) max_response_weight]
  | BuyExecution fees weight_limit =>
      match weight_limit with
      | Unlimited => mret tt
      | Limited weight =>
          s ← get;
          let '(h, taken) := Assets.try_take (Definite [fees]) (holding s) in
          modify (set_holding h) ;;
          max_fee ← lift (match taken with Ok t => Ok t | Err _ => Err NotHoldingFees end);
          s ← get;
          let '(t, w, bought) := buy_weight weight max_fee (trader s) (world s) in
          modify (λ s, set_world w (set_trader t s)) ;;
          unspent ← lift bought;
          modify (λ s, set_holding (Assets.subsume_assets unspent (holding s)) s)
      end
  | RefundSurplus => refund_surplus
  | SetErrorHandler handler =>
      handler_weight ← lift (match weigh handler with Ok w => Ok w | Err _ => Err WeightNotComputable end);
      modify (λ s, set_error_handler handler handler_weight (accrue_surplus (error_handler_weight s) s))
  | SetAppendix appendix =>
      weight ← lift (match weigh appendix with Ok w => Ok w | Err _ => Err WeightNotComputable end);
      modify (λ s, set_appendix appendix weight (accrue_surplus (appendix_weight s) s))
  | ClearError => modify (set_error None)
  | ClaimAsset assets ticket =>
      origin ← get_origin;
      s ← get;
      let '(w, ok) := claim_assets origin ticket assets (world s) in
      modify (set_world w) ;;
      ensure ok UnknownClaim ;;
      for_each assets subsume
  | Trap code => throw (XcmTrap code)
  | SubscribeVersion query_id max_response_weight =>
      origin ← get_origin;
      s ← get;
      ensure (bool_decide (original_origin s = origin)) XcmBadOrigin ;;
      on_world (subscribe origin query_id max_response_weight)
  | UnsubscribeVersion =>
      origin ← get_origin;
      s ← get;
      ensure (bool_decide (original_origin s = origin)) XcmBadOrigin ;;
      on_world (unsubscribe origin)
  | ExchangeAsset _ _ | HrmpNewChannelOpenRequest _ _ _ | HrmpChannelAccepted _
  | HrmpChannelClosing _ _ _ => throw Unimplemented
  end.

Record ExecutorError := mkExecutorError {
  index : Z;
  xcm_error : XcmError;
  err_weight : Z;
}.

(** The loop of [execute] from instruction [i] on; after an error the weight of
    the instructions that are skipped is added up. *)
Fixpoint execute_loop (i : Z) (xcm : Xcm) (result_ : result ExecutorError unit) (s : VM) :
    VM * result ExecutorError unit :=
  match xcm with
  | [] => (s, result_)
  | instr :: xcm =>
      match result_ with
      | Ok _ =>
          match process_instruction instr (count_step s) with
          | (s, Ok _) => execute_loop (i + 1) xcm (Ok tt) s
          | (s, Err e) => execute_loop (i + 1) xcm (Err (mkExecutorError (wrap32 i) e 0)) s
          end
      | Err error =>
          let error := match instr_weight instr with
                       | Ok x => mkExecutorError (index error) (xcm_error error)
                                   (u64_saturating_add (err_weight error) x)
                       | Err _ => error
                       end in
          execute_loop (i + 1) xcm (Err error) s
      end
  end.

Definition execute (xcm : Xcm) (s : VM) : VM * result ExecutorError unit :=
  execute_loop 0 xcm (Ok tt) s.

Definition take_error_handler (s : VM) : VM * Xcm := (set_error_handler [] 0 s, error_handler s).
Definition drop_error_handler (s : VM) : VM :=
  set_error_handler [] 0 (accrue_surplus (error_handler_weight s) s).
Definition take_appendix (s : VM) : VM * Xcm := (set_appendix [] 0 s, appendix s).

(** What runs after a fragment: the error handler, or the appendix. *)
Definition next_message (r : result ExecutorError unit) (s : VM) : VM * Xcm :=
  match r with
  | Err error =>
      let s := set_error (Some (index error, xcm_error error)) (accrue_surplus (err_weight error) s) in
      let '(s, handler) := take_error_handler s in
      match handler with
      | [] => take_appendix s
      | _ => (s, handler)
      end
  | Ok _ => take_appendix (drop_error_handler s)
  end.

(** [while !message.0.is_empty()]; [None] when [fuel] rounds are not enough. *)
Fixpoint run_loop (fuel : nat) (message : Xcm) (s : VM) : option VM :=
  match message with
  | [] => Some s
  | _ =>
      match fuel with
      | 0%nat => None
      | S fuel =>
          let '(s, r) := execute message s in
          let '(s, message) := next_message r s in
          run_loop fuel message s
      end
  end.

Definition post_execute (xcm_weight : Z) (s : VM) : W * Outcome :=
  let s := (refund_surplus s).1 in
  let w := trader_drop (trader s) (world s) in
  let weight_used := saturating_sub xcm_weight (total_surplus s) in
  let '(w, weight_used) :=
    if Assets.is_empty (holding s) then (w, weight_used)
    else
      let '(w, trap_weight) := drop_assets (original_origin s) (holding s) w in
      (w, u64_saturating_add weight_used trap_weight) in
  match error s with
  | None => (w, Complete weight_used)
  | Some (_, e) => (w, Incomplete weight_used e)
  end.

Definition new (origin_ : MultiLocation) (w : W) : VM :=
  mkVM Assets.new (Some origin_) origin_ trader_new None 0 0 [] 0 [] 0 w 0.

(** [size] rounds are enough ([run_loop_terminates]). *)
Definition execute_xcm_in_credit (barrier : ShouldExecute) (origin_ : MultiLocation) (message : Xcm)
    (weight_limit weight_credit : Z) (w : W) : option (W * Outcome) :=
  match weigh message with
  | Err _ => Some (w, OutcomeError WeightNotComputable)
  | Ok xcm_weight =>
      if decide (weight_limit < xcm_weight) then Some (w, OutcomeError (WeightLimitReached xcm_weight))
      else
        match barrier origin_ xcm_weight (message, weight_credit) with
        | (_, Err _) => Some (w, OutcomeError BarrierError)
        | ((message, _), Ok _) =>
            post_execute xcm_weight <$>
              run_loop (Z.to_nat (FixedWeightBounds.size message)) message (new origin_ w)
        end
  end.

(** ** What an instruction leaves alone *)

(** The registers that hold programs and weights, and the step counter. *)
Definition frame (s s' : VM) : Prop :=
  error_handler s' = error_handler s ∧ error_handler_weight s' = error_handler_weight s ∧
  appendix s' = appendix s ∧ appendix_weight s' = appendix_weight s ∧
  total_surplus s' = total_surplus s ∧ steps s' = steps s.

Definition framed {A} (m : Exec A) : Prop := ∀ s, frame s (m s).1.

Lemma frame_refl s : frame s s.
Proof. done. Qed.

Lemma frame_trans s s1 s2 : frame s s1 → frame s1 s2 → frame s s2.
Proof. unfold frame. intuition congruence. Qed.

Lemma framed_bind {A B} (m : Exec A) (f : A → Exec B) :
  framed m → (∀ a, framed (f a)) → framed (m ≫= f).
Proof.
  intros Hm Hf s. unfold mbind, M_bind. specialize (Hm s).
  destruct (m s) as [s1 [a|e]]; cbn in *; [|done]. eapply frame_trans; [exact Hm|apply Hf].
Qed.

Lemma framed_get {A} (f : VM → Exec A) : (∀ s, framed (f s)) → framed (get ≫= f).
Proof. intros Hf s. apply Hf. Qed.

Lemma framed_ret {A} (a : A) : framed (mret a). Proof. done. Qed.
Lemma framed_lift {A} (r : result XcmError A) : framed (lift r). Proof. done. Qed.
Lemma framed_throw {A} e : framed (throw (A := A) e). Proof. done. Qed.
Lemma framed_ensure b e : framed (ensure b e). Proof. done. Qed.
Lemma framed_modify f : (∀ s, frame s (f s)) → framed (modify f).
Proof. intros Hf s. apply Hf. Qed.
Lemma framed_on_world f : framed (on_world f).
Proof. intros s. unfold on_world. by destruct (f (world s)). Qed.
Lemma framed_modify_world f : framed (modify_world f). Proof. done. Qed.
Lemma framed_subsume a : framed (subsume a). Proof. done. Qed.
Lemma framed_take f : framed (take_from_holding f).
Proof. intros s. unfold take_from_holding. by destruct (f (holding s)). Qed.
Lemma framed_origin : framed get_origin. Proof. done. Qed.
Lemma framed_send dest msg : framed (send dest msg). Proof. apply framed_on_world. Qed.
Lemma framed_for_each l f : (∀ a, framed (f a)) → framed (for_each l f).
Proof.
  intros Hf. induction l as [|a l IH]; cbn; [apply framed_ret|].
  by apply framed_bind.
Qed.
Lemma framed_refund : framed refund_surplus.
Proof.
  unfold refund_surplus. apply framed_get. intros s. cbn zeta.
  case_decide; [|apply framed_ret].
  apply framed_bind; [by apply framed_modify|]. intros _. apply framed_get. intros s1.
  destruct (refund_weight _ _ _) as [[t w] r]. apply framed_bind; [by apply framed_modify|]. intros _.
  destruct r; [apply framed_subsume|apply framed_ret].
Qed.

Create HintDb framed.
#[local] Hint Resolve framed_ret framed_lift framed_throw framed_ensure framed_on_world
  framed_modify_world framed_subsume framed_take framed_origin framed_send framed_refund : framed.

Ltac framed_step :=
  cbn zeta;
  match goal with
  | |- framed (get ≫= _) => apply framed_get; intros ?
  | |- framed (_ ≫= _) => apply framed_bind; [|intros ?]
  | |- framed (for_each _ _) => apply framed_for_each; intros ?
  | |- framed (modify _) => apply framed_modify; intros ?; split_and!; reflexivity
  | |- framed (match ?x with _ => _ end) => destruct x
  | |- framed _ => solve [auto with framed nocore]
  end.

(** The three instructions that change those registers. *)
Definition sets_registers (i : Instruction) : bool :=
  match i with Transact _ _ _ | SetErrorHandler _ | SetAppendix _ => true | _ => false end.

Lemma process_framed i : sets_registers i = false → framed (process_instruction i).
Proof.
  intros Hi. destruct i; cbn [process_instruction] in *; try discriminate Hi;
    repeat framed_step.
Qed.

(** ** Budgets

    [gross] is the weight of a program with its handlers and appendices, [size]
    the number of its instructions.  What the registers hold, what has been
    processed and what was given back never exceeds what the weigher counted. *)

Abbreviation gross := (FixedWeightBounds.gross unit_weight).
Abbreviation instr_gross := (FixedWeightBounds.instr_gross unit_weight).
Abbreviation size := FixedWeightBounds.size.
Abbreviation instr_size := FixedWeightBounds.instr_size.
Abbreviation wf := FixedWeightBounds.wf.
Abbreviation instr_wf := FixedWeightBounds.instr_wf.

#[local] Arguments FixedWeightBounds.size : simpl never.
#[local] Arguments FixedWeightBounds.gross : simpl never.
#[local] Arguments FixedWeightBounds.wf : simpl never.

(** Weights are [u64]: they are not negative. *)
Context (Hunit : 0 ≤ unit_weight)
  (Hactual : ∀ c o w w' a, dispatch_call c o w = (w', Some a) → 0 ≤ a).

Record regs_ok (s : VM) : Prop := {
  regs_handler : error_handler_weight s = gross (error_handler s);
  regs_appendix : appendix_weight s = gross (appendix s);
  regs_handler_wf : wf (error_handler s) ∧ size (error_handler s) ≤ u32_max;
  regs_appendix_wf : wf (appendix s) ∧ size (appendix s) ≤ u32_max;
}.

Definition budget (s : VM) : Z :=
  total_surplus s + error_handler_weight s + appendix_weight s + unit_weight * steps s.
Definition stored (s : VM) : Z := size (error_handler s) + size (appendix s).

Lemma weigh_gross x w : wf x → size x ≤ u32_max → weigh x = Ok w → w = gross x.
Proof.
  intros Hwf Hsz. unfold FixedWeightBounds.weight.
  rewrite (FixedWeightBounds.message_spec_all unit_weight Hunit x _ Hwf Hsz).
  case_decide; congruence.
Qed.

Lemma instr_weight_gross i w :
  instr_wf i → instr_size i ≤ u32_max → instr_weight i = Ok w → w = instr_gross i.
Proof.
  intros Hwf Hsz. unfold FixedWeightBounds.instr_weight.
  rewrite (FixedWeightBounds.all_instr_spec unit_weight Hunit i _ Hwf Hsz) by (unfold u32_max; lia).
  case_decide; congruence.
Qed.

Lemma saturating_add_le a b : u64_saturating_add a b ≤ a + b.
Proof. unfold u64_saturating_add. lia. Qed.

Lemma instr_gross_unit i : instr_wf i → unit_weight ≤ instr_gross i.
Proof.
  intros Hwf. destruct i; cbn in *; unfold is_u64 in *; try lia.
  - pose proof (FixedWeightBounds.gross_nonneg unit_weight Hunit xcm Hwf) as Hg.
    unfold FixedWeightBounds.gross in Hg. lia.
  - pose proof (FixedWeightBounds.gross_nonneg unit_weight Hunit xcm Hwf) as Hg.
    unfold FixedWeightBounds.gross in Hg. lia.
Qed.

Definition within (i : Instruction) (s s' : VM) : Prop :=
  regs_ok s' ∧ budget s' ≤ budget s + instr_gross i ∧
  stored s' ≤ stored s + instr_size i - 1 ∧ steps s' = steps s + 1.

Lemma within_frame i s s' :
  regs_ok s → instr_wf i → frame (count_step s) s' → within i s s'.
Proof.
  intros [H1 H2 H3 H4] Hwf (F1 & F2 & F3 & F4 & F5 & F6). cbn in *.
  pose proof (instr_gross_unit i Hwf). pose proof (FixedWeightBounds.instr_size_pos i).
  unfold within, budget, stored. rewrite F1, F2, F3, F4, F5, F6.
  split_and!; [split; by rewrite ?F1, ?F2, ?F3, ?F4|lia..].
Qed.

(** The part of [Transact] before the surplus is credited leaves the registers
    alone; the surplus is at most the declared weight. *)
Lemma transact_within k r c s :
  regs_ok s → instr_wf (Transact k r c) →
  within (Transact k r c) s (process_instruction (Transact k r c) (count_step s)).1.
Proof.
  intros Hs Hwf. assert (0 ≤ r) as Hr by (cbn in Hwf; unfold is_u64 in Hwf; lia).
  cbn [process_instruction]. unfold get_origin, lift, ok_or, ensure, get, modify, mbind, M_bind.
  cbn [origin count_step]. destruct (origin s) as [l|]; [|by apply within_frame].
  destruct (take_decoded c) as [mc|]; [|by apply within_frame].
  destruct (convert_origin l k) as [o|]; [|by apply within_frame].
  case_bool_decide as Hle; [|by apply within_frame]. cbn [world count_step].
  destruct (dispatch_call mc o (world s)) as [w' actual] eqn:E. cbn.
  destruct Hs as [H1 H2 H3 H4]. unfold within, budget, stored. cbn.
  pose proof (saturating_add_le (total_surplus s)
    (saturating_sub (dispatch_weight mc) (default (dispatch_weight mc) actual))) as Hsat.
  assert (saturating_sub (dispatch_weight mc) (default (dispatch_weight mc) actual) ≤ r).
  { unfold saturating_sub. destruct actual as [a|]; cbn; [|lia].
    apply Hactual in E. lia. }
  split_and!; [by split|lia..].
Qed.

Lemma set_handler_within x s :
  regs_ok s → wf x → instr_size (SetErrorHandler x) ≤ u32_max →
  within (SetErrorHandler x) s (process_instruction (SetErrorHandler x) (count_step s)).1.
Proof.
  intros Hs Hwf Hsz. cbn [process_instruction]. unfold lift, modify, mbind, M_bind.
  cbn in Hsz. fold (size x) in Hsz.
  destruct (weigh x) as [w|e] eqn:E; [|by apply within_frame].
  apply weigh_gross in E; [|done|lia]. subst w. destruct Hs as [H1 H2 H3 H4].
  pose proof (saturating_add_le (total_surplus s) (error_handler_weight s)).
  unfold within, budget, stored. cbn. fold (size x) (gross x).
  assert (0 ≤ size (error_handler s)) by (pose proof (FixedWeightBounds.size_length (error_handler s)); lia).
  split_and!; [|lia..]. split; cbn; [done|done|split; [done|lia]|done].
Qed.

Lemma set_appendix_within x s :
  regs_ok s → wf x → instr_size (SetAppendix x) ≤ u32_max →
  within (SetAppendix x) s (process_instruction (SetAppendix x) (count_step s)).1.
Proof.
  intros Hs Hwf Hsz. cbn [process_instruction]. unfold lift, modify, mbind, M_bind.
  cbn in Hsz. fold (size x) in Hsz.
  destruct (weigh x) as [w|e] eqn:E; [|by apply within_frame].
  apply weigh_gross in E; [|done|lia]. subst w. destruct Hs as [H1 H2 H3 H4].
  pose proof (saturating_add_le (total_surplus s) (appendix_weight s)).
  unfold within, budget, stored. cbn. fold (size x) (gross x).
  assert (0 ≤ size (appendix s)) by (pose proof (FixedWeightBounds.size_length (appendix s)); lia).
  split_and!; [|lia..]. split; cbn; [done|done|done|split; [done|lia]].
Qed.

Lemma process_within i s :
  regs_ok s → instr_wf i → instr_size i ≤ u32_max →
  within i s (process_instruction i (count_step s)).1.
Proof.
  intros Hs Hwf Hsz. destruct (sets_registers i) eqn:Hi.
  - destruct i; try discriminate Hi;
      [by apply transact_within|by apply set_handler_within|by apply set_appendix_within].
  - apply within_frame; [done|done|]. by apply process_framed.
Qed.

Lemma wf_cons i x : wf (i :: x) → instr_wf i ∧ wf x.
Proof. done. Qed.
Lemma size_cons i x : size (i :: x) = instr_size i + size x.
Proof. done. Qed.
Lemma gross_cons i x : gross (i :: x) = instr_gross i + gross x.
Proof. done. Qed.
Lemma size_nonneg x : 0 ≤ size x.
Proof. pose proof (FixedWeightBounds.size_length x). lia. Qed.

(** The weight of what was skipped. *)
Definition skipped (r : result ExecutorError unit) : Z :=
  match r with Ok _ => 0 | Err e => err_weight e end.

(** After an error the machine stands still. *)
Lemma execute_loop_err i xcm e s :
  wf xcm → size xcm ≤ u32_max →
  let '(s', r) := execute_loop i xcm (Err e) s in
  s' = s ∧ skipped r ≤ err_weight e + gross xcm.
Proof.
  revert i e. induction xcm as [|instr xcm IH]; intros i e Hwf Hsz.
  { cbn. split; [done|]. unfold FixedWeightBounds.gross. cbn. lia. }
  apply wf_cons in Hwf as [Hi Hwf]. rewrite size_cons in Hsz. rewrite gross_cons.
  pose proof (size_nonneg xcm). pose proof (FixedWeightBounds.instr_size_pos instr).
  pose proof (instr_gross_unit instr Hi). cbn [execute_loop].
  set (e' := match instr_weight instr with Ok _ => _ | Err _ => _ end).
  assert (err_weight e' ≤ err_weight e + instr_gross instr).
  { subst e'. destruct (instr_weight instr) as [w|u] eqn:E; [|lia]. cbn.
    apply instr_weight_gross in E; [|done|lia]. subst w. apply saturating_add_le. }
  specialize (IH (i + 1) e' Hwf ltac:(lia)).
  destruct (execute_loop (i + 1) xcm (Err e') s) as [s' r]. destruct IH as [-> ?].
  split; [done|lia].
Qed.

Lemma execute_within i xcm s :
  regs_ok s → wf xcm → size xcm ≤ u32_max →
  let '(s', r) := execute_loop i xcm (Ok tt) s in
  regs_ok s' ∧ budget s' + skipped r ≤ budget s + gross xcm ∧
  stored s' + Z.of_nat (length xcm) ≤ stored s + size xcm ∧
  steps s ≤ steps s' ≤ steps s + Z.of_nat (length xcm).
Proof.
  revert i s. induction xcm as [|instr xcm IH]; intros i s Hs Hwf Hsz.
  { cbn. unfold FixedWeightBounds.gross, FixedWeightBounds.size. cbn. split_and!; [done|lia..]. }
  apply wf_cons in Hwf as [Hi Hwf]. rewrite size_cons in *. rewrite gross_cons.
  pose proof (size_nonneg xcm). pose proof (FixedWeightBounds.instr_size_pos instr).
  pose proof (FixedWeightBounds.size_length xcm).
  destruct (process_within instr s Hs Hi ltac:(lia)) as (Hr & Hb & Hst & Hsteps).
  cbn [execute_loop length]. destruct (process_instruction instr (count_step s)) as [s1 [[]|e]].
  - specialize (IH (i + 1) s1 Hr Hwf ltac:(lia)).
    destruct (execute_loop (i + 1) xcm (Ok tt) s1) as [s' r]. cbn in *.
    destruct IH as (? & ? & ? & ?). split_and!; [done|lia..].
  - pose proof (execute_loop_err (i + 1) xcm (mkExecutorError (wrap32 i) e 0) s1 Hwf ltac:(lia)) as He.
    destruct (execute_loop (i + 1) xcm _ s1) as [s' r]. cbn in *. destruct He as [-> ?].
    split_and!; [done|lia..].
Qed.

Lemma wf_nil : wf [] ∧ size [] ≤ u32_max.
Proof. split; [exact I|]. unfold FixedWeightBounds.size, u32_max. cbn. lia. Qed.

(** Passing to the next fragment moves a register into the message. *)
Lemma next_message_within r s :
  regs_ok s →
  let '(s', x) := next_message r s in
  regs_ok s' ∧ wf x ∧ size x ≤ u32_max ∧ steps s' = steps s ∧
  budget s' + gross x ≤ budget s + skipped r ∧ stored s' + size x ≤ stored s.
Proof.
  intros [H1 H2 [H3 H3'] [H4 H4']].
  pose proof (size_nonneg (error_handler s)). pose proof (size_nonneg (appendix s)).
  assert (gross [] = 0 ∧ size [] = 0) as [Hg0 Hs0] by done.
  destruct r as [[]|e]; cbn.
  - unfold drop_error_handler, budget, stored. cbn.
    pose proof (saturating_add_le (total_surplus s) (error_handler_weight s)).
    split_and!; [split; cbn; rewrite ?Hg0; (done || apply wf_nil)|done|done|done|lia|lia].
  - pose proof (saturating_add_le (total_surplus s) (err_weight e)).
    destruct (error_handler s) as [|i x] eqn:E; unfold budget, stored; cbn; rewrite ?E.
    + split_and!; [split; cbn; rewrite ?Hg0; (done || apply wf_nil)|done|done|done|lia|lia].
    + split_and!; [split; cbn; rewrite ?Hg0; (done || apply wf_nil)|done|done|done|lia|lia].
Qed.

Lemma run_loop_within fuel message s :
  regs_ok s → wf message → size message ≤ u32_max → size message + stored s ≤ Z.of_nat fuel →
  ∃ s', run_loop fuel message s = Some s' ∧ regs_ok s' ∧
    budget s' ≤ budget s + gross message ∧
    steps s ≤ steps s' ≤ steps s + size message + stored s.
Proof.
  revert message s. induction fuel as [|fuel IH]; intros message s Hs Hwf Hsz Hf.
  all: assert (0 ≤ stored s) by
    (unfold stored; pose proof (size_nonneg (error_handler s)); pose proof (size_nonneg (appendix s)); lia).
  all: destruct message as [|i m]; [exists s; split_and!; [done|done|unfold FixedWeightBounds.gross,
    FixedWeightBounds.size; cbn; lia..]|].
  { pose proof (FixedWeightBounds.size_length (i :: m)). cbn in *. lia. }
  cbn [run_loop]. unfold execute.
  pose proof (execute_within 0 (i :: m) s Hs Hwf Hsz) as He.
  destruct (execute_loop 0 (i :: m) (Ok tt) s) as [s1 r]. destruct He as (Hs1 & Hb1 & Hst1 & Hc1).
  pose proof (next_message_within r s1 Hs1) as Hn.
  destruct (next_message r s1) as [s2 x]. destruct Hn as (Hs2 & Hx & Hxs & Hc2 & Hb2 & Hst2).
  cbn [length] in Hst1, Hc1.
  destruct (IH x s2 Hs2 Hx Hxs) as (s' & -> & Hs' & Hb' & Hc'); [lia|].
  exists s'. split_and!; [done|done|lia..].
Qed.

(** C24. The executor stops, and the weight it charges was counted: a program
    that weighs [w] finishes, whatever the chain answers to its instructions,
    after processing at most as many instructions as the bound of the weigher;
    and what it gives back is covered, as the units of the instructions
    processed and the surplus together are at most [w]. *)
Theorem run_loop_bounded origin_ message w chain :
  wf message → size message ≤ u32_max → weigh message = Ok w →
  ∃ s, run_loop (Z.to_nat (size message)) message (new origin_ chain) = Some s ∧
    steps s ≤ max_instructions ∧
    0 ≤ w - total_surplus s ∧ unit_weight * steps s ≤ w - total_surplus s.
Proof.
  intros Hwf Hsz Hw.
  assert (size message ≤ max_instructions ∧ w = gross message) as [Hmax ->].
  { unfold FixedWeightBounds.weight in Hw.
    rewrite (FixedWeightBounds.message_spec_all unit_weight Hunit message _ Hwf Hsz) in Hw.
    case_decide as Hc; [|done]. injection Hw as <-. split; [apply Hc|done]. }
  pose proof (size_nonneg message).
  assert (regs_ok (new origin_ chain)) as Hnew
    by (split; [reflexivity|reflexivity|exact wf_nil|exact wf_nil]).
  destruct (run_loop_within (Z.to_nat (size message)) message (new origin_ chain) Hnew Hwf Hsz)
    as (s & Hs & [Hr1 Hr2 [Hr3 _] [Hr4 _]] & Hb & Hc).
  { change (stored (new origin_ chain)) with 0. lia. }
  change (stored (new origin_ chain)) with 0 in Hc.
  change (steps (new origin_ chain)) with 0 in Hc.
  assert (budget (new origin_ chain) = 0) as Hb0 by (unfold budget; cbn; lia).
  pose proof (FixedWeightBounds.gross_nonneg unit_weight Hunit _ Hr3).
  pose proof (FixedWeightBounds.gross_nonneg unit_weight Hunit _ Hr4).
  exists s. unfold budget at 1 in Hb. split_and!; [done|lia|nia|lia].
Qed.
End Executor.

(** ** Example: a chain that counts the calls it dispatches *)

Section Example.
#[local] Instance counting_config : Config Z unit unit unit := {|
  withdraw_asset _ _ w := (w, Ok tt);
  deposit_asset _ _ w := (w, Ok tt);
  transfer_asset _ _ _ w := (w, Ok tt);
  can_check_in _ _ _ := Ok tt;
  check_in _ _ w := w;
  check_out _ _ w := w;
  is_reserve _ _ := false;
  is_teleporter _ _ := false;
  xcm_sender _ _ w := (w, Ok tt);
  trader_new := tt;
  buy_weight _ a t w := (t, w, Ok a);
  refund_weight _ t w := (t, w, None);
  trader_drop _ w := w;
  take_decoded _ := Some tt;
  dispatch_weight _ := 5;
  dispatch_call _ _ w := (w + 1, Some 2);
  convert_origin _ _ := Some tt;
  on_response _ _ _ _ w := w;
  claim_assets _ _ _ w := (w, false);
  drop_assets _ _ w := (w, 0);
  subscribe _ _ _ w := (w, Ok tt);
  unsubscribe _ w := (w, Ok tt);
  location_ancestry := MultiLocation.here;
|}.

(** The second call is skipped and the appendix runs. *)
Definition example_program : Xcm :=
  [SetAppendix [ClearOrigin]; Transact Native 7 []; Trap 3; Transact Native 7 []].

Lemma run_loop_bounded_witness :
  ∃ s : VM (W := Z) (T := unit),
    run_loop 10 100 5 example_program (new (sibling 2000) 0) = Some s ∧
    steps s ≤ 100 ∧ 0 ≤ 64 - total_surplus s ∧ 10 * steps s ≤ 64 - total_surplus s.
Proof.
  assert (∀ (c o : unit) (w w' a : Z), dispatch_call c o w = (w', Some a) → 0 ≤ a) as Hactual.
  { intros c o w w' a Ha. cbn in Ha. simplify_eq. lia. }
  apply (run_loop_bounded 10 100 ltac:(lia) Hactual (sibling 2000) example_program 64 0);
    [repeat (split; [done || (cbn; unfold is_u64, u64_max; lia)|]); done|vm_compute; done|reflexivity].
Defined.
End Example.
End XcmExecutor.
