(* ===== verification/RenaultAccident.v ===== *)
(** * The Renault accident pallet

    [common-parachain-node/pallets/sim_renault_accident/src/lib.rs]: vehicles
    report accidents by the IPFS identifier of the accident data; the insurance
    chain asks for the data of an accident by XCM, and the pallet replies with
    an XCM that carries a call of the insurance pallet.  The world of the pallet
    is its own storage, the storage of [sim_renault], and the queues behind
    [T::XcmSender]. *)

From S2P Require Import Prelude.
From S2P Require Import Codec.
From S2P Require Import XcmTypes.
From S2P Require Import Frame.
From S2P Require Import Sha256.
From S2P Require Import SimRenault.

(** [[u8; 36]], an IPFS identifier. *)
Abbreviation IpfsId := (vec byte 36).

Module RenaultAccident.
Section Pallet.
Context {A O Q : Type} `{Countable A} `{!FrameOrigin O A} `{!Codec A} `{!Sha256} `{!SendXcm Q}.

Inductive GetAccidentDataError :=
| GetVehicleAccidentDataBadCount
| GetVehicleAccidentDataNotExist.

Inductive Event :=
| AccidentStored (vehicle_id : A) (count : Z) (data_hash : IpfsId)
| ReceiveVehicleDataRequest (para : ParaId) (vehicle_id : A) (accident_count : Z)
| SendVehicleDataRequestReply (para : ParaId) (vehicle_status : bool)
| ErrorSendVehicleDataRequestReply (para : ParaId) (e : SendError)
| NewIpfsStatus (ipfs_id : IpfsId) (status : Z).

Inductive Error :=
| UnknownVehicle
| AccidentAlreadyStored
| VehicleNotMatchingOrigin
| VehicleStatusError
| IpfsStatusError.

Record State := mkState {
  Accidents : gmap (vec byte 32) IpfsId;
  AccidentCount : gmap A Z;
  IpfsStatus : gmap IpfsId Z;
  events : list Event;
}.

Definition empty_state : State := mkState ∅ ∅ ∅ [].

Record World := mkWorld {
  renault : SimRenault.State A;
  accident : State;
  queues : Q;
}.

Definition on_accident (f : State → State) (w : World) : World :=
  mkWorld (renault w) (f (accident w)) (queues w).

Definition insert_Accidents k d (s : State) : State :=
  mkState (<[k := d]> (Accidents s)) (AccidentCount s) (IpfsStatus s) (events s).
Definition insert_AccidentCount v n (s : State) : State :=
  mkState (Accidents s) (<[v := n]> (AccidentCount s)) (IpfsStatus s) (events s).
Definition insert_IpfsStatus i st (s : State) : State :=
  mkState (Accidents s) (AccidentCount s) (<[i := st]> (IpfsStatus s)) (events s).
Definition deposit_event (e : Event) : Dispatch World Error :=
  modify (on_accident (λ s,
    mkState (Accidents s) (AccidentCount s) (IpfsStatus s) (events s ++ [e]))).

(** The call of the insurance runtime the reply carries, with the variant
    indexes the source fixes. *)
Inductive PalletSimInsuranceAccidentCall :=
| ReceiveData (vehicle_id : A) (count : Z) (data : IpfsId).
Inductive ParaChainCall :=
| PalletSimInsuranceAccident (c : PalletSimInsuranceAccidentCall).

Definition encode_call (c : ParaChainCall) : list byte :=
  match c with
  | PalletSimInsuranceAccident (ReceiveData v n d) =>
      byte_of_Z 103 :: byte_of_Z 1 :: encode v ++ encode n ++ encode d
  end.

Definition get_accident_data (vehicle_id : A) (accident_count : Z) (w : World) :
    result GetAccidentDataError IpfsId :=
  if decide (accident_count ≤ 0) then Err GetVehicleAccidentDataBadCount
  else
    let new_accident_count := accident_count - 1 in
    let parts := [encode vehicle_id; u32_to_le_bytes new_accident_count] in
    match Accidents (accident w) !! create_composite_key parts with
    | Some data => Ok data
    | None => Err GetVehicleAccidentDataNotExist
    end.

Definition report_accident (origin : O) (data_hash : IpfsId) : Dispatch World Error :=
  vehicle_id ← or_bad_origin (ensure_signed origin);
  w ← get;
  ensure (SimRenault.is_vehicle vehicle_id (renault w)) (Module UnknownVehicle) ;;
  let count := match AccidentCount (accident w) !! vehicle_id with
               | None => 0
               | Some val => val
               end in
  let key := create_composite_key [encode vehicle_id; u32_to_le_bytes count] in
  ensure (negb (contains_key key (Accidents (accident w)))) (Module AccidentAlreadyStored) ;;
  modify (on_accident (insert_Accidents key data_hash)) ;;
  modify (on_accident (insert_IpfsStatus data_hash 0)) ;;
  let next_count := u32_add count 1 in
  modify (on_accident (insert_AccidentCount vehicle_id next_count)) ;;
  deposit_event (AccidentStored vehicle_id count data_hash).

(** [T::XcmSender::send_xcm] on the queues of the world. *)
Definition send (dest : MultiLocation) (msg : Xcm) :
    M World (DispatchError Error) (result SendError unit) :=
  λ w, let '(q, r) := send_xcm dest msg (queues w) in
       (mkWorld (renault w) (accident w) q, Ok r).

Definition request_data (origin : O) (vehicle_id : A) (vehicle_accident_count : Z) :
    Dispatch World Error :=
  orgin_para ← or_bad_origin (ensure_sibling_para origin);
  deposit_event (ReceiveVehicleDataRequest orgin_para vehicle_id vehicle_accident_count) ;;
  w ← get;
  let vehicle_status := SimRenault.is_vehicle vehicle_id (renault w) in
  ensure vehicle_status (Module VehicleStatusError) ;;
  let dest_para := orgin_para in
  match get_accident_data vehicle_id vehicle_accident_count w with
  | Ok value =>
      let call := PalletSimInsuranceAccident
                    (ReceiveData vehicle_id vehicle_accident_count value) in
      sent ← send (sibling dest_para) (transact (encode_call call));
      match sent with
      | Ok _ => deposit_event (SendVehicleDataRequestReply orgin_para vehicle_status)
      | Err e =>
          deposit_event (ErrorSendVehicleDataRequestReply dest_para e) ;;
          throw (Other "SendXcmError")
      end
  | Err _ => throw (Other "Can't find data for vehicle")
  end.

Definition set_ipfs_status (origin : O) (ipfs_id : IpfsId) (status : Z) :
    Dispatch World Error :=
  _ ← or_bad_origin (ensure_signed origin);
  w ← get;
  ensure (contains_key ipfs_id (IpfsStatus (accident w))) (Module IpfsStatusError) ;;
  modify (on_accident (insert_IpfsStatus ipfs_id status)) ;;
  deposit_event (NewIpfsStatus ipfs_id status).

Inductive Call :=
| report_accident_call (data_hash : IpfsId)
| request_data_call (vehicle_id : A) (vehicle_accident_count : Z)
| set_ipfs_status_call (ipfs_id : IpfsId) (status : Z).

Definition dispatch (origin : O) (c : Call) : Dispatch World Error :=
  match c with
  | report_accident_call d => report_accident origin d
  | request_data_call v n => request_data origin v n
  | set_ipfs_status_call i st => set_ipfs_status origin i st
  end.

(** ** Accident logs

    What the pallet promises: a log of reported data per vehicle.  The three
    storage maps implement it: the counter is the length of the log (modulo
    the width of the counter), entry [i] of the log of [v] is stored under
    the key of [v] and [i], and every reported identifier has a status. *)

Definition logs : Type := A → list IpfsId.

Definition log_append (v : A) (d : IpfsId) (l : logs) : logs :=
  λ u, if decide (u = v) then l u ++ [d] else l u.

Record refines (l : logs) (s : State) : Prop := {
  ref_count v : match AccidentCount s !! v with None => 0 | Some n => n end
                = wrap32 (Z.of_nat (length (l v)));
  ref_entry v i d : l v !! i = Some d → Accidents s !! accident_key v (Z.of_nat i) = Some d;
  ref_only k d : Accidents s !! k = Some d →
    ∃ v i, k = accident_key v (Z.of_nat i) ∧ l v !! i = Some d;
  ref_cap v : Z.of_nat (length (l v)) ≤ 2 ^ 32;
  ref_status v d : d ∈ l v → is_Some (IpfsStatus s !! d);
}.

(** The entry the next report of [v] goes to is not already taken: the log of
    [v] has room in a [u32] counter, and no entry of the logs, of [v] or of
    another vehicle, was filed under the same digest. *)
Definition fresh (l : logs) (v : A) : Prop :=
  Z.of_nat (length (l v)) < 2 ^ 32 ∧
  ∀ u i, (i < length (l u))%nat →
    accident_key u (Z.of_nat i) ≠ accident_key v (Z.of_nat (length (l v))).

Lemma refines_nil : refines (λ _, []) empty_state.
Proof.
  split; cbn; try done; intros *; rewrite ?lookup_empty; try done.
  intros _ d Hd. by apply elem_of_nil in Hd.
Qed.

(** Logs are compared entry by entry. *)
#[export] Instance refines_proper : Proper (pointwise_relation A eq ==> eq ==> iff) refines.
Proof.
  assert (∀ l k s, pointwise_relation A eq l k → refines l s → refines k s) as Hext.
  { intros l k s Heq [Hc He Ho Hcap Hs]. split; intros *; rewrite <-?Heq; eauto.
    intros Hd. destruct (Ho _ _ Hd) as (v & i & -> & Hi). exists v, i. by rewrite <-Heq. }
  intros l k Heq s ? <-. split; apply Hext; [done|]. intros u. by rewrite (Heq u).
Qed.

Lemma refines_events l s es :
  refines l s → refines l (mkState (Accidents s) (AccidentCount s) (IpfsStatus s) es).
Proof. intros [? ? ? ? ?]. by split. Qed.

Lemma refines_status l s i st es :
  refines l s →
  refines l (mkState (Accidents s) (AccidentCount s) (<[i := st]> (IpfsStatus s)) es).
Proof.
  intros [? ? ? ? Hs]. split; cbn; try done. intros v d Hd.
  rewrite lookup_insert_is_Some'. right. by eapply Hs.
Qed.

Lemma log_append_eq v d l : log_append v d l v = l v ++ [d].
Proof. unfold log_append. by case_decide. Qed.

Lemma log_append_ne v u d l : u ≠ v → log_append v d l u = l u.
Proof. unfold log_append. by case_decide. Qed.

Lemma log_append_lookup v u d l i x :
  log_append v d l u !! i = Some x ↔
  l u !! i = Some x ∨ (u = v ∧ i = length (l v) ∧ x = d).
Proof.
  destruct (decide (u = v)) as [->|Hne].
  - rewrite log_append_eq, lookup_snoc_Some. split.
    + intros [[? ?]|[-> ->]]; naive_solver.
    + intros [Hx|(_ & -> & ->)]; [left|by right].
      split; [by eapply lookup_lt_Some|done].
  - rewrite log_append_ne by done. naive_solver.
Qed.

Lemma accident_key_wrap v (n : Z) : 0 ≤ n < 2 ^ 32 → accident_key v (wrap32 n) = accident_key v n.
Proof. intros. by rewrite wrap32_small by (unfold is_u32, u32_max; lia). Qed.

(** The slot the next report of [v] uses is the one [fresh] talks about, as
    long as the counter has not wrapped. *)
Lemma next_key l s v :
  refines l s → Z.of_nat (length (l v)) < 2 ^ 32 →
  create_composite_key [encode v;
    u32_to_le_bytes match AccidentCount s !! v with None => 0 | Some n => n end]
  = accident_key v (Z.of_nat (length (l v))).
Proof.
  intros Hr Hlt. rewrite (ref_count l s Hr v). apply accident_key_wrap. lia.
Qed.

Lemma fresh_lookup l s v :
  refines l s → fresh l v → Accidents s !! accident_key v (Z.of_nat (length (l v))) = None.
Proof.
  intros Hr [_ Hf]. destruct (Accidents s !! _) as [d|] eqn:E; [|done].
  apply (ref_only l s Hr) in E as (u & i & Hk & Hi).
  apply lookup_lt_Some in Hi. by destruct (Hf u i Hi).
Qed.

Lemma full_lookup l s v :
  refines l s → Z.of_nat (length (l v)) = 2 ^ 32 →
  is_Some (Accidents s !! create_composite_key [encode v;
    u32_to_le_bytes match AccidentCount s !! v with None => 0 | Some n => n end]).
Proof.
  intros Hr Hlen. rewrite (ref_count l s Hr v), Hlen.
  destruct (l v) as [|d k] eqn:E; [cbn in Hlen; lia|].
  exists d. apply (ref_entry l s Hr v 0). by rewrite E.
Qed.

Lemma refines_report l s v d es :
  refines l s → Z.of_nat (length (l v)) < 2 ^ 32 →
  Accidents s !! accident_key v (Z.of_nat (length (l v))) = None →
  refines (log_append v d l)
    (mkState (<[accident_key v (Z.of_nat (length (l v))) := d]> (Accidents s))
       (<[v := u32_add (match AccidentCount s !! v with None => 0 | Some n => n end) 1]>
          (AccidentCount s))
       (<[d := 0]> (IpfsStatus s)) es).
Proof.
  intros Hr Hlt Hnone. destruct Hr as [Hc He Ho Hcap Hs]. split; cbn.
  - intros u. rewrite lookup_insert. case_decide as Hu.
    + subst u. rewrite log_append_eq, length_app, Hc. unfold u32_add, wrap32. cbn.
      rewrite Zplus_mod_idemp_l. f_equal. lia.
    + rewrite log_append_ne by done. apply Hc.
  - intros u i x [Hx|(-> & -> & ->)]%log_append_lookup; [|by rewrite lookup_insert_eq].
    rewrite lookup_insert_ne; [by apply He|]. intros Heq. apply He in Hx. congruence.
  - intros k x [[<- <-]|[Hne Hx]]%lookup_insert_Some.
    + exists v, (length (l v)). rewrite log_append_lookup. naive_solver.
    + destruct (Ho k x Hx) as (u & i & -> & Hi). exists u, i.
      rewrite log_append_lookup. naive_solver.
  - intros u. destruct (decide (u = v)) as [->|Hne].
    + rewrite log_append_eq, length_app. cbn. lia.
    + rewrite log_append_ne by done. apply Hcap.
  - intros u x Hx. rewrite lookup_insert_is_Some'.
    apply list_elem_of_lookup_1 in Hx as [i Hi].
    apply log_append_lookup in Hi as [Hi|(_ & _ & ->)]; [right|by left].
    eapply Hs. by eapply list_elem_of_lookup_2.
Qed.

(** What a call does to the logs: only an accepted report appends. *)
Definition log_step {X} (origin : O) (c : Call) (r : result X unit) (l : logs) : logs :=
  match c, ensure_signed origin, r with
  | report_accident_call d, Some v, Ok _ => log_append v d l
  | _, _, _ => l
  end.

Lemma report_refines origin d l w :
  refines l (accident w) →
  let '(w', r) := report_accident origin d w in
  refines (log_step origin (report_accident_call d) r l) (accident w').
Proof.
  intros Hr. unfold report_accident, log_step. unfold_dispatch.
  destruct (ensure_signed origin) as [v|]; cbn; [|done].
  destruct (SimRenault.is_vehicle v (renault w)); cbn; [|done].
  destruct (contains_key _ _) eqn:E; cbn; [done|].
  apply contains_key_false in E.
  destruct (decide (Z.of_nat (length (l v)) = 2 ^ 32)) as [Hfull|Hnf].
  { pose proof (full_lookup _ _ _ Hr Hfull) as [x Hx]. congruence. }
  pose proof (ref_cap _ _ Hr v).
  rewrite (next_key l _ v Hr) in E |- * by lia.
  by apply refines_report; [|lia|].
Qed.

Lemma request_refines origin v n l w :
  refines l (accident w) → refines l (accident (request_data origin v n w).1).
Proof.
  intros Hr. unfold request_data, send. unfold_dispatch.
  repeat (case_match; cbn in *; simplify_eq); repeat apply refines_events; done.
Qed.

Lemma set_status_refines origin i st l w :
  refines l (accident w) → refines l (accident (set_ipfs_status origin i st w).1).
Proof.
  intros Hr. unfold set_ipfs_status. unfold_dispatch.
  repeat (case_match; cbn in *; simplify_eq); try done. by apply refines_status.
Qed.

(** C29. Refinement of the per-vehicle accident logs: from a state that
    implements some logs, every call, by any origin and whether it succeeds
    or fails, leads to a state that implements the same logs, or, exactly for
    an accepted report, the logs with the reported data appended for the
    vehicle that signed it. *)
Theorem dispatch_refines p origin c l w :
  refines l (accident w) →
  let '(w', r) := run p (dispatch origin c) w in
  refines (log_step origin c r l) (accident w').
Proof.
  intros Hr.
  assert (let '(w', r) := dispatch origin c w in
          refines (log_step origin c r l) (accident w')) as Hd.
  { destruct c as [d|v n|i st]; cbn [dispatch]; [by apply report_refines| |].
    - pose proof (request_refines origin v n l w Hr). by destruct (request_data _ _ _ _).
    - pose proof (set_status_refines origin i st l w Hr).
      by destruct (set_ipfs_status _ _ _ _). }
  unfold run. destruct (dispatch origin c w) as [w' [u|e]]; [done|].
  assert (log_step origin c (@Err _ unit e) l = l) as Hl.
  { unfold log_step. by destruct c, (ensure_signed origin). }
  destruct p; [done|]. by rewrite Hl.
Qed.

Lemma get_accident_data_key v n w :
  0 < n → get_accident_data v n w =
    match Accidents (accident w) !! accident_key v (n - 1) with
    | Some d => Ok d
    | None => Err GetVehicleAccidentDataNotExist
    end.
Proof. intros Hn. unfold get_accident_data. by rewrite decide_False by lia. Qed.

(** A report by an initialised vehicle is accepted whenever the next entry
    of its log is free, and the data just reported is what the pallet then
    returns for the new, one-based accident number of the vehicle. *)
Theorem report_then_get origin v d l w :
  refines l (accident w) →
  ensure_signed origin = Some v →
  SimRenault.is_vehicle v (renault w) = true →
  fresh l v →
  ∃ w', report_accident origin d w = (w', Ok tt)
    ∧ get_accident_data v (Z.of_nat (length (l v)) + 1) w' = Ok d
    ∧ IpfsStatus (accident w') !! d = Some 0.
Proof.
  intros Hr Ho Hv Hf. pose proof (fresh_lookup _ _ _ Hr Hf) as Hnone.
  destruct Hf as [Hlt _]. unfold report_accident. unfold_dispatch.
  rewrite Ho. cbn. rewrite Hv. cbn.
  rewrite (next_key l _ v Hr) by lia.
  apply contains_key_false in Hnone. rewrite Hnone. cbn.
  eexists. split; [done|]. split; [|by cbn; rewrite lookup_insert_eq].
  rewrite get_accident_data_key by lia. cbn.
  by rewrite Z.add_simpl_r, lookup_insert_eq.
Qed.

(** Bound of the counter: once a vehicle has [2^32] reports its [u32]
    counter has wrapped to zero, and every further report of the vehicle is
    refused, with nothing written. *)
Theorem report_full_log origin v d l w :
  refines l (accident w) →
  ensure_signed origin = Some v →
  SimRenault.is_vehicle v (renault w) = true →
  Z.of_nat (length (l v)) = 2 ^ 32 →
  default 0 (AccidentCount (accident w) !! v) = 0 ∧
  report_accident origin d w = (w, Err (Module AccidentAlreadyStored)).
Proof.
  intros Hr Ho Hv Hlen. split.
  - pose proof (ref_count _ _ Hr v) as Hc. rewrite Hlen in Hc.
    by destruct (AccidentCount (accident w) !! v).
  - pose proof (full_lookup _ _ _ Hr Hlen) as Hfull. apply contains_key_true in Hfull.
    unfold report_accident. unfold_dispatch. rewrite Ho. cbn. rewrite Hv. cbn.
    by rewrite Hfull.
Qed.

(** One call of the pallet, by any origin, under any storage policy. *)
Definition step (w w' : World) : Prop :=
  ∃ p origin c, w' = (run p (dispatch origin c) w).1.

Lemma dispatch_keeps_accidents origin c w k d :
  Accidents (accident w) !! k = Some d →
  Accidents (accident (dispatch origin c w).1) !! k = Some d.
Proof.
  intros Hk. destruct c; cbn; unfold report_accident, request_data, set_ipfs_status, send;
    unfold_dispatch; repeat (case_match; cbn in *; simplify_eq); try done;
    (rewrite lookup_insert_ne; [done|]; case_storage; congruence).
Qed.

(** C30. Accident data is permanent: what the pallet returns for an accident
    number of a vehicle is never changed or withdrawn by any later calls. *)
Theorem accident_data_permanent w w' v n d :
  rtc step w w' → get_accident_data v n w = Ok d → get_accident_data v n w' = Ok d.
Proof.
  induction 1 as [|w w1 w' (p & o & c & ->) _ IH]; [done|]. intros Hg. apply IH.
  unfold get_accident_data in *. case_decide; [done|].
  destruct (Accidents (accident w) !! _) as [x|] eqn:E; [|done]. simplify_eq.
  pose proof (run_preserves (λ w, Accidents (accident w) !!
    create_composite_key [encode v; u32_to_le_bytes (n - 1)] = Some d) p (dispatch o c) w E
    (dispatch_keeps_accidents o c w _ _ E)) as Hk.
  by rewrite Hk.
Qed.

(** A data request from a sibling chain succeeds exactly when the vehicle is
    initialised, the accident number has data, and the sender takes the
    reply; the reply then is one [Transact] to the requesting chain, whose
    payload is the call [ReceiveData] with the same vehicle and number and
    with the stored data. *)
Theorem request_data_replies origin para v n w w' :
  ensure_sibling_para origin = Some para →
  request_data origin v n w = (w', Ok tt) ↔
  ∃ d q,
    SimRenault.is_vehicle v (renault w) = true ∧
    get_accident_data v n w = Ok d ∧
    send_xcm (sibling para)
      [Transact Native 1000 (encode_call (PalletSimInsuranceAccident (ReceiveData v n d)))]
      (queues w) = (q, Ok tt) ∧
    w' = mkWorld (renault w)
           (mkState (Accidents (accident w)) (AccidentCount (accident w))
              (IpfsStatus (accident w))
              (events (accident w) ++ [ReceiveVehicleDataRequest para v n;
                                       SendVehicleDataRequestReply para true])) q.
Proof.
  intros Ho. unfold request_data, send, transact, deposit_event, on_accident. unfold_dispatch. rewrite Ho. cbn.
  destruct (SimRenault.is_vehicle v (renault w)); cbn; [|naive_solver].
  unfold get_accident_data. cbn.
  case_decide; [naive_solver|].
  destruct (Accidents (accident w) !! _) as [d|]; cbn; [|naive_solver].
  destruct (send_xcm _ _ _) as [q [[]|e]] eqn:E; cbn.
  - rewrite <-(app_assoc _ [_] [_]). cbn. split.
    + intros ?. simplify_eq. eauto 10.
    + intros (d' & q' & _ & ? & ? & ->). simplify_eq. rewrite E in *. simplify_eq. eauto.
  - split; [done|]. intros (d' & q' & _ & ? & HE & _). simplify_eq. by rewrite E in HE.
Qed.
End Pallet.

(** ** Examples: account 9 is an initialised vehicle *)

Section Examples.
#[local] Existing Instances pad32 outbox_send.

Definition example_data (z : Z) : IpfsId := vreplicate 35 Byte.x00 +++ [# byte_of_Z z].

Definition example_world (s : State) : World (A := Z) (Q := outbox) :=
  mkWorld SimRenault.example_state s [].

(** The world after vehicle 9 has reported one accident. *)
Definition reported_world : World :=
  (report_accident (Signed 9) (example_data 1) (example_world empty_state)).1.

Definition one_log : logs := log_append 9 (example_data 1) (λ _, []).

Lemma dispatch_refines_witness :
  refines (log_append 9 (example_data 1) (λ _ : Z, []))
    (accident (report_accident (Signed 9) (example_data 1) (example_world empty_state)).1).
Proof.
  exact (dispatch_refines Plain (Signed 9) (report_accident_call (example_data 1))
           (λ _, []) (example_world empty_state) refines_nil).
Defined.

Lemma fresh_nil (v : Z) : fresh (λ _, []) v.
Proof. split; cbn; [lia|intros; lia]. Qed.

Lemma report_then_get_witness :
  ∃ w', report_accident (Signed 9) (example_data 1) (example_world empty_state) = (w', Ok tt)
    ∧ get_accident_data 9 1 w' = Ok (example_data 1)
    ∧ IpfsStatus (accident w') !! example_data 1 = Some 0.
Proof.
  apply (report_then_get (Signed 9) 9 (example_data 1) (λ _, []) (example_world empty_state)
           refines_nil); [reflexivity|vm_compute; reflexivity|apply fresh_nil].
Defined.

Lemma accident_data_permanent_witness :
  get_accident_data 9 1 reported_world = Ok (example_data 1) ∧
  get_accident_data 9 1
    (run Plain (dispatch (Signed 9) (report_accident_call (example_data 2))) reported_world).1
  = Ok (example_data 1).
Proof.
  split; [vm_compute; reflexivity|].
  apply (accident_data_permanent reported_world); [|vm_compute; reflexivity].
  apply rtc_once. exists Plain, (Signed 9), (report_accident_call (example_data 2)).
  reflexivity.
Defined.

Lemma request_data_replies_witness :
  request_data (SiblingParachain 3000) 9 1 reported_world =
    (mkWorld (renault reported_world)
       (mkState (Accidents (accident reported_world)) (AccidentCount (accident reported_world))
          (IpfsStatus (accident reported_world))
          (events (accident reported_world) ++
             [ReceiveVehicleDataRequest 3000 9 1; SendVehicleDataRequestReply 3000 true]))
       [(sibling 3000, transact (encode_call
           (PalletSimInsuranceAccident (ReceiveData 9 1 (example_data 1)))))], Ok tt).
Proof.
  apply (request_data_replies (SiblingParachain 3000) 3000 9 1); [reflexivity|].
  eexists _, _. split_and!; [vm_compute; reflexivity|vm_compute; reflexivity| |reflexivity].
  reflexivity.
Defined.

(** Logs of any length up to the bound are implemented by some state. *)
Definition repeat_log (n : nat) : logs := λ u, if decide (u = 9) then replicate n (example_data 1) else [].

Lemma repeat_log_refined n : Z.of_nat n ≤ 2 ^ 32 → ∃ s, refines (repeat_log n) s.
Proof.
  induction n as [|n IH]; intros Hn.
  { exists empty_state. eapply refines_proper; [|reflexivity|exact refines_nil].
    intros u. unfold repeat_log. by case_decide. }
  destruct IH as [s Hs]; [lia|].
  assert (length (repeat_log n 9) = n) as Hlen by apply length_replicate.
  assert (Accidents s !! accident_key 9 (Z.of_nat n) = None) as Hnone.
  { rewrite <-Hlen at 1. apply fresh_lookup; [done|]. split; [rewrite Hlen; lia|].
    intros u i Hi Heq. unfold repeat_log in Hi. case_decide; [subst u|cbn in Hi; lia].
    rewrite length_replicate in Hi. rewrite Hlen in Heq.
    apply pad32_accident_key in Heq as [_ Heq]; unfold is_u32, u32_max; lia. }
  eexists. eapply refines_proper; [|reflexivity|apply (refines_report _ _ 9 (example_data 1) [] Hs)].
  - intros u. unfold log_append, repeat_log. case_decide; [|done].
    by rewrite <-replicate_S_end.
  - rewrite Hlen. lia.
  - by rewrite Hlen.
Qed.

Lemma report_full_log_witness :
  ∃ w : World (A := Z) (Q := outbox), default 0 (AccidentCount (accident w) !! 9) = 0 ∧
    report_accident (Signed 9) (example_data 2) w = (w, Err (Module AccidentAlreadyStored)).
Proof.
  destruct (repeat_log_refined (Z.to_nat (2 ^ 32))) as [s Hs].
  { rewrite Z2Nat.id; lia. }
  exists (example_world s).
  apply (report_full_log (Signed 9) 9 (example_data 2) _ (example_world s) Hs);
    [reflexivity|vm_compute; reflexivity|].
  unfold repeat_log. rewrite decide_True by done.
  rewrite length_replicate, Z2Nat.id; lia.
Defined.
End Examples.
End RenaultAccident.
