(* ===== verification/InsuranceAccident.v ===== *)
(** * The insurance accident pallet

    [common-parachain-node/pallets/sim_insurance_accident/src/lib.rs]: an
    insured driver declares an accident of a vehicle, the pallet asks the
    Renault chain (parachain 2000) by XCM for the data of that accident, and
    stores the data the answer carries.  The world of the pallet is its own
    storage, that of [sim_insurance], and the queues behind [T::XcmSender]. *)

From S2P Require Import Prelude.
From S2P Require Import Codec.
From S2P Require Import XcmTypes.
From S2P Require Import Frame.
From S2P Require Import Sha256.
From S2P Require Import SimInsurance.
From S2P Require Import RenaultAccident.

Module InsuranceAccident.

(** The call of the Renault runtime the request carries. *)
Module pallet_sim_renault_accident.
Inductive PalletSimRenaultAccidentCall (A : Type) :=
| RequestData (vehicle_id : A) (count : Z).
Arguments RequestData {_} _ _.

Inductive ParaChainCall (A : Type) :=
| PalletSimRenaultAccident (c : PalletSimRenaultAccidentCall A).
Arguments PalletSimRenaultAccident {_} _.

Definition encode_call {A} `{!Codec A} (c : ParaChainCall A) : list byte :=
  match c with
  | PalletSimRenaultAccident (RequestData v n) =>
      byte_of_Z 101 :: byte_of_Z 1 :: encode v ++ encode n
  end.
Arguments encode_call : simpl never.
End pallet_sim_renault_accident.

Section Pallet.
Context {A O Q : Type} `{Countable A} `{!FrameOrigin O A} `{!Codec A} `{!Sha256} `{!SendXcm Q}.

Inductive Event :=
| AccidentStored (driver_id : A) (count : Z) (vehicle_id : A) (vehicle_accident_count : Z)
| RequestData (para : ParaId) (vehicle_id : A) (vehicle_accident_count : Z)
| ErrorRequestData (para : ParaId) (e : SendError)
| ReceiveData (para : ParaId) (vehicle_id : A) (vehicle_accident_count : Z) (data : IpfsId)
| AccidentDataStored (vehicle_id : A) (vehicle_accident_count : Z) (data : IpfsId).

Inductive Error :=
| UnknownDriver
| AccidentAlreadyStored
| AccidentDataAlreadyStored
| DriverNotMatchingOrigin
| ErrorSendXcm.

Record State := mkState {
  DeclaredAccidents : gmap (vec byte 32) (A * Z);
  AccidentsData : gmap (vec byte 32) IpfsId;
  DeclaredAccidentsCount : gmap A Z;
  events : list Event;
}.

Definition empty_state : State := mkState ∅ ∅ ∅ [].

Record World := mkWorld {
  insurance : SimInsurance.State (A := A);
  accident : State;
  queues : Q;
}.

Definition on_accident (f : State → State) (w : World) : World :=
  mkWorld (insurance w) (f (accident w)) (queues w).

Definition insert_DeclaredAccidents k x (s : State) : State :=
  mkState (<[k := x]> (DeclaredAccidents s)) (AccidentsData s) (DeclaredAccidentsCount s) (events s).
Definition insert_AccidentsData k d (s : State) : State :=
  mkState (DeclaredAccidents s) (<[k := d]> (AccidentsData s)) (DeclaredAccidentsCount s) (events s).
Definition insert_DeclaredAccidentsCount v n (s : State) : State :=
  mkState (DeclaredAccidents s) (AccidentsData s) (<[v := n]> (DeclaredAccidentsCount s)) (events s).
Definition deposit_event (e : Event) : Dispatch World Error :=
  modify (on_accident (λ s,
    mkState (DeclaredAccidents s) (AccidentsData s) (DeclaredAccidentsCount s) (events s ++ [e]))).

Definition renault_para : ParaId := 2000.

Definition send (dest : MultiLocation) (msg : Xcm) :
    M World (DispatchError Error) (result SendError unit) :=
  λ w, let '(q, r) := send_xcm dest msg (queues w) in
       (mkWorld (insurance w) (accident w) q, Ok r).

Definition report_accident (origin : O) (vehicle_id : A) (vehicle_accident_count : Z) :
    Dispatch World Error :=
  driver_id ← or_bad_origin (ensure_signed origin);
  w ← get;
  ensure (SimInsurance.is_driver driver_id (insurance w)) (Module UnknownDriver) ;;
  let count := match DeclaredAccidentsCount (accident w) !! driver_id with
               | None => 0
               | Some val => val
               end in
  let key := create_composite_key [encode driver_id; u32_to_le_bytes count] in
  ensure (negb (contains_key key (DeclaredAccidents (accident w))))
    (Module AccidentAlreadyStored) ;;
  modify (on_accident (insert_DeclaredAccidents key (vehicle_id, vehicle_accident_count))) ;;
  let next_count := u32_add count 1 in
  modify (on_accident (insert_DeclaredAccidentsCount vehicle_id next_count)) ;;
  deposit_event (AccidentStored driver_id count vehicle_id vehicle_accident_count) ;;
  let call := pallet_sim_renault_accident.PalletSimRenaultAccident
    (pallet_sim_renault_accident.RequestData vehicle_id vehicle_accident_count) in
  sent ← send (sibling renault_para) 
    (transact (pallet_sim_renault_accident.encode_call call));
  match sent with
  | Ok _ => deposit_event (RequestData renault_para vehicle_id vehicle_accident_count)
  | Err e =>
      deposit_event (ErrorRequestData renault_para e) ;;
      throw (Other "ErrorRequestData")
  end.

Definition receive_data (origin : O) (vehicle_id : A) (vehicle_accident_count : Z)
    (data : IpfsId) : Dispatch World Error :=
  orgin_para ← or_bad_origin (ensure_sibling_para origin);
  deposit_event (ReceiveData orgin_para vehicle_id vehicle_accident_count data) ;;
  w ← get;
  let key := create_composite_key [encode vehicle_id; u32_to_le_bytes vehicle_accident_count] in
  ensure (negb (contains_key key (AccidentsData (accident w))))
    (Module AccidentDataAlreadyStored) ;;
  modify (on_accident (insert_AccidentsData key data)) ;;
  deposit_event (AccidentDataStored vehicle_id vehicle_accident_count data).

Inductive Call :=
| report_accident_call (vehicle_id : A) (vehicle_accident_count : Z)
| receive_data_call (vehicle_id : A) (vehicle_accident_count : Z) (data : IpfsId).

Definition dispatch (origin : O) (c : Call) : Dispatch World Error :=
  match c with
  | report_accident_call v n => report_accident origin v n
  | receive_data_call v n d => receive_data origin v n d
  end.

(** ** Received data *)

(** The data the chain holds for accident [n] of vehicle [v]. *)
Definition accident_data (v : A) (n : Z) (w : World) : option IpfsId :=
  AccidentsData (accident w) !! accident_key v n.

Definition step (w w' : World) : Prop :=
  ∃ p origin c, w' = (run p (dispatch origin c) w).1.

Lemma dispatch_keeps_data origin c w k d :
  AccidentsData (accident w) !! k = Some d →
  AccidentsData (accident (dispatch origin c w).1) !! k = Some d.
Proof.
  intros Hk. destruct c; cbn; unfold report_accident, receive_data, send;
    unfold_dispatch; repeat (case_match; cbn in *; simplify_eq); try done;
    (rewrite lookup_insert_ne; [done|]; case_storage; congruence).
Qed.

Lemma accident_data_kept v n d w w' :
  rtc step w w' → accident_data v n w = Some d → accident_data v n w' = Some d.
Proof.
  induction 1 as [|w w1 w' (p & o & c & ->) _ IH]; [done|]. intros Hd. apply IH.
  apply (run_preserves (λ w, accident_data v n w = Some d)); [done|].
  by apply dispatch_keeps_data.
Qed.

(** The first answer wins: a data message from a sibling chain is
    accepted exactly when no data is held for that accident of that vehicle;
    it is then what the chain holds, and no later calls of any kind change
    it.  A second answer is refused and the data kept. *)
Theorem receive_data_first_wins origin para v n d w :
  ensure_sibling_para origin = Some para →
  match accident_data v n w with
  | Some _ => ∃ w1, receive_data origin v n d w = (w1, Err (Module AccidentDataAlreadyStored))
                ∧ AccidentsData (accident w1) = AccidentsData (accident w)
  | None => ∃ w1, receive_data origin v n d w = (w1, Ok tt)
                ∧ ∀ w2, rtc step w1 w2 → accident_data v n w2 = Some d
  end.
Proof.
  intros Ho. unfold receive_data. unfold_dispatch. rewrite Ho. cbn.
  destruct (accident_data v n w) as [x|] eqn:E; unfold accident_data in E.
  - assert (contains_key (accident_key v n) (AccidentsData (accident w)) = true) as Hc
      by (apply contains_key_true; eauto).
    unfold accident_key in Hc. rewrite Hc. cbn. eauto.
  - apply contains_key_false in E. unfold accident_key in E. rewrite E. cbn.
    eexists. split; [done|]. intros w2 Hw2. eapply accident_data_kept; [exact Hw2|].
    apply lookup_insert_eq.
Qed.

(** ** Declarations *)

Definition next_count (d : A) (w : World) : Z :=
  match DeclaredAccidentsCount (accident w) !! d with None => 0 | Some n => n end.

(** What an accepted declaration does: the call of an insured driver
    succeeds exactly when the driver's next slot is free and the sender takes
    the request; it files the declared vehicle and number under the slot, and
    hands over one [Transact] to the Renault chain, whose payload is the call
    [RequestData] with that vehicle and number. *)
Theorem report_requests_data origin d v n w w' :
  ensure_signed origin = Some d →
  report_accident origin v n w = (w', Ok tt) ↔
  ∃ q,
    SimInsurance.is_driver d (insurance w) = true ∧
    DeclaredAccidents (accident w) !! accident_key d (next_count d w) = None ∧
    send_xcm (sibling 2000)
      [Transact Native 1000 (pallet_sim_renault_accident.encode_call
         (pallet_sim_renault_accident.PalletSimRenaultAccident
            (pallet_sim_renault_accident.RequestData v n)))] (queues w) = (q, Ok tt) ∧
    w' = mkWorld (insurance w)
           (mkState (<[accident_key d (next_count d w) := (v, n)]> (DeclaredAccidents (accident w)))
              (AccidentsData (accident w))
              (<[v := u32_add (next_count d w) 1]> (DeclaredAccidentsCount (accident w)))
              (events (accident w) ++ [AccidentStored d (next_count d w) v n;
                                       RequestData 2000 v n])) q.
Proof.
  intros Ho. unfold report_accident, send, transact, deposit_event, on_accident, accident_key.
  unfold_dispatch. rewrite Ho. cbn. fold (next_count d w).
  destruct (SimInsurance.is_driver d (insurance w)); cbn.
  2: { split; [done|]. by intros (q & ? & _). }
  destruct (contains_key _ _) eqn:Hk; case_storage; cbn.
  { split; [done|]. intros (q & _ & Hn & _). rewrite Hn in Hk. by destruct Hk. }
  unfold renault_para. destruct (send_xcm _ _ _) as [q [[]|e]] eqn:E; cbn.
  - rewrite <-(app_assoc _ [_] [_]). cbn. split.
    + intros ?. simplify_eq. eauto 10.
    + intros (q' & _ & _ & HE & ->). by simplify_eq.
  - split; [done|]. by intros (q' & _ & _ & HE & _).
Qed.

(** The calls that do not declare an accident of the account [d] as a vehicle,
    and subscriptions to the insurance. *)
Inductive step_avoiding (d : A) (w : World) : World → Prop :=
| avoiding_call p origin c : (∀ n, c ≠ report_accident_call d n) → step_avoiding d w (run p (dispatch origin c) w).1
| avoiding_sign_up p now (origin : O) profile :
    step_avoiding d w (mkWorld (run p (SimInsurance.sign_up now origin profile) (insurance w)).1 (accident w) (queues w)).

(** The next slot of [d] is taken, and [d] is insured. *)
Definition locked (d : A) (w : World) : Prop :=
  SimInsurance.is_driver d (insurance w) = true ∧
  is_Some (DeclaredAccidents (accident w) !! accident_key d (next_count d w)).

Lemma locked_refused origin d v n w :
  ensure_signed origin = Some d → locked d w →
  report_accident origin v n w = (w, Err (Module AccidentAlreadyStored)).
Proof.
  intros Ho [Hd Hk]. unfold report_accident. unfold_dispatch. rewrite Ho. cbn. rewrite Hd. cbn.
  apply contains_key_true in Hk. unfold accident_key, next_count in Hk. by rewrite Hk.
Qed.

Lemma dispatch_locked d origin c w :
  (∀ n, c ≠ report_accident_call d n) → locked d w → locked d (dispatch origin c w).1.
Proof.
  intros Hc [Hd Hk]. unfold locked.
  assert (∀ v n, c = report_accident_call v n → v ≠ d) as Hne by (intros v n -> ->; by eapply Hc).
  destruct c as [v n|]; cbn; unfold report_accident, receive_data, send, deposit_event;
    unfold_dispatch; repeat (case_match; cbn in *; simplify_eq); try done;
    (split; [done|]; rewrite lookup_insert_is_Some'; right;
     unfold next_count in *; cbn; by rewrite lookup_insert_ne by eauto).
Qed.

Lemma locked_kept d w w' : rtc (step_avoiding d) w w' → locked d w → locked d w'.
Proof.
  induction 1 as [|w w1 w' Hs _ IH]; [done|]. intros Hl. apply IH. destruct Hs as [p o c Hc|p now o profile].
  - apply (run_preserves (locked d)); [done|]. by apply dispatch_locked.
  - destruct Hl as [Hd Hk]. split; [|exact Hk]. apply (run_preserves (λ s, SimInsurance.is_driver d s = true)); [done|].
    unfold SimInsurance.sign_up, SimInsurance.is_driver, contains_key in *. unfold_dispatch.
    destruct (ensure_signed o) as [who|]; cbn; [|done]. destruct (decide (who = d)) as [->|Hne].
    + by rewrite lookup_insert_eq.
    + by rewrite lookup_insert_ne.
Qed.

(** C33. The counter of declarations is read under the driver and written
    under the vehicle: once a driver has declared an accident of a vehicle
    account other than their own, every later declaration of theirs is
    refused as already stored, whatever calls of the pallet and subscriptions
    come in between, unless one of the calls declares an accident of the
    driver's own account as a vehicle. *)
Theorem second_declaration_refused origin d v n w w1 w2 v' n' :
  ensure_signed origin = Some d →
  v ≠ d →
  report_accident origin v n w = (w1, Ok tt) →
  rtc (step_avoiding d) w1 w2 →
  report_accident origin v' n' w2 = (w2, Err (Module AccidentAlreadyStored)).
Proof.
  intros Ho Hv Hr Hs. apply (locked_refused _ d); [done|]. apply (locked_kept _ w1); [done|].
  revert Hr. unfold report_accident, send. unfold_dispatch. rewrite Ho. cbn.
  fold (next_count d w). destruct (SimInsurance.is_driver d (insurance w)) eqn:Hd; cbn; [|done].
  destruct (contains_key _ _); cbn; [done|].
  destruct (send_xcm _ _ _) as [q [[]|e]]; cbn; [|done]. intros [= Hw1].
  assert (next_count d w1 = next_count d w) as Hn
    by (subst w1; unfold next_count; cbn; by rewrite lookup_insert_ne).
  unfold locked. rewrite Hn, <-Hw1. split; [done|]. cbn. unfold accident_key.
  rewrite lookup_insert_eq. eauto.
Qed.
End Pallet.

(** ** Examples: account 5 is an insured driver *)

Section Examples.
#[local] Existing Instances pad32 outbox_send.

Definition example_world : World (A := Z) (Q := outbox) :=
  mkWorld (SimInsurance.genesis_build 0 (Some 5)) empty_state [].

Definition declared_world : World :=
  (report_accident (Signed 5) 9 1 example_world).1.

Lemma receive_data_first_wins_witness :
  ∃ w1, receive_data (SiblingParachain 2000) 9 1 (RenaultAccident.example_data 1) example_world
        = (w1, Ok tt) ∧
    ∀ w2, rtc step w1 w2 → accident_data 9 1 w2 = Some (RenaultAccident.example_data 1).
Proof.
  exact (receive_data_first_wins (SiblingParachain 2000) 2000 9 1
           (RenaultAccident.example_data 1) example_world eq_refl).
Defined.

Lemma report_requests_data_witness :
  ∃ w', report_accident (Signed 5) 9 1 example_world = (w', Ok tt) ∧
    queues w' = [(sibling 2000, transact (pallet_sim_renault_accident.encode_call
      (pallet_sim_renault_accident.PalletSimRenaultAccident
         (pallet_sim_renault_accident.RequestData 9 1))))].
Proof.
  eexists. split.
  - apply (report_requests_data (Signed 5) 5 9 1 example_world); [reflexivity|].
    eexists. split_and!; [vm_compute; reflexivity|reflexivity|reflexivity|reflexivity].
  - reflexivity.
Defined.

Lemma second_declaration_refused_witness :
  report_accident (Signed 5) 9 2 declared_world
  = (declared_world, Err (Module AccidentAlreadyStored)).
Proof.
  apply (second_declaration_refused (Signed 5) 5 9 1 example_world declared_world);
    [reflexivity|lia|reflexivity|apply rtc_refl].
Defined.
End Examples.
End InsuranceAccident.
