(* ===== verification/Runtime.v ===== *)
(** * The parachain runtime

    [common-parachain-node/runtime/src/lib.rs]: the runtime that both the
    Renault chain (parachain 2000) and the insurance chain (parachain 3000) run.
    Its storage is that of its pallets, its call is the call of one of them
    under the index of [construct_runtime!], and an incoming XCM program runs in
    the executor under the configuration of [xcm_config.rs].  The pallets and
    services that are not part of the repository are the record [Services]. *)

From S2P Require Import Prelude.
From S2P Require Import Codec.
From S2P Require Import XcmTypes.
From S2P Require Import MultiLocations.
From S2P Require Import Frame.
From S2P Require Import XcmBuilder.
From S2P Require Import XcmConfig.
From S2P Require Import MultiAssets.
From S2P Require Import Holding.
From S2P Require Import XcmExecutor.
From S2P Require Import Sha256.
From S2P Require Import SimRenault.
From S2P Require Import SimInsurance.
From S2P Require Import RenaultAccident.
From S2P Require Import InsuranceAccident.

Module Runtime.

Abbreviation AccountId := AccountId32.
Abbreviation Origin := (RuntimeOrigin AccountId).

Section Runtime.
Context {Q X T : Type} `{!Sha256} `{!SendXcm Q}.

(** The storage of the pallets modelled here, and the queues of the router. *)
Record Chain := mkChain {
  block_number : BlockNumber;
  sim_renault : SimRenault.State AccountId;
  sim_renault_accident : RenaultAccident.State (A := AccountId);
  sim_insurance : SimInsurance.State (A := AccountId);
  sim_insurance_accident : InsuranceAccident.State (A := AccountId);
  router : Q;
}.

(** [Call] of [construct_runtime!]; [X] is the calls of the pallets that are
    not modelled. *)
Inductive Call :=
| PalletSimRenault (c : SimRenault.Call AccountId)
| PalletSimRenaultAccident (c : RenaultAccident.Call (A := AccountId))
| PalletSimInsurance (driver_profile : SimInsurance.DriverProfile AccountId)
| PalletSimInsuranceAccident (c : InsuranceAccident.Call (A := AccountId))
| OtherCall (x : X).

(** What the runtime takes from elsewhere. *)
Record Services := mkServices {
  svc_withdraw : MultiAsset → MultiLocation → Chain → Chain * result XcmError unit;
  svc_deposit : MultiAsset → MultiLocation → Chain → Chain * result XcmError unit;
  svc_transfer :
    MultiAsset → MultiLocation → MultiLocation → Chain → Chain * result XcmError unit;
  svc_trader_new : T;
  svc_buy_weight :
    Z → Assets.Assets → T → Chain → T * Chain * result XcmError Assets.Assets;
  svc_refund_weight : Z → T → Chain → T * Chain * option MultiAsset;
  svc_trader_drop : T → Chain → Chain;
  svc_on_response : MultiLocation → Z → Response → Z → Chain → Chain;
  svc_claim : MultiLocation → MultiLocation → MultiAssets → Chain → Chain * bool;
  svc_drop : MultiLocation → Assets.Assets → Chain → Chain * Z;
  svc_subscribe : MultiLocation → Z → Z → Chain → Chain * result XcmError unit;
  svc_unsubscribe : MultiLocation → Chain → Chain * result XcmError unit;
  svc_decode : list byte → option X;
  svc_weight : X → Z;
  svc_dispatch : X → Origin → Chain → Chain * option Z;
  svc_sibling_account : ParaId → AccountId;
  svc_policy : StoragePolicy;
  svc_create_factory_weight : Z;
}.

Context (svc : Services) (parachain_id : ParaId).

(** ** Calls *)

(** The derived decoding of [ContractPlan] and [DriverProfile]. *)
Definition decode_contract_plan (l : list byte) : option (SimInsurance.ContractPlan * list byte) :=
  match l with
  | [] => None
  | b :: rest =>
      match Z_of_byte b with
      | 0 => Some (SimInsurance.Premium, rest)
      | 1 => Some (SimInsurance.Standard, rest)
      | 2 => Some (SimInsurance.Minimal, rest)
      | _ => None
      end
  end.

Definition decode_driver_profile (l : list byte) :
    option (SimInsurance.DriverProfile AccountId * list byte) :=
  '(name, l) ← decode_vec l;
  '(age, l) ← decode_le 1 l;
  '(licence_code, l) ← decode_vec l;
  '(contract_start, l) ← decode_i64 l;
  '(contract_end, l) ← decode_i64 l;
  '(contract_plan, l) ← decode_contract_plan l;
  '(vehicle_id, l) ← decode l;
  Some (SimInsurance.mkDriverProfile name age licence_code contract_start contract_end
          contract_plan vehicle_id, l).

(** The calls of the pallets at indexes 100 to 103, each under its position in
    the pallet. *)
Definition decode_call (bytes : list byte) : option (Call * list byte) :=
  match bytes with
  | pallet :: index :: rest =>
      match Z_of_byte pallet, Z_of_byte index with
      | 100, 0 => '(f, rest) ← decode rest; Some (PalletSimRenault (SimRenault.create_factory_call f), rest)
      | 100, 1 => '(v, rest) ← decode rest; Some (PalletSimRenault (SimRenault.create_vehicle_call v), rest)
      | 100, 2 => '(v, rest) ← decode rest; Some (PalletSimRenault (SimRenault.init_vehicle_call v), rest)
      | 101, 0 =>
          '(d, rest) ← decode rest;
          Some (PalletSimRenaultAccident (RenaultAccident.report_accident_call d), rest)
      | 101, 1 =>
          '(v, rest) ← decode rest; '(n, rest) ← decode rest;
          Some (PalletSimRenaultAccident (RenaultAccident.request_data_call v n), rest)
      | 101, 2 =>
          '(i, rest) ← decode rest; '(st, rest) ← decode_le 1 rest;
          Some (PalletSimRenaultAccident
                  (RenaultAccident.set_ipfs_status_call i st), rest)
      | 102, 0 =>
          '(p, rest) ← decode_driver_profile rest; Some (PalletSimInsurance p, rest)
      | 103, 0 =>
          '(v, rest) ← decode rest; '(n, rest) ← decode rest;
          Some (PalletSimInsuranceAccident (InsuranceAccident.report_accident_call v n), rest)
      | 103, 1 =>
          '(v, rest) ← decode rest; '(n, rest) ← decode rest; '(d, rest) ← decode rest;
          Some (PalletSimInsuranceAccident (InsuranceAccident.receive_data_call v n d), rest)
      | _, _ => None
      end
  | _ => None
  end.

(** [decode_all]: every byte is used.  The other pallets decode their own
    indexes. *)
Definition take_decoded (bytes : list byte) : option Call :=
  match bytes with
  | pallet :: _ =>
      match Z_of_byte pallet with
      | 100 | 101 | 102 | 103 =>
          '(c, rest) ← decode_call bytes;
          match rest with [] => Some c | _ => None end
      | _ => OtherCall <$> svc_decode svc bytes
      end
  | [] => OtherCall <$> svc_decode svc bytes
  end.

(** The [#[pallet::weight]] of a call. *)
Definition call_weight (c : Call) : Z :=
  match c with
  | PalletSimRenault (SimRenault.create_factory_call _) => svc_create_factory_weight svc
  | PalletSimRenault _ | PalletSimRenaultAccident _ | PalletSimInsurance _
  | PalletSimInsuranceAccident _ => 0
  | OtherCall x => svc_weight svc x
  end.

Definition renault_world (c : Chain) : RenaultAccident.World (A := AccountId) (Q := Q) :=
  RenaultAccident.mkWorld (sim_renault c) (sim_renault_accident c) (router c).
Definition with_renault_world (w : RenaultAccident.World) (c : Chain) : Chain :=
  mkChain (block_number c) (RenaultAccident.renault w) (RenaultAccident.accident w)
    (sim_insurance c) (sim_insurance_accident c) (RenaultAccident.queues w).
Definition insurance_world (c : Chain) : InsuranceAccident.World (A := AccountId) (Q := Q) :=
  InsuranceAccident.mkWorld (sim_insurance c) (sim_insurance_accident c) (router c).
Definition with_insurance_world (w : InsuranceAccident.World) (c : Chain) : Chain :=
  mkChain (block_number c) (sim_renault c) (sim_renault_accident c)
    (InsuranceAccident.insurance w) (InsuranceAccident.accident w) (InsuranceAccident.queues w).

(** Dispatch; the pallets modelled here return no actual weight. *)
Definition dispatch_call (c : Call) (o : Origin) (s : Chain) : Chain * option Z :=
  match c with
  | PalletSimRenault c =>
      let r := run (svc_policy svc) (SimRenault.dispatch (block_number s) o c) (sim_renault s) in
      (mkChain (block_number s) r.1 (sim_renault_accident s) (sim_insurance s)
         (sim_insurance_accident s) (router s), None)
  | PalletSimRenaultAccident c =>
      let r := run (svc_policy svc) (RenaultAccident.dispatch o c) (renault_world s) in
      (with_renault_world r.1 s, None)
  | PalletSimInsurance p =>
      let r := run (svc_policy svc) (SimInsurance.sign_up (block_number s) o p) (sim_insurance s) in
      (mkChain (block_number s) (sim_renault s) (sim_renault_accident s) r.1
         (sim_insurance_accident s) (router s), None)
  | PalletSimInsuranceAccident c =>
      let r := run (svc_policy svc) (InsuranceAccident.dispatch o c) (insurance_world s) in
      (with_insurance_world r.1 s, None)
  | OtherCall x => svc_dispatch svc x o s
  end.

(** ** The executor's configuration *)

#[export] Instance runtime_config : Config Chain Call Origin T := {|
  withdraw_asset := svc_withdraw svc;
  deposit_asset := svc_deposit svc;
  transfer_asset := svc_transfer svc;
  can_check_in _ what _ :=
    match XcmConfig.matches_fungible what with Some _ => Ok tt | None => Err AssetNotFound end;
  check_in _ _ s := s;
  check_out _ _ s := s;
  is_reserve := XcmConfig.NativeAsset;
  is_teleporter _ _ := false;
  xcm_sender dest msg s :=
    let '(q, r) := send_xcm dest msg (router s) in
    (mkChain (block_number s) (sim_renault s) (sim_renault_accident s) (sim_insurance s)
       (sim_insurance_accident s) q, r);
  trader_new := svc_trader_new svc;
  buy_weight := svc_buy_weight svc;
  refund_weight := svc_refund_weight svc;
  trader_drop := svc_trader_drop svc;
  XcmExecutor.take_decoded := take_decoded;
  dispatch_weight := call_weight;
  XcmExecutor.dispatch_call := dispatch_call;
  convert_origin l k :=
    match XcmConfig.XcmOriginToTransactDispatchOrigin (svc_sibling_account svc) l k with
    | Ok o => Some o
    | Err _ => None
    end;
  on_response := svc_on_response svc;
  claim_assets := svc_claim svc;
  drop_assets := svc_drop svc;
  subscribe := svc_subscribe svc;
  unsubscribe := svc_unsubscribe svc;
  location_ancestry := XcmConfig.Ancestry parachain_id;
|}.

(** An XCM program received from [origin]. *)
Definition execute_xcm (origin : MultiLocation) (message : Xcm) (weight_limit weight_credit : Z)
    (s : Chain) : option (Chain * Outcome) :=
  XcmExecutor.execute_xcm_in_credit XcmConfig.UnitWeightCost XcmConfig.MaxInstructions
    XcmConfig.Barrier origin message weight_limit weight_credit s.
End Runtime.
End Runtime.
