(* ===== verification/Ping.v ===== *)
(** * The ping pallet

    [common-parachain-node/pallets/ping/src/lib.rs]: at the end of every block
    one ping is sent to each target, under consecutive sequence numbers; a
    chain that receives a ping replies with a pong of the same number, and a
    pong is accepted for a ping that is still pending. *)

From S2P Require Import Prelude.
From S2P Require Import Vectors.
From S2P Require Import XcmTypes.
From S2P Require Import Frame.

Module Ping.

Inductive Call :=
| start (para : ParaId) (payload : list byte)
| start_many (para : ParaId) (count : Z) (payload : list byte)
| stop (para : ParaId)
| stop_all (maybe_para : option ParaId)
| ping (seq : Z) (payload : list byte)
| pong (seq : Z) (payload : list byte).

Inductive Event :=
| PingSent (para : ParaId) (seq : Z) (payload : list byte)
| Pinged (para : ParaId) (seq : Z) (payload : list byte)
| PongSent (para : ParaId) (seq : Z) (payload : list byte)
| Ponged (para : ParaId) (seq : Z) (payload : list byte) (delay : BlockNumber)
| ErrorSendingPing (e : SendError) (para : ParaId) (seq : Z) (payload : list byte)
| ErrorSendingPong (e : SendError) (para : ParaId) (seq : Z) (payload : list byte)
| UnknownPong (para : ParaId) (seq : Z) (payload : list byte).

Inductive Error :=.

(** The storage of the pallet, the queues behind [T::XcmSender], and the events
    deposited. *)
Record State (Q : Type) := mkState {
  Targets : list (ParaId * list byte);
  PingCount : Z;
  Pings : gmap Z BlockNumber;
  queues : Q;
  events : list Event;
}.
Arguments mkState {_} _ _ _ _ _.
Arguments Targets {_} _.
Arguments PingCount {_} _.
Arguments Pings {_} _.
Arguments queues {_} _.
Arguments events {_} _.

Section Pallet.
(** [encode_call] is the encoding of the call as a call of the runtime,
    [T::Call::from(call).encode()]. *)
Context {A O Q : Type} `{!FrameOrigin O A} `{!SendXcm Q} (encode_call : Call → list byte).

Definition set_Targets (f : list (ParaId * list byte) → list (ParaId * list byte))
    (s : State Q) : State Q :=
  mkState (f (Targets s)) (PingCount s) (Pings s) (queues s) (events s).
Definition deposit (e : Event) (s : State Q) : State Q :=
  mkState (Targets s) (PingCount s) (Pings s) (queues s) (events s ++ [e]).
Definition set_queues (q : Q) (s : State Q) : State Q :=
  mkState (Targets s) (PingCount s) (Pings s) q (events s).

(** The body of the loop of [on_finalize]. *)
Definition ping_target (n : BlockNumber) (s : State Q) (t : ParaId * list byte) : State Q :=
  let '(para, payload) := t in
  let seq := u32_add (PingCount s) 1 in
  let s := mkState (Targets s) seq (Pings s) (queues s) (events s) in
  let '(q, r) := send_xcm (sibling para) (transact (encode_call (ping seq payload))) (queues s) in
  let s := set_queues q s in
  match r with
  | Ok _ =>
      deposit (PingSent para seq payload)
        (mkState (Targets s) (PingCount s) (<[seq := n]> (Pings s)) (queues s) (events s))
  | Err e => deposit (ErrorSendingPing e para seq payload) s
  end.

Definition on_finalize (n : BlockNumber) (s : State Q) : State Q :=
  fold_left (ping_target n) (Targets s) s.

Definition do_start (origin : O) (para : ParaId) (payload : list byte) :
    Dispatch (State Q) Error :=
  or_bad_origin (ensure_root origin) ;;
  modify (set_Targets (λ t, t ++ [(para, payload)])).

Definition do_start_many (origin : O) (para : ParaId) (count : Z) (payload : list byte) :
    Dispatch (State Q) Error :=
  or_bad_origin (ensure_root origin) ;;
  modify (Nat.iter (Z.to_nat count) (set_Targets (λ t, t ++ [(para, payload)]))).

Definition do_stop (origin : O) (para : ParaId) : Dispatch (State Q) Error :=
  or_bad_origin (ensure_root origin) ;;
  modify (set_Targets (λ t,
    match position (λ '(p, _), bool_decide (p = para)) t with
    | Some p => swap_remove p t
    | None => t
    end)).

Definition do_stop_all (origin : O) (maybe_para : option ParaId) : Dispatch (State Q) Error :=
  or_bad_origin (ensure_root origin) ;;
  match maybe_para with
  | Some para => modify (set_Targets (filter (λ '(x, _), x ≠ para)))
  | None => modify (set_Targets (λ _, []))
  end.

Definition do_ping (origin : O) (seq : Z) (payload : list byte) : Dispatch (State Q) Error :=
  para ← or_bad_origin (ensure_sibling_para origin);
  modify (deposit (Pinged para seq payload)) ;;
  s ← get;
  let '(q, r) := send_xcm (sibling para) (transact (encode_call (pong seq payload))) (queues s) in
  modify (set_queues q) ;;
  match r with
  | Ok _ => modify (deposit (PongSent para seq payload))
  | Err e => modify (deposit (ErrorSendingPong e para seq payload))
  end.

(** [now] is [frame_system::Pallet::block_number()]. *)
Definition do_pong (now : BlockNumber) (origin : O) (seq : Z) (payload : list byte) :
    Dispatch (State Q) Error :=
  para ← or_bad_origin (ensure_sibling_para origin);
  s ← get;
  match Pings s !! seq with
  | Some sent_at =>
      modify (λ s, mkState (Targets s) (PingCount s) (delete seq (Pings s)) (queues s) (events s)) ;;
      modify (deposit (Ponged para seq payload (saturating_sub now sent_at)))
  | None => modify (deposit (UnknownPong para seq payload))
  end.

Definition dispatch (now : BlockNumber) (origin : O) (c : Call) : Dispatch (State Q) Error :=
  match c with
  | start para payload => do_start origin para payload
  | start_many para count payload => do_start_many origin para count payload
  | stop para => do_stop origin para
  | stop_all maybe_para => do_stop_all origin maybe_para
  | ping seq payload => do_ping origin seq payload
  | pong seq payload => do_pong now origin seq payload
  end.

(** ** One block's pings

    The pings of a block as a batch: the [i]-th target gets the [i]-th
    sequence number after the current one, the messages go to the sender in
    the order of the targets, and each outcome decides what is recorded. *)

Definition announced (c : Z) (ts : list (ParaId * list byte)) : list (ParaId * Z * list byte) :=
  imap (λ i '(para, payload), (para, wrap32 (c + Z.of_nat i + 1), payload)) ts.

Fixpoint send_all (pings : list (ParaId * Z * list byte)) (q : Q) :
    Q * list (result SendError unit) :=
  match pings with
  | [] => (q, [])
  | (para, seq, payload) :: pings =>
      let '(q, r) := send_xcm (sibling para) (transact (encode_call (ping seq payload))) q in
      let '(q, rs) := send_all pings q in (q, r :: rs)
  end.

Definition outcome (t : ParaId * Z * list byte) (r : result SendError unit) : Event :=
  let '(para, seq, payload) := t in
  match r with
  | Ok _ => PingSent para seq payload
  | Err e => ErrorSendingPing e para seq payload
  end.

(** The event announces the ping [seq] as sent, or as answered. *)
Definition is_sent (seq : Z) (e : Event) : bool :=
  match e with PingSent _ i _ => bool_decide (i = seq) | _ => false end.
Definition is_ponged (seq : Z) (e : Event) : bool :=
  match e with Ponged _ i _ _ => bool_decide (i = seq) | _ => false end.

Lemma announced_cons c para payload ts :
  announced c ((para, payload) :: ts) =
  (para, u32_add c 1, payload) :: announced (u32_add c 1) ts.
Proof.
  unfold announced. cbn [imap]. f_equal.
  - unfold u32_add. by rewrite Z.add_0_r.
  - apply imap_ext. intros i [p pl] _. cbn. f_equal. f_equal.
    unfold u32_add, wrap32. rewrite <-(Z.add_assoc (_ mod _)), Zplus_mod_idemp_l. f_equal. lia.
Qed.

Lemma ping_target_spec n s para payload q r :
  let seq := u32_add (PingCount s) 1 in
  let e := outcome (para, seq, payload) r in
  let s' := ping_target n s (para, payload) in
  send_xcm (sibling para) (transact (encode_call (ping seq payload))) (queues s) = (q, r) →
  Targets s' = Targets s ∧ PingCount s' = seq ∧ queues s' = q ∧ events s' = events s ++ [e] ∧
  (∀ i, Pings s' !! i = if is_sent i e then Some n else Pings s !! i).
Proof.
  cbn. intros E. unfold ping_target. cbn. rewrite E.
  destruct r as [[]|e]; cbn; split_and!; try done.
  intros i. rewrite lookup_insert. by case_decide; case_bool_decide.
Qed.

Lemma ping_targets_batch n ts s :
  is_u32 (PingCount s) →
  let '(q, rs) := send_all (announced (PingCount s) ts) (queues s) in
  let evs := zip_with outcome (announced (PingCount s) ts) rs in
  let s' := fold_left (ping_target n) ts s in
  Targets s' = Targets s ∧
  PingCount s' = wrap32 (PingCount s + Z.of_nat (length ts)) ∧
  queues s' = q ∧
  events s' = events s ++ evs ∧
  (∀ seq, Pings s' !! seq = if existsb (is_sent seq) evs then Some n else Pings s !! seq).
Proof.
  revert s. induction ts as [|[para payload] ts IH]; intros s Hc.
  { cbn. rewrite Z.add_0_r, wrap32_small, app_nil_r by done. done. }
  rewrite announced_cons. cbn [send_all fold_left].
  destruct (send_xcm _ _ (queues s)) as [q r] eqn:E.
  destruct (ping_target_spec n s para payload q r E) as (HT & HC & HQ & HE & HP).
  specialize (IH (ping_target n s (para, payload))). rewrite HT, HC, HQ, HE in IH.
  destruct (send_all (announced (u32_add (PingCount s) 1) ts) q) as [q' rs].
  cbn [zip_with existsb]. destruct IH as (-> & -> & -> & -> & HP'); [apply wrap32_range|].
  rewrite <-app_assoc. split_and!; try done.
  - unfold u32_add, wrap32. rewrite Zplus_mod_idemp_l. f_equal. cbn [length]. lia.
  - intros seq. rewrite HP', HP. by destruct (existsb _ _), (is_sent _ _).
Qed.

(** One block of pings: every target gets exactly one ping, in order and
    under consecutive sequence numbers, also when earlier sends fail; the
    counter advances by the number of targets (modulo its width); exactly
    the pings the sender took are pending since this block, the others are
    reported as errors. *)
Theorem on_finalize_batch n s :
  is_u32 (PingCount s) →
  let '(q, rs) := send_all (announced (PingCount s) (Targets s)) (queues s) in
  let evs := zip_with outcome (announced (PingCount s) (Targets s)) rs in
  Targets (on_finalize n s) = Targets s ∧
  PingCount (on_finalize n s) = wrap32 (PingCount s + Z.of_nat (length (Targets s))) ∧
  queues (on_finalize n s) = q ∧
  events (on_finalize n s) = events s ++ evs ∧
  (∀ seq, Pings (on_finalize n s) !! seq =
     if existsb (is_sent seq) evs then Some n else Pings s !! seq).
Proof. intros Hc. by apply ping_targets_batch. Qed.

(** ** Pongs answer pings *)

Definition count_events (f : Event → bool) (es : list Event) : nat :=
  length (filter (λ e, f e = true) es).
#[local] Arguments count_events : simpl never.

Lemma count_events_app f es es' :
  count_events f (es ++ es') = (count_events f es + count_events f es')%nat.
Proof. unfold count_events. by rewrite filter_app, length_app. Qed.

Lemma count_events_single f e : count_events f [e] = if f e then 1%nat else 0%nat.
Proof. unfold count_events. rewrite filter_cons, filter_nil. by destruct (f e). Qed.

(** Blocks end, and calls arrive in any order from any origin. *)
Inductive step : State Q → State Q → Prop :=
| step_finalize n s : step s (on_finalize n s)
| step_call p now origin c s : step s (run p (dispatch now origin c) s).1.

Definition pending (seq : Z) (s : State Q) : nat :=
  if decide (is_Some (Pings s !! seq)) then 1 else 0.

(** Every answered ping, and the one that is pending, was sent. *)
Definition pongs_ok (s : State Q) : Prop :=
  ∀ seq, (count_events (is_ponged seq) (events s) + pending seq s
          ≤ count_events (is_sent seq) (events s))%nat.

Lemma pongs_ok_ping_target n s t : pongs_ok s → pongs_ok (ping_target n s t).
Proof.
  intros Hs seq. specialize (Hs seq). destruct t as [para payload]. unfold ping_target. cbn.
  destruct (send_xcm _ _ _) as [q [[]|e]]; cbn; unfold pending in *; cbn;
    rewrite !count_events_app, !count_events_single; cbn; [|lia].
  rewrite lookup_insert. case_decide as Heq; case_bool_decide; try done;
    repeat case_decide; try done; lia.
Qed.

Lemma pongs_ok_finalize n s : pongs_ok s → pongs_ok (on_finalize n s).
Proof.
  unfold on_finalize. generalize (Targets s). intros ts. revert s.
  induction ts as [|t ts IH]; intros s Hs; [done|]. cbn. apply IH. by apply pongs_ok_ping_target.
Qed.

(** Changing targets and queues, and depositing other events, is harmless. *)
Lemma pongs_ok_frame s s' es :
  Pings s' = Pings s → events s' = events s ++ es →
  (∀ seq e, e ∈ es → is_ponged seq e = false) → pongs_ok s → pongs_ok s'.
Proof.
  intros HP HE Hes Hs seq. specialize (Hs seq). unfold pending. rewrite HP, HE, !count_events_app.
  assert (count_events (is_ponged seq) es = 0%nat) as ->; [|unfold pending in Hs; lia].
  clear HE. induction es as [|e es IH]; [done|]. unfold count_events. rewrite filter_cons_False.
  - apply IH. intros i e' He'. apply Hes. by apply elem_of_cons; right.
  - rewrite Hes; [done|]. by apply elem_of_cons; left.
Qed.

Lemma iter_set_Targets k f (s : State Q) :
  Pings (Nat.iter k (set_Targets f) s) = Pings s ∧
  events (Nat.iter k (set_Targets f) s) = events s.
Proof. induction k as [|k [IH1 IH2]]; [done|]. by split. Qed.

Lemma pongs_ok_call now origin c s : pongs_ok s → pongs_ok (dispatch now origin c s).1.
Proof.
  intros Hs. destruct c as [para pl|para k pl|para|mp|i pl|i pl]; cbn;
    unfold do_start, do_start_many, do_stop, do_stop_all, do_ping, do_pong; unfold_dispatch.
  1-4: destruct (ensure_root origin); cbn; [|done].
  5-6: destruct (ensure_sibling_para origin) as [para|]; cbn; [|done].
  - apply (pongs_ok_frame s _ []); [done|by rewrite app_nil_r|set_solver|done].
  - destruct (iter_set_Targets (Z.to_nat k) (λ t, t ++ [(para, pl)]) s).
    apply (pongs_ok_frame s _ []); [done|by rewrite app_nil_r|set_solver|done].
  - apply (pongs_ok_frame s _ []); [done|by rewrite app_nil_r|set_solver|done].
  - destruct mp; (apply (pongs_ok_frame s _ []); [done|by rewrite app_nil_r|set_solver|done]).
  - destruct (send_xcm _ _ _) as [q [[]|e]]; cbn;
      (eapply (pongs_ok_frame s); [done|by cbn; rewrite <-app_assoc| |done]);
      intros seq e' He'; repeat (apply elem_of_cons in He' as [->|He']; [done|]);
      by apply elem_of_nil in He'.
  - destruct (Pings s !! i) as [sent_at|] eqn:E; cbn.
    + intros seq. specialize (Hs seq). unfold pending in *. cbn.
      rewrite !count_events_app, !count_events_single. cbn. rewrite lookup_delete.
      repeat case_decide; case_bool_decide; subst; try done; try lia; naive_solver.
    + apply (pongs_ok_frame s _ [UnknownPong para i pl]); [done|done| |done].
      intros seq e ->%list_elem_of_singleton. done.
Qed.

(** No pong without a ping: in every state reached from an empty pallet,
    by any order of blocks and calls, the pongs accepted for a sequence
    number, together with the one still awaited, are at most the pings sent
    under that number; a pong is accepted at most once per ping. *)
Theorem pongs_bounded_by_pings q s seq :
  rtc step (mkState [] 0 ∅ q []) s →
  (count_events (is_ponged seq) (events s) + pending seq s
   ≤ count_events (is_sent seq) (events s))%nat.
Proof.
  intros Hs. assert (∀ s0, pongs_ok s0 → rtc step s0 s → pongs_ok s) as Hinv.
  { clear Hs. intros s0 H0 Hs. induction Hs as [|s0 s1 s Hstep _ IH]; [done|]. apply IH.
    destruct Hstep; [by apply pongs_ok_finalize|].
    apply (run_preserves pongs_ok); [done|]. by apply pongs_ok_call. }
  apply (Hinv (mkState [] 0 ∅ q [])); [|done]. intros i. done.
Qed.

(** [stop] withdraws one target of the chain, if it has one; the order of the
    others may change. *)
Lemma stop_targets origin para s :
  ensure_root origin = Some tt →
  ∃ s', do_stop origin para s = (s', Ok tt) ∧
    ((∃ payload, Targets s ≡ₚ (para, payload) :: Targets s') ∨
     (Targets s' = Targets s ∧ para ∉ (Targets s).*1)).
Proof.
  intros Ho. unfold do_stop. unfold_dispatch. rewrite Ho. cbn. eexists. split; [done|]. cbn.
  destruct (position _ _) as [i|] eqn:E.
  - left. apply position_Some in E as ([p pl] & Hi & Hp & _).
    apply bool_decide_eq_true in Hp as ->. exists pl. by apply swap_remove_Permutation.
  - right. split; [done|]. intros ([p pl] & -> & Hin)%list_elem_of_fmap_1.
    pose proof (position_None _ _ E _ Hin) as Hf. by apply bool_decide_eq_false in Hf.
Qed.
End Pallet.

(** ** Examples: one target, one block, one pong *)

Section Examples.
#[local] Existing Instance outbox_send.

Definition example_state : State outbox := mkState [(3000, [Byte.x07])] 0 ∅ [] [].
Definition no_bytes (c : Call) : list byte := [].

Lemma on_finalize_batch_witness :
  PingCount (on_finalize no_bytes 12 example_state) = 1 ∧
  Pings (on_finalize no_bytes 12 example_state) !! 1 = Some 12.
Proof.
  pose proof (on_finalize_batch no_bytes 12 example_state) as H.
  destruct H as (_ & HC & _ & _ & HP); [vm_compute; split; discriminate|].
  split; [exact HC|exact (HP 1)].
Defined.

Definition pinged_state : State outbox :=
  on_finalize no_bytes 12
    (run Plain (dispatch (A := Z) no_bytes 12 Root (start 3000 [Byte.x07]))
       (mkState [] 0 ∅ [] [])).1.

Lemma pongs_bounded_by_pings_witness :
  (count_events (is_ponged 1) (events pinged_state) + pending 1 pinged_state
   ≤ count_events (is_sent 1) (events pinged_state))%nat ∧
  pending 1 pinged_state = 1%nat.
Proof.
  split; [|vm_compute; reflexivity].
  apply (pongs_bounded_by_pings (A := Z) (O := RuntimeOrigin Z) no_bytes []).
  eapply rtc_l; [apply step_call|]. apply rtc_once. apply step_finalize.
Defined.
End Examples.
End Ping.
