(* ===== verification/Template.v ===== *)
(** * The template pallet

    [common-parachain-node/pallets/template/src/lib.rs]: one stored [u32], set
    by any signed account and incremented with an overflow check. *)

From S2P Require Import Prelude.
From S2P Require Import Frame.

Module Template.
Section Pallet.
Context {A O : Type} `{!FrameOrigin O A}.

Inductive Event :=
| SomethingStored (something : Z) (who : A).

Inductive Error :=
| NoneValue
| StorageOverflow.

Record State := mkState {
  Something : option Z;
  events : list Event;
}.

Definition do_something (origin : O) (something : Z) : Dispatch State Error :=
  who ← or_bad_origin (ensure_signed origin);
  modify (λ s, mkState (Some something) (events s)) ;;
  modify (λ s, mkState (Something s) (events s ++ [SomethingStored something who])).

Definition cause_error (origin : O) : Dispatch State Error :=
  _ ← or_bad_origin (ensure_signed origin);
  s ← get;
  match Something s with
  | None => throw (Module NoneValue)
  | Some old =>
      new ← lift (ok_or (u32_checked_add old 1) (Module StorageOverflow));
      modify (λ s, mkState (Some new) (events s))
  end.

Inductive Call :=
| do_something_call (something : Z)
| cause_error_call.

Definition dispatch (origin : O) (c : Call) : Dispatch State Error :=
  match c with
  | do_something_call x => do_something origin x
  | cause_error_call => cause_error origin
  end.

(** An argument of a call is a [u32], and what is stored stays one. *)
Definition call_ok (c : Call) : Prop :=
  match c with do_something_call x => is_u32 x | cause_error_call => True end.
Definition state_ok (s : State) : Prop :=
  match Something s with Some x => is_u32 x | None => True end.

(** The stored value keeps its width: the increment never wraps, it fails
    with [StorageOverflow] at the largest value and writes nothing. *)
Lemma dispatch_state_ok p origin c s :
  call_ok c → state_ok s → state_ok (run p (dispatch origin c) s).1.
Proof.
  intros Hc Hs. apply run_preserves; [done|].
  destruct c as [x|]; cbn in *; unfold do_something, cause_error, u32_checked_add; unfold_dispatch.
  - by destruct (ensure_signed origin).
  - destruct (ensure_signed origin); [|done]. cbn.
    destruct (Something s) as [old|] eqn:E; [|done].
    unfold state_ok in *. rewrite E in Hs. case_decide; cbn; [|by rewrite E].
    unfold is_u32 in *. lia.
Qed.

Lemma cause_error_overflow origin who s :
  ensure_signed origin = Some who → Something s = Some u32_max →
  cause_error origin s = (s, Err (Module StorageOverflow)).
Proof. intros Ho Hs. unfold cause_error. unfold_dispatch. rewrite Ho. cbn. by rewrite Hs. Qed.
End Pallet.
End Template.
