(* ===== verification/OcwIpfs.v ===== *)
(** * The off-chain worker pallet

    [common-parachain-node/pallets/ocw_ipfs_file_status/src/lib.rs]: an
    off-chain worker submits one transaction, or fetches a remote document, per
    block; the chain keeps the last ten numbers submitted.  The node's keystore,
    transaction pool, local storage and HTTP client are the interface
    [OffchainHost]; the verification of a signed payload, UTF-8 decoding and
    JSON parsing are arguments. *)

From S2P Require Import Prelude.
From S2P Require Import Frame.

Module OcwIpfs.

Record Payload (PK : Type) := mkPayload { number : Z; public : PK }.
Arguments mkPayload {_} _ _.
Arguments number {_} _.
Arguments public {_} _.

Record HackerNewsInfo := mkInfo {
  by_ : list byte;
  title : list byte;
  url : list byte;
  descendants : Z;
}.

Inductive Call (PK Sig : Type) :=
| submit_number_signed (number : Z)
| submit_number_unsigned (number : Z)
| submit_number_unsigned_with_signed_payload (payload : Payload PK) (signature : Sig).
Arguments submit_number_signed {_ _} _.
Arguments submit_number_unsigned {_ _} _.
Arguments submit_number_unsigned_with_signed_payload {_ _} _ _.

Inductive Error :=
| UnknownOffchainMux
| NoLocalAcctForSigning
| OffchainSignedTxError
| OffchainUnsignedTxError
| OffchainUnsignedTxSignedPayloadError
| HttpFetchingError
| DeserializeToObjError
| DeserializeToStrError.

Definition NUM_VEC_LEN : nat := 10.
Definition UNSIGNED_TXS_PRIORITY : Z := 100.
Definition TX_TYPES : Z := 4.

Inductive InvalidTransaction := BadProof | InvalidCall.

(** [ValidTransaction::with_tag_prefix("ocw-demo")...build()] *)
Record ValidTransaction := mkValid {
  tag_prefix : string;
  priority : Z;
  provides : string;
  longevity : Z;
  propagate : bool;
}.

Record Response := mkResponse { code : Z; body : list byte }.

(** The node around the worker, with state [H].  [None] from the two signing
    functions: no local account. *)
Class OffchainHost (H PK Sig : Type) := {
  info_get : H → option HackerNewsInfo;
  info_set : HackerNewsInfo → H → H;
  try_lock : H → option H;
  unlock : H → H;
  http_send : H → H * result unit unit;
  http_try_wait : H → H * result unit (result unit Response);
  send_signed_transaction : Call PK Sig → H → H * option (result unit unit);
  submit_unsigned_transaction : Call PK Sig → H → H * result unit unit;
  send_unsigned_transaction :
    (PK → Payload PK) → (Payload PK → Sig → Call PK Sig) → H → H * option (result unit unit);
}.

Section Pallet.
Context {A O PK Sig : Type} `{!FrameOrigin O A}.

Inductive Event :=
| NewNumber (who : option A) (number : Z).

Record State := mkState {
  Numbers : list Z;
  events : list Event;
}.

Definition empty_state : State := mkState [] [].

Definition append_or_replace_number (number : Z) : Dispatch State Error :=
  modify (λ s,
    let numbers := Numbers s in
    let numbers := if decide (length numbers = NUM_VEC_LEN) then tail numbers else numbers in
    mkState (numbers ++ [number]) (events s)).

Definition deposit_event (e : Event) : Dispatch State Error :=
  modify (λ s, mkState (Numbers s) (events s ++ [e])).

Definition do_submit_number_signed (origin : O) (number : Z) : Dispatch State Error :=
  who ← or_bad_origin (ensure_signed origin);
  append_or_replace_number number ;;
  deposit_event (NewNumber (Some who) number).

Definition do_submit_number_unsigned (origin : O) (number : Z) : Dispatch State Error :=
  or_bad_origin (ensure_none origin) ;;
  append_or_replace_number number ;;
  deposit_event (NewNumber None number).

Definition do_submit_number_unsigned_with_signed_payload (origin : O) (payload : Payload PK)
    (signature : Sig) : Dispatch State Error :=
  or_bad_origin (ensure_none origin) ;;
  append_or_replace_number (number payload) ;;
  deposit_event (NewNumber None (number payload)).

Definition dispatch (origin : O) (c : Call PK Sig) : Dispatch State Error :=
  match c with
  | submit_number_signed n => do_submit_number_signed origin n
  | submit_number_unsigned n => do_submit_number_unsigned origin n
  | submit_number_unsigned_with_signed_payload p s =>
      do_submit_number_unsigned_with_signed_payload origin p s
  end.

(** [verify] is [SignedPayload::verify]. *)
Definition validate_unsigned (verify : Payload PK → Sig → bool) (call : Call PK Sig) :
    result InvalidTransaction ValidTransaction :=
  let valid_tx provide := Ok (mkValid "ocw-demo" UNSIGNED_TXS_PRIORITY provide 3 true) in
  match call with
  | submit_number_unsigned _ => valid_tx "submit_number_unsigned"
  | submit_number_unsigned_with_signed_payload payload signature =>
      if negb (verify payload signature) then Err BadProof
      else valid_tx "submit_number_unsigned_with_signed_payload"
  | _ => Err InvalidCall
  end.
End Pallet.
Arguments State : clear implicits.
Arguments Event : clear implicits.
Arguments empty_state {_}.

Section Worker.
Context {H PK Sig : Type} `{!OffchainHost H PK Sig}
  (from_utf8 : list byte → option string) (from_json : string → option HackerNewsInfo).

(** [block_number.try_into().unwrap_or(0)] to [u64]. *)
Definition block_as_u64 (block_number : BlockNumber) : Z :=
  if decide (is_u64 block_number) then block_number else 0.

Definition fetch_from_remote : M H Error (list byte) :=
  λ h,
    let '(h, sent) := http_send h in
    match sent with
    | Err _ => (h, Err HttpFetchingError)
    | Ok _ =>
        let '(h, response) := http_try_wait h in
        match response with
        | Err _ => (h, Err HttpFetchingError)
        | Ok (Err _) => (h, Err HttpFetchingError)
        | Ok (Ok response) =>
            if decide (code response ≠ 200) then (h, Err HttpFetchingError)
            else (h, Ok (body response))
        end
    end.

Definition fetch_n_parse : M H Error HackerNewsInfo :=
  λ h,
    let '(h, fetched) := fetch_from_remote h in
    match fetched with
    | Err _ => (h, Err HttpFetchingError)
    | Ok resp_bytes =>
        match from_utf8 resp_bytes with
        | None => (h, Err DeserializeToStrError)
        | Some resp_str =>
            match from_json resp_str with
            | None => (h, Err DeserializeToObjError)
            | Some info => (h, Ok info)
            end
        end
    end.

(** The guard of the lock is dropped on every exit of its block. *)
Definition fetch_remote_info : M H Error unit :=
  λ h,
    match info_get h with
    | Some _ => (h, Ok tt)
    | None =>
        match try_lock h with
        | Some h =>
            let '(h, parsed) := fetch_n_parse h in
            match parsed with
            | Ok info => (unlock (info_set info h), Ok tt)
            | Err err => (unlock h, Err err)
            end
        | None => (h, Ok tt)
        end
    end.

Definition offchain_signed_tx (block_number : BlockNumber) : M H Error unit :=
  λ h,
    let number := block_as_u64 block_number in
    let '(h, result) := send_signed_transaction (submit_number_signed number) h in
    match result with
    | Some (Err _) => (h, Err OffchainSignedTxError)
    | Some (Ok _) => (h, Ok tt)
    | None => (h, Err NoLocalAcctForSigning)
    end.

Definition offchain_unsigned_tx (block_number : BlockNumber) : M H Error unit :=
  λ h,
    let number := block_as_u64 block_number in
    let '(h, result) := submit_unsigned_transaction (submit_number_unsigned number) h in
    match result with
    | Ok _ => (h, Ok tt)
    | Err _ => (h, Err OffchainUnsignedTxError)
    end.

Definition offchain_unsigned_tx_signed_payload (block_number : BlockNumber) : M H Error unit :=
  λ h,
    let number := block_as_u64 block_number in
    let '(h, result) := send_unsigned_transaction (λ public, mkPayload number public)
      (λ payload signature, submit_number_unsigned_with_signed_payload payload signature) h in
    match result with
    | Some (Ok _) => (h, Ok tt)
    | Some (Err _) => (h, Err OffchainUnsignedTxSignedPayloadError)
    | None => (h, Err NoLocalAcctForSigning)
    end.

(** A block number that does not fit a 64-bit [usize] selects no branch. *)
Definition offchain_worker (block_number : BlockNumber) : M H Error unit :=
  let modu := if decide (is_u64 block_number) then wrap32 block_number mod TX_TYPES
              else TX_TYPES in
  match modu with
  | 0 => offchain_signed_tx block_number
  | 1 => offchain_unsigned_tx block_number
  | 2 => offchain_unsigned_tx_signed_payload block_number
  | 3 => fetch_remote_info
  | _ => throw UnknownOffchainMux
  end.
End Worker.

(** ** The numbers kept *)

Section Numbers.
Context {A O PK Sig : Type} `{!FrameOrigin O A}.

(** The number a call submits, if its origin is the one the call needs. *)
Definition accepted (oc : O * Call PK Sig) : option Z :=
  match oc.2 with
  | submit_number_signed n => (λ _, n) <$> ensure_signed oc.1
  | submit_number_unsigned n => (λ _, n) <$> ensure_none oc.1
  | submit_number_unsigned_with_signed_payload p _ => (λ _, number p) <$> ensure_none oc.1
  end.

Definition run_calls (p : StoragePolicy) (h : list (O * Call PK Sig)) (s : State A) : State A :=
  fold_left (λ s oc, (run p (dispatch oc.1 oc.2) s).1) h s.

Definition last_n {B} (n : nat) (l : list B) : list B := drop (length l - n) l.

Lemma last_n_snoc {B} n (l : list B) x :
  (0 < n)%nat →
  last_n n (l ++ [x]) =
  (if decide (length (last_n n l) = n) then tail (last_n n l) else last_n n l) ++ [x].
Proof.
  intros Hn. unfold last_n. rewrite length_app, length_drop. cbn.
  case_decide as Hlen.
  - rewrite drop_app_le by lia. f_equal.
    assert (tail (drop (length l - n) l) = drop (length l - n + 1) l) as ->
      by (rewrite <-drop_drop; by destruct (drop _ l)).
    f_equal. lia.
  - rewrite drop_app_le by lia. f_equal. f_equal. lia.
Qed.

Lemma dispatch_numbers p o c (s : State A) :
  Numbers (run p (dispatch o c) s).1 =
  match accepted (o, c) with
  | Some n => (if decide (length (Numbers s) = NUM_VEC_LEN) then tail (Numbers s)
               else Numbers s) ++ [n]
  | None => Numbers s
  end.
Proof.
  unfold run, accepted. destruct c as [n|n|pl sig]; cbn -[NUM_VEC_LEN decide];
    unfold do_submit_number_signed, do_submit_number_unsigned,
      do_submit_number_unsigned_with_signed_payload, append_or_replace_number, deposit_event;
    unfold_dispatch;
    [destruct (ensure_signed o)|destruct (ensure_none o)|destruct (ensure_none o)];
    cbn -[NUM_VEC_LEN decide]; try done; by destruct p.
Qed.

(** The chain keeps exactly the last ten numbers: after any calls, by any
    origins, [Numbers] is the list of the last ten numbers submitted with the
    origin the call needs, oldest first. *)
Theorem numbers_are_last_ten p (h : list (O * Call PK Sig)) :
  Numbers (run_calls p h (@empty_state A)) = last_n 10 (omap accepted h).
Proof.
  induction h as [|[o c] h IH] using rev_ind; [done|].
  unfold run_calls in *. rewrite fold_left_app. cbn [fold_left fst snd].
  rewrite dispatch_numbers, IH, omap_app. cbn [omap list_omap].
  destruct (accepted (o, c)) as [n|]; [|by rewrite app_nil_r].
  rewrite last_n_snoc; [done|lia].
Qed.
End Numbers.

(** ** The worker *)

Section WorkerProps.
Context {H PK Sig : Type} `{!OffchainHost H PK Sig}
  (from_utf8 : list byte → option string) (from_json : string → option HackerNewsInfo).

(** The documented behaviour of the local storage: what is set is read back,
    and releasing the lock does not touch the entry. *)
Context (info_get_set : ∀ i h, info_get (info_set i h) = Some i)
  (info_get_unlock : ∀ h, info_get (unlock h) = info_get h).

(** The four branches cover every [u32] block number. *)
Lemma offchain_worker_known n h h' r :
  is_u32 n → offchain_worker from_utf8 from_json n h = (h', r) → r ≠ Err UnknownOffchainMux.
Proof.
  intros Hn. unfold offchain_worker.
  rewrite decide_True by (unfold is_u32, is_u64, u32_max, u64_max in *; lia).
  rewrite wrap32_small by done.
  assert (n mod TX_TYPES = 0 ∨ n mod TX_TYPES = 1 ∨ n mod TX_TYPES = 2 ∨ n mod TX_TYPES = 3)
    as Hm by (unfold TX_TYPES; pose proof (Z.mod_pos_bound n 4); lia).
  destruct Hm as [->|[->|[->| ->]]];
    unfold offchain_signed_tx, offchain_unsigned_tx, offchain_unsigned_tx_signed_payload,
      fetch_remote_info, fetch_n_parse, fetch_from_remote;
    intros ?; repeat case_match; simplify_eq; done.
Qed.

(** The document is fetched once: a run that fetched it leaves it cached, and
    a run on a cached document does nothing. *)
Lemma fetch_remote_info_cached h h' h1 :
  try_lock h = Some h1 → fetch_remote_info from_utf8 from_json h = (h', Ok tt) →
  fetch_remote_info from_utf8 from_json h' = (h', Ok tt).
Proof.
  intros Hl Hf. assert (is_Some (info_get h')) as [i Hi].
  { unfold fetch_remote_info in Hf. rewrite Hl in Hf.
    repeat case_match; simplify_eq; rewrite ?info_get_unlock, ?info_get_set; eauto. }
  unfold fetch_remote_info. by rewrite Hi.
Qed.
End WorkerProps.
End OcwIpfs.
