(* ===== verification/Interop.v ===== *)
(** * The two chains together

    The Renault chain (parachain 2000) and the insurance chain (parachain 3000)
    run the same runtime and talk by XCM.  This file shows that the bytes one
    chain sends are the calls the other one decodes, that a message of one
    chain's pallet is dispatched on the other with the sender's origin, that
    the data the insurance chain holds is data the Renault chain holds, however
    messages are delayed, reordered, repeated or lost, and that an exchange that
    is delivered ends with the data stored. *)

From S2P Require Import Prelude.
From S2P Require Import Codec.
From S2P Require Import XcmTypes.
From S2P Require Import MultiLocations.
From S2P Require Import Frame.
From S2P Require Import XcmBuilder.
From S2P Require Import XcmConfig.
From S2P Require Import Holding.
From S2P Require Import XcmExecutor.
From S2P Require Import Sha256.
From S2P Require Import SimRenault.
From S2P Require Import SimInsurance.
From S2P Require Import RenaultAccident.
From S2P Require Import InsuranceAccident.
From S2P Require Import Runtime.

Module Interop.
Import Runtime.
#[local] Arguments RenaultAccident.encode_call : simpl never.

Abbreviation RequestCall v n :=
  (InsuranceAccident.pallet_sim_renault_accident.encode_call
     (InsuranceAccident.pallet_sim_renault_accident.PalletSimRenaultAccident
        (InsuranceAccident.pallet_sim_renault_accident.RequestData v n))).
Abbreviation ReplyCall v n d :=
  (RenaultAccident.encode_call
     (RenaultAccident.PalletSimInsuranceAccident (RenaultAccident.ReceiveData v n d))).

(** What the router keeps for delivery: at most the messages it was given. *)
Class Router (Q : Type) `{!SendXcm Q} := {
  queued : Q → list (MultiLocation * Xcm);
  send_queued dest msg q x :
    x ∈ queued (send_xcm dest msg q).1 → x ∈ queued q ∨ x = (dest, msg);
}.

Lemma send_queued_eq `{Router Q} dest msg q x o :
  send_xcm dest msg q = o → x ∈ queued o.1 → x ∈ queued q ∨ x = (dest, msg).
Proof. intros <-. apply send_queued. Qed.

Section Interop.
Context {Q X T : Type} `{!Sha256} `{!SendXcm Q} (svc : Services (Q := Q) (X := X) (T := T)).

(** ** Encoded calls *)

Lemma request_decodes (v : AccountId32) n :
  is_u32 n →
  take_decoded svc (RequestCall v n) =
    Some (PalletSimRenaultAccident (RenaultAccident.request_data_call v n)).
Proof.
  intros Hn. unfold InsuranceAccident.pallet_sim_renault_accident.encode_call, take_decoded.
  change (Z_of_byte (byte_of_Z 101)) with 101. cbn beta iota.
  unfold decode_call. change (Z_of_byte (byte_of_Z 101)) with 101.
  change (Z_of_byte (byte_of_Z 1)) with 1. cbn beta iota.
  rewrite (decode_encode v) by done. cbn.
  rewrite <-(app_nil_r (encode n)), (decode_encode n) by done. done.
Qed.

Lemma reply_decodes (v : AccountId32) n (d : IpfsId) :
  is_u32 n →
  take_decoded svc (ReplyCall v n d) =
    Some (PalletSimInsuranceAccident (InsuranceAccident.receive_data_call v n d)).
Proof.
  intros Hn. unfold RenaultAccident.encode_call, take_decoded.
  change (Z_of_byte (byte_of_Z 103)) with 103. cbn beta iota.
  unfold decode_call. change (Z_of_byte (byte_of_Z 103)) with 103.
  change (Z_of_byte (byte_of_Z 1)) with 1. cbn beta iota.
  rewrite (decode_encode v) by done. cbn.
  rewrite (decode_encode n) by done. cbn.
  rewrite <-(app_nil_r (encode d)), (decode_encode d) by done. done.
Qed.

(** C31. The chains understand each other: the bytes the insurance pallet sends
    decode on the Renault chain to [request_data] with the same arguments, and
    the bytes the Renault pallet replies with decode on the insurance chain to
    [receive_data] with the same arguments. *)
Theorem encoded_calls_decode (v : AccountId32) n (d : IpfsId) :
  is_u32 n →
  take_decoded svc (RequestCall v n) =
    Some (PalletSimRenaultAccident (RenaultAccident.request_data_call v n)) ∧
  take_decoded svc (ReplyCall v n d) =
    Some (PalletSimInsuranceAccident (InsuranceAccident.receive_data_call v n d)).
Proof. intros Hn. split; [by apply request_decodes|by apply reply_decodes]. Qed.

(** ** Executing a pallet's message *)

(** The weight of the message the pallets send. *)
Definition message_weight : Z := 1000001000.

Lemma transact_weight call :
  FixedWeightBounds.weight XcmConfig.UnitWeightCost XcmConfig.MaxInstructions (transact call) =
    Ok message_weight.
Proof. reflexivity. Qed.

Lemma barrier_transact p call credit :
  p = 2000 ∨ p = 3000 →
  ∃ credit', XcmConfig.Barrier (sibling p) message_weight (transact call, credit) =
    ((transact call, credit'), Ok tt).
Proof.
  intros Hp. unfold XcmConfig.Barrier, XcmConfig.DenyThenTry; cbn.
  unfold TakeWeightCredit. case_decide; cbn; [by eexists|].
  destruct Hp as [-> | ->]; by eexists.
Qed.

(** A call of the pallets modelled here: its weight fits the weight the message
    asks for, and its dispatch reports none. *)
Definition plain_call (c : Call (X := X)) : bool :=
  match c with
  | PalletSimRenault (SimRenault.create_factory_call _) | OtherCall _ => false
  | _ => true
  end.


Lemma process_transact parachain_id call c p s :
  take_decoded svc call = Some c → plain_call c = true →
  XcmExecutor.origin s = Some (sibling p) →
  XcmExecutor.process_instruction (Config0 := runtime_config svc parachain_id)
    XcmConfig.UnitWeightCost XcmConfig.MaxInstructions (Transact Native 1000 call) s =
  (XcmExecutor.accrue_surplus 0
     (XcmExecutor.set_world (dispatch_call svc c (SiblingParachain p) (XcmExecutor.world s)).1 s),
   Ok tt).
Proof.
  intros Hc Hp Ho. cbn [XcmExecutor.process_instruction].
  unfold XcmExecutor.get_origin, get, lift, mbind, M_bind, ok_or. rewrite Ho. cbn.
  rewrite Hc. unfold RelayChainAsNative. rewrite andb_false_r. cbn.
  assert (call_weight svc c = 0) as -> by (by destruct c as [[]| | | |]).
  rewrite bool_decide_true by done. cbn.
  destruct (dispatch_call svc c (SiblingParachain p) (XcmExecutor.world s)) as [w r] eqn:E.
  assert (r = None) as ->; [|reflexivity].
  destruct c as [[]| | | |]; try done; cbn in E; by simplify_eq.
Qed.

(** What executing the message of a pallet does. *)
Lemma execute_transact parachain_id call c p limit credit s :
  p = 2000 ∨ p = 3000 → take_decoded svc call = Some c → plain_call c = true →
  execute_xcm svc parachain_id (sibling p) (transact call) limit credit s =
  Some (if decide (limit < message_weight)
        then (s, OutcomeError (WeightLimitReached message_weight))
        else (svc_trader_drop svc (svc_trader_new svc) (dispatch_call svc c (SiblingParachain p) s).1,
              Complete message_weight)).
Proof.
  intros Hp Hc Hpl. unfold execute_xcm, XcmExecutor.execute_xcm_in_credit.
  rewrite transact_weight. case_decide; [done|].
  destruct (barrier_transact p call credit Hp) as [credit' ->].
  change (Z.to_nat (FixedWeightBounds.size (transact call))) with 1%nat.
  cbn [XcmExecutor.run_loop transact]. unfold XcmExecutor.execute. cbn [XcmExecutor.execute_loop transact].
  rewrite (process_transact parachain_id _ c p) by done. reflexivity.
Qed.

(** ** What a call adds to the queues and to the data *)

Definition modelled (c : Call (X := X)) : bool := match c with OtherCall _ => false | _ => true end.

Context `{!Router Q}.

Lemma dispatch_queue c o s x :
  modelled c = true → x ∈ queued (router (dispatch_call svc c o s).1) →
  x ∈ queued (router s) ∨
  (∃ p v n d, o = SiblingParachain p ∧
     c = PalletSimRenaultAccident (RenaultAccident.request_data_call v n) ∧
     RenaultAccident.get_accident_data v n (renault_world s) = Ok d ∧
     x = (sibling p, transact (ReplyCall v n d))) ∨
  (∃ v n, c = PalletSimInsuranceAccident (InsuranceAccident.report_accident_call v n) ∧
     x = (sibling 2000, transact (RequestCall v n))).
Proof.
  intros Hm. destruct c as [c|c|dp|c|]; cbn; [tauto| |tauto| |done].
  - apply (run_preserves (λ w, x ∈ queued (RenaultAccident.queues w) → _)); [by left|].
    destruct c; cbn; unfold RenaultAccident.report_accident, RenaultAccident.request_data,
      RenaultAccident.set_ipfs_status, RenaultAccident.send; unfold_dispatch;
      repeat (case_match; cbn in *; simplify_eq); try tauto;
      match goal with H : send_xcm ?d ?m ?q = (?q', _) |- _ =>
        intros [Hx| ->]%(send_queued_eq _ _ _ _ _ H) end; naive_solver.
  - apply (run_preserves (λ w, x ∈ queued (InsuranceAccident.queues w) → _)); [by left|].
    destruct c; cbn; unfold InsuranceAccident.report_accident, InsuranceAccident.receive_data,
      InsuranceAccident.send; unfold_dispatch;
      repeat (case_match; cbn in *; simplify_eq); try tauto;
      match goal with H : send_xcm ?d ?m ?q = (?q', _) |- _ =>
        intros [Hx| ->]%(send_queued_eq _ _ _ _ _ H) end; naive_solver.
Qed.

Lemma dispatch_data c o s k d :
  modelled c = true →
  InsuranceAccident.AccidentsData (sim_insurance_accident (dispatch_call svc c o s).1) !! k = Some d →
  InsuranceAccident.AccidentsData (sim_insurance_accident s) !! k = Some d ∨
  ∃ p v n, o = SiblingParachain p ∧
    c = PalletSimInsuranceAccident (InsuranceAccident.receive_data_call v n d) ∧
    k = accident_key v n.
Proof.
  intros Hm. destruct c as [c|c|dp|c|]; cbn; [tauto|tauto|tauto| |done].
  apply (run_preserves (λ w,
    InsuranceAccident.AccidentsData (InsuranceAccident.accident w) !! k = Some d → _)); [by left|].
  destruct c; cbn; unfold InsuranceAccident.report_accident, InsuranceAccident.receive_data,
    InsuranceAccident.send; unfold_dispatch;
    repeat (case_match; cbn in *; simplify_eq); try tauto;
    intros [[<- <-]|[_ ?]]%lookup_insert_Some; [|tauto]; right; eauto 10.
Qed.

Lemma dispatch_accident c o s v n d :
  modelled c = true →
  RenaultAccident.get_accident_data v n (renault_world s) = Ok d →
  RenaultAccident.get_accident_data v n (renault_world (dispatch_call svc c o s).1) = Ok d.
Proof.
  intros Hm Hd. destruct c as [c|c|dp|c|]; cbn; try done.
  apply (run_preserves (λ w, RenaultAccident.get_accident_data v n
    (renault_world (with_renault_world w s)) = Ok d)); [done|].
  revert Hd. unfold RenaultAccident.get_accident_data. case_decide; [done|].
  case_match eqn:E; [|done]. intros [= ->].
  cbn [renault_world with_renault_world RenaultAccident.accident sim_renault_accident].
  by rewrite (RenaultAccident.dispatch_keeps_accidents o c (renault_world s) _ _ E).
Qed.

(** ** The two chains *)

Record Net := mkNet {
  renault_chain : Chain (Q := Q);
  insurance_chain : Chain (Q := Q);
}.

(** A transaction of the chain's own users: any origin but another chain, and
    arguments in the range of their type. *)
Definition local (o : Origin) : bool := match o with SiblingParachain _ => false | _ => true end.
Definition well_typed (c : Call (X := X)) : Prop :=
  match c with
  | PalletSimInsuranceAccident (InsuranceAccident.report_accident_call _ n) => is_u32 n
  | OtherCall _ => False
  | _ => True
  end.

Definition at_block (b : BlockNumber) (s : Chain (Q := Q)) : Chain :=
  mkChain b (sim_renault s) (sim_renault_accident s) (sim_insurance s) (sim_insurance_accident s)
    (router s).

(** A call of a pallet that is not modelled is apart from the exchange: it
    writes neither accident pallet's storage and sends the two chains nothing. *)
Record apart (s s' : Chain (Q := Q)) : Prop := {
  ap_renault : sim_renault_accident s' = sim_renault_accident s;
  ap_insurance : sim_insurance_accident s' = sim_insurance_accident s;
  ap_queue p m : p = 2000 ∨ p = 3000 → (sibling p, m) ∈ queued (router s') → (sibling p, m) ∈ queued (router s);
}.

(** Messages are delivered in any order, any number of times, or never. *)
Inductive step : Net → Net → Prop :=
| call_renault c o R I : local o = true → well_typed c →
    step (mkNet R I) (mkNet (dispatch_call svc c o R).1 I)
| call_insurance c o R I : local o = true → well_typed c →
    step (mkNet R I) (mkNet R (dispatch_call svc c o I).1)
| other_renault x o R I : apart R (dispatch_call svc (OtherCall x) o R).1 →
    step (mkNet R I) (mkNet (dispatch_call svc (OtherCall x) o R).1 I)
| other_insurance x o R I : apart I (dispatch_call svc (OtherCall x) o I).1 →
    step (mkNet R I) (mkNet R (dispatch_call svc (OtherCall x) o I).1)
| deliver_to_renault m limit credit R I R' out :
    (sibling 2000, m) ∈ queued (router I) →
    execute_xcm svc 2000 (sibling 3000) m limit credit R = Some (R', out) →
    step (mkNet R I) (mkNet R' I)
| deliver_to_insurance m limit credit R I I' out :
    (sibling 3000, m) ∈ queued (router R) →
    execute_xcm svc 3000 (sibling 2000) m limit credit I = Some (I', out) →
    step (mkNet R I) (mkNet R I')
| next_block b b' R I : step (mkNet R I) (mkNet (at_block b R) (at_block b' I)).

Record agreement (s : Net) : Prop := {
  requests_ok m : (sibling 2000, m) ∈ queued (router (insurance_chain s)) →
    ∃ (v : AccountId32) n, is_u32 n ∧ m = transact (RequestCall v n);
  replies_ok m : (sibling 3000, m) ∈ queued (router (renault_chain s)) →
    ∃ (v : AccountId32) n d, is_u32 n ∧ m = transact (ReplyCall v n d) ∧
      RenaultAccident.get_accident_data v n (renault_world (renault_chain s)) = Ok d;
  data_ok k d :
    InsuranceAccident.AccidentsData (sim_insurance_accident (insurance_chain s)) !! k = Some d →
    ∃ (v : AccountId32) n, k = accident_key v n ∧
      RenaultAccident.get_accident_data v n (renault_world (renault_chain s)) = Ok d;
}.

Context (drop_unused : ∀ s, svc_trader_drop svc (svc_trader_new svc) s = s).

Lemma well_typed_modelled c : well_typed c → modelled c = true.
Proof. by destruct c. Qed.

Lemma agreement_call_renault c o R I :
  local o = true → well_typed c → agreement (mkNet R I) →
  agreement (mkNet (dispatch_call svc c o R).1 I).
Proof.
  intros Ho Hc [Hq Hr Hd]. pose proof (well_typed_modelled c Hc) as Hm. split; cbn [renault_chain insurance_chain] in *.
  - done.
  - intros m [Hx|[(p & ? & ? & ? & -> & _)|(v & n & -> & ?)]]%dispatch_queue; [|done|done|done].
    destruct (Hr m Hx) as (v & n & d & ? & -> & ?). eauto 10 using dispatch_accident.
  - intros k d Hk. destruct (Hd k d Hk) as (v & n & -> & ?). eauto using dispatch_accident.
Qed.

Lemma agreement_call_insurance c o R I :
  local o = true → well_typed c → agreement (mkNet R I) →
  agreement (mkNet R (dispatch_call svc c o I).1).
Proof.
  intros Ho Hc [Hq Hr Hd]. pose proof (well_typed_modelled c Hc) as Hm. split; cbn [renault_chain insurance_chain] in *.
  - intros m [Hx|[(p & ? & ? & ? & -> & _)|(v & n & -> & ?)]]%dispatch_queue;
      [by apply Hq|done| |done]. simplify_eq. eauto.
  - done.
  - intros k d [Hk|(p & ? & ? & -> & _)]%dispatch_data; [by apply Hd|done|done].
Qed.

Lemma agreement_deliver_renault m limit credit R I R' out :
  (sibling 2000, m) ∈ queued (router I) →
  execute_xcm svc 2000 (sibling 3000) m limit credit R = Some (R', out) →
  agreement (mkNet R I) → agreement (mkNet R' I).
Proof.
  intros Hm Hx [Hq Hr Hd]. destruct (Hq m Hm) as (v & n & Hn & ->).
  rewrite (execute_transact 2000 _ _ 3000 _ _ _ (or_intror eq_refl) (request_decodes v n Hn) eq_refl),
    drop_unused in Hx. case_decide; simplify_eq; [by split|]. split; cbn [renault_chain insurance_chain] in *.
  - done.
  - intros m [Hx|[(p & ? & ? & d & [= <-] & [= <- <-] & Hg & ?)|(? & ? & ? & ?)]]%dispatch_queue;
      [| |done|done].
    + destruct (Hr m Hx) as (u & i & d & ? & -> & ?). eauto 10 using dispatch_accident.
    + simplify_eq. eauto 10 using dispatch_accident.
  - intros k d Hk. destruct (Hd k d Hk) as (u & i & -> & ?). eauto using dispatch_accident.
Qed.

Lemma agreement_deliver_insurance m limit credit R I I' out :
  (sibling 3000, m) ∈ queued (router R) →
  execute_xcm svc 3000 (sibling 2000) m limit credit I = Some (I', out) →
  agreement (mkNet R I) → agreement (mkNet R I').
Proof.
  intros Hm Hx [Hq Hr Hd]. destruct (Hr m Hm) as (v & n & d & Hn & -> & Hg).
  rewrite (execute_transact 3000 _ _ 2000 _ _ _ (or_introl eq_refl) (reply_decodes v n d Hn) eq_refl),
    drop_unused in Hx. case_decide; simplify_eq; [by split|]. split; cbn [renault_chain insurance_chain] in *.
  - intros m [Hx|[(? & ? & ? & ? & ? & ? & ?)|(? & ? & ? & ?)]]%dispatch_queue; [by apply Hq|done|done|done].
  - done.
  - intros k x [Hk|(p & ? & ? & _ & [= <- <- <-] & ->)]%dispatch_data; [by apply Hd|eauto|done].
Qed.

Lemma agreement_apart R R' I I' : apart R R' → apart I I' → agreement (mkNet R I) → agreement (mkNet R' I').
Proof.
  intros [R1 R2 R3] [I1 I2 I3] [Hq Hr Hd]. cbn in *.
  assert (∀ v n, RenaultAccident.get_accident_data v n (renault_world R') =
    RenaultAccident.get_accident_data v n (renault_world R)) as Hg.
  { intros v n. unfold RenaultAccident.get_accident_data. cbn. by rewrite R1. }
  split; cbn.
  - intros m Hm. apply Hq, I3; [by left|done].
  - intros m Hm. destruct (Hr m) as (v & n & d & ? & -> & ?); [apply R3; [by right|done]|]. rewrite <-Hg in *. eauto 10.
  - intros k d. rewrite I2. intros (v & n & -> & ?)%Hd. rewrite <-Hg in *. eauto.
Qed.

Lemma apart_refl s : apart s s.
Proof. by split. Qed.

Lemma step_agreement s s' : step s s' → agreement s → agreement s'.
Proof.
  destruct 1; eauto using agreement_call_renault, agreement_call_insurance,
    agreement_deliver_renault, agreement_deliver_insurance, agreement_apart, apart_refl.
  intros []. by split.
Qed.

(** C22. The insurance chain never holds data the Renault chain does not vouch
    for: from chains with empty queues and no data received, whatever calls of
    the factory, insurance and accident pallets their users make and in whatever
    order, however often or rarely the messages are delivered, data held for an
    accident is the data the Renault chain returns for an accident with that
    key.  Calls of other pallets may come in between, as long as they do not
    write the storage of the accident pallets and send neither chain a message:
    what sudo could rewrite, or the XCM pallet send, is left out. *)
Theorem chains_agree s s' :
  queued (router (renault_chain s)) = [] → queued (router (insurance_chain s)) = [] →
  InsuranceAccident.AccidentsData (sim_insurance_accident (insurance_chain s)) = ∅ →
  rtc step s s' →
  ∀ v n d,
    InsuranceAccident.accident_data v n (insurance_world (insurance_chain s')) = Some d →
    ∃ v' n', accident_key v' n' = accident_key v n ∧
      RenaultAccident.get_accident_data v' n' (renault_world (renault_chain s')) = Ok d.
Proof.
  intros HR HI HD Hrtc v n d Hd.
  assert (agreement s) as Hs.
  { split; rewrite ?HR, ?HI, ?HD; intros *; [by intros []%elem_of_nil..|]. by rewrite lookup_empty. }
  assert (agreement s') as Hs'.
  { clear - drop_unused Hrtc Hs. induction Hrtc; eauto using step_agreement. }
  destruct (data_ok _ Hs' _ _ Hd) as (v' & n' & Hk & ?). eauto.
Qed.

(** ** A completed exchange *)

(** The queues have room. *)
Context (router_accepts : ∀ dest msg (q : Q),
  ∃ q', send_xcm dest msg q = (q', Ok tt) ∧ (dest, msg) ∈ queued q').

Lemma report_sends driver v n s :
  SimInsurance.is_driver driver (sim_insurance s) = true →
  InsuranceAccident.DeclaredAccidents (sim_insurance_accident s) !!
    accident_key driver (InsuranceAccident.next_count driver (insurance_world s)) = None →
  let s' := (dispatch_call svc (PalletSimInsuranceAccident
               (InsuranceAccident.report_accident_call v n)) (Signed driver) s).1 in
  (sibling 2000, transact (RequestCall v n)) ∈ queued (router s') ∧
  InsuranceAccident.AccidentsData (sim_insurance_accident s') =
    InsuranceAccident.AccidentsData (sim_insurance_accident s).
Proof.
  intros Hd Hfree. apply contains_key_false in Hfree.
  unfold accident_key, InsuranceAccident.next_count in Hfree. cbn in Hfree.
  destruct (router_accepts (sibling 2000) (transact (RequestCall v n)) (router s)) as (q & Hq & Hin).
  cbn. unfold run, InsuranceAccident.report_accident, InsuranceAccident.send. unfold_dispatch.
  cbn. rewrite Hd, Hfree. cbn. unfold InsuranceAccident.renault_para. rewrite Hq. by cbn.
Qed.

Lemma request_sends p v n d s :
  SimRenault.is_vehicle v (sim_renault s) = true →
  RenaultAccident.get_accident_data v n (renault_world s) = Ok d →
  (sibling p, transact (ReplyCall v n d)) ∈
    queued (router (dispatch_call svc (PalletSimRenaultAccident
      (RenaultAccident.request_data_call v n)) (SiblingParachain p) s).1).
Proof.
  intros Hv Hd.
  destruct (router_accepts (sibling p) (transact (ReplyCall v n d)) (router s)) as (q & Hq & Hin).
  cbn. unfold run, RenaultAccident.request_data, RenaultAccident.send. unfold_dispatch.
  cbn. rewrite Hv. cbn.
  change (RenaultAccident.get_accident_data v n _) with
    (RenaultAccident.get_accident_data v n (renault_world s)).
  rewrite Hd. cbn. rewrite Hq. by cbn.
Qed.

Lemma receive_stores p v n d s :
  InsuranceAccident.accident_data v n (insurance_world s) = None →
  InsuranceAccident.accident_data v n (insurance_world
    (dispatch_call svc (PalletSimInsuranceAccident (InsuranceAccident.receive_data_call v n d))
       (SiblingParachain p) s).1) = Some d.
Proof.
  unfold InsuranceAccident.accident_data. intros Hfree. cbn in Hfree.
  pose proof (proj2 (contains_key_false _ _) Hfree) as Hc. unfold accident_key in Hc.
  cbn. unfold run, InsuranceAccident.receive_data. unfold_dispatch. cbn. rewrite Hc. cbn.
  by rewrite lookup_insert_eq.
Qed.

(** C26. A delivered exchange ends with the data: when an insured driver
    declares an accident whose data the Renault chain has, the declaration
    queues a message; executing it on the Renault chain completes and queues a
    reply; and executing the reply on the insurance chain completes and leaves
    the Renault chain's data stored for the accident. *)
Theorem data_exchange R I v n d driver limit credit :
  is_u32 n → message_weight ≤ limit →
  SimRenault.is_vehicle v (sim_renault R) = true →
  RenaultAccident.get_accident_data v n (renault_world R) = Ok d →
  SimInsurance.is_driver driver (sim_insurance I) = true →
  InsuranceAccident.DeclaredAccidents (sim_insurance_accident I) !!
    accident_key driver (InsuranceAccident.next_count driver (insurance_world I)) = None →
  InsuranceAccident.accident_data v n (insurance_world I) = None →
  ∃ I1 m1 R1 m2 I2,
    I1 = (dispatch_call svc (PalletSimInsuranceAccident
            (InsuranceAccident.report_accident_call v n)) (Signed driver) I).1 ∧
    (sibling 2000, m1) ∈ queued (router I1) ∧
    execute_xcm svc 2000 (sibling 3000) m1 limit credit R = Some (R1, Complete message_weight) ∧
    (sibling 3000, m2) ∈ queued (router R1) ∧
    execute_xcm svc 3000 (sibling 2000) m2 limit credit I1 = Some (I2, Complete message_weight) ∧
    InsuranceAccident.accident_data v n (insurance_world I2) = Some d.
Proof.
  intros Hn Hl Hv Hg Hd Hfree Hnone.
  destruct (report_sends driver v n I Hd Hfree) as [Hm1 Hdata].
  do 5 eexists. split; [done|]. split; [exact Hm1|].
  rewrite (execute_transact 2000 _ _ 3000 _ _ _ (or_intror eq_refl) (request_decodes v n Hn) eq_refl).
  rewrite (decide_False (P := limit < message_weight)) by lia. rewrite drop_unused.
  split; [done|]. split; [by apply request_sends|].
  rewrite (execute_transact 3000 _ _ 2000 _ _ _ (or_introl eq_refl) (reply_decodes v n d Hn) eq_refl).
  rewrite (decide_False (P := limit < message_weight)) by lia. rewrite drop_unused.
  split; [done|]. apply receive_stores.
  unfold InsuranceAccident.accident_data in *. cbn -[dispatch_call] in *. by rewrite Hdata.
Qed.
End Interop.

(** ** Examples: account 5 is an insured driver, account 9 a vehicle that has
    reported one accident *)

Section Examples.

(** A stand-in that tells the accounts and counters of the examples apart. *)
#[local] Instance tail32 : Sha256 := λ l, pad32 (drop 4 l).
#[local] Existing Instance outbox_send.
#[local] Instance outbox_router : Router outbox.
Proof.
  refine {| queued q := q |}. intros dest msg q x Hx.
  cbn in Hx. apply elem_of_app in Hx as [?|Hx]; [auto|]. apply list_elem_of_singleton in Hx. auto.
Defined.

(** No assets, no fees, no other pallet. *)
Definition example_services : Services (Q := outbox) (X := Empty_set) (T := unit) :=
  mkServices (λ _ _ s, (s, Err AssetNotFound)) (λ _ _ s, (s, Err AssetNotFound))
    (λ _ _ _ s, (s, Err AssetNotFound)) tt (λ _ _ t s, (t, s, Err TooExpensive))
    (λ _ t s, (t, s, None)) (λ _ s, s) (λ _ _ _ _ s, s) (λ _ _ _ s, (s, false))
    (λ _ _ s, (s, 0)) (λ _ _ _ s, (s, Err Unimplemented)) (λ _ s, (s, Err Unimplemented))
    (λ _, None) (λ x : Empty_set, match x with end) (λ x : Empty_set, match x with end) (λ p, account p) Plain 0.

Definition example_renault : Chain (Q := outbox) :=
  (dispatch_call example_services
     (PalletSimRenaultAccident (RenaultAccident.report_accident_call (RenaultAccident.example_data 1)))
     (Signed (account 9))
     (mkChain 1
        (SimRenault.mkState {[account 1 := 1]} {[account 9 := (account 1, 1)]} {[account 9 := true]} [])
        RenaultAccident.empty_state SimInsurance.empty_state InsuranceAccident.empty_state [])).1.
Definition example_insurance : Chain (Q := outbox) :=
  mkChain 1 (SimRenault.mkState ∅ ∅ ∅ []) RenaultAccident.empty_state
    (SimInsurance.genesis_build 0 (Some (account 5))) InsuranceAccident.empty_state [].

Lemma encoded_calls_decode_witness :
  take_decoded example_services (RequestCall (account 9) 1) =
    Some (PalletSimRenaultAccident (RenaultAccident.request_data_call (account 9) 1)) ∧
  take_decoded example_services (ReplyCall (account 9) 1 (RenaultAccident.example_data 1)) =
    Some (PalletSimInsuranceAccident
            (InsuranceAccident.receive_data_call (account 9) 1 (RenaultAccident.example_data 1))).
Proof. apply (encoded_calls_decode example_services). unfold is_u32, u32_max. lia. Defined.

Definition declared : Chain (Q := outbox) :=
  (dispatch_call example_services (PalletSimInsuranceAccident
     (InsuranceAccident.report_accident_call (account 9) 1)) (Signed (account 5))
     example_insurance).1.
Definition asked : Chain (Q := outbox) :=
  (dispatch_call example_services (PalletSimRenaultAccident
     (RenaultAccident.request_data_call (account 9) 1)) (SiblingParachain 3000) example_renault).1.
Definition answered : Chain (Q := outbox) :=
  (dispatch_call example_services (PalletSimInsuranceAccident
     (InsuranceAccident.receive_data_call (account 9) 1 (RenaultAccident.example_data 1)))
     (SiblingParachain 2000) declared).1.

Lemma example_run :
  rtc (step example_services) (mkNet example_renault example_insurance) (mkNet asked answered).
Proof.
  assert (is_u32 1) as H1 by (unfold is_u32, u32_max; lia).
  eapply rtc_l; [apply (call_insurance _ (PalletSimInsuranceAccident
    (InsuranceAccident.report_accident_call (account 9) 1)) (Signed (account 5)));
    [done|exact H1]|].
  eapply rtc_l; [apply (deliver_to_renault _ (transact (RequestCall (account 9) 1))
    message_weight 0 _ _ asked (Complete message_weight)); [apply list_elem_of_here|];
    exact (execute_transact _ 2000 _ _ 3000 _ _ _ (or_intror eq_refl)
             (request_decodes _ (account 9) 1 H1) eq_refl)|].
  eapply rtc_l; [apply (deliver_to_insurance _ (transact (ReplyCall (account 9) 1
    (RenaultAccident.example_data 1))) message_weight 0 _ _ answered (Complete message_weight));
    [apply list_elem_of_here|];
    exact (execute_transact _ 3000 _ _ 2000 _ _ _ (or_introl eq_refl)
             (reply_decodes _ (account 9) 1 _ H1) eq_refl)|].
  apply rtc_refl.
Qed.

Lemma chains_agree_witness :
  ∃ v' n', accident_key v' n' = accident_key (account 9) 1 ∧
    RenaultAccident.get_accident_data v' n' (renault_world asked) =
      Ok (RenaultAccident.example_data 1).
Proof.
  apply (chains_agree example_services (λ _, eq_refl)
    (mkNet example_renault example_insurance) (mkNet asked answered));
    [reflexivity|reflexivity|reflexivity|exact example_run|vm_compute; reflexivity].
Defined.

Lemma data_exchange_witness :
  ∃ I1 m1 R1 m2 I2,
    I1 = declared ∧ (sibling 2000, m1) ∈ queued (router I1) ∧
    execute_xcm example_services 2000 (sibling 3000) m1 message_weight 0 example_renault =
      Some (R1, Complete message_weight) ∧
    (sibling 3000, m2) ∈ queued (router R1) ∧
    execute_xcm example_services 3000 (sibling 2000) m2 message_weight 0 I1 =
      Some (I2, Complete message_weight) ∧
    InsuranceAccident.accident_data (account 9) 1 (insurance_world I2) =
      Some (RenaultAccident.example_data 1).
Proof.
  apply (data_exchange example_services (λ _, eq_refl)).
  - intros dest msg q. eexists. split; [reflexivity|].
    apply elem_of_app. right. apply list_elem_of_here.
  - unfold is_u32, u32_max. lia.
  - lia.
  - vm_compute; reflexivity.
  - vm_compute; reflexivity.
  - vm_compute; reflexivity.
  - vm_compute; reflexivity.
  - vm_compute; reflexivity.
Defined.
End Examples.
End Interop.
