(* ===== verification/Configuration.v ===== *)
(** * The relay chain's host configuration

    [runtime/parachains/src/configuration.rs]: the parameters of the parachains
    host, the check of their consistency, and the pallet that changes them two
    sessions ahead.  [shared.rs] keeps the session index the pallet schedules
    against. *)

From S2P Require Import Prelude.
From S2P Require Import Frame.

Abbreviation SessionIndex := Z.

(** ** [HostConfiguration] *)

Record HostConfiguration := mkHostConfiguration {
  max_code_size : Z;
  max_head_data_size : Z;
  max_upward_queue_count : Z;
  max_upward_queue_size : Z;
  max_upward_message_size : Z;
  max_upward_message_num_per_candidate : Z;
  hrmp_max_message_num_per_candidate : Z;
  validation_upgrade_cooldown : BlockNumber;
  validation_upgrade_delay : BlockNumber;
  max_pov_size : Z;
  max_downward_message_size : Z;
  ump_service_total_weight : Weight;
  hrmp_max_parachain_outbound_channels : Z;
  hrmp_max_parathread_outbound_channels : Z;
  hrmp_sender_deposit : Balance;
  hrmp_recipient_deposit : Balance;
  hrmp_channel_max_capacity : Z;
  hrmp_channel_max_total_size : Z;
  hrmp_max_parachain_inbound_channels : Z;
  hrmp_max_parathread_inbound_channels : Z;
  hrmp_channel_max_message_size : Z;
  code_retention_period : BlockNumber;
  parathread_cores : Z;
  parathread_retries : Z;
  group_rotation_frequency : BlockNumber;
  chain_availability_period : BlockNumber;
  thread_availability_period : BlockNumber;
  scheduling_lookahead : Z;
  max_validators_per_core : option Z;
  max_validators : option Z;
  dispute_period : SessionIndex;
  dispute_post_conclusion_acceptance_period : BlockNumber;
  dispute_max_spam_slots : Z;
  dispute_conclusion_by_time_out_period : BlockNumber;
  no_show_slots : Z;
  n_delay_tranches : Z;
  zeroth_delay_tranche_width : Z;
  needed_approvals : Z;
  relay_vrf_modulo_samples : Z;
  ump_max_individual_weight : Weight;
  pvf_checking_enabled : bool;
  pvf_voting_ttl : SessionIndex;
  minimum_validation_upgrade_delay : BlockNumber;
}.

(** [frame_support::weights::constants] *)
Definition WEIGHT_PER_MILLIS : Z := 1000000000.

Module HostConfiguration.

Definition default : HostConfiguration := {|
  max_code_size := 0;
  max_head_data_size := 0;
  max_upward_queue_count := 0;
  max_upward_queue_size := 0;
  max_upward_message_size := 0;
  max_upward_message_num_per_candidate := 0;
  hrmp_max_message_num_per_candidate := 0;
  validation_upgrade_cooldown := 0;
  validation_upgrade_delay := 2;
  max_pov_size := 0;
  max_downward_message_size := 0;
  ump_service_total_weight := 0;
  hrmp_max_parachain_outbound_channels := 0;
  hrmp_max_parathread_outbound_channels := 0;
  hrmp_sender_deposit := 0;
  hrmp_recipient_deposit := 0;
  hrmp_channel_max_capacity := 0;
  hrmp_channel_max_total_size := 0;
  hrmp_max_parachain_inbound_channels := 0;
  hrmp_max_parathread_inbound_channels := 0;
  hrmp_channel_max_message_size := 0;
  code_retention_period := 0;
  parathread_cores := 0;
  parathread_retries := 0;
  group_rotation_frequency := 1;
  chain_availability_period := 1;
  thread_availability_period := 1;
  scheduling_lookahead := 0;
  max_validators_per_core := None;
  max_validators := None;
  dispute_period := 6;
  dispute_post_conclusion_acceptance_period := 100;
  dispute_max_spam_slots := 2;
  dispute_conclusion_by_time_out_period := 200;
  no_show_slots := 1;
  n_delay_tranches := 0;
  zeroth_delay_tranche_width := 0;
  needed_approvals := 0;
  relay_vrf_modulo_samples := 0;
  ump_max_individual_weight := 20 * WEIGHT_PER_MILLIS;
  pvf_checking_enabled := false;
  pvf_voting_ttl := 2;
  minimum_validation_upgrade_delay := 2;
|}.

Definition MAX_CODE_SIZE : Z := 3 * 1024 * 1024.
Definition MAX_HEAD_DATA_SIZE : Z := 1 * 1024 * 1024.
Definition MAX_POV_SIZE : Z := 5 * 1024 * 1024.
Definition MAX_UPWARD_MESSAGE_SIZE_BOUND : Z := 50 * 1024.
Definition HRMP_MAX_INBOUND_CHANNELS_BOUND : Z := 128.
Definition HRMP_MAX_OUTBOUND_CHANNELS_BOUND : Z := 128.

Inductive InconsistentError :=
| ZeroGroupRotationFrequency
| ZeroChainAvailabilityPeriod
| ZeroThreadAvailabilityPeriod
| ZeroNoShowSlots
| MaxCodeSizeExceedHardLimit (max_code_size : Z)
| MaxHeadDataSizeExceedHardLimit (max_head_data_size : Z)
| MaxPovSizeExceedHardLimit (max_pov_size : Z)
| MinimumValidationUpgradeDelayLessThanChainAvailabilityPeriod
    (minimum_validation_upgrade_delay chain_availability_period : BlockNumber)
| MinimumValidationUpgradeDelayLessThanThreadAvailabilityPeriod
    (minimum_validation_upgrade_delay thread_availability_period : BlockNumber)
| ValidationUpgradeDelayIsTooLow (validation_upgrade_delay : BlockNumber)
| MaxUpwardMessageSizeExceeded (max_message_size : Z)
| MaxHrmpOutboundChannelsExceeded
| MaxHrmpInboundChannelsExceeded.

Definition check_consistency (c : HostConfiguration) : result InconsistentError unit :=
  if decide (group_rotation_frequency c = 0) then Err ZeroGroupRotationFrequency
  else if decide (chain_availability_period c = 0) then Err ZeroChainAvailabilityPeriod
  else if decide (thread_availability_period c = 0) then Err ZeroThreadAvailabilityPeriod
  else if decide (no_show_slots c = 0) then Err ZeroNoShowSlots
  else if decide (max_code_size c > MAX_CODE_SIZE) then
    Err (MaxCodeSizeExceedHardLimit (max_code_size c))
  else if decide (max_head_data_size c > MAX_HEAD_DATA_SIZE) then
    Err (MaxHeadDataSizeExceedHardLimit (max_head_data_size c))
  else if decide (max_pov_size c > MAX_POV_SIZE) then
    Err (MaxPovSizeExceedHardLimit (max_pov_size c))
  else if decide (minimum_validation_upgrade_delay c <= chain_availability_period c) then
    Err (MinimumValidationUpgradeDelayLessThanChainAvailabilityPeriod
           (minimum_validation_upgrade_delay c) (chain_availability_period c))
  else if decide (minimum_validation_upgrade_delay c <= thread_availability_period c) then
    Err (MinimumValidationUpgradeDelayLessThanThreadAvailabilityPeriod
           (minimum_validation_upgrade_delay c) (thread_availability_period c))
  else if decide (validation_upgrade_delay c <= 1) then
    Err (ValidationUpgradeDelayIsTooLow (validation_upgrade_delay c))
  else if decide (max_upward_message_size c > MAX_UPWARD_MESSAGE_SIZE_BOUND) then
    Err (MaxUpwardMessageSizeExceeded (max_upward_message_size c))
  else if decide (hrmp_max_parachain_outbound_channels c > HRMP_MAX_OUTBOUND_CHANNELS_BOUND) then
    Err MaxHrmpOutboundChannelsExceeded
  else if decide (hrmp_max_parachain_inbound_channels c > HRMP_MAX_INBOUND_CHANNELS_BOUND) then
    Err MaxHrmpInboundChannelsExceeded
  else Ok tt.

Definition consistent (c : HostConfiguration) : bool :=
  match check_consistency c with Ok _ => true | Err _ => false end.
End HostConfiguration.

(** ** The pallet *)

Module Configuration.

(** One constructor per setter. *)
Inductive Call :=
| set_validation_upgrade_cooldown (new : BlockNumber)
| set_validation_upgrade_delay (new : BlockNumber)
| set_code_retention_period (new : BlockNumber)
| set_max_code_size (new : Z)
| set_max_pov_size (new : Z)
| set_max_head_data_size (new : Z)
| set_parathread_cores (new : Z)
| set_parathread_retries (new : Z)
| set_group_rotation_frequency (new : BlockNumber)
| set_chain_availability_period (new : BlockNumber)
| set_thread_availability_period (new : BlockNumber)
| set_scheduling_lookahead (new : Z)
| set_max_validators_per_core (new : option Z)
| set_max_validators (new : option Z)
| set_dispute_period (new : SessionIndex)
| set_dispute_post_conclusion_acceptance_period (new : BlockNumber)
| set_dispute_max_spam_slots (new : Z)
| set_dispute_conclusion_by_time_out_period (new : BlockNumber)
| set_no_show_slots (new : Z)
| set_n_delay_tranches (new : Z)
| set_zeroth_delay_tranche_width (new : Z)
| set_needed_approvals (new : Z)
| set_relay_vrf_modulo_samples (new : Z)
| set_max_upward_queue_count (new : Z)
| set_max_upward_queue_size (new : Z)
| set_max_downward_message_size (new : Z)
| set_ump_service_total_weight (new : Weight)
| set_max_upward_message_size (new : Z)
| set_max_upward_message_num_per_candidate (new : Z)
| set_hrmp_open_request_ttl (new : Z)
| set_hrmp_sender_deposit (new : Balance)
| set_hrmp_recipient_deposit (new : Balance)
| set_hrmp_channel_max_capacity (new : Z)
| set_hrmp_channel_max_total_size (new : Z)
| set_hrmp_max_parachain_inbound_channels (new : Z)
| set_hrmp_max_parathread_inbound_channels (new : Z)
| set_hrmp_channel_max_message_size (new : Z)
| set_hrmp_max_parachain_outbound_channels (new : Z)
| set_hrmp_max_parathread_outbound_channels (new : Z)
| set_hrmp_max_message_num_per_candidate (new : Z)
| set_ump_max_individual_weight (new : Weight)
| set_pvf_checking_enabled (new : bool)
| set_pvf_voting_ttl (new : SessionIndex)
| set_minimum_validation_upgrade_delay (new : BlockNumber)
| set_bypass_consistency_check (new : bool).

(** The closure a setter passes to [schedule_config_update]. *)
Definition updater (call : Call) (c : HostConfiguration) : HostConfiguration := {|
  max_code_size := match call with set_max_code_size new => new | _ => max_code_size c end;
  max_head_data_size := match call with set_max_head_data_size new => new | _ => max_head_data_size c end;
  max_upward_queue_count := match call with set_max_upward_queue_count new => new | _ => max_upward_queue_count c end;
  max_upward_queue_size := match call with set_max_upward_queue_size new => new | _ => max_upward_queue_size c end;
  max_upward_message_size := match call with set_max_upward_message_size new => new | _ => max_upward_message_size c end;
  max_upward_message_num_per_candidate := match call with set_max_upward_message_num_per_candidate new => new | _ => max_upward_message_num_per_candidate c end;
  hrmp_max_message_num_per_candidate := match call with set_hrmp_max_message_num_per_candidate new => new | _ => hrmp_max_message_num_per_candidate c end;
  validation_upgrade_cooldown := match call with set_validation_upgrade_cooldown new => new | _ => validation_upgrade_cooldown c end;
  validation_upgrade_delay := match call with set_validation_upgrade_delay new => new | _ => validation_upgrade_delay c end;
  max_pov_size := match call with set_max_pov_size new => new | _ => max_pov_size c end;
  max_downward_message_size := match call with set_max_downward_message_size new => new | _ => max_downward_message_size c end;
  ump_service_total_weight := match call with set_ump_service_total_weight new => new | _ => ump_service_total_weight c end;
  hrmp_max_parachain_outbound_channels := match call with set_hrmp_max_parachain_outbound_channels new => new | _ => hrmp_max_parachain_outbound_channels c end;
  hrmp_max_parathread_outbound_channels := match call with set_hrmp_max_parathread_outbound_channels new => new | _ => hrmp_max_parathread_outbound_channels c end;
  hrmp_sender_deposit := match call with set_hrmp_sender_deposit new => new | _ => hrmp_sender_deposit c end;
  hrmp_recipient_deposit := match call with set_hrmp_recipient_deposit new => new | _ => hrmp_recipient_deposit c end;
  hrmp_channel_max_capacity := match call with set_hrmp_channel_max_capacity new => new | _ => hrmp_channel_max_capacity c end;
  hrmp_channel_max_total_size := match call with set_hrmp_channel_max_total_size new => new | _ => hrmp_channel_max_total_size c end;
  hrmp_max_parachain_inbound_channels := match call with set_hrmp_max_parachain_inbound_channels new => new | _ => hrmp_max_parachain_inbound_channels c end;
  hrmp_max_parathread_inbound_channels := match call with set_hrmp_max_parathread_inbound_channels new => new | _ => hrmp_max_parathread_inbound_channels c end;
  hrmp_channel_max_message_size := match call with set_hrmp_channel_max_message_size new => new | _ => hrmp_channel_max_message_size c end;
  code_retention_period := match call with set_code_retention_period new => new | _ => code_retention_period c end;
  parathread_cores := match call with set_parathread_cores new => new | _ => parathread_cores c end;
  parathread_retries := match call with set_parathread_retries new => new | _ => parathread_retries c end;
  group_rotation_frequency := match call with set_group_rotation_frequency new => new | _ => group_rotation_frequency c end;
  chain_availability_period := match call with set_chain_availability_period new => new | _ => chain_availability_period c end;
  thread_availability_period := match call with set_thread_availability_period new => new | _ => thread_availability_period c end;
  scheduling_lookahead := match call with set_scheduling_lookahead new => new | _ => scheduling_lookahead c end;
  max_validators_per_core := match call with set_max_validators_per_core new => new | _ => max_validators_per_core c end;
  max_validators := match call with set_max_validators new => new | _ => max_validators c end;
  dispute_period := match call with set_dispute_period new => new | _ => dispute_period c end;
  dispute_post_conclusion_acceptance_period := match call with set_dispute_post_conclusion_acceptance_period new => new | _ => dispute_post_conclusion_acceptance_period c end;
  dispute_max_spam_slots := match call with set_dispute_max_spam_slots new => new | _ => dispute_max_spam_slots c end;
  dispute_conclusion_by_time_out_period := match call with set_dispute_conclusion_by_time_out_period new => new | _ => dispute_conclusion_by_time_out_period c end;
  no_show_slots := match call with set_no_show_slots new => new | _ => no_show_slots c end;
  n_delay_tranches := match call with set_n_delay_tranches new => new | _ => n_delay_tranches c end;
  zeroth_delay_tranche_width := match call with set_zeroth_delay_tranche_width new => new | _ => zeroth_delay_tranche_width c end;
  needed_approvals := match call with set_needed_approvals new => new | _ => needed_approvals c end;
  relay_vrf_modulo_samples := match call with set_relay_vrf_modulo_samples new => new | _ => relay_vrf_modulo_samples c end;
  ump_max_individual_weight := match call with set_ump_max_individual_weight new => new | _ => ump_max_individual_weight c end;
  pvf_checking_enabled := match call with set_pvf_checking_enabled new => new | _ => pvf_checking_enabled c end;
  pvf_voting_ttl := match call with set_pvf_voting_ttl new => new | _ => pvf_voting_ttl c end;
  minimum_validation_upgrade_delay := match call with set_minimum_validation_upgrade_delay new => new | _ => minimum_validation_upgrade_delay c end;
|}.

Section Pallet.
Context {O A : Type} `{!FrameOrigin O A}.

Inductive Error := InvalidNewValue.

Record State := mkState {
  ActiveConfig : HostConfiguration;
  PendingConfigs : list (SessionIndex * HostConfiguration);
  BypassConsistencyCheck : bool;
}.

(** [None] when [panic_if_not_consistent] panics. *)
Definition genesis_build (config : HostConfiguration) : option State :=
  if HostConfiguration.consistent config then Some (mkState config [] false) else None.

(** [shared.rs] *)
Definition SESSION_DELAY : SessionIndex := 2.
Definition scheduled_session (session_index : SessionIndex) : SessionIndex :=
  Z.min u32_max (session_index + SESSION_DELAY).

(** The first entry due at [at_] or later is replaced; [None] when there is none. *)
Fixpoint replace_pending (at_ : SessionIndex) (new_config : HostConfiguration)
    (l : list (SessionIndex * HostConfiguration)) : option (list (SessionIndex * HostConfiguration)) :=
  match l with
  | [] => None
  | (s, c) :: l =>
      if decide (at_ ≤ s) then Some ((s, new_config) :: l)
      else cons (s, c) <$> replace_pending at_ new_config l
  end.

Definition base_config (s : State) : HostConfiguration :=
  match last (PendingConfigs s) with Some (_, c) => c | None => ActiveConfig s end.

Definition schedule_config_update (session_index : SessionIndex)
    (f : HostConfiguration → HostConfiguration) : Dispatch State Error :=
  s ← get;
  let base_config_consistent := HostConfiguration.consistent (base_config s) in
  let new_config := f (base_config s) in
  ensure (BypassConsistencyCheck s || HostConfiguration.consistent new_config
          || negb base_config_consistent) (Module InvalidNewValue) ;;
  let at_ := scheduled_session session_index in
  let pending_configs :=
    match replace_pending at_ new_config (PendingConfigs s) with
    | Some l => l
    | None => PendingConfigs s ++ [(at_, new_config)]
    end in
  modify (λ s, mkState (ActiveConfig s) pending_configs (BypassConsistencyCheck s)).

Definition dispatch (session_index : SessionIndex) (origin : O) (call : Call) :
    Dispatch State Error :=
  match call with
  | set_hrmp_open_request_ttl _ => throw (Other "this doesn't have any effect")
  | set_bypass_consistency_check new =>
      _ ← or_bad_origin (ensure_root origin);
      modify (λ s, mkState (ActiveConfig s) (PendingConfigs s) new)
  | _ =>
      _ ← or_bad_origin (ensure_root origin);
      schedule_config_update session_index (updater call)
  end.

Record SessionChangeOutcome := mkSessionChangeOutcome {
  prev_config : HostConfiguration;
  new_config : option HostConfiguration;
}.

Definition initializer_on_new_session (session_index : SessionIndex) (s : State) :
    State * SessionChangeOutcome :=
  match PendingConfigs s with
  | [] => (s, mkSessionChangeOutcome (ActiveConfig s) None)
  | pending_configs =>
      let past_and_present := filter (λ p, p.1 ≤ session_index) pending_configs in
      let future := filter (λ p, ¬ p.1 ≤ session_index) pending_configs in
      let new_config := snd <$> last past_and_present in
      (mkState (default (ActiveConfig s) new_config) future (BypassConsistencyCheck s),
       mkSessionChangeOutcome (ActiveConfig s) new_config)
  end.

Definition force_set_active_config (config : HostConfiguration) (s : State) : State :=
  mkState config (PendingConfigs s) (BypassConsistencyCheck s).

(** ** Pending changes *)

(** Changes are due in the next session or the one after, in order. *)
Definition pending_ok (cur : SessionIndex) (l : list (SessionIndex * HostConfiguration)) : Prop :=
  StronglySorted Z.lt (fst <$> l) ∧ Forall (λ p, cur < p.1 ≤ cur + SESSION_DELAY) l.

Abbreviation good c := (HostConfiguration.consistent c = true).

Record config_ok (cur : SessionIndex) (s : State) : Prop := {
  cfg_pending : pending_ok cur (PendingConfigs s);
  cfg_checked : BypassConsistencyCheck s = false;
  cfg_active : good (ActiveConfig s);
  cfg_future : Forall (λ p, good p.2) (PendingConfigs s);
}.

(** The configuration over time: calls of any origin that do not turn the
    checks off, and session changes. *)
Inductive step : SessionIndex * State → SessionIndex * State → Prop :=
| step_call cur s p origin call :
    cur + SESSION_DELAY ≤ u32_max → call ≠ set_bypass_consistency_check true →
    step (cur, s) (cur, (run p (dispatch cur origin call) s).1)
| step_session cur s next : cur < next →
    step (cur, s) (next, (initializer_on_new_session next s).1).

(** A list sorted by session whose keys lie in an interval of two sessions. *)
Lemma pending_shape cur l :
  pending_ok cur l →
  l = [] ∨ (∃ a x, l = [(a, x)] ∧ cur < a ≤ cur + 2) ∨
  (∃ x y, l = [(cur + 1, x); (cur + 2, y)]).
Proof.
  unfold pending_ok, SESSION_DELAY. intros [Hs Hr].
  destruct l as [|[a x] [|[b y] [|[c z] l]]]; [by left| | |].
  - right. left. decompose_Forall. naive_solver.
  - right. right. inversion Hs as [|? ? _ Hlt]; subst. cbn in *. decompose_Forall. cbn in *.
    assert (a = cur + 1 ∧ b = cur + 2) as [-> ->] by lia. eauto.
  - exfalso. inversion Hs as [|? ? Hs' Hlt]; subst. cbn in *.
    inversion Hs' as [|? ? _ Hlt']; subst. decompose_Forall. cbn in *. lia.
Qed.

Lemma Forall_filter {B} (P Q : B → Prop) `{∀ x, Decision (Q x)} l :
  Forall P l → Forall P (filter Q l).
Proof. rewrite !Forall_forall. intros Hl x [_ Hx]%list_elem_of_filter. auto. Qed.

(** What an accepted update does to the pending changes. *)
Lemma schedule_pending cur l c :
  cur + SESSION_DELAY ≤ u32_max → pending_ok cur l →
  let l' := match replace_pending (scheduled_session cur) c l with
            | Some l' => l'
            | None => l ++ [(scheduled_session cur, c)]
            end in
  l' = (filter (λ p, p.1 ≤ cur + 1) l) ++ [(cur + 2, c)].
Proof.
  unfold scheduled_session, SESSION_DELAY. intros Hmax Hp. rewrite Z.min_r by done.
  destruct (pending_shape cur l Hp) as [-> |[(a & x & -> & Ha)|(x & y & ->)]]; cbn; [done| |].
  - repeat (case_decide; cbn); try lia; [|done]. by assert (a = cur + 2) as -> by lia.
  - repeat (case_decide; cbn); try lia; done.
Qed.

Lemma scheduled_ok cur l c :
  pending_ok cur l → pending_ok cur (filter (λ p, p.1 ≤ cur + 1) l ++ [(cur + 2, c)]).
Proof.
  unfold pending_ok, SESSION_DELAY. intros [Hs Hr].
  assert (∀ p, p ∈ filter (λ p, p.1 ≤ cur + 1) l → p.1 = cur + 1) as Hf.
  { intros p [Hle Hin]%list_elem_of_filter. rewrite Forall_forall in Hr. specialize (Hr p Hin). lia. }
  destruct (pending_shape cur l (conj Hs Hr)) as [-> |[(a & x & -> & Ha)|(x & y & ->)]]; cbn.
  - split; [repeat constructor|repeat constructor; cbn; lia].
  - case_decide; cbn; (split; [repeat constructor; cbn; lia|repeat constructor; cbn; lia]).
  - repeat (case_decide; cbn); try lia.
    split; [repeat constructor; cbn; lia|repeat constructor; cbn; lia].
Qed.

Lemma good_base cur s : config_ok cur s → good (base_config s).
Proof.
  intros [_ _ Ha Hf]. unfold base_config. destruct (last (PendingConfigs s)) as [[a c]|] eqn:E; [|done].
  rewrite Forall_forall in Hf. apply (Hf (a, c)). by apply last_Some_elem_of.
Qed.

Lemma schedule_ok cur f s :
  cur + SESSION_DELAY ≤ u32_max → config_ok cur s →
  config_ok cur (schedule_config_update cur f s).1.
Proof.
  intros Hmax Hs. pose proof (good_base cur s Hs) as Hb. destruct Hs as [Hp Hc Ha Hf].
  unfold schedule_config_update. unfold_dispatch. cbn. rewrite Hc, Hb. cbn.
  rewrite orb_false_r. destruct (HostConfiguration.consistent (f _)) eqn:E; cbn; [|by split].
  rewrite (schedule_pending cur _ _ Hmax Hp). split; cbn; [by apply scheduled_ok|done|done|].
  apply Forall_app. split; [by apply Forall_filter|by repeat constructor].
Qed.

Lemma dispatch_ok cur origin call s :
  cur + SESSION_DELAY ≤ u32_max → call ≠ set_bypass_consistency_check true →
  config_ok cur s → config_ok cur (dispatch cur origin call s).1.
Proof.
  intros Hmax Hb Hs.
  assert (∀ f, config_ok cur ((_ ← or_bad_origin (ensure_root origin);
    schedule_config_update cur f) s).1) as Hset.
  { intros f. unfold mbind, M_bind, or_bad_origin, lift, ok_or.
    destruct (ensure_root origin); cbn; [by apply schedule_ok|done]. }
  destruct call; try apply Hset; [done|]. destruct new; [done|]. destruct Hs.
  cbn. unfold_dispatch. destruct (ensure_root origin); by split.
Qed.

(** A call leaves the checks on, with all that depends on them, or turns them
    off. *)
Lemma run_dispatch_ok cur p origin call s :
  cur + SESSION_DELAY ≤ u32_max → config_ok cur s →
  BypassConsistencyCheck (run p (dispatch cur origin call) s).1 = false → config_ok cur (run p (dispatch cur origin call) s).1.
Proof.
  intros Hmax Hs Hc. set (P := λ s, config_ok cur s ∨ BypassConsistencyCheck s = true).
  enough (P (run p (dispatch cur origin call) s).1) as [?|?]; [done|congruence|].
  apply (run_preserves P); [by left|]. unfold P.
  assert (call ≠ set_bypass_consistency_check true → config_ok cur (dispatch cur origin call s).1) as Hok
    by (intros; by apply dispatch_ok).
  destruct call; try (left; by apply Hok). destruct new; [|left; by apply Hok].
  cbn. unfold_dispatch. destruct (ensure_root origin); cbn; [by right|by left].
Qed.

Lemma session_ok cur next s :
  cur < next → config_ok cur s → config_ok next (initializer_on_new_session next s).1.
Proof.
  intros Hlt [[Hsort Hr] Hc Ha Hf]. unfold initializer_on_new_session.
  destruct (PendingConfigs s) as [|p0 l0] eqn:E.
  { split; cbn; rewrite ?E; done || (split; constructor). }
  rewrite <-E in *. clear E. split; cbn.
  - split.
    + clear -Hsort. induction (PendingConfigs s) as [|p l IH]; [constructor|].
      cbn in Hsort. apply StronglySorted_inv in Hsort as [Hl Hp]. rewrite filter_cons.
      case_decide; [|by apply IH]. cbn. constructor; [by apply IH|].
      revert Hp. rewrite !Forall_fmap. apply Forall_filter.
    + rewrite Forall_forall in *. intros p [Hgt Hin]%list_elem_of_filter.
      specialize (Hr p Hin). cbn in *. lia.
  - done.
  - destruct (last _) as [[a c]|] eqn:E; cbn; [|done]. rewrite Forall_forall in Hf.
    apply last_Some_elem_of, list_elem_of_filter in E as [_ E]. apply (Hf (a, c) E).
  - by apply Forall_filter.
Qed.

(** The active configuration is always consistent: from a genesis
    configuration, whatever calls are made and however sessions pass, as long
    as the checks are not turned off, the configuration in force passes the
    consistency check, and so do the pending ones, which are at most one for
    each of the next two sessions, in order. *)
Theorem configuration_invariant config s0 cur s :
  genesis_build config = Some s0 → rtc step (0, s0) (cur, s) →
  good (ActiveConfig s) ∧ Forall (λ p, good p.2) (PendingConfigs s) ∧
  StronglySorted Z.lt (fst <$> PendingConfigs s) ∧
  Forall (λ p, p.1 = cur + 1 ∨ p.1 = cur + 2) (PendingConfigs s).
Proof.
  intros Hg Hrtc.
  assert (config_ok 0 s0) as H0.
  { unfold genesis_build in Hg. destruct (HostConfiguration.consistent config) eqn:E; [|done].
    injection Hg as <-. split; cbn; [split; constructor|done|done|constructor]. }
  assert (config_ok cur s) as [[Hs Hr] Hc Ha Hf].
  { change (config_ok (cur, s).1 (cur, s).2). change (config_ok (0, s0).1 (0, s0).2) in H0.
    induction Hrtc as [|x y z Hxy _ IH]; [done|]. apply IH. clear IH.
    destruct Hxy; cbn in *; [|by eapply session_ok].
    apply (run_preserves (config_ok cur0)); [done|by apply dispatch_ok]. }
  split_and!; [done..|]. eapply Forall_impl; [exact Hr|]. unfold SESSION_DELAY. cbn. lia.
Qed.

(** A change takes effect two sessions later, and not before: an accepted
    setter leaves the configuration of the current and of the next session as
    they were to be, and the session after that runs on the latest scheduled
    configuration with the setter's change applied. *)
Theorem update_takes_effect cur origin call s s' :
  pending_ok cur (PendingConfigs s) → cur + SESSION_DELAY ≤ u32_max →
  (∀ new, call ≠ set_bypass_consistency_check new) →
  dispatch cur origin call s = (s', Ok tt) →
  let next s := (initializer_on_new_session (cur + 1) s).1 in
  let after s := (initializer_on_new_session (cur + 2) s).1 in
  ActiveConfig s' = ActiveConfig s ∧
  ActiveConfig (next s') = ActiveConfig (next s) ∧
  ActiveConfig (after (next s')) = updater call (base_config s).
Proof.
  intros Hp Hmax Hnb Hd.
  assert (∃ l, s' = mkState (ActiveConfig s) l (BypassConsistencyCheck s) ∧
    l = filter (λ p, p.1 ≤ cur + 1) (PendingConfigs s) ++ [(cur + 2, updater call (base_config s))])
    as (l & -> & Hl).
  { assert ((_ ← or_bad_origin (ensure_root origin);
      schedule_config_update cur (updater call)) s = (s', Ok tt)) as Hu.
    { destruct call; try exact Hd; [done|by destruct (Hnb new)]. }
    revert Hu. unfold schedule_config_update. unfold_dispatch.
    destruct (ensure_root origin); cbn; [|done]. case_match; [|done]. intros [= <-].
    eexists. split; [done|]. by rewrite <-(schedule_pending cur _ _ Hmax Hp). }
  cbn. unfold initializer_on_new_session. cbn.
  destruct (pending_shape cur _ Hp) as [E|[(a & x & E & Ha)|(x & y & E)]]; rewrite E in *; cbn in Hl.
  all: subst l; repeat (case_decide; cbn in *; try lia); done.
Qed.

(** Every requirement [check_consistency] makes, and no other: in particular
    nothing bounds the channel limits of parathreads. *)
Lemma consistent_iff c :
  good c ↔
  group_rotation_frequency c ≠ 0 ∧ chain_availability_period c ≠ 0 ∧
  thread_availability_period c ≠ 0 ∧ no_show_slots c ≠ 0 ∧
  max_code_size c ≤ HostConfiguration.MAX_CODE_SIZE ∧
  max_head_data_size c ≤ HostConfiguration.MAX_HEAD_DATA_SIZE ∧
  max_pov_size c ≤ HostConfiguration.MAX_POV_SIZE ∧
  chain_availability_period c < minimum_validation_upgrade_delay c ∧
  thread_availability_period c < minimum_validation_upgrade_delay c ∧
  1 < validation_upgrade_delay c ∧
  max_upward_message_size c ≤ HostConfiguration.MAX_UPWARD_MESSAGE_SIZE_BOUND ∧
  hrmp_max_parachain_outbound_channels c ≤ HostConfiguration.HRMP_MAX_OUTBOUND_CHANNELS_BOUND ∧
  hrmp_max_parachain_inbound_channels c ≤ HostConfiguration.HRMP_MAX_INBOUND_CHANNELS_BOUND.
Proof.
  unfold HostConfiguration.consistent, HostConfiguration.check_consistency.
  split; repeat (case_decide; [intros; (done || lia)|]); intros; (done || (split_and!; lia)).
Qed.

End Pallet.

(** ** Examples *)

Section Examples.

Abbreviation good c := (HostConfiguration.consistent c = true).
Definition example_state : State := mkState HostConfiguration.default [] false.
Definition example_call : Call := set_max_upward_queue_count 7.
Definition changed_state : State :=
  (run Plain (dispatch 0 (Root (A := Z)) example_call) example_state).1.

Lemma configuration_invariant_witness :
  let s := (initializer_on_new_session 1 changed_state).1 in
  good (ActiveConfig s) ∧ Forall (λ p, good p.2) (PendingConfigs s) ∧
  StronglySorted Z.lt (fst <$> PendingConfigs s) ∧
  Forall (λ p, p.1 = 1 + 1 ∨ p.1 = 1 + 2) (PendingConfigs s).
Proof.
  apply (configuration_invariant (O := RuntimeOrigin Z) (A := Z) HostConfiguration.default example_state); [reflexivity|].
  apply (rtc_l _ _ (0, changed_state)).
  - apply step_call; [unfold SESSION_DELAY, u32_max; lia|discriminate].
  - apply rtc_once. apply step_session. lia.
Defined.

Lemma update_takes_effect_witness :
  max_upward_queue_count (ActiveConfig (initializer_on_new_session 2
    (initializer_on_new_session 1 changed_state).1).1) = 7.
Proof.
  assert (updater example_call (base_config example_state) =
    ActiveConfig (initializer_on_new_session 2
      (initializer_on_new_session 1 changed_state).1).1) as <-; [|reflexivity].
  symmetry. apply (update_takes_effect 0 (Root (A := Z)) example_call example_state changed_state);
    [split; constructor|unfold SESSION_DELAY, u32_max; lia|discriminate|reflexivity].
Defined.
End Examples.
End Configuration.
