(* ===== verification/Paras.v ===== *)
(** * Registered paras

    [runtime/parachains/src/paras/mod.rs]: the life cycle of a para, and the
    questions the other pallets ask about it. *)

From S2P Require Import Prelude.
From S2P Require Import Frame.

Inductive ParaLifecycle :=
| Onboarding
| Parathread
| ParachainLife
| UpgradingParathread
| DowngradingParachain
| OffboardingParathread
| OffboardingParachain.

#[export] Instance para_lifecycle_eq_dec : EqDecision ParaLifecycle.
Proof. solve_decision. Defined.

Module ParaLifecycle.
Definition is_onboarding (l : ParaLifecycle) : bool := match l with Onboarding => true | _ => false end.
Definition is_stable (l : ParaLifecycle) : bool :=
  match l with Parathread | ParachainLife => true | _ => false end.
Definition is_parachain (l : ParaLifecycle) : bool :=
  match l with ParachainLife | DowngradingParachain | OffboardingParachain => true | _ => false end.
Definition is_parathread (l : ParaLifecycle) : bool :=
  match l with Parathread | UpgradingParathread | OffboardingParathread => true | _ => false end.
Definition is_offboarding (l : ParaLifecycle) : bool :=
  match l with OffboardingParathread | OffboardingParachain => true | _ => false end.
Definition is_transitioning (l : ParaLifecycle) : bool := negb (is_stable l).
End ParaLifecycle.

Module Paras.
(** [ParaLifecycles] *)
Abbreviation Lifecycles := (gmap ParaId ParaLifecycle).

Definition is_valid_para (id : ParaId) (s : Lifecycles) : bool :=
  match s !! id with
  | Some state => negb (ParaLifecycle.is_onboarding state) && negb (ParaLifecycle.is_offboarding state)
  | None => false
  end.
Definition is_parachain (id : ParaId) (s : Lifecycles) : bool :=
  match s !! id with Some state => ParaLifecycle.is_parachain state | None => false end.
Definition is_parathread (id : ParaId) (s : Lifecycles) : bool :=
  match s !! id with Some state => ParaLifecycle.is_parathread state | None => false end.
End Paras.
