(* ===== verification/Dmp.v ===== *)
(** * Downward messages

    [runtime/parachains/src/dmp.rs]: the queue of messages the relay chain has
    for each para, and the head of its message queue chain, which commits to
    every message ever queued.  The hash functions are not part of the
    repository: they are the interface [MessageHash]. *)

From S2P Require Import Prelude.
From S2P Require Import Frame.
From S2P Require Import Configuration.

(** [T::Hashing::hash_of] on a message, and [BlakeTwo256::hash_of] on a link
    [(prev_head, block, hash of the message)]. *)
Class MessageHash (H : Type) := {
  hash_data : list byte → H;
  hash_link : H → BlockNumber → H → H;
  zero_hash : H;
}.

(** The head of the chain of the messages [l], oldest first, each with the block
    it was queued in. *)
Definition mqc_head `{MessageHash H} (l : list (BlockNumber * list byte)) : H :=
  foldl (λ head '(b, m), hash_link head b (hash_data m)) zero_hash l.

Lemma mqc_head_snoc `{MessageHash H} l b m :
  mqc_head (l ++ [(b, m)]) = hash_link (mqc_head l) b (hash_data m).
Proof. unfold mqc_head. by rewrite foldl_app. Qed.
Arguments mqc_head : simpl never.

Module Dmp.

Record InboundDownwardMessage := mkInbound {
  sent_at : BlockNumber;
  msg : list byte;
}.

Inductive QueueDownwardMessageError := ExceedsMaxMessageSize.

Inductive ProcessedDownwardMessagesAcceptanceErr :=
| AdvancementRule
| Underflow (processed_downward_messages dmq_length : Z).

Section Pallet.
Context {H : Type} `{!MessageHash H}.

Record State := mkState {
  DownwardMessageQueues : gmap ParaId (list InboundDownwardMessage);
  DownwardMessageQueueHeads : gmap ParaId H;
}.

Definition empty_state : State := mkState ∅ ∅.

Definition dmq_contents (recipient : ParaId) (s : State) : list InboundDownwardMessage :=
  value_query [] recipient (DownwardMessageQueues s).
Definition dmq_mqc_head (para : ParaId) (s : State) : H :=
  value_query zero_hash para (DownwardMessageQueueHeads s).

Definition dmq_length (para : ParaId) (s : State) : Z :=
  Z.min u32_max (Z.of_nat (length (dmq_contents para s))).

Definition queue_downward_message (config : HostConfiguration) (para : ParaId) (m : list byte)
    (now : BlockNumber) : M State QueueDownwardMessageError unit :=
  let serialized_len := len32 m in
  ensure (negb (bool_decide (max_downward_message_size config < serialized_len)))
    ExceedsMaxMessageSize ;;
  let inbound := mkInbound now m in
  modify (λ s,
    let new_head := hash_link (dmq_mqc_head para s) (sent_at inbound) (hash_data (msg inbound)) in
    mkState (DownwardMessageQueues s) (<[para := new_head]> (DownwardMessageQueueHeads s))) ;;
  modify (λ s,
    mkState (<[para := dmq_contents para s ++ [inbound]]> (DownwardMessageQueues s))
      (DownwardMessageQueueHeads s)).

Definition check_processed_downward_messages (para : ParaId) (processed_downward_messages : Z)
    (s : State) : result ProcessedDownwardMessagesAcceptanceErr unit :=
  let dmq_length := dmq_length para s in
  if bool_decide (0 < dmq_length) && bool_decide (processed_downward_messages = 0)
  then Err AdvancementRule
  else if decide (dmq_length < processed_downward_messages)
  then Err (Underflow processed_downward_messages dmq_length)
  else Ok tt.

Definition prune_dmq (para : ParaId) (processed_downward_messages : Z) (s : State) : State :=
  let q := dmq_contents para s in
  let q' := if decide (Z.of_nat (length q) < processed_downward_messages) then []
            else drop (Z.to_nat processed_downward_messages) q in
  mkState (<[para := q']> (DownwardMessageQueues s)) (DownwardMessageQueueHeads s).

Definition clean_dmp_after_outgoing (outgoing_para : ParaId) (s : State) : State :=
  mkState (delete outgoing_para (DownwardMessageQueues s))
    (delete outgoing_para (DownwardMessageQueueHeads s)).

Definition perform_outgoing_para_cleanup (outgoing : list ParaId) (s : State) : State :=
  fold_left (λ s p, clean_dmp_after_outgoing p s) outgoing s.

Definition initializer_on_new_session (outgoing_paras : list ParaId) (s : State) : State :=
  perform_outgoing_para_cleanup outgoing_paras s.

(** ** The queues as histories

    What the pallet promises of a para since it was last offboarded: the
    messages sent to it, and how many of them it has processed. *)

Record history := mkHistory {
  sent : list InboundDownwardMessage;
  processed : nat;
}.

Definition histories : Type := ParaId → history.

Record refines (h : histories) (s : State) : Prop := {
  ref_queue p : dmq_contents p s = drop (processed (h p)) (sent (h p));
  ref_processed p : (processed (h p) ≤ length (sent (h p)))%nat;
  ref_head p : dmq_mqc_head p s = mqc_head ((λ m, (sent_at m, msg m)) <$> sent (h p));
}.

Inductive Op :=
| QueueMessage (config : HostConfiguration) (para : ParaId) (m : list byte) (now : BlockNumber)
| PruneProcessed (para : ParaId) (n : Z)
| NewSession (outgoing : list ParaId).

Definition apply (op : Op) (s : State) : State :=
  match op with
  | QueueMessage config para m now => (queue_downward_message config para m now s).1
  | PruneProcessed para n => prune_dmq para n s
  | NewSession outgoing => initializer_on_new_session outgoing s
  end.

Definition update (p : ParaId) (x : history) (h : histories) : histories :=
  λ q, if decide (q = p) then x else h q.

Definition spec (op : Op) (h : histories) : histories :=
  match op with
  | QueueMessage config para m now =>
      if decide (len32 m ≤ max_downward_message_size config)
      then update para (mkHistory (sent (h para) ++ [mkInbound now m]) (processed (h para))) h
      else h
  | PruneProcessed para n =>
      update para (mkHistory (sent (h para))
        (Nat.min (length (sent (h para))) (processed (h para) + Z.to_nat n))) h
  | NewSession outgoing => λ q, if decide (q ∈ outgoing) then mkHistory [] 0 else h q
  end.

Lemma contents_insert p q x qs hs :
  dmq_contents q (mkState (<[p := x]> qs) hs) = if decide (p = q) then x else dmq_contents q (mkState qs hs).
Proof. apply value_query_insert. Qed.

Lemma head_insert p q x qs hs :
  dmq_mqc_head q (mkState qs (<[p := x]> hs)) = if decide (p = q) then x else dmq_mqc_head q (mkState qs hs).
Proof. apply value_query_insert. Qed.

Lemma refines_queue config para m now h s :
  refines h s →
  refines (spec (QueueMessage config para m now) h) (queue_downward_message config para m now s).1.
Proof.
  intros [Hq Hp Hh]. unfold queue_downward_message. unfold_dispatch. cbn.
  destruct (decide (max_downward_message_size config < len32 m)) as [Hbig|Hok].
  { rewrite bool_decide_true, decide_False by lia. by split. }
  rewrite bool_decide_false, decide_True by lia. destruct s as [qs hs].
  split; intros p; unfold spec, update; rewrite ?(decide_True (P := len32 m ≤ _)) by lia; cbn;
    destruct (decide (p = para)) as [->|Hne]; cbn.
  - rewrite contents_insert, decide_True by done. specialize (Hq para). specialize (Hp para).
    unfold dmq_contents in *. cbn in *. by rewrite Hq, drop_app_le.
  - rewrite contents_insert, decide_False by done. apply Hq.
  - specialize (Hp para). rewrite length_app. cbn. lia.
  - apply Hp.
  - unfold dmq_mqc_head. cbn. rewrite value_query_insert, decide_True by done.
    rewrite fmap_app. change (mqc_head _) with (mqc_head (((λ m, (sent_at m, msg m)) <$> sent (h para)) ++ [(now, m)])).
    by rewrite mqc_head_snoc, <-Hh.
  - unfold dmq_mqc_head. cbn. rewrite value_query_insert, decide_False by done. apply Hh.
Qed.

Lemma refines_prune para n h s :
  0 ≤ n → refines h s → refines (spec (PruneProcessed para n) h) (prune_dmq para n s).
Proof.
  intros Hn [Hq Hp Hh]. destruct s as [qs hs].
  split; intros p; unfold spec, update; destruct (decide (p = para)) as [->|Hne]; cbn [sent processed].
  - unfold prune_dmq. rewrite contents_insert, decide_True by done. rewrite Hq, length_drop.
    specialize (Hp para). case_decide.
    + rewrite drop_ge; [done|lia].
    + rewrite drop_drop. f_equal. lia.
  - unfold prune_dmq. rewrite contents_insert, decide_False by done. apply Hq.
  - lia.
  - apply Hp.
  - apply Hh.
  - apply Hh.
Qed.

Lemma refines_outgoing outgoing h s :
  refines h s → refines (spec (NewSession outgoing) h) (initializer_on_new_session outgoing s).
Proof.
  intros [Hq Hp Hh].
  assert (∀ p, dmq_contents p (initializer_on_new_session outgoing s) =
                 (if decide (p ∈ outgoing) then [] else dmq_contents p s) ∧
               dmq_mqc_head p (initializer_on_new_session outgoing s) =
                 (if decide (p ∈ outgoing) then zero_hash else dmq_mqc_head p s)) as Hclean.
  { intros p. unfold initializer_on_new_session, perform_outgoing_para_cleanup. clear Hq Hp Hh.
    revert s. induction outgoing as [|o l IH]; intros s; cbn; [done|].
    destruct (IH (clean_dmp_after_outgoing o s)) as [-> ->].
    unfold dmq_contents, dmq_mqc_head, clean_dmp_after_outgoing. cbn.
    rewrite !value_query_delete.
    destruct (decide (p ∈ l)), (decide (p ∈ o :: l)), (decide (o = p)); set_solver. }
  split; intros p; destruct (Hclean p) as [Hc1 Hc2]; rewrite ?Hc1, ?Hc2; cbn;
    destruct (decide (p ∈ outgoing)); cbn; auto.
Qed.

Definition op_ok (op : Op) : Prop := match op with PruneProcessed _ n => 0 ≤ n | _ => True end.

Definition no_history : histories := λ _, mkHistory [] 0.

(** C27. Downward queues are the unprocessed messages, in order, and their heads
    commit to all of them: after any sequence of messages queued, processed
    messages pruned and paras offboarded, the queue of a para is what was sent
    to it since it was last offboarded without the messages it has processed,
    oldest first, and its head is the hash chain over everything sent; a
    message over the size limit changes neither. *)
Theorem dmp_refines (ops : list Op) :
  Forall op_ok ops →
  refines (fold_left (λ h op, spec op h) ops no_history) (fold_left (λ s op, apply op s) ops empty_state).
Proof.
  intros Hops. assert (refines no_history empty_state) as Hr by (by split).
  revert Hr. generalize no_history empty_state.
  induction Hops as [|op ops Hop _ IH]; intros h s Hr; [done|]. cbn. apply IH.
  destruct op; [by apply refines_queue|by apply refines_prune|by apply refines_outgoing].
Qed.

(** A para makes progress on its queue and cannot skip ahead: a candidate
    passes the check exactly when it processes no more messages than are
    pending and at least one if there are any; pruning then removes exactly
    that many from the front and leaves the other queues alone. *)
Theorem processed_check para n s :
  0 ≤ n → Z.of_nat (length (dmq_contents para s)) ≤ u32_max →
  let q := dmq_contents para s in
  (check_processed_downward_messages para n s = Ok tt ↔
     n ≤ Z.of_nat (length q) ∧ (q ≠ [] → 0 < n)) ∧
  (check_processed_downward_messages para n s = Ok tt →
     q = take (Z.to_nat n) q ++ dmq_contents para (prune_dmq para n s) ∧
     (∀ p, p ≠ para → dmq_contents p (prune_dmq para n s) = dmq_contents p s)).
Proof.
  intros Hn Hlen q.
  assert (check_processed_downward_messages para n s = Ok tt ↔
     n ≤ Z.of_nat (length q) ∧ (q ≠ [] → 0 < n)) as Hiff.
  { unfold check_processed_downward_messages, dmq_length. fold q. rewrite Z.min_r by done.
    assert (q ≠ [] ↔ 0 < Z.of_nat (length q)) as -> by (destruct q; cbn; [split; [done|lia]|split; [lia|done]]).
    destruct (bool_decide _ && bool_decide _) eqn:E.
    - apply andb_true_iff in E as [E1%bool_decide_eq_true E2%bool_decide_eq_true].
      split; [done|]. intros [_ Hp]. specialize (Hp E1). lia.
    - apply andb_false_iff in E as [E%bool_decide_eq_false|E%bool_decide_eq_false];
        case_decide; (split; [try done; intros _; lia|intros; try done; lia]). }
  split; [done|]. rewrite Hiff. intros [Hle _]. destruct s as [qs hs]. split.
  - unfold prune_dmq. rewrite contents_insert, decide_True by done. fold q.
    rewrite decide_False by lia. by rewrite take_drop.
  - intros p Hp. unfold prune_dmq. by rewrite contents_insert, decide_False.
Qed.
End Pallet.

(** ** Examples *)

Section Examples.

(** A stand-in for the hashes: the transcript itself. *)
#[local] Instance transcript : MessageHash (list byte) :=
  {| hash_data m := m; hash_link h b m := h ++ byte_of_Z b :: m; zero_hash := [] |}.

Definition roomy : HostConfiguration :=
  Configuration.updater (Configuration.set_max_downward_message_size 4) HostConfiguration.default.

Definition example_ops : list Op :=
  [QueueMessage roomy 2000 [Byte.x01] 1; QueueMessage roomy 2000 [Byte.x02; Byte.x03] 2;
   QueueMessage roomy 2000 (replicate 5 Byte.x09) 3; PruneProcessed 2000 1].
Definition example_state : State := fold_left (λ s op, apply op s) example_ops empty_state.

Lemma dmp_refines_witness :
  refines (fold_left (λ h op, spec op h) example_ops no_history) example_state ∧
  dmq_contents 2000 example_state = [mkInbound 2 [Byte.x02; Byte.x03]] ∧
  dmq_mqc_head 2000 example_state = [Byte.x01; Byte.x01; Byte.x02; Byte.x02; Byte.x03].
Proof.
  split; [|split; reflexivity].
  apply (dmp_refines example_ops). repeat constructor; cbn; lia.
Defined.

Lemma processed_check_witness :
  check_processed_downward_messages 2000 0 example_state = Err AdvancementRule ∧
  dmq_contents 2000 example_state =
    take 1 (dmq_contents 2000 example_state) ++ dmq_contents 2000 (prune_dmq 2000 1 example_state).
Proof.
  split; [reflexivity|].
  assert (0 ≤ 1) as H01 by lia.
  assert (Z.of_nat (length (dmq_contents 2000 example_state)) ≤ u32_max) as Hlen
    by (vm_compute; discriminate).
  exact (proj1 (proj2 (processed_check 2000 1 example_state H01 Hlen) eq_refl)).
Defined.
End Examples.
End Dmp.
