(* ===== verification/Ump.v ===== *)
(** * Upward messages

    [runtime/parachains/src/ump.rs]: the queues of messages paras send to the
    relay chain, the acceptance check of a candidate's messages, and the round
    robin that hands queued messages to a sink under a weight budget, through a
    cache of the queues and a cyclic cursor over the paras that have one.  The
    sink is the interface [UmpSink]; [XcmSink] is the one that executes XCM. *)

From S2P Require Import Prelude.
From S2P Require Import Vectors.
From S2P Require Import XcmTypes.
From S2P Require Import MultiLocations.
From S2P Require Import Frame.
From S2P Require Import Configuration.

Module Ump.

Abbreviation UpwardMessage := (list byte).
Abbreviation MessageId := (vec byte 32).
Abbreviation OverweightIndex := Z.

Inductive Event :=
| InvalidFormat (id : MessageId)
| UnsupportedVersion (id : MessageId)
| ExecutedUpward (id : MessageId) (outcome : Outcome)
| WeightExhausted (id : MessageId) (remaining required : Weight)
| UpwardMessagesReceived (para : ParaId) (count size : Z)
| OverweightEnqueued (para : ParaId) (id : MessageId) (index : OverweightIndex) (required : Weight)
| OverweightServiced (index : OverweightIndex) (used : Weight).

Inductive Error := UnknownMessageIndex | WeightOverLimit.

Inductive AcceptanceCheckErr :=
| MoreMessagesThanPermitted (sent permitted : Z)
| MessageSize (idx msg_size max_size : Z)
| CapacityExceeded (count limit : Z)
| TotalSizeExceeded (total_size limit : Z).

(** [trait UmpSink]: the rest of the chain is [W]; the sink may deposit events
    of this pallet.  An error names the message and the weight it needs. *)
Class UmpSink (W : Type) :=
  process_upward_message : ParaId → UpwardMessage → Weight → W * list Event →
    (W * list Event) * result (MessageId * Weight) Weight.

(** ** [XcmSink] *)

Section XcmSink.
Context {W VersionedXcm : Type}
  (upward_message_id : list byte → MessageId)
  (decode_versioned : list byte → option (VersionedXcm * list byte))
  (try_from : VersionedXcm → option Xcm)
  (weight_info : Z → Weight)
  (execute_xcm : MultiLocation → Xcm → Weight → W → W * Outcome).

(** [decode_all_with_depth_limit] reads from the slice [data] itself, so what is
    left of it is empty when the call returns. *)
Definition decode_all (data : list byte) : option (VersionedXcm * list byte) :=
  match decode_versioned data with
  | Some (xcm, []) => Some (xcm, [])
  | _ => None
  end.

#[export] Instance XcmSink : UmpSink W := λ origin data max_weight '(w, ev),
  let id := upward_message_id data in
  match decode_all data with
  | None => ((w, ev ++ [InvalidFormat id]), Ok 0)
  | Some (xcm, data) =>
      let weight_used := weight_info (len32 data) in
      match try_from xcm with
      | None => ((w, ev ++ [UnsupportedVersion id]), Ok weight_used)
      | Some xcm_message =>
          let xcm_junction := mkMultiLocation 0 (X1 (Parachain origin)) in
          let '(w, outcome) := execute_xcm xcm_junction xcm_message max_weight w in
          match outcome with
          | OutcomeError (WeightLimitReached required) => ((w, ev), Err (id, required))
          | outcome =>
              let outcome_weight := XcmTypes.weight_used outcome in
              ((w, ev ++ [ExecutedUpward id outcome]),
               Ok (u64_saturating_add weight_used outcome_weight))
          end
      end
  end.
End XcmSink.

(** ** Storage *)

Record State := mkState {
  RelayDispatchQueues : gmap ParaId (list UpwardMessage);
  RelayDispatchQueueSize : gmap ParaId (Z * Z);
  NeedsDispatch : list ParaId;
  NextDispatchRoundStartWith : option ParaId;
  Overweight : gmap OverweightIndex (ParaId * UpwardMessage);
  OverweightCount : OverweightIndex;
  events : list Event;
}.

Definition empty_state : State := mkState ∅ ∅ [] None ∅ 0 [].

Definition set_queues q sz (s : State) : State :=
  mkState q sz (NeedsDispatch s) (NextDispatchRoundStartWith s) (Overweight s) (OverweightCount s)
    (events s).
Definition set_dispatch n next (s : State) : State :=
  mkState (RelayDispatchQueues s) (RelayDispatchQueueSize s) n next (Overweight s)
    (OverweightCount s) (events s).
Definition set_overweight o c (s : State) : State :=
  mkState (RelayDispatchQueues s) (RelayDispatchQueueSize s) (NeedsDispatch s)
    (NextDispatchRoundStartWith s) o c (events s).
Definition set_events ev (s : State) : State :=
  mkState (RelayDispatchQueues s) (RelayDispatchQueueSize s) (NeedsDispatch s)
    (NextDispatchRoundStartWith s) (Overweight s) (OverweightCount s) ev.
Definition deposit_event (e : Event) (s : State) : State := set_events (events s ++ [e]) s.

Definition queue_of (para : ParaId) (s : State) : list UpwardMessage :=
  value_query [] para (RelayDispatchQueues s).
Definition size_of (para : ParaId) (s : State) : Z * Z :=
  value_query (0, 0) para (RelayDispatchQueueSize s).

(** ** Offboarding *)

Definition clean_ump_after_outgoing (outgoing_para : ParaId) (s : State) : State :=
  let s := set_queues (delete outgoing_para (RelayDispatchQueues s))
             (delete outgoing_para (RelayDispatchQueueSize s)) s in
  set_dispatch (sorted_remove outgoing_para (NeedsDispatch s))
    (p ← NextDispatchRoundStartWith s; if decide (p = outgoing_para) then Some p else None) s.

Definition perform_outgoing_para_cleanup (outgoing : list ParaId) (s : State) : State :=
  fold_left (λ s p, clean_ump_after_outgoing p s) outgoing s.

Definition initializer_on_new_session (outgoing_paras : list ParaId) (s : State) : State :=
  perform_outgoing_para_cleanup outgoing_paras s.

(** ** Receiving *)

(** The loop over the messages, from index [idx] on. *)
Fixpoint count_messages (config : HostConfiguration) (idx : Z) (upward_messages : list UpwardMessage)
    (count size : Z) : result AcceptanceCheckErr (Z * Z) :=
  match upward_messages with
  | [] => Ok (count, size)
  | m :: upward_messages =>
      let msg_size := len32 m in
      if decide (max_upward_message_size config < msg_size)
      then Err (MessageSize (wrap32 idx) msg_size (max_upward_message_size config))
      else count_messages config (idx + 1) upward_messages (u32_add count 1) (u32_add size msg_size)
  end.

Definition check_upward_messages (config : HostConfiguration) (para : ParaId)
    (upward_messages : list UpwardMessage) (s : State) : result AcceptanceCheckErr unit :=
  if decide (max_upward_message_num_per_candidate config < len32 upward_messages)
  then Err (MoreMessagesThanPermitted (len32 upward_messages)
              (max_upward_message_num_per_candidate config))
  else
    let '(para_queue_count, para_queue_size) := size_of para s in
    match count_messages config 0 upward_messages para_queue_count para_queue_size with
    | Err e => Err e
    | Ok (para_queue_count, para_queue_size) =>
        if decide (max_upward_queue_count config < para_queue_count)
        then Err (CapacityExceeded para_queue_count (max_upward_queue_count config))
        else if decide (max_upward_queue_size config < para_queue_size)
        then Err (TotalSizeExceeded para_queue_size (max_upward_queue_size config))
        else Ok tt
    end.

Definition receive_upward_messages (para : ParaId) (upward_messages : list UpwardMessage)
    (s : State) : State :=
  match upward_messages with
  | [] => s
  | _ =>
      let '(extra_count, extra_size) :=
        fold_left (λ '(cnt, size) d, (u32_add cnt 1, u32_add size (len32 d))) upward_messages (0, 0) in
      let '(cnt, size) := size_of para s in
      let s := set_queues (<[para := queue_of para s ++ upward_messages]> (RelayDispatchQueues s))
                 (<[para := (u32_add cnt extra_count, u32_add size extra_size)]>
                    (RelayDispatchQueueSize s)) s in
      let s := set_dispatch (sorted_insert para (NeedsDispatch s)) (NextDispatchRoundStartWith s) s in
      deposit_event (UpwardMessagesReceived para extra_count extra_size) s
  end.

(** ** The queue cache *)

Record QueueCacheEntry := mkEntry {
  queue : list UpwardMessage;
  total_size : Z;
  consumed_count : nat;
  consumed_size : Z;
}.

Abbreviation QueueCache := (gmap ParaId QueueCacheEntry).

Module QueueCache.

Definition entry (para : ParaId) (c : QueueCache) (s : State) : QueueCacheEntry :=
  match c !! para with
  | Some e => e
  | None => mkEntry (queue_of para s) (size_of para s).2 0 0
  end.

Definition ensure_cached (para : ParaId) (c : QueueCache) (s : State) : QueueCache :=
  <[para := entry para c s]> c.

Definition peek_front (para : ParaId) (c : QueueCache) (s : State) :
    QueueCache * option UpwardMessage :=
  let e := entry para c s in
  (ensure_cached para c s, queue e !! consumed_count e).

(** The message is taken out of the cached vector, which keeps its length. *)
Definition consume_front (para : ParaId) (c : QueueCache) (s : State) :
    QueueCache * option UpwardMessage :=
  let e := entry para c s in
  match queue e !! consumed_count e with
  | Some m =>
      (<[para := mkEntry (<[consumed_count e := []]> (queue e)) (total_size e)
                   (S (consumed_count e)) (consumed_size e + Z.of_nat (length m))]> c, Some m)
  | None => (ensure_cached para c s, None)
  end.

Definition is_empty (para : ParaId) (c : QueueCache) (s : State) : QueueCache * bool :=
  let e := entry para c s in
  (ensure_cached para c s, bool_decide (length (queue e) ≤ consumed_count e)%nat).

Definition flush_entry (s : State) (x : ParaId * QueueCacheEntry) : State :=
  let '(para, e) := x in
  if decide (length (queue e) ≤ consumed_count e)%nat then
    set_queues (delete para (RelayDispatchQueues s)) (delete para (RelayDispatchQueueSize s)) s
  else if decide (0 < consumed_count e)%nat then
    let count := wrap32 (Z.of_nat (length (queue e) - consumed_count e)) in
    let size := saturating_sub (total_size e) (wrap32 (consumed_size e)) in
    set_queues (<[para := drop (consumed_count e) (queue e)]> (RelayDispatchQueues s))
      (<[para := (count, size)]> (RelayDispatchQueueSize s)) s
  else s.

Definition flush (c : QueueCache) (s : State) : State := fold_left flush_entry (map_to_list c) s.
End QueueCache.

(** ** The cursor *)

Module NeedsDispatchCursor.

Record t := mk { needs_dispatch : list ParaId; index : nat }.

Definition new (s : State) : t :=
  let initial_index :=
    match NextDispatchRoundStartWith s with
    | Some para =>
        match binary_search (NeedsDispatch s) para with
        | Ok found_index => found_index
        | Err _ => 0%nat
        end
    | None => 0%nat
    end in
  mk (NeedsDispatch s) initial_index.

Definition peek (c : t) : option ParaId := needs_dispatch c !! index c.

Definition advance (c : t) : t :=
  match needs_dispatch c with
  | [] => c
  | _ => mk (needs_dispatch c) ((index c + 1) mod length (needs_dispatch c))
  end.

Definition remove (c : t) : t :=
  match needs_dispatch c with
  | [] => c
  | _ =>
      let v := delete (index c) (needs_dispatch c) in
      mk v (match v !! index c with Some _ => index c | None => 0%nat end)
  end.

Definition flush (c : t) (s : State) : State :=
  set_dispatch (needs_dispatch c) (peek c) s.
End NeedsDispatchCursor.
Abbreviation cursor := NeedsDispatchCursor.t.

(** ** Dispatching *)

Definition stash_overweight (sender : ParaId) (upward_message : UpwardMessage) (s : State) :
    State * OverweightIndex :=
  let index := OverweightCount s in
  (set_overweight (<[index := (sender, upward_message)]> (Overweight s)) (u64_add index 1) s, index).

Section Dispatch.
Context {W : Type} `{!UmpSink W} (config : HostConfiguration) (first_message_factor_percent : Weight).

(** The variables of the loop.  [handled], the messages taken off the queues
    with the index they were stashed under, if any, is not part of the code. *)
Record Loop := mkLoop {
  cur : cursor;
  cache : QueueCache;
  weight_used : Weight;
  storage : State;
  chain : W;
  handled : list (ParaId * UpwardMessage * option OverweightIndex);
}.

Definition max_weight (l : Loop) : Weight :=
  if decide (weight_used l = 0)
  then u64_mul (ump_service_total_weight config) first_message_factor_percent / 100
  else u64_sub (ump_service_total_weight config) (weight_used l).

(** The end of a round: a para whose queue is empty leaves the cursor. *)
Definition next_para (dispatchee : ParaId) (l : Loop) : Loop :=
  let '(c, empty) := QueueCache.is_empty dispatchee (cache l) (storage l) in
  mkLoop (if empty then NeedsDispatchCursor.remove (cur l) else NeedsDispatchCursor.advance (cur l))
    c (weight_used l) (storage l) (chain l) (handled l).

(** A round for [dispatchee]; the second component is [true] on [break]. *)
Definition round (dispatchee : ParaId) (l : Loop) : Loop * bool :=
  let '(c, maybe_next) := QueueCache.peek_front dispatchee (cache l) (storage l) in
  match maybe_next with
  | None =>
      (next_para dispatchee (mkLoop (cur l) c (weight_used l) (storage l) (chain l) (handled l)), false)
  | Some m =>
      let '((w, ev), r) :=
        process_upward_message dispatchee m (max_weight l) (chain l, events (storage l)) in
      let s := set_events ev (storage l) in
      match r with
      | Ok used =>
          let '(c, _) := QueueCache.consume_front dispatchee c s in
          (next_para dispatchee (mkLoop (cur l) c (u64_add (weight_used l) used) s w
             (handled l ++ [(dispatchee, m, None)])), false)
      | Err (id, required) =>
          if decide (ump_max_individual_weight config < required) then
            let '(c, taken) := QueueCache.consume_front dispatchee c s in
            let upward_message := default [] taken in
            let '(s, index) := stash_overweight dispatchee upward_message s in
            let s := deposit_event (OverweightEnqueued dispatchee id index required) s in
            (next_para dispatchee (mkLoop (cur l) c (weight_used l) s w
               (handled l ++ [(dispatchee, m, Some index)])), false)
          else
            let s := deposit_event (WeightExhausted id (max_weight l) required) s in
            (mkLoop (cur l) c (weight_used l) s w (handled l), true)
      end
  end.

(** [while let Some(dispatchee) = cursor.peek()]; [None] when [fuel] rounds are
    not enough. *)
Fixpoint dispatch_loop (fuel : nat) (l : Loop) : option Loop :=
  match NeedsDispatchCursor.peek (cur l) with
  | None => Some l
  | Some dispatchee =>
      if decide (ump_service_total_weight config ≤ weight_used l) then Some l
      else
        match fuel with
        | 0%nat => None
        | S fuel =>
            match round dispatchee l with
            | (l, true) => Some l
            | (l, false) => dispatch_loop fuel l
            end
        end
  end.

(** A round for every message and one for every para are enough. *)
Definition enough_rounds (s : State) : nat :=
  sum_list_with (λ p, S (length (queue_of p s))) (NeedsDispatch s).

Definition start (s : State) (w : W) : Loop :=
  mkLoop (NeedsDispatchCursor.new s) ∅ 0 s w [].

Definition finish (l : Loop) : State :=
  QueueCache.flush (cache l) (NeedsDispatchCursor.flush (cur l) (storage l)).

Definition process_pending_upward_messages (s : State) (w : W) : option (State * W * Weight) :=
  l ← dispatch_loop (enough_rounds s) (start s w);
  Some (finish l, chain l, weight_used l).

Context {O : Type} (ensure_execute_overweight : O → option unit).

Definition service_overweight (origin : O) (index : OverweightIndex) (weight_limit : Weight) :
    Dispatch (State * W) Error :=
  _ ← or_bad_origin (ensure_execute_overweight origin);
  sw ← get;
  entry ← lift (ok_or (Overweight sw.1 !! index) (Module UnknownMessageIndex));
  let '((w, ev), r) :=
    process_upward_message entry.1 entry.2 weight_limit (sw.2, events sw.1) in
  modify (λ _, (set_events ev sw.1, w)) ;;
  used ← lift (match r with Ok used => Ok used | Err _ => Err (Module WeightOverLimit) end);
  modify (λ sw, (set_overweight (delete index (Overweight sw.1)) (OverweightCount sw.1) sw.1, sw.2)) ;;
  modify (λ sw, (deposit_event (OverweightServiced index used) sw.1, sw.2)).

(** ** What is left of a queue during dispatch *)

Definition rest (p : ParaId) (c : QueueCache) (s : State) : list UpwardMessage :=
  let e := QueueCache.entry p c s in drop (consumed_count e) (queue e).

(** Two states with the same queues. *)
Definition same_queues (s s' : State) : Prop :=
  RelayDispatchQueues s' = RelayDispatchQueues s ∧
  RelayDispatchQueueSize s' = RelayDispatchQueueSize s.

Lemma entry_same p c s s' : same_queues s s' → QueueCache.entry p c s' = QueueCache.entry p c s.
Proof. intros [Hq Hs]. unfold QueueCache.entry, queue_of, size_of. by rewrite Hq, Hs. Qed.

Lemma entry_ensure p q c s s' :
  same_queues s s' →
  QueueCache.entry q (QueueCache.ensure_cached p c s) s' = QueueCache.entry q c s.
Proof.
  intros Hs. rewrite (entry_same _ _ s s' Hs).
  unfold QueueCache.ensure_cached, QueueCache.entry at 1.
  rewrite lookup_insert. case_decide; [by subst|]. done.
Qed.

Lemma peek_front_spec p c s : (QueueCache.peek_front p c s).2 = head (rest p c s).
Proof. cbn. unfold rest. by rewrite head_lookup, lookup_drop, Nat.add_0_r. Qed.

Lemma is_empty_spec p c s :
  (QueueCache.is_empty p c s).2 = bool_decide (rest p c s = []).
Proof.
  cbn. apply bool_decide_ext. unfold rest. rewrite <-length_zero_iff_nil, length_drop. lia.
Qed.

Lemma entry_insert p q e c s :
  QueueCache.entry q (<[p := e]> c) s = if decide (p = q) then e else QueueCache.entry q c s.
Proof. unfold QueueCache.entry. rewrite lookup_insert. by case_decide. Qed.

(** Consuming the front message [m]. *)
Lemma consume_front_spec p c s m :
  head (rest p c s) = Some m →
  ∃ c', QueueCache.consume_front p c s = (c', Some m) ∧
    (∀ q, q ≠ p → QueueCache.entry q c' s = QueueCache.entry q c s) ∧
    (∀ q, q ≠ p → c' !! q = c !! q) ∧
    let e := QueueCache.entry p c s in
    let e' := QueueCache.entry p c' s in
    is_Some (c' !! p) ∧
    rest p c s = m :: rest p c' s ∧ length (queue e') = length (queue e) ∧
    total_size e' = total_size e ∧ consumed_count e' = S (consumed_count e) ∧
    consumed_size e' = consumed_size e + Z.of_nat (length m).
Proof.
  unfold rest. rewrite head_lookup, lookup_drop, Nat.add_0_r. intros Hm.
  unfold QueueCache.consume_front. rewrite Hm. eexists. split; [done|].
  split; [intros q Hq; by rewrite entry_insert, decide_False|].
  split; [intros q Hq; by rewrite lookup_insert_ne|]. cbn zeta.
  rewrite entry_insert, decide_True by done. cbn.
  rewrite lookup_insert_eq, length_insert, drop_insert_lt by lia.
  split; [by eexists|]. split; [by apply drop_S|done].
Qed.

(** The ways a round ends. *)
Definition stashed (s s' : State) (p : ParaId) (m : UpwardMessage) (x : option OverweightIndex) : Prop :=
  match x with
  | None => Overweight s' = Overweight s ∧ OverweightCount s' = OverweightCount s
  | Some i => i = OverweightCount s ∧ Overweight s' = <[i := (p, m)]> (Overweight s) ∧
              OverweightCount s' = u64_add i 1
  end.

Definition spends (d : ParaId) (m : UpwardMessage) (l : Loop) (x : option OverweightIndex) (u : Weight) : Prop :=
  match x with
  | None => ∃ ww used, process_upward_message d m (max_weight l) (chain l, events (storage l)) =
              (ww, Ok used) ∧ u = u64_add (weight_used l) used
  | Some _ => u = weight_used l
  end.

Lemma round_cases d l :
  let c := QueueCache.ensure_cached d (cache l) (storage l) in
  (rest d (cache l) (storage l) = [] ∧
   round d l = (next_para d (mkLoop (cur l) c (weight_used l) (storage l) (chain l) (handled l)), false)) ∨
  (∃ m, head (rest d (cache l) (storage l)) = Some m ∧
   ((∃ c' s w u x,
      round d l = (next_para d (mkLoop (cur l) c' u s w (handled l ++ [(d, m, x)])), false) ∧
      QueueCache.consume_front d c s = (c', Some m) ∧ same_queues (storage l) s ∧
      stashed (storage l) s d m x ∧ spends d m l x u) ∨
    (∃ s w, round d l = (mkLoop (cur l) c (weight_used l) s w (handled l), true) ∧
      same_queues (storage l) s ∧ stashed (storage l) s d m None))).
Proof.
  cbn zeta. unfold round. pose proof (peek_front_spec d (cache l) (storage l)) as Hpeek.
  destruct (QueueCache.peek_front d (cache l) (storage l)) as [c next] eqn:E. cbn in Hpeek.
  assert (c = QueueCache.ensure_cached d (cache l) (storage l)) as -> by (by injection E).
  clear E. subst next.
  destruct (head (rest d (cache l) (storage l))) as [m|] eqn:Hm;
    [|left; split; [by destruct (rest _ _ _)|done]].
  right. exists m. split; [done|].
  destruct (process_upward_message d m (max_weight l) (chain l, events (storage l)))
    as [[w ev] r] eqn:Ep.
  assert (∃ c', QueueCache.consume_front d (QueueCache.ensure_cached d (cache l) (storage l))
    (set_events ev (storage l)) = (c', Some m)) as [c' Hc'].
  { destruct (consume_front_spec d (QueueCache.ensure_cached d (cache l) (storage l))
      (set_events ev (storage l)) m) as (c' & -> & _); [|by eexists].
    unfold rest. by rewrite (entry_ensure d d (cache l) (storage l)). }
  destruct r as [used|[id required]].
  - left. rewrite Hc'. repeat eexists; [done|]. exact Ep.
  - case_decide.
    + left. rewrite Hc'. cbn. eexists c', _, w, _, (Some (OverweightCount (storage l))).
      split; [done|]. done.
    + right. by repeat eexists.
Qed.

(** ** Termination *)

Definition measure (l : Loop) : nat :=
  sum_list_with (λ p, S (length (rest p (cache l) (storage l)))) (NeedsDispatchCursor.needs_dispatch (cur l)).

Lemma sum_list_with_delete {A} (f : A → nat) l i x :
  l !! i = Some x → sum_list_with f l = (f x + sum_list_with f (delete i l))%nat.
Proof.
  revert i. induction l as [|y l IH]; intros i Hi; [done|].
  destruct i as [|i]; [by injection Hi as ->|].
  change (delete (S i) (y :: l)) with (y :: delete i l). cbn [sum_list_with]. rewrite (IH i Hi). lia.
Qed.

Lemma sum_list_with_le {A} (f g : A → nat) l :
  (∀ x, (f x ≤ g x)%nat) → (sum_list_with f l ≤ sum_list_with g l)%nat.
Proof. intros Hfg. induction l as [|x l IH]; cbn; [lia|]. specialize (Hfg x). lia. Qed.

Lemma sum_list_with_ext {A} (f g : A → nat) l :
  (∀ x, f x = g x) → sum_list_with f l = sum_list_with g l.
Proof. intros Hfg. induction l as [|x l IH]; cbn; [done|]. by rewrite Hfg, IH. Qed.

Lemma remove_spec c d :
  NeedsDispatchCursor.peek c = Some d →
  NeedsDispatchCursor.needs_dispatch (NeedsDispatchCursor.remove c) =
    delete (NeedsDispatchCursor.index c) (NeedsDispatchCursor.needs_dispatch c).
Proof.
  unfold NeedsDispatchCursor.peek, NeedsDispatchCursor.remove.
  by destruct (NeedsDispatchCursor.needs_dispatch c).
Qed.

Lemma advance_spec c :
  NeedsDispatchCursor.needs_dispatch (NeedsDispatchCursor.advance c) =
    NeedsDispatchCursor.needs_dispatch c.
Proof.
  unfold NeedsDispatchCursor.advance. by destruct (NeedsDispatchCursor.needs_dispatch c) eqn:E; cbn.
Qed.

Lemma next_para_shape d l :
  next_para d l =
  mkLoop (if decide (rest d (cache l) (storage l) = []) then NeedsDispatchCursor.remove (cur l)
          else NeedsDispatchCursor.advance (cur l))
    (QueueCache.ensure_cached d (cache l) (storage l)) (weight_used l) (storage l) (chain l) (handled l).
Proof.
  unfold next_para. pose proof (is_empty_spec d (cache l) (storage l)) as He.
  destruct (QueueCache.is_empty d (cache l) (storage l)) as [c b] eqn:E. cbn in He. subst b.
  assert (c = QueueCache.ensure_cached d (cache l) (storage l)) as -> by (by injection E).
  f_equal. destruct (decide (rest d _ _ = [])); by case_bool_decide.
Qed.

Lemma rest_ensure p q c s : rest q (QueueCache.ensure_cached p c s) s = rest q c s.
Proof. unfold rest. by rewrite entry_ensure. Qed.

Lemma next_para_measure d l :
  NeedsDispatchCursor.peek (cur l) = Some d →
  (measure (next_para d l) ≤ measure l)%nat ∧
  (rest d (cache l) (storage l) = [] → measure (next_para d l) < measure l)%nat.
Proof.
  intros Hd. rewrite next_para_shape. unfold measure at 1 3. cbn.
  rewrite !(sum_list_with_ext _ (λ p, S (length (rest p (cache l) (storage l)))))
    by (intros; by rewrite rest_ensure).
  case_decide as Hrest.
  - rewrite (remove_spec _ d Hd). unfold measure.
    rewrite (sum_list_with_delete _ (NeedsDispatchCursor.needs_dispatch (cur l)) _ _ Hd). lia.
  - rewrite advance_spec. by split.
Qed.

(** Consuming a message of [d] after caching its queue. *)
Lemma consume_rest d m c s s' c' :
  head (rest d c s) = Some m → same_queues s s' →
  QueueCache.consume_front d (QueueCache.ensure_cached d c s) s' = (c', Some m) →
  rest d c s = m :: rest d c' s' ∧ ∀ q, q ≠ d → rest q c' s' = rest q c s.
Proof.
  intros Hm Hs Hc.
  assert (∀ q, rest q (QueueCache.ensure_cached d c s) s' = rest q c s) as Hr
    by (intros q; unfold rest; by rewrite entry_ensure).
  destruct (consume_front_spec d (QueueCache.ensure_cached d c s) s' m) as (c2 & Hc2 & Hne & _ & _ & Hd & _);
    [by rewrite Hr|]. rewrite Hc2 in Hc. injection Hc as ->. rewrite Hr in Hd. split; [done|].
  intros q Hq. rewrite <-(Hr q). unfold rest. by rewrite Hne.
Qed.

Lemma round_measure d l l' :
  NeedsDispatchCursor.peek (cur l) = Some d → round d l = (l', false) → (measure l' < measure l)%nat.
Proof.
  intros Hd Hround.
  destruct (round_cases d l) as [[He Hr]|(m & Hm & [(c & s & w & u & x & Hr & Hc & Hs & _)|(s & w & Hr & _)])];
    rewrite Hr in Hround; [| |done]; injection Hround as <-.
  - destruct (next_para_measure d (mkLoop (cur l)
      (QueueCache.ensure_cached d (cache l) (storage l)) (weight_used l) (storage l) (chain l)
      (handled l)) Hd) as [_ Hlt]. cbn in Hlt. rewrite rest_ensure in Hlt. specialize (Hlt He).
    eapply Nat.lt_le_trans; [exact Hlt|]. unfold measure. cbn. apply sum_list_with_le.
    intros p. by rewrite rest_ensure.
  - destruct (consume_rest d m _ _ _ _ Hm Hs Hc) as [Hd' Hne].
    destruct (next_para_measure d (mkLoop (cur l) c u s w (handled l ++ [(d, m, x)])) Hd) as [Hle _].
    eapply Nat.le_lt_trans; [exact Hle|]. unfold measure. cbn.
    rewrite !(sum_list_with_delete _ (NeedsDispatchCursor.needs_dispatch (cur l)) _ _ Hd), Hd'. cbn.
    set (v := delete _ _).
    assert (sum_list_with (λ p, S (length (rest p c s))) v ≤
            sum_list_with (λ p, S (length (rest p (cache l) (storage l)))) v)%nat; [|lia].
    apply sum_list_with_le. intros p.
    destruct (decide (p = d)) as [->|Hp]; [rewrite Hd'; cbn; lia|by rewrite Hne].
Qed.

(** A property of the loop that every round keeps. *)
Lemma dispatch_loop_ind (P : Loop → Prop) fuel l l' :
  (∀ d l l' b, NeedsDispatchCursor.peek (cur l) = Some d →
     weight_used l < ump_service_total_weight config → P l → round d l = (l', b) → P l') →
  P l → dispatch_loop fuel l = Some l' → P l'.
Proof.
  intros Hstep. revert l. induction fuel as [|fuel IH]; intros l Hl Hrun; cbn [dispatch_loop] in Hrun.
  all: destruct (NeedsDispatchCursor.peek (cur l)) as [d|] eqn:Hd; [|by injection Hrun as <-].
  all: case_decide; [by injection Hrun as <-|]; try done.
  destruct (round d l) as [l1 b] eqn:Hr.
  assert (P l1) by (apply (Hstep d l l1 b); auto; lia).
  destruct b; [by simplify_eq|by eapply IH].
Qed.

Lemma dispatch_loop_total fuel l : (measure l ≤ fuel)%nat → is_Some (dispatch_loop fuel l).
Proof.
  revert l. induction fuel as [|fuel IH]; intros l Hle; cbn [dispatch_loop];
    destruct (NeedsDispatchCursor.peek (cur l)) as [d|] eqn:Hd; try done;
    case_decide; try done.
  - exfalso. unfold measure in Hle.
    rewrite (sum_list_with_delete _ (NeedsDispatchCursor.needs_dispatch (cur l)) _ _ Hd) in Hle. lia.
  - destruct (round d l) as [l1 []] eqn:Hr; [done|]. apply IH.
    pose proof (round_measure d l l1 Hd Hr). lia.
Qed.

Lemma start_measure s w : measure (start s w) = enough_rounds s.
Proof. reflexivity. Qed.

(** Dispatching upward messages always ends: whatever the queues, the cursor
    and the sink, a round for every queued message and one for every para in
    line are enough. *)
Theorem process_pending_terminates s w : is_Some (process_pending_upward_messages s w).
Proof.
  unfold process_pending_upward_messages.
  destruct (dispatch_loop_total (enough_rounds s) (start s w)) as [l ->]; [by rewrite start_measure|].
  by eexists.
Qed.

(** ** First in, first out *)

Definition handled_of (p : ParaId) (h : list (ParaId * UpwardMessage * option OverweightIndex)) :
    list UpwardMessage :=
  (λ x, x.1.2) <$> filter (λ x, x.1.1 = p) h.

Definition total_bytes (l : list UpwardMessage) : Z :=
  foldr (λ m n, Z.of_nat (length m) + n) 0 l.

Lemma total_bytes_app l k : total_bytes (l ++ k) = total_bytes l + total_bytes k.
Proof. unfold total_bytes. induction l as [|m l IH]; cbn; [done|]. lia. Qed.

Lemma total_bytes_nonneg l : 0 ≤ total_bytes l.
Proof. unfold total_bytes. induction l as [|m l IH]; cbn; lia. Qed.
#[local] Arguments total_bytes : simpl never.

Lemma handled_of_snoc p q m x h :
  handled_of p (h ++ [(q, m, x)]) = if decide (q = p) then handled_of p h ++ [m] else handled_of p h.
Proof.
  unfold handled_of. rewrite filter_app, fmap_app, filter_cons, filter_nil. cbn.
  case_decide; [done|]. cbn. by rewrite app_nil_r.
Qed.

Record loop_ok (s0 : State) (l : Loop) : Prop := {
  lo_queues : same_queues s0 (storage l);
  lo_split p : queue_of p s0 = handled_of p (handled l) ++ rest p (cache l) (storage l);
  lo_entry p :
    let e := QueueCache.entry p (cache l) (storage l) in
    total_size e = (size_of p s0).2 ∧ consumed_count e = length (handled_of p (handled l)) ∧
    consumed_size e = total_bytes (handled_of p (handled l)) ∧
    length (queue e) = length (queue_of p s0);
  lo_cached p : is_Some (cache l !! p) → p ∈ NeedsDispatch s0;
}.

Lemma same_queues_trans s s1 s2 : same_queues s s1 → same_queues s1 s2 → same_queues s s2.
Proof. unfold same_queues. intuition congruence. Qed.

Lemma loop_ok_start s w : loop_ok s (start s w).
Proof.
  split; cbn; [done| | |].
  - intros p. unfold rest, QueueCache.entry. cbn. by rewrite lookup_empty.
  - intros p. unfold QueueCache.entry. by rewrite lookup_empty.
  - intros p. rewrite lookup_empty. by intros [? ?].
Qed.

(** Caching another queue, and passing to the next para. *)
Lemma loop_ok_cache s0 l c' u w d cu :
  d ∈ NeedsDispatch s0 → loop_ok s0 l → c' = QueueCache.ensure_cached d (cache l) (storage l) →
  loop_ok s0 (mkLoop cu c' u (storage l) w (handled l)).
Proof.
  intros Hd [Hq Hs He Hc] ->. split; cbn; [done| | |].
  - intros p. by rewrite rest_ensure.
  - intros p. rewrite entry_ensure by done. apply He.
  - intros p. unfold QueueCache.ensure_cached. rewrite lookup_insert_is_Some'. naive_solver.
Qed.

Lemma loop_ok_next s0 d l : d ∈ NeedsDispatch s0 → loop_ok s0 l → loop_ok s0 (next_para d l).
Proof. intros Hd Hl. rewrite next_para_shape. by eapply loop_ok_cache. Qed.

Lemma loop_ok_storage s0 l s : same_queues (storage l) s → loop_ok s0 l →
  ∀ w, loop_ok s0 (mkLoop (cur l) (cache l) (weight_used l) s w (handled l)).
Proof.
  intros Hs [Hq Hsp He Hc] w. split; cbn; [by eapply same_queues_trans| | |done].
  - intros p. rewrite (Hsp p). unfold rest. by rewrite (entry_same _ _ (storage l) s).
  - intros p. rewrite (entry_same _ _ (storage l) s) by done. apply He.
Qed.

Lemma loop_ok_consume s0 l d m c u s w x :
  d ∈ NeedsDispatch s0 → loop_ok s0 l → head (rest d (cache l) (storage l)) = Some m →
  same_queues (storage l) s →
  QueueCache.consume_front d (QueueCache.ensure_cached d (cache l) (storage l)) s = (c, Some m) →
  loop_ok s0 (mkLoop (cur l) c u s w (handled l ++ [(d, m, x)])).
Proof.
  intros Hd [Hq Hsp He Hca] Hm Hs Hc.
  destruct (consume_rest d m _ _ _ _ Hm Hs Hc) as [Hrd Hrne].
  destruct (consume_front_spec d (QueueCache.ensure_cached d (cache l) (storage l)) s m)
    as (c2 & Hc2 & Hene & Hcne & _ & _ & Hlen & Htot & Hcnt & Hsz).
  { unfold rest. by rewrite entry_ensure. }
  rewrite Hc2 in Hc. injection Hc as ->. rewrite entry_ensure in Hlen, Htot, Hcnt, Hsz by done.
  split; cbn -[handled_of]; [by eapply same_queues_trans| | |].
  - intros p. rewrite handled_of_snoc. case_decide as Hp.
    + subst p. by rewrite (Hsp d), Hrd, <-app_assoc.
    + rewrite Hrne by done. apply Hsp.
  - intros p. rewrite handled_of_snoc. destruct (He p) as (H1 & H2 & H3 & H4). case_decide as Hp.
    + subst p. rewrite Hlen, Htot, Hcnt, Hsz, length_app, total_bytes_app, H2, H3. cbn.
      change (total_bytes [m]) with (Z.of_nat (length m) + 0).
      split_and!; [done|lia|lia|done].
    + rewrite Hene, entry_ensure by done. done.
  - intros p Hp. destruct (decide (p = d)) as [->|Hne]; [done|]. apply Hca.
    rewrite Hcne in Hp by done. unfold QueueCache.ensure_cached in Hp.
    by rewrite lookup_insert_ne in Hp.
Qed.

Lemma loop_ok_round s0 d l l' b :
  d ∈ NeedsDispatch s0 → loop_ok s0 l → round d l = (l', b) → loop_ok s0 l'.
Proof.
  intros Hd Hl Hround.
  destruct (round_cases d l) as [[He Hr]|(m & Hm & [(c & s & w & u & x & Hr & Hc & Hs & _)|(s & w & Hr & Hs & _)])];
    rewrite Hr in Hround; injection Hround as <- <-.
  - apply loop_ok_next; [done|]. by eapply loop_ok_cache.
  - apply loop_ok_next; [done|]. by eapply loop_ok_consume.
  - pose proof (loop_ok_cache s0 l _ (weight_used l) (chain l) d (cur l) Hd Hl eq_refl) as Hl'.
    exact (loop_ok_storage s0 (mkLoop _ _ _ (storage l) _ _) s Hs Hl' w).
Qed.

(** The cursor holds the paras that have messages left; the count of messages
    handled stays within the rounds that were foreseen. *)
Record cursor_ok (s0 : State) (l : Loop) : Prop := {
  co_sorted : sorted (NeedsDispatchCursor.needs_dispatch (cur l));
  co_needs p : p ∈ NeedsDispatchCursor.needs_dispatch (cur l) ↔
    p ∈ NeedsDispatch s0 ∧ rest p (cache l) (storage l) ≠ [];
}.

Definition progress_ok (s0 : State) (l : Loop) : Prop :=
  (length (handled l) + measure l ≤ enough_rounds s0)%nat.

Definition subset_ok (s0 : State) (l : Loop) : Prop :=
  ∀ p, p ∈ NeedsDispatchCursor.needs_dispatch (cur l) → p ∈ NeedsDispatch s0.

Lemma peek_elem c d : NeedsDispatchCursor.peek c = Some d → d ∈ NeedsDispatchCursor.needs_dispatch c.
Proof. apply list_elem_of_lookup_2. Qed.

Lemma needs_next d l p :
  p ∈ NeedsDispatchCursor.needs_dispatch (cur (next_para d l)) →
  p ∈ NeedsDispatchCursor.needs_dispatch (cur l).
Proof.
  rewrite next_para_shape. cbn. case_decide; [|by rewrite advance_spec].
  unfold NeedsDispatchCursor.remove.
  destruct (NeedsDispatchCursor.needs_dispatch (cur l)) eqn:E; [by rewrite E|]. rewrite <-E. cbn.
  rewrite delete_take_drop, elem_of_app.
  intros [Hp|Hp]; apply list_elem_of_lookup_1 in Hp as [i Hi];
    [apply lookup_take_Some in Hi as [Hi _]|rewrite lookup_drop in Hi]; by eapply list_elem_of_lookup_2.
Qed.

(** What every round does to the cursor: nothing on [break]. *)
Lemma round_needs d l l' b :
  round d l = (l', b) →
  cur l' = cur l ∨ ∃ l1, l' = next_para d l1 ∧ cur l1 = cur l.
Proof.
  intros Hround.
  destruct (round_cases d l) as [[He Hr]|(m & Hm & [(c & s & w & u & x & Hr & _)|(s & w & Hr & _)])];
    rewrite Hr in Hround; injection Hround as <- <-; eauto.
Qed.

Lemma subset_round s0 d l l' b : subset_ok s0 l → round d l = (l', b) → subset_ok s0 l'.
Proof.
  intros Hl Hr p Hp. apply Hl.
  destruct (round_needs d l l' b Hr) as [<- |(l1 & -> & <-)]; [done|by apply needs_next in Hp].
Qed.

Lemma progress_round s0 d l l' b :
  NeedsDispatchCursor.peek (cur l) = Some d → progress_ok s0 l → round d l = (l', b) →
  progress_ok s0 l'.
Proof.
  unfold progress_ok. intros Hd Hl Hround.
  assert (b = false → measure l' < measure l)%nat as Hlt
    by (intros ->; by eapply round_measure).
  destruct (round_cases d l) as [[He Hr]|(m & Hm & [(c & s & w & u & x & Hr & _)|(s & w & Hr & Hs & _)])];
    rewrite Hr in Hround; injection Hround as <- <-.
  - rewrite next_para_shape in *. cbn [handled] in *. specialize (Hlt eq_refl). lia.
  - specialize (Hlt eq_refl). rewrite next_para_shape in *. cbn [handled] in *.
    rewrite length_app. cbn [length]. lia.
  - cbn [handled]. unfold measure in *. cbn.
    rewrite (sum_list_with_ext _ (λ p, S (length (rest p (cache l) (storage l))))); [lia|].
    intros p. f_equal. f_equal. unfold rest. by rewrite entry_ensure.
Qed.

Lemma cursor_ok_next s0 d l :
  NeedsDispatchCursor.peek (cur l) = Some d →
  (d ∈ NeedsDispatch s0) →
  sorted (NeedsDispatchCursor.needs_dispatch (cur l)) →
  (∀ p, p ≠ d → p ∈ NeedsDispatchCursor.needs_dispatch (cur l) ↔
     p ∈ NeedsDispatch s0 ∧ rest p (cache l) (storage l) ≠ []) →
  cursor_ok s0 (next_para d l).
Proof.
  intros Hd Hin Hs Hne. rewrite next_para_shape. split; cbn.
  - case_decide; [rewrite (remove_spec _ d Hd); by apply sorted_delete|by rewrite advance_spec].
  - intros p. rewrite rest_ensure. case_decide as Hrest.
    + rewrite (remove_spec _ d Hd).
      rewrite (elem_of_delete _ _ d p (sorted_NoDup _ Hs) Hd).
      destruct (decide (p = d)) as [->|Hp]; [naive_solver|]. specialize (Hne p Hp). naive_solver.
    + rewrite advance_spec. destruct (decide (p = d)) as [->|Hp]; [|by apply Hne].
      split; [done|]. intros _. by apply peek_elem.
Qed.

Lemma cursor_ok_round s0 d l l' b :
  NeedsDispatchCursor.peek (cur l) = Some d → cursor_ok s0 l → round d l = (l', b) →
  cursor_ok s0 l'.
Proof.
  intros Hd [Hs Hn] Hround.
  assert (d ∈ NeedsDispatch s0) as Hin by (by apply (Hn d), peek_elem).
  destruct (round_cases d l) as [[He Hr]|(m & Hm & [(c & s & w & u & x & Hr & Hc & Hsq & _)|(s & w & Hr & Hsq & _)])];
    rewrite Hr in Hround; injection Hround as <- <-.
  - apply cursor_ok_next; [done..|]. intros p Hp. cbn. rewrite rest_ensure. apply Hn.
  - apply cursor_ok_next; [done..|]. intros p Hp. cbn.
    rewrite (proj2 (consume_rest d m _ _ _ _ Hm Hsq Hc) p Hp). apply Hn.
  - split; cbn; [done|]. intros p. unfold rest. rewrite entry_ensure by done. apply Hn.
Qed.

Record overweight_ok (s0 : State) (l : Loop) : Prop := {
  ov_count : OverweightCount s0 ≤ OverweightCount (storage l) ≤
             OverweightCount s0 + Z.of_nat (length (handled l));
  ov_bound i : is_Some (Overweight (storage l) !! i) → i < OverweightCount (storage l);
  ov_stashed p m i : (p, m, Some i) ∈ handled l → Overweight (storage l) !! i = Some (p, m);
  ov_kept i x : Overweight s0 !! i = Some x → Overweight (storage l) !! i = Some x;
}.

Lemma overweight_same s0 l l' :
  overweight_ok s0 l → handled l' = handled l →
  Overweight (storage l') = Overweight (storage l) →
  OverweightCount (storage l') = OverweightCount (storage l) → overweight_ok s0 l'.
Proof. intros [] H1 H2 H3. split; rewrite ?H1, ?H2, ?H3; done. Qed.

Lemma overweight_round s0 d l l' b :
  NeedsDispatchCursor.peek (cur l) = Some d → progress_ok s0 l →
  0 ≤ OverweightCount s0 → OverweightCount s0 + Z.of_nat (enough_rounds s0) ≤ u64_max →
  overweight_ok s0 l → round d l = (l', b) → overweight_ok s0 l'.
Proof.
  intros Hd Hp H0 Hmax Hl Hround.
  assert (1 ≤ measure l)%nat as Hm1.
  { unfold measure. rewrite (sum_list_with_delete _ (NeedsDispatchCursor.needs_dispatch (cur l)) _ _ Hd). lia. }
  unfold progress_ok in Hp.
  destruct (round_cases d l) as [[He Hr]|(m & Hm & [(c & s & w & u & x & Hr & Hc & Hsq & Hst & _)|(s & w & Hr & Hsq & [H1 H2])])];
    rewrite Hr in Hround; injection Hround as <- <-.
  - rewrite next_para_shape. by eapply overweight_same.
  - rewrite next_para_shape. destruct Hl as [Hc1 Hb Hs Hk].
    destruct x as [i|]; cbn in Hst.
    + destruct Hst as (-> & Ho & Hcnt). unfold u64_add in Hcnt.
      rewrite wrap64_small in Hcnt by (unfold is_u64; lia).
      split; cbn; rewrite ?Ho, ?Hcnt, ?length_app; cbn.
      * lia.
      * intros i. rewrite lookup_insert_is_Some'. intros [<-|Hi]; [lia|]. apply Hb in Hi. lia.
      * intros p m' i [Hi|Hi]%elem_of_app.
        -- apply Hs in Hi. rewrite lookup_insert_ne; [done|]. intros <-.
           assert (is_Some (Overweight (storage l) !! OverweightCount (storage l))) as Hlt%Hb
             by (by eexists). lia.
        -- apply list_elem_of_singleton in Hi. simplify_eq. apply lookup_insert_eq.
      * intros i y Hy. apply Hk in Hy. rewrite lookup_insert_ne; [done|]. intros <-.
        assert (is_Some (Overweight (storage l) !! OverweightCount (storage l))) as Hlt%Hb
          by (by eexists). lia.
    + destruct Hst as [Ho Hcnt]. split; cbn; rewrite ?Ho, ?Hcnt, ?length_app; cbn; [lia|done| |done].
      intros p m' i [Hi|Hi]%elem_of_app; [by apply Hs|]. apply list_elem_of_singleton in Hi. simplify_eq.
  - by eapply overweight_same.
Qed.

(** ** Flushing *)

Definition flushed_queue (o : option QueueCacheEntry) (q : option (list UpwardMessage)) :=
  match o with
  | None => q
  | Some e =>
      if decide (length (queue e) ≤ consumed_count e)%nat then None
      else if decide (0 < consumed_count e)%nat then Some (drop (consumed_count e) (queue e))
      else q
  end.
Definition flushed_size (o : option QueueCacheEntry) (z : option (Z * Z)) :=
  match o with
  | None => z
  | Some e =>
      if decide (length (queue e) ≤ consumed_count e)%nat then None
      else if decide (0 < consumed_count e)%nat then
        Some (wrap32 (Z.of_nat (length (queue e) - consumed_count e)),
              saturating_sub (total_size e) (wrap32 (consumed_size e)))
      else z
  end.

Lemma flush_entry_spec s p e q :
  RelayDispatchQueues (QueueCache.flush_entry s (p, e)) !! q =
    (if decide (p = q) then flushed_queue (Some e) (RelayDispatchQueues s !! q)
     else RelayDispatchQueues s !! q) ∧
  RelayDispatchQueueSize (QueueCache.flush_entry s (p, e)) !! q =
    (if decide (p = q) then flushed_size (Some e) (RelayDispatchQueueSize s !! q)
     else RelayDispatchQueueSize s !! q) ∧
  NeedsDispatch (QueueCache.flush_entry s (p, e)) = NeedsDispatch s ∧
  NextDispatchRoundStartWith (QueueCache.flush_entry s (p, e)) = NextDispatchRoundStartWith s ∧
  Overweight (QueueCache.flush_entry s (p, e)) = Overweight s ∧
  OverweightCount (QueueCache.flush_entry s (p, e)) = OverweightCount s.
Proof.
  unfold QueueCache.flush_entry, flushed_queue, flushed_size.
  destruct (decide (length (queue e) ≤ consumed_count e)%nat); cbn.
  { rewrite !lookup_delete. by case_decide. }
  destruct (decide (0 < consumed_count e)%nat); cbn; [rewrite !lookup_insert|]; by case_decide.
Qed.

Lemma flush_spec c s q :
  RelayDispatchQueues (QueueCache.flush c s) !! q = flushed_queue (c !! q) (RelayDispatchQueues s !! q) ∧
  RelayDispatchQueueSize (QueueCache.flush c s) !! q =
    flushed_size (c !! q) (RelayDispatchQueueSize s !! q) ∧
  NeedsDispatch (QueueCache.flush c s) = NeedsDispatch s ∧
  NextDispatchRoundStartWith (QueueCache.flush c s) = NextDispatchRoundStartWith s ∧
  Overweight (QueueCache.flush c s) = Overweight s ∧
  OverweightCount (QueueCache.flush c s) = OverweightCount s.
Proof.
  unfold QueueCache.flush. rewrite <-(list_to_map_to_list c) at 2 4.
  pose proof (NoDup_fst_map_to_list c) as Hnd. revert s.
  induction (map_to_list c) as [|[p e] l IH]; intros s; [cbn; by rewrite lookup_empty|].
  cbn in Hnd. apply NoDup_cons in Hnd as [Hp Hnd]. cbn -[QueueCache.flush_entry].
  destruct (IH Hnd (QueueCache.flush_entry s (p, e))) as (-> & -> & -> & -> & -> & ->).
  destruct (flush_entry_spec s p e q) as (-> & -> & -> & -> & -> & ->).
  rewrite lookup_insert. destruct (decide (p = q)) as [<-|Hne]; [|done].
  assert ((list_to_map l : gmap ParaId QueueCacheEntry) !! p = None) as ->; [|done].
  by apply not_elem_of_list_to_map_1.
Qed.

Lemma finish_spec l p :
  RelayDispatchQueues (finish l) !! p = flushed_queue (cache l !! p) (RelayDispatchQueues (storage l) !! p) ∧
  RelayDispatchQueueSize (finish l) !! p =
    flushed_size (cache l !! p) (RelayDispatchQueueSize (storage l) !! p) ∧
  NeedsDispatch (finish l) = NeedsDispatchCursor.needs_dispatch (cur l) ∧
  NextDispatchRoundStartWith (finish l) = NeedsDispatchCursor.peek (cur l) ∧
  Overweight (finish l) = Overweight (storage l) ∧
  OverweightCount (finish l) = OverweightCount (storage l).
Proof. apply (flush_spec (cache l) (NeedsDispatchCursor.flush (cur l) (storage l)) p). Qed.

(** After the flush a queue is what was left of it. *)
Lemma finish_queue s0 l p : loop_ok s0 l → queue_of p (finish l) = rest p (cache l) (storage l).
Proof.
  intros [[Hq Hsz] Hsp He Hc]. unfold queue_of, value_query.
  destruct (finish_spec l p) as (-> & _). rewrite Hq.
  specialize (Hsp p). specialize (He p). revert Hsp He. unfold rest, QueueCache.entry.
  destruct (cache l !! p) as [e|]; cbn.
  - intros Hsp (_ & Hcnt & _). case_decide; [by rewrite drop_ge|]. case_decide; [done|].
    assert (consumed_count e = 0%nat) as E by lia. rewrite E in *. symmetry in Hcnt.
    apply length_zero_iff_nil in Hcnt. rewrite Hcnt in Hsp. exact Hsp.
  - intros _ _. unfold queue_of, value_query. by rewrite Hq.
Qed.

Lemma run_loop_ok s w l :
  dispatch_loop (enough_rounds s) (start s w) = Some l →
  loop_ok s l ∧ progress_ok s l.
Proof.
  intros Hrun.
  assert (loop_ok s l ∧ subset_ok s l ∧ progress_ok s l) as (? & _ & ?); [|done].
  apply (dispatch_loop_ind (λ l, loop_ok s l ∧ subset_ok s l ∧ progress_ok s l) _ _ _) in Hrun; [done| |].
  - intros d l1 l2 b Hd _ (H1 & H2 & H3) Hr. pose proof (H2 d (peek_elem _ _ Hd)).
    split_and!; [by eapply loop_ok_round|by eapply subset_round|by eapply progress_round].
  - split_and!; [apply loop_ok_start|by intros p|]. unfold progress_ok. by rewrite start_measure.
Qed.

(** C16. No upward message is lost or reordered: what a dispatch takes off the
    queue of a para is a front part of it, in order, and the rest is what the
    queue holds afterwards; each message taken was executed, or is kept among
    the overweight messages under the index it was given, where it replaces
    nothing. *)
Theorem dispatch_is_fifo s w l :
  0 ≤ OverweightCount s → OverweightCount s + Z.of_nat (enough_rounds s) ≤ u64_max →
  (∀ i, is_Some (Overweight s !! i) → i < OverweightCount s) →
  dispatch_loop (enough_rounds s) (start s w) = Some l →
  (∀ p, queue_of p s = handled_of p (handled l) ++ queue_of p (finish l)) ∧
  (∀ p m i, (p, m, Some i) ∈ handled l → Overweight (finish l) !! i = Some (p, m)) ∧
  (∀ i x, Overweight s !! i = Some x → Overweight (finish l) !! i = Some x).
Proof.
  intros H0 Hmax Hb Hrun. destruct (run_loop_ok s w l Hrun) as [Hl _].
  split; [intros p; rewrite (finish_queue s) by done; apply (lo_split _ _ Hl)|].
  destruct (finish_spec l 0) as (_ & _ & _ & _ & -> & _).
  assert (overweight_ok s l) as []; [|done].
  assert (overweight_ok s l ∧ progress_ok s l) as [? _]; [|done].
  apply (dispatch_loop_ind (λ l, overweight_ok s l ∧ progress_ok s l) _ _ _) in Hrun; [done| |].
  - intros d l1 l2 b Hd _ (H1 & H2) Hr. split; [by eapply overweight_round|by eapply progress_round].
  - split; [|unfold progress_ok; by rewrite start_measure].
    split; cbn; [lia|done| |done]. intros p m i Hi. by apply elem_of_nil in Hi.
Qed.

(** ** The storage invariant *)

Record ump_ok (s : State) : Prop := {
  uo_sorted : sorted (NeedsDispatch s);
  uo_keys p : p ∈ NeedsDispatch s ↔ is_Some (RelayDispatchQueues s !! p);
  uo_queue p q : RelayDispatchQueues s !! p = Some q →
    q ≠ [] ∧ Z.of_nat (length q) ≤ u32_max ∧ total_bytes q ≤ u32_max ∧
    RelayDispatchQueueSize s !! p = Some (Z.of_nat (length q), total_bytes q);
  uo_size p : RelayDispatchQueues s !! p = None → RelayDispatchQueueSize s !! p = None;
}.

(** [NextDispatchRoundStartWith] points into [NeedsDispatch]. *)
Definition next_ok (s : State) : Prop :=
  ∀ p, NextDispatchRoundStartWith s = Some p → p ∈ NeedsDispatch s.

Lemma ump_ok_queue_of s p :
  ump_ok s → RelayDispatchQueues s !! p = if decide (queue_of p s = []) then None else Some (queue_of p s).
Proof.
  intros Hs. unfold queue_of, value_query. destruct (RelayDispatchQueues s !! p) as [q|] eqn:E; cbn.
  - rewrite decide_False; [done|]. by apply (uo_queue s Hs) in E as [? _].
  - by rewrite decide_True.
Qed.

Lemma empty_ok : ump_ok empty_state.
Proof.
  split; cbn; [constructor| | |]; intros p; rewrite ?lookup_empty; try done.
  split; [by intros ?%elem_of_nil|by intros [? ?]].
Qed.

(** The two maps after a dispatch, in terms of what is left. *)
Lemma finish_maps s0 l p :
  ump_ok s0 → loop_ok s0 l →
  RelayDispatchQueues (finish l) !! p =
    (if decide (rest p (cache l) (storage l) = []) then None else Some (rest p (cache l) (storage l))) ∧
  RelayDispatchQueueSize (finish l) !! p =
    (if decide (rest p (cache l) (storage l) = []) then None
     else Some (Z.of_nat (length (rest p (cache l) (storage l))), total_bytes (rest p (cache l) (storage l)))).
Proof.
  intros H0 Hl. pose proof Hl as [[Hq Hsz] Hsp He Hc].
  destruct (finish_spec l p) as (-> & -> & _). rewrite Hq, Hsz. clear Hc.
  pose proof (ump_ok_queue_of s0 p H0) as Hq0. rewrite (Hsp p) in Hq0.
  assert (RelayDispatchQueueSize s0 !! p = if decide (queue_of p s0 = []) then None
    else Some (Z.of_nat (length (queue_of p s0)), total_bytes (queue_of p s0))) as Hs0.
  { rewrite (Hsp p). revert Hq0. case_decide; intros Hq0; [by apply (uo_size s0 H0)|].
    by apply (uo_queue s0 H0) in Hq0 as (_ & _ & _ & ?). }
  rewrite Hs0, (Hsp p), Hq0. specialize (He p). specialize (Hsp p). revert He Hsp. clear Hs0.
  set (r := rest p (cache l) (storage l)) in *. set (h := handled_of p (handled l)) in *.
  assert (r = let e := QueueCache.entry p (cache l) (storage l) in drop (consumed_count e) (queue e)) as Hr
    by done. revert Hr. unfold QueueCache.entry.
  destruct (cache l !! p) as [e|]; cbn [flushed_queue flushed_size consumed_count queue consumed_size total_size].
  - intros Hr (Ht & Hcnt & Hcs & Hlen) Hsp.
    assert (length r = length (queue e) - consumed_count e)%nat as Hlr by (by rewrite Hr, length_drop).
    destruct (decide (length (queue e) ≤ consumed_count e)%nat).
    { assert (r = []) as -> by (apply length_zero_iff_nil; lia). done. }
    assert (r ≠ []) as Hne by (intros E; rewrite E in Hlr; cbn in Hlr; lia).
    rewrite (decide_False (P := r = [])) by done.
    rewrite decide_False in Hq0 by (intros [_ ?]%app_nil; done).
    destruct (uo_queue s0 H0 p _ Hq0) as (_ & Hb1 & Hb2 & Hsize).
    rewrite length_app in Hb1. rewrite total_bytes_app in Hb2.
    pose proof (total_bytes_nonneg h). pose proof (total_bytes_nonneg r).
    destruct (decide (0 < consumed_count e)%nat).
    + rewrite <-Hr, <-Hlr. split; [done|]. rewrite wrap32_small by (unfold is_u32; lia).
      rewrite Ht, Hcs, wrap32_small by (unfold is_u32; lia).
      unfold size_of, value_query. rewrite Hsize. cbn. rewrite total_bytes_app.
      rewrite decide_False by done. do 2 f_equal. unfold saturating_sub. lia.
    + assert (h = []) as Hh by (apply length_zero_iff_nil; lia).
      rewrite Hh. cbn [app]. by rewrite !decide_False.
  - intros Hr (_ & Hcnt & _ & _) Hsp. symmetry in Hcnt. apply length_zero_iff_nil in Hcnt.
    by rewrite Hcnt.
Qed.

Lemma ump_ok_finish s0 l : ump_ok s0 → loop_ok s0 l → cursor_ok s0 l → ump_ok (finish l).
Proof.
  intros H0 Hl [Hs Hn].
  split.
  - by destruct (finish_spec l 0) as (_ & _ & -> & _).
  - intros p. destruct (finish_spec l p) as (_ & _ & -> & _).
    destruct (finish_maps s0 l p H0 Hl) as [-> _]. rewrite Hn. case_decide as Hrest.
    + split; [naive_solver|by intros [? ?]].
    + split; [by eexists|]. intros _. split; [|done].
      apply (uo_keys s0 H0). rewrite (ump_ok_queue_of s0 p H0), (lo_split _ _ Hl).
      rewrite decide_False by (intros [_ ?]%app_nil; done). by eexists.
  - intros p q. destruct (finish_maps s0 l p H0 Hl) as [-> ->]. case_decide as Hrest; [done|].
    intros [= <-]. split; [done|]. pose proof (ump_ok_queue_of s0 p H0) as Hq.
    rewrite (lo_split _ _ Hl) in Hq. rewrite decide_False in Hq by (intros [_ ?]%app_nil; done).
    destruct (uo_queue s0 H0 p _ Hq) as (_ & Hb1 & Hb2 & _).
    rewrite length_app in Hb1. rewrite total_bytes_app in Hb2.
    pose proof (total_bytes_nonneg (handled_of p (handled l))). split_and!; [lia|lia|done].
  - intros p. destruct (finish_maps s0 l p H0 Hl) as [-> ->]. by case_decide.
Qed.

Lemma process_ok s w s' w' u :
  ump_ok s → process_pending_upward_messages s w = Some (s', w', u) → ump_ok s' ∧ next_ok s'.
Proof.
  intros Hs. unfold process_pending_upward_messages.
  destruct (dispatch_loop (enough_rounds s) (start s w)) as [l|] eqn:Hrun; [|done]. cbn.
  intros [= <- <- <-]. destruct (run_loop_ok s w l Hrun) as [Hl _].
  assert (cursor_ok s l) as Hc.
  { apply (dispatch_loop_ind (cursor_ok s) _ _ _) in Hrun; [done| |].
    - intros d l1 l2 b Hd _ H1 Hr. by eapply cursor_ok_round.
    - split; cbn; [apply (uo_sorted s Hs)|]. intros p. unfold rest, QueueCache.entry.
      cbn. rewrite lookup_empty. cbn. rewrite (uo_keys s Hs), (ump_ok_queue_of s p Hs).
      case_decide; [split; [by intros [? ?]|naive_solver]|]. split; [eauto|by eexists]. }
  split; [by apply (ump_ok_finish s)|].
  intros p. destruct (finish_spec l 0) as (_ & _ & -> & -> & _). apply peek_elem.
Qed.

(** A dispatch takes messages off the front of the queues only. *)
Lemma process_suffix s w s' w' u p :
  process_pending_upward_messages s w = Some (s', w', u) → ∃ handled_, queue_of p s = handled_ ++ queue_of p s'.
Proof.
  unfold process_pending_upward_messages.
  destruct (dispatch_loop (enough_rounds s) (start s w)) as [l|] eqn:Hrun; [|done]. cbn.
  intros [= <- <- <-]. destruct (run_loop_ok s w l Hrun) as [Hl _]. eexists.
  rewrite (finish_queue s) by done. apply (lo_split _ _ Hl).
Qed.

(** ** Receiving messages *)

Lemma u32_add_wrap a b : u32_add (wrap32 a) (wrap32 b) = wrap32 (a + b).
Proof. unfold u32_add, wrap32. by rewrite Zplus_mod_idemp_l, Zplus_mod_idemp_r. Qed.

Lemma u32_add_wrap_l a b : u32_add (wrap32 a) b = wrap32 (a + b).
Proof. unfold u32_add, wrap32. by rewrite Zplus_mod_idemp_l. Qed.

Lemma extras_spec (msgs : list UpwardMessage) a b :
  fold_left (λ '(cnt, size) d, (u32_add cnt 1, u32_add size (len32 d))) msgs (wrap32 a, wrap32 b) =
  (wrap32 (a + Z.of_nat (length msgs)), wrap32 (b + total_bytes msgs)).
Proof.
  revert a b. induction msgs as [|m msgs IH]; intros a b; cbn.
  { unfold total_bytes. cbn. by rewrite !Z.add_0_r. }
  unfold len32 at 2. rewrite u32_add_wrap, u32_add_wrap_l, IH.
  change (total_bytes (m :: msgs)) with (Z.of_nat (length m) + total_bytes msgs).
  f_equal; f_equal; lia.
Qed.

Lemma count_messages_spec idx (msgs : list UpwardMessage) a b x :
  count_messages config idx msgs (wrap32 a) (wrap32 b) = Ok x ↔
  Forall (λ m, len32 m ≤ max_upward_message_size config) msgs ∧
  x = (wrap32 (a + Z.of_nat (length msgs)), wrap32 (b + total_bytes msgs)).
Proof.
  revert idx a b. induction msgs as [|m msgs IH]; intros idx a b; cbn.
  { unfold total_bytes. cbn. rewrite !Z.add_0_r. split; [by intros [= <-]|by intros [_ ->]]. }
  change (total_bytes (m :: msgs)) with (Z.of_nat (length m) + total_bytes msgs).
  rewrite Forall_cons. case_decide; [split; [done|]; intros [[? _] _]; lia|].
  unfold len32 at 1. rewrite u32_add_wrap, u32_add_wrap_l, IH.
  assert (∀ n k : Z, a + 1 + n = a + (1 + n) ∧ b + Z.of_nat (length m) + k = b + (Z.of_nat (length m) + k))
    as Hassoc by (intros; lia).
  rewrite (proj1 (Hassoc _ 0)), (proj2 (Hassoc 0 _)).
  replace (1 + Z.of_nat (length msgs)) with (Z.of_nat (S (length msgs))) by lia.
  split; [|naive_solver]. intros [? ->]. split; [split; [lia|done]|done].
Qed.

(** The queue of [para] with [msgs] added has a length and a size that fit the
    counters. *)
Definition fits (para : ParaId) (msgs : list UpwardMessage) (s : State) : Prop :=
  Z.of_nat (length (queue_of para s ++ msgs)) ≤ u32_max ∧
  total_bytes (queue_of para s ++ msgs) ≤ u32_max.

Lemma size_of_ok para s :
  ump_ok s → size_of para s = (Z.of_nat (length (queue_of para s)), total_bytes (queue_of para s)).
Proof.
  intros Hs. unfold size_of, queue_of, value_query.
  destruct (RelayDispatchQueues s !! para) as [q|] eqn:E.
  - by destruct (uo_queue s Hs _ _ E) as (_ & _ & _ & ->).
  - by rewrite (uo_size s Hs _ E).
Qed.

Lemma size_of_wrap para s :
  ump_ok s → fits para [] s →
  size_of para s = (wrap32 (Z.of_nat (length (queue_of para s))), wrap32 (total_bytes (queue_of para s))).
Proof.
  intros Hs [H1 H2]. rewrite app_nil_r in H1, H2. rewrite size_of_ok by done.
  pose proof (total_bytes_nonneg (queue_of para s)).
  by rewrite !wrap32_small by (unfold is_u32; lia).
Qed.

Lemma fits_nil para msgs s : fits para msgs s → fits para [] s.
Proof.
  unfold fits. rewrite !total_bytes_app, !length_app. intros [H1 H2].
  pose proof (total_bytes_nonneg msgs). change (total_bytes []) with 0. cbn. lia.
Qed.

Lemma ump_ok_receive para msgs s :
  ump_ok s → fits para msgs s → ump_ok (receive_upward_messages para msgs s).
Proof.
  intros Hs Hf. unfold receive_upward_messages. destruct msgs as [|m0 msgs0] eqn:Hm; [done|].
  rewrite <-Hm in *. change (fold_left _ msgs (0, 0)) with
    (fold_left (λ '(cnt, size) (d : UpwardMessage), (u32_add cnt 1, u32_add size (len32 d))) msgs
       (wrap32 0, wrap32 0)).
  rewrite extras_spec, (size_of_wrap para s Hs (fits_nil _ _ _ Hf)). cbn zeta iota.
  rewrite !u32_add_wrap, !Z.add_0_l. destruct Hf as [H1 H2].
  pose proof (total_bytes_nonneg (queue_of para s ++ msgs)) as H3.
  rewrite length_app, Nat2Z.inj_add in H1. rewrite total_bytes_app in H2, H3.
  destruct Hs as [Hso Hk Hq Hsz]. split; cbn.
  - by apply sorted_insert_sorted.
  - intros p. rewrite elem_of_sorted_insert by done. rewrite lookup_insert_is_Some', Hk. naive_solver.
  - intros p q. rewrite !lookup_insert. destruct (decide (para = p)); [|apply Hq]. intros [= <-].
    rewrite length_app, Nat2Z.inj_add, total_bytes_app. split_and!; [|lia|lia|].
    + intros [_ ?]%app_nil. by subst msgs.
    + pose proof (total_bytes_nonneg (queue_of para s)). pose proof (total_bytes_nonneg msgs).
      by rewrite !wrap32_small by (unfold is_u32; lia).
  - intros p. rewrite !lookup_insert. destruct (decide (para = p)); [done|apply Hsz].
Qed.

Lemma ump_ok_clean p s : ump_ok s → ump_ok (clean_ump_after_outgoing p s).
Proof.
  intros [Hso Hk Hq Hsz]. split; cbn.
  - by apply sorted_remove_sorted.
  - intros q. rewrite elem_of_sorted_remove, Hk by done. rewrite lookup_delete.
    case_decide; [subst; split; [naive_solver|by intros [? ?]]|naive_solver].
  - intros q m. rewrite !lookup_delete. destruct (decide (p = q)); [done|apply Hq].
  - intros q. rewrite !lookup_delete. destruct (decide (p = q)); [done|apply Hsz].
Qed.

(** The pallet over time: candidates' messages that pass the check, dispatch,
    overweight messages serviced, and paras offboarded. *)
Inductive step : State * W → State * W → Prop :=
| step_receive config' para msgs s w :
    check_upward_messages config' para msgs s = Ok tt → fits para msgs s →
    step (s, w) (receive_upward_messages para msgs s, w)
| step_process s w s' w' u :
    process_pending_upward_messages s w = Some (s', w', u) → step (s, w) (s', w')
| step_service p origin index weight_limit sw :
    step sw (run p (service_overweight origin index weight_limit) sw).1
| step_session outgoing s w : step (s, w) (initializer_on_new_session outgoing s, w).

Lemma ump_ok_service origin index weight_limit sw :
  ump_ok sw.1 → ump_ok (service_overweight origin index weight_limit sw).1.1.
Proof.
  intros [? ? ? ?]. unfold service_overweight. unfold_dispatch.
  destruct (ensure_execute_overweight origin); cbn; [|by split].
  destruct (Overweight sw.1 !! index); cbn; [|by split].
  destruct (process_upward_message _ _ _ _) as [[w ev] [used|e]]; cbn; by split.
Qed.

Lemma step_ok sw sw' : step sw sw' → ump_ok sw.1 → ump_ok sw'.1.
Proof.
  destruct 1 as [config' para msgs s w _ Hf|s w s' w' u Hp|p o i wl sw|outgoing s w]; cbn; intros Hs.
  - by apply ump_ok_receive.
  - by apply (process_ok s w s' w' u Hs Hp).
  - apply (run_preserves (λ sw, ump_ok sw.1)); [done|by apply ump_ok_service].
  - unfold initializer_on_new_session, perform_outgoing_para_cleanup. revert s Hs.
    induction outgoing as [|p l IH]; intros s Hs; [done|]. cbn. apply IH. by apply ump_ok_clean.
Qed.

(** The bookkeeping of the upward queues is exact: whatever messages are
    accepted, dispatched, serviced and cleaned up, the paras in line are, in
    order, exactly those with a queue; no stored queue is empty; and the
    cached size of each is its number of messages and of bytes. *)
Theorem ump_invariant w0 s w :
  rtc step (empty_state, w0) (s, w) → ump_ok s.
Proof.
  intros Hrtc. pose proof empty_ok as H0. change (ump_ok (s, w).1). change (ump_ok (empty_state, w0).1) in H0.
  induction Hrtc; eauto using step_ok.
Qed.

(** What the check says of the messages by themselves. *)
Lemma check_upward_messages_small para msgs s :
  check_upward_messages config para msgs s = Ok tt →
  len32 msgs ≤ max_upward_message_num_per_candidate config ∧
  Forall (λ m, len32 m ≤ max_upward_message_size config) msgs.
Proof.
  unfold check_upward_messages. case_decide; [done|]. destruct (size_of para s) as [a b].
  destruct (count_messages config 0 msgs a b) as [x|] eqn:E; [|done]. intros _. split; [lia|].
  clear -E. revert a b E. generalize 0 as idx. induction msgs as [|m msgs IH]; intros idx a b; cbn; [constructor|].
  case_decide; [done|]. intros E. constructor; [lia|]. by eapply IH.
Qed.

Lemma check_upward_ok para msgs s :
  ump_ok s → fits para msgs s →
  check_upward_messages config para msgs s = Ok tt ↔
    len32 msgs ≤ max_upward_message_num_per_candidate config ∧
    Forall (λ m, len32 m ≤ max_upward_message_size config) msgs ∧
    Z.of_nat (length (queue_of para s ++ msgs)) ≤ max_upward_queue_count config ∧
    total_bytes (queue_of para s ++ msgs) ≤ max_upward_queue_size config.
Proof.
  intros Hs Hf. unfold check_upward_messages. rewrite (size_of_wrap para s Hs (fits_nil _ _ _ Hf)).
  destruct Hf as [H1 H2]. pose proof (total_bytes_nonneg (queue_of para s ++ msgs)) as H3.
  rewrite length_app, Nat2Z.inj_add, total_bytes_app in *.
  destruct (decide (max_upward_message_num_per_candidate config < len32 msgs)).
  { split; [done|]. intros [? _]. lia. }
  destruct (count_messages config 0 msgs _ _) as [x|e] eqn:E.
  - apply count_messages_spec in E as [Hall ->].
    rewrite !wrap32_small by (unfold is_u32; lia).
    repeat case_decide; (split; [|naive_solver lia]); try done; intros _; split_and!; done || lia.
  - split; [done|]. intros (_ & Hall & _).
    assert (count_messages config 0 msgs (wrap32 (Z.of_nat (length (queue_of para s))))
      (wrap32 (total_bytes (queue_of para s))) = Ok (wrap32 (Z.of_nat (length (queue_of para s)) +
      Z.of_nat (length msgs)), wrap32 (total_bytes (queue_of para s) + total_bytes msgs))) as E'
      by (by apply count_messages_spec).
    congruence.
Qed.

Lemma receive_queue_of para msgs s p :
  queue_of p (receive_upward_messages para msgs s) =
    if decide (p = para) then queue_of para s ++ msgs else queue_of p s.
Proof.
  unfold receive_upward_messages. destruct msgs as [|m msgs].
  { case_decide; [subst; by rewrite app_nil_r|done]. }
  destruct (fold_left _ _ _), (size_of para s). unfold queue_of at 1. cbn.
  rewrite value_query_insert. repeat case_decide; congruence || done.
Qed.

(** What the acceptance check lets through: a candidate's messages are
    accepted exactly when they are not too many and none too large, and the
    queue with them added stays within the configured count and size; adding
    them then appends them to the queue of the para, in order, and changes no
    other queue. *)
Theorem acceptance_check para msgs s :
  ump_ok s → fits para msgs s →
  (check_upward_messages config para msgs s = Ok tt ↔
     len32 msgs ≤ max_upward_message_num_per_candidate config ∧
     Forall (λ m, len32 m ≤ max_upward_message_size config) msgs ∧
     Z.of_nat (length (queue_of para s ++ msgs)) ≤ max_upward_queue_count config ∧
     total_bytes (queue_of para s ++ msgs) ≤ max_upward_queue_size config) ∧
  (∀ p, queue_of p (receive_upward_messages para msgs s) =
     if decide (p = para) then queue_of para s ++ msgs else queue_of p s).
Proof. intros Hs Hf. split; [by apply check_upward_ok|intros p; apply receive_queue_of]. Qed.

(** Offboarding loses the place in the round robin, or leaves it on the para
    that left: [NextDispatchRoundStartWith] is kept exactly when it is the
    outgoing para, which is no longer in line, and dropped otherwise. *)
Theorem clean_ump_cursor p s :
  ump_ok s →
  NextDispatchRoundStartWith (clean_ump_after_outgoing p s) =
    (if decide (NextDispatchRoundStartWith s = Some p) then Some p else None) ∧
  ¬ (p ∈ NeedsDispatch (clean_ump_after_outgoing p s)) ∧
  (next_ok (clean_ump_after_outgoing p s) ↔ NextDispatchRoundStartWith s ≠ Some p).
Proof.
  intros Hs. assert (p ∉ NeedsDispatch (clean_ump_after_outgoing p s)) as Hp.
  { cbn. rewrite elem_of_sorted_remove by (apply (uo_sorted s Hs)). naive_solver. }
  assert (NextDispatchRoundStartWith (clean_ump_after_outgoing p s) =
    (if decide (NextDispatchRoundStartWith s = Some p) then Some p else None)) as Hn.
  { cbn. destruct (NextDispatchRoundStartWith s) as [q|]; cbn; [|done]. repeat case_decide; congruence. }
  split_and!; [done|done|]. unfold next_ok. rewrite Hn. case_decide; naive_solver.
Qed.

(** ** The weight budget *)

(** The budget is kept up to the slack of the sink: when the sink uses at
    most [c] more than it is allowed for each message, a dispatch uses at most
    [c] more than the larger of the service weight and the allowance of the
    first message. *)
Theorem weight_bounded (c : Weight) s w s' w' u :
  (∀ d m mw ww ww' used,
     process_upward_message d m mw ww = (ww', Ok used) → 0 ≤ used ≤ mw + c) →
  0 ≤ ump_service_total_weight config → 0 ≤ c →
  let first := u64_mul (ump_service_total_weight config) first_message_factor_percent / 100 in
  Z.max (ump_service_total_weight config) first + c ≤ u64_max →
  process_pending_upward_messages s w = Some (s', w', u) →
  0 ≤ u ≤ Z.max (ump_service_total_weight config) first + c.
Proof.
  intros Hsink HT Hc first Hmax. unfold process_pending_upward_messages.
  destruct (dispatch_loop (enough_rounds s) (start s w)) as [l|] eqn:Hrun; [|done]. cbn.
  intros [= _ _ <-].
  assert (0 ≤ first) as Hf.
  { apply Z.div_pos; [|lia]. unfold u64_mul. pose proof (wrap64_range
      (ump_service_total_weight config * first_message_factor_percent)) as []. done. }
  apply (dispatch_loop_ind (λ l, 0 ≤ weight_used l ≤ Z.max (ump_service_total_weight config) first + c)
    _ _ _) in Hrun; [done| |cbn; lia].
  intros d l1 l2 b Hd Hlt [H1 H2] Hround.
  destruct (round_cases d l1) as [[He Hr]|(m & Hm & [(c' & s1 & w1 & u & x & Hr & _ & _ & _ & Hsp)|(s1 & w1 & Hr & _)])];
    rewrite Hr in Hround; injection Hround as <- <-; [by rewrite next_para_shape| |done].
  rewrite next_para_shape. cbn. destruct x; cbn in Hsp; [by subst u|].
  destruct Hsp as (ww & used & Hp & ->). apply Hsink in Hp. revert Hp. unfold max_weight.
  case_decide as H0; intros Hp.
  - fold first in Hp. unfold u64_add. rewrite wrap64_small; [lia|]. unfold is_u64. lia.
  - unfold u64_sub in Hp. rewrite wrap64_small in Hp by (unfold is_u64; lia).
    unfold u64_add. rewrite wrap64_small; [lia|]. unfold is_u64. lia.
Qed.
End Dispatch.

(** ** Examples: a sink that charges the first byte of a message *)

Section Examples.

Definition byte_weight (m : UpwardMessage) : Weight := match m with b :: _ => Z_of_byte b | [] => 0 end.

#[local] Instance byte_sink : UmpSink (list UpwardMessage) := λ _ m mw '(w, ev),
  if decide (byte_weight m ≤ mw) then ((w ++ [m], ev), Ok (byte_weight m))
  else ((w, ev), Err (vreplicate 32 Byte.x00, byte_weight m)).

Definition example_config : HostConfiguration :=
  Configuration.updater (Configuration.set_ump_max_individual_weight 50)
    (Configuration.updater (Configuration.set_ump_service_total_weight 10)
      (Configuration.updater (Configuration.set_max_upward_queue_count 8)
        (Configuration.updater (Configuration.set_max_upward_queue_size 8)
          (Configuration.updater (Configuration.set_max_upward_message_size 8)
            (Configuration.updater (Configuration.set_max_upward_message_num_per_candidate 8)
               HostConfiguration.default))))).

(** Para 7 sends a message of weight 4, one that is too heavy, and one of weight
    9; para 5 one of weight 5. *)
Definition msgs7 : list UpwardMessage := [[Byte.x04]; [Byte.xff]; [Byte.x09]].
Definition example_state : State :=
  receive_upward_messages 5 [[Byte.x05]] (receive_upward_messages 7 msgs7 empty_state).

Definition example_loop : option Loop :=
  dispatch_loop example_config 200 (enough_rounds example_state) (start example_state []).

Lemma msgs7_fit : fits 7 msgs7 empty_state ∧ fits 5 [[Byte.x05]] (receive_upward_messages 7 msgs7 empty_state).
Proof. unfold fits. vm_compute. repeat split; discriminate. Qed.

Lemma dispatch_is_fifo_witness :
  ∃ l, example_loop = Some l ∧ handled l =
    [(5, [Byte.x05], None); (7, [Byte.x04], None); (7, [Byte.xff], Some 0)] ∧
  queue_of 7 example_state = handled_of 7 (handled l) ++ queue_of 7 (finish l) ∧
  queue_of 7 (finish l) = [[Byte.x09]] ∧
  Overweight (finish l) !! 0 = Some (7, [Byte.xff]).
Proof.
  destruct example_loop as [l|] eqn:E; [|exfalso; vm_compute in E; discriminate].
  exists l.
  destruct (dispatch_is_fifo example_config 200 example_state [] l) as (Hq & Ho & _);
    [vm_compute; discriminate|vm_compute; discriminate| |exact E|].
  - intros i Hi. exfalso. destruct Hi as [x Hx]. discriminate Hx.
  - unfold example_loop in E.
    assert (handled l = [(5, [Byte.x05], None); (7, [Byte.x04], None); (7, [Byte.xff], Some 0)] ∧
      queue_of 7 (finish l) = [[Byte.x09]]) as [Hh Hr].
    { assert (∀ o, o = Some l → handled (default l o) = handled l ∧
        queue_of 7 (finish (default l o)) = queue_of 7 (finish l)) as Hd by (clear; intros ? ->; split; reflexivity).
      destruct (Hd _ E) as [<- <-]. vm_compute. split; reflexivity. }
    split; [reflexivity|]. split; [exact Hh|]. split; [apply Hq|]. split; [exact Hr|].
    apply Ho. rewrite Hh. apply list_elem_of_lookup. by exists 2%nat.
Defined.

Lemma ump_invariant_witness : ump_ok example_state.
Proof.
  apply (ump_invariant (W := list UpwardMessage) example_config 200 (O := unit) Some [] example_state []).
  destruct msgs7_fit as [H7 H5].
  eapply rtc_l; [apply (step_receive _ _ _ example_config 7 msgs7); [reflexivity|exact H7]|].
  apply rtc_once. apply (step_receive _ _ _ example_config 5 [[Byte.x05]]); [reflexivity|exact H5].
Defined.

Lemma acceptance_check_witness :
  check_upward_messages example_config 7 msgs7 empty_state = Ok tt ∧
  queue_of 7 (receive_upward_messages 7 msgs7 empty_state) = msgs7.
Proof.
  destruct (acceptance_check example_config 7 msgs7 empty_state empty_ok (proj1 msgs7_fit)) as [Hc Hq].
  split; [|rewrite Hq; reflexivity]. apply Hc.
  split_and!; [vm_compute; discriminate|repeat constructor; vm_compute; discriminate|
    vm_compute; discriminate|vm_compute; discriminate].
Defined.

Lemma example_state_ok : ump_ok example_state.
Proof.
  destruct msgs7_fit as [H7 H5].
  apply ump_ok_receive; [|exact H5]. apply ump_ok_receive; [exact empty_ok|exact H7].
Qed.

Lemma clean_ump_cursor_witness :
  ∃ s, NextDispatchRoundStartWith s = Some 7 ∧
    NextDispatchRoundStartWith (clean_ump_after_outgoing 7 s) = Some 7 ∧
    ¬ next_ok (clean_ump_after_outgoing 7 s).
Proof.
  pose (s := set_dispatch (NeedsDispatch example_state) (Some 7) example_state).
  assert (ump_ok s) as Hs by (destruct example_state_ok; by split).
  exists s. destruct (clean_ump_cursor 7 s Hs) as (H1 & _ & H2).
  split; [reflexivity|]. split; [rewrite H1; reflexivity|]. intros Hn. by apply H2 in Hn.
Defined.

Lemma weight_bounded_witness :
  ∃ s' w' u, process_pending_upward_messages example_config 200 example_state [] = Some (s', w', u) ∧
    0 ≤ u ≤ 20.
Proof.
  destruct (process_pending_upward_messages example_config 200 example_state []) as [[[s' w'] u]|] eqn:E;
    [|exfalso; vm_compute in E; discriminate].
  exists s', w', u. split; [done|].
  change 20 with (Z.max 10 (u64_mul 10 200 / 100) + 0).
  refine (weight_bounded example_config 200 0 example_state [] s' w' u _ _ _ _ E);
    [|vm_compute; discriminate|lia|vm_compute; discriminate].
  intros d m mw [w ev] ww' used. unfold process_upward_message, byte_sink, byte_weight.
  case_decide; [|done]. intros [= <- <-]. destruct m as [|b m]; [lia|].
  pose proof (Z_of_byte_range b). lia.
Defined.
End Examples.
End Ump.
