(* ===== verification/Hrmp.v ===== *)
(** * Horizontal messages

    [runtime/parachains/src/hrmp.rs]: channels between paras, from the request
    to open one to its closure, and the messages they carry.  The world of the
    pallet is its own storage, the downward queues it notifies paras through,
    and the balances its deposits are reserved from; the life cycles of paras
    and the configuration are read.  The currency is the interface
    [ReservableCurrency]. *)

From S2P Require Import Prelude.
From S2P Require Import Vectors.
From S2P Require Import XcmTypes.
From S2P Require Import Frame.
From S2P Require Import Configuration.
From S2P Require Import Paras.
From S2P Require Import Dmp.

(** Balances; an account is that of a para ([into_account_truncating]).
    [reserve] fails when the account has not enough. *)
Class ReservableCurrency (B : Type) := {
  reserve : ParaId → Balance → B → option B;
  unreserve : ParaId → Balance → B → B;
}.

Module Hrmp.

(** [origin.rs] *)
Inductive Origin := RootOrigin | SignedOrigin | NoneOrigin | ParachainOrigin (id : ParaId).
Definition ensure_parachain (o : Origin) : option ParaId :=
  match o with ParachainOrigin id => Some id | _ => None end.
Definition ensure_root (o : Origin) : option unit :=
  match o with RootOrigin => Some tt | _ => None end.

Record HrmpChannelId := mkChannelId { sender : ParaId; recipient : ParaId }.

#[export] Instance channel_id_eq_dec : EqDecision HrmpChannelId.
Proof. solve_decision. Defined.
#[export] Instance channel_id_countable : Countable HrmpChannelId.
Proof.
  apply (inj_countable' (λ c, (sender c, recipient c)) (λ p, mkChannelId p.1 p.2)).
  by intros [].
Defined.

Definition is_participant (c : HrmpChannelId) (id : ParaId) : bool :=
  bool_decide (id = sender c) || bool_decide (id = recipient c).

(** The derived order. *)
Definition channel_le (a b : HrmpChannelId) : Prop :=
  sender a < sender b ∨ sender a = sender b ∧ recipient a ≤ recipient b.
#[export] Instance channel_le_dec : RelDecision channel_le.
Proof. intros a b. unfold channel_le. apply _. Defined.

Record HrmpOpenChannelRequest := mkRequest {
  confirmed : bool;
  age : SessionIndex;
  req_sender_deposit : Balance;
  req_max_message_size : Z;
  req_max_capacity : Z;
  req_max_total_size : Z;
}.

Record InboundHrmpMessage := mkInbound { sent_at : BlockNumber; data : list byte }.
Record OutboundHrmpMessage := mkOutbound { out_recipient : ParaId; out_data : list byte }.

Inductive HrmpWatermarkAcceptanceErr :=
| AdvancementRule (new_watermark last_watermark : BlockNumber)
| AheadRelayParent (new_watermark relay_chain_parent_number : BlockNumber)
| LandsOnBlockWithNoMessages (new_watermark : BlockNumber).

Inductive OutboundHrmpAcceptanceErr :=
| MoreMessagesThanPermitted (sent permitted : Z)
| NotSorted (idx : Z)
| NoSuchChannel (idx : Z) (channel_id : HrmpChannelId)
| MaxMessageSizeExceeded (idx msg_size max_size : Z)
| TotalSizeExceeded (idx total_size limit : Z)
| CapacityExceeded (idx count limit : Z).

Inductive Event :=
| OpenChannelRequested (sender recipient : ParaId) (max_capacity max_message_size : Z)
| OpenChannelCanceled (by_parachain : ParaId) (channel_id : HrmpChannelId)
| OpenChannelAccepted (sender recipient : ParaId)
| ChannelClosed (by_parachain : ParaId) (channel_id : HrmpChannelId).

Inductive Error :=
| OpenHrmpChannelToSelf
| OpenHrmpChannelInvalidRecipient
| OpenHrmpChannelZeroCapacity
| OpenHrmpChannelCapacityExceedsLimit
| OpenHrmpChannelZeroMessageSize
| OpenHrmpChannelMessageSizeExceedsLimit
| OpenHrmpChannelAlreadyExists
| OpenHrmpChannelAlreadyRequested
| OpenHrmpChannelLimitExceeded
| AcceptHrmpChannelDoesntExist
| AcceptHrmpChannelAlreadyConfirmed
| AcceptHrmpChannelLimitExceeded
| CloseHrmpChannelUnauthorized
| CloseHrmpChannelDoesntExist
| CloseHrmpChannelAlreadyUnderway
| CancelHrmpOpenChannelUnauthorized
| OpenHrmpChannelDoesntExist
| OpenHrmpChannelAlreadyConfirmed
| WrongWitness.

Section Pallet.
Context {H B : Type} `{!MessageHash H} `{!ReservableCurrency B}
  (encode_xcm : Xcm → list byte).

Record HrmpChannel := mkChannel {
  max_capacity : Z;
  max_total_size : Z;
  max_message_size : Z;
  msg_count : Z;
  total_size : Z;
  channel_mqc_head : option H;
  sender_deposit : Balance;
  recipient_deposit : Balance;
}.

Record State := mkState {
  HrmpOpenChannelRequests : gmap HrmpChannelId HrmpOpenChannelRequest;
  HrmpOpenChannelRequestsList : list HrmpChannelId;
  HrmpOpenChannelRequestCount : gmap ParaId Z;
  HrmpAcceptedChannelRequestCount : gmap ParaId Z;
  HrmpCloseChannelRequests : gmap HrmpChannelId unit;
  HrmpCloseChannelRequestsList : list HrmpChannelId;
  HrmpWatermarks : gmap ParaId BlockNumber;
  HrmpChannels : gmap HrmpChannelId HrmpChannel;
  HrmpIngressChannelsIndex : gmap ParaId (list ParaId);
  HrmpEgressChannelsIndex : gmap ParaId (list ParaId);
  HrmpChannelContents : gmap HrmpChannelId (list InboundHrmpMessage);
  HrmpChannelDigests : gmap ParaId (list (BlockNumber * list ParaId));
  events : list Event;
}.

Definition empty_state : State := mkState ∅ [] ∅ ∅ ∅ [] ∅ ∅ ∅ ∅ ∅ ∅ [].

(** The two lists of requests with their sets, and the counts. *)
Definition set_open m l (s : State) : State :=
  mkState m l (HrmpOpenChannelRequestCount s) (HrmpAcceptedChannelRequestCount s)
    (HrmpCloseChannelRequests s) (HrmpCloseChannelRequestsList s) (HrmpWatermarks s)
    (HrmpChannels s) (HrmpIngressChannelsIndex s) (HrmpEgressChannelsIndex s)
    (HrmpChannelContents s) (HrmpChannelDigests s) (events s).
Definition set_counts o a (s : State) : State :=
  mkState (HrmpOpenChannelRequests s) (HrmpOpenChannelRequestsList s) o a
    (HrmpCloseChannelRequests s) (HrmpCloseChannelRequestsList s) (HrmpWatermarks s)
    (HrmpChannels s) (HrmpIngressChannelsIndex s) (HrmpEgressChannelsIndex s)
    (HrmpChannelContents s) (HrmpChannelDigests s) (events s).
Definition set_close m l (s : State) : State :=
  mkState (HrmpOpenChannelRequests s) (HrmpOpenChannelRequestsList s)
    (HrmpOpenChannelRequestCount s) (HrmpAcceptedChannelRequestCount s) m l (HrmpWatermarks s)
    (HrmpChannels s) (HrmpIngressChannelsIndex s) (HrmpEgressChannelsIndex s)
    (HrmpChannelContents s) (HrmpChannelDigests s) (events s).
(** The channels with their indexes, and what they carry. *)
Definition set_channels c i e (s : State) : State :=
  mkState (HrmpOpenChannelRequests s) (HrmpOpenChannelRequestsList s)
    (HrmpOpenChannelRequestCount s) (HrmpAcceptedChannelRequestCount s)
    (HrmpCloseChannelRequests s) (HrmpCloseChannelRequestsList s) (HrmpWatermarks s)
    c i e (HrmpChannelContents s) (HrmpChannelDigests s) (events s).
Definition set_contents c d (s : State) : State :=
  mkState (HrmpOpenChannelRequests s) (HrmpOpenChannelRequestsList s)
    (HrmpOpenChannelRequestCount s) (HrmpAcceptedChannelRequestCount s)
    (HrmpCloseChannelRequests s) (HrmpCloseChannelRequestsList s) (HrmpWatermarks s)
    (HrmpChannels s) (HrmpIngressChannelsIndex s) (HrmpEgressChannelsIndex s) c d (events s).
Definition set_watermarks m (s : State) : State :=
  mkState (HrmpOpenChannelRequests s) (HrmpOpenChannelRequestsList s)
    (HrmpOpenChannelRequestCount s) (HrmpAcceptedChannelRequestCount s)
    (HrmpCloseChannelRequests s) (HrmpCloseChannelRequestsList s) m
    (HrmpChannels s) (HrmpIngressChannelsIndex s) (HrmpEgressChannelsIndex s)
    (HrmpChannelContents s) (HrmpChannelDigests s) (events s).
Definition add_event e (s : State) : State :=
  mkState (HrmpOpenChannelRequests s) (HrmpOpenChannelRequestsList s)
    (HrmpOpenChannelRequestCount s) (HrmpAcceptedChannelRequestCount s)
    (HrmpCloseChannelRequests s) (HrmpCloseChannelRequestsList s) (HrmpWatermarks s)
    (HrmpChannels s) (HrmpIngressChannelsIndex s) (HrmpEgressChannelsIndex s)
    (HrmpChannelContents s) (HrmpChannelDigests s) (events s ++ [e]).

Definition ingress (p : ParaId) (s : State) : list ParaId :=
  value_query [] p (HrmpIngressChannelsIndex s).
Definition egress (p : ParaId) (s : State) : list ParaId :=
  value_query [] p (HrmpEgressChannelsIndex s).
Definition contents (c : HrmpChannelId) (s : State) : list InboundHrmpMessage :=
  value_query [] c (HrmpChannelContents s).
Definition digest (p : ParaId) (s : State) : list (BlockNumber * list ParaId) :=
  value_query [] p (HrmpChannelDigests s).

Record World := mkWorld {
  hrmp : State;
  dmp : Dmp.State (H := H);
  currency : B;
}.

Definition on_hrmp (f : State → State) (w : World) : World := mkWorld (f (hrmp w)) (dmp w) (currency w).
Definition unreserve_deposit (p : ParaId) (amount : Balance) (w : World) : World :=
  mkWorld (hrmp w) (dmp w) (unreserve p amount (currency w)).

(** ** Counts *)

(** [mutate_exists]: a count that reaches zero is removed. *)
Definition decrease (p : ParaId) (m : gmap ParaId Z) : gmap ParaId Z :=
  match m !! p with
  | None => m
  | Some rc => if decide (saturating_sub rc 1 = 0) then delete p m else <[p := saturating_sub rc 1]> m
  end.

Definition decrease_open_channel_request_count (sender_ : ParaId) (s : State) : State :=
  set_counts (decrease sender_ (HrmpOpenChannelRequestCount s)) (HrmpAcceptedChannelRequestCount s) s.
Definition decrease_accepted_channel_request_count (recipient_ : ParaId) (s : State) : State :=
  set_counts (HrmpOpenChannelRequestCount s) (decrease recipient_ (HrmpAcceptedChannelRequestCount s)) s.

(** ** Closing *)

Definition close_hrmp_channel (c : HrmpChannelId) (w : World) : World :=
  let w :=
    match HrmpChannels (hrmp w) !! c with
    | Some ch =>
        let w := on_hrmp (λ s, set_channels (delete c (HrmpChannels s)) (HrmpIngressChannelsIndex s)
                                 (HrmpEgressChannelsIndex s) s) w in
        let w := unreserve_deposit (sender c) (sender_deposit ch) w in
        unreserve_deposit (recipient c) (recipient_deposit ch) w
    | None => w
    end in
  let w := on_hrmp (λ s, set_contents (delete c (HrmpChannelContents s)) (HrmpChannelDigests s) s) w in
  let w := on_hrmp (λ s, set_channels (HrmpChannels s) (HrmpIngressChannelsIndex s)
                           (<[sender c := sorted_remove (recipient c) (egress (sender c) s)]>
                              (HrmpEgressChannelsIndex s)) s) w in
  on_hrmp (λ s, set_channels (HrmpChannels s)
                  (<[recipient c := sorted_remove (sender c) (ingress (recipient c) s)]>
                     (HrmpIngressChannelsIndex s))
                  (HrmpEgressChannelsIndex s) s) w.

Definition process_hrmp_close_channel_requests (w : World) : World :=
  let close_reqs := HrmpCloseChannelRequestsList (hrmp w) in
  let w := on_hrmp (λ s, set_close (HrmpCloseChannelRequests s) [] s) w in
  fold_left (λ w c,
    close_hrmp_channel c
      (on_hrmp (λ s, set_close (delete c (HrmpCloseChannelRequests s))
                       (HrmpCloseChannelRequestsList s) s) w)) close_reqs w.

(** ** Opening *)

Section Opening.
Context (config : HostConfiguration) (paras : Paras.Lifecycles).

(** What a confirmed request of valid paras becomes. *)
Definition open_channel (c : HrmpChannelId) (request : HrmpOpenChannelRequest) (s : State) : State :=
  let ch := mkChannel (req_max_capacity request) (req_max_total_size request)
              (req_max_message_size request) 0 0 None (req_sender_deposit request)
              (hrmp_recipient_deposit config) in
  let s := set_channels (<[c := ch]> (HrmpChannels s)) (HrmpIngressChannelsIndex s)
             (HrmpEgressChannelsIndex s) s in
  let s := set_channels (HrmpChannels s)
             (<[recipient c := sorted_insert (sender c) (ingress (recipient c) s)]>
                (HrmpIngressChannelsIndex s)) (HrmpEgressChannelsIndex s) s in
  set_channels (HrmpChannels s) (HrmpIngressChannelsIndex s)
    (<[sender c := sorted_insert (recipient c) (egress (sender c) s)]> (HrmpEgressChannelsIndex s)) s.

(** The loop over the list from index [idx] down; [None] when it panics. *)
Fixpoint open_loop (idx : nat) (open_req_channels : list HrmpChannelId) (s : State) :
    option (list HrmpChannelId * State) :=
  match idx with
  | O => Some (open_req_channels, s)
  | S idx =>
      c ← open_req_channels !! idx;
      request ← HrmpOpenChannelRequests s !! c;
      if confirmed request then
        let s := if Paras.is_valid_para (sender c) paras && Paras.is_valid_para (recipient c) paras
                 then open_channel c request s else s in
        let s := decrease_open_channel_request_count (sender c) s in
        let s := decrease_accepted_channel_request_count (recipient c) s in
        let s := set_open (delete c (HrmpOpenChannelRequests s)) (HrmpOpenChannelRequestsList s) s in
        open_loop idx (swap_remove idx open_req_channels) s
      else open_loop idx open_req_channels s
  end.

Definition process_hrmp_open_channel_requests (s : State) : option State :=
  let open_req_channels := HrmpOpenChannelRequestsList s in
  match open_req_channels with
  | [] => Some s
  | _ =>
      '(l, s) ← open_loop (length open_req_channels) open_req_channels s;
      Some (set_open (HrmpOpenChannelRequests s) l s)
  end.

(** ** Offboarding *)

Definition clean_request (outgoing : list ParaId) (w : World) (c : HrmpChannelId) : World :=
  match HrmpOpenChannelRequests (hrmp w) !! c with
  | None => w
  | Some req =>
      let w := on_hrmp (λ s, set_open (delete c (HrmpOpenChannelRequests s))
                               (HrmpOpenChannelRequestsList s) s) w in
      let w := if decide (sender c ∈ outgoing) then w
               else unreserve_deposit (sender c) (req_sender_deposit req) w in
      if confirmed req then
        let w := if decide (recipient c ∈ outgoing) then w
                 else unreserve_deposit (recipient c) (hrmp_recipient_deposit config) w in
        on_hrmp (decrease_accepted_channel_request_count (recipient c)) w
      else w
  end.

Definition clean_open_channel_requests (outgoing : list ParaId) (w : World) : World :=
  let reqs := HrmpOpenChannelRequestsList (hrmp w) in
  let leaves c := existsb (is_participant c) outgoing in
  let go := filter leaves reqs in
  let stay := filter (λ c, negb (leaves c)) reqs in
  let w := on_hrmp (λ s, set_open (HrmpOpenChannelRequests s) stay s) w in
  fold_left (clean_request outgoing) go w.

(** [Vec::dedup] *)
Fixpoint dedup {A} `{EqDecision A} (l : list A) : list A :=
  match l with
  | x :: (y :: _) as l' => if decide (x = y) then dedup l' else x :: dedup l'
  | _ => l
  end.

Definition clean_hrmp_after_outgoing (outgoing_para : ParaId) (w : World) : World :=
  let w := on_hrmp (λ s, set_counts (delete outgoing_para (HrmpOpenChannelRequestCount s))
                           (delete outgoing_para (HrmpAcceptedChannelRequestCount s)) s) w in
  let ins := (λ p, mkChannelId p outgoing_para) <$> ingress outgoing_para (hrmp w) in
  let outs := (λ p, mkChannelId outgoing_para p) <$> egress outgoing_para (hrmp w) in
  let w := on_hrmp (λ s, set_channels (HrmpChannels s) (delete outgoing_para (HrmpIngressChannelsIndex s))
                           (delete outgoing_para (HrmpEgressChannelsIndex s)) s) w in
  let to_close := dedup (merge_sort channel_le (ins ++ outs)) in
  fold_left (λ w c, close_hrmp_channel c w) to_close w.

Definition perform_outgoing_para_cleanup (outgoing : list ParaId) (w : World) : World :=
  fold_left (λ w p, clean_hrmp_after_outgoing p w) outgoing (clean_open_channel_requests outgoing w).
End Opening.

(** [prev_config] is the configuration before the session change. *)
Definition initializer_on_new_session (prev_config : HostConfiguration) (paras : Paras.Lifecycles)
    (outgoing_paras : list ParaId) (w : World) : option World :=
  let w := perform_outgoing_para_cleanup prev_config outgoing_paras w in
  s ← process_hrmp_open_channel_requests prev_config paras (hrmp w);
  Some (process_hrmp_close_channel_requests (mkWorld s (dmp w) (currency w))).

(** ** Acceptance checks *)

Definition check_hrmp_watermark (recipient_ : ParaId) (relay_chain_parent_number new_hrmp_watermark : BlockNumber)
    (s : State) : result HrmpWatermarkAcceptanceErr unit :=
  let land :=
    if decide (relay_chain_parent_number < new_hrmp_watermark)
    then Err (AheadRelayParent new_hrmp_watermark relay_chain_parent_number)
    else if decide (new_hrmp_watermark = relay_chain_parent_number) then Ok tt
    else match binary_search_by_key fst (digest recipient_ s) new_hrmp_watermark with
         | Ok _ => Ok tt
         | Err _ => Err (LandsOnBlockWithNoMessages new_hrmp_watermark)
         end in
  match HrmpWatermarks s !! recipient_ with
  | Some last_watermark =>
      if decide (new_hrmp_watermark ≤ last_watermark)
      then Err (AdvancementRule new_hrmp_watermark last_watermark)
      else land
  | None => land
  end.

(** The loop over the messages, from index [idx] on, after [last_recipient]. *)
Fixpoint check_messages (sender_ : ParaId) (s : State) (idx : Z) (last_recipient : option ParaId)
    (msgs : list OutboundHrmpMessage) : result OutboundHrmpAcceptanceErr unit :=
  match msgs with
  | [] => Ok tt
  | out_msg :: msgs =>
      if match last_recipient with Some r => bool_decide (out_recipient out_msg ≤ r) | None => false end
      then Err (NotSorted (wrap32 idx))
      else
        let c := mkChannelId sender_ (out_recipient out_msg) in
        match HrmpChannels s !! c with
        | None => Err (NoSuchChannel (wrap32 idx) c)
        | Some ch =>
            let msg_size := len32 (out_data out_msg) in
            let new_total_size := u32_add (total_size ch) (len32 (out_data out_msg)) in
            let new_msg_count := u32_add (msg_count ch) 1 in
            if decide (max_message_size ch < msg_size)
            then Err (MaxMessageSizeExceeded (wrap32 idx) msg_size (max_message_size ch))
            else if decide (max_total_size ch < new_total_size)
            then Err (TotalSizeExceeded (wrap32 idx) new_total_size (max_total_size ch))
            else if decide (max_capacity ch < new_msg_count)
            then Err (CapacityExceeded (wrap32 idx) new_msg_count (max_capacity ch))
            else check_messages sender_ s (idx + 1) (Some (out_recipient out_msg)) msgs
        end
  end.

Definition check_outbound_hrmp (config : HostConfiguration) (sender_ : ParaId)
    (out_hrmp_msgs : list OutboundHrmpMessage) (s : State) : result OutboundHrmpAcceptanceErr unit :=
  if decide (hrmp_max_message_num_per_candidate config < len32 out_hrmp_msgs)
  then Err (MoreMessagesThanPermitted (len32 out_hrmp_msgs) (hrmp_max_message_num_per_candidate config))
  else check_messages sender_ s 0 None out_hrmp_msgs.

(** ** Pruning and queueing *)

Definition prune_channel (new_hrmp_watermark : BlockNumber) (s : State) (c : HrmpChannelId) : State :=
  let pruned := filter (λ m, sent_at m ≤ new_hrmp_watermark) (contents c s) in
  let leftover := filter (λ m, ¬ sent_at m ≤ new_hrmp_watermark) (contents c s) in
  let pruned_cnt := Z.of_nat (length pruned) in
  let pruned_size := foldr (λ m n, Z.of_nat (length (data m)) + n) 0 pruned in
  let s :=
    match leftover with
    | [] => set_contents (delete c (HrmpChannelContents s)) (HrmpChannelDigests s) s
    | _ => set_contents (<[c := leftover]> (HrmpChannelContents s)) (HrmpChannelDigests s) s
    end in
  match HrmpChannels s !! c with
  | None => s
  | Some ch =>
      let ch := mkChannel (max_capacity ch) (max_total_size ch) (max_message_size ch)
                  (u32_sub (msg_count ch) (wrap32 pruned_cnt))
                  (u32_sub (total_size ch) (wrap32 pruned_size)) (channel_mqc_head ch)
                  (sender_deposit ch) (recipient_deposit ch) in
      set_channels (<[c := ch]> (HrmpChannels s)) (HrmpIngressChannelsIndex s)
        (HrmpEgressChannelsIndex s) s
  end.

Definition prune_hrmp (recipient_ : ParaId) (new_hrmp_watermark : BlockNumber) (s : State) : State :=
  let d := digest recipient_ s in
  let old := filter (λ e, e.1 ≤ new_hrmp_watermark) d in
  let leftover := filter (λ e, ¬ e.1 ≤ new_hrmp_watermark) d in
  let senders := foldl (λ acc p, sorted_insert p acc) [] (concat (snd <$> old)) in
  let s := set_contents (HrmpChannelContents s) (<[recipient_ := leftover]> (HrmpChannelDigests s)) s in
  let channels_to_prune := (λ p, mkChannelId p recipient_) <$> senders in
  let s := fold_left (prune_channel new_hrmp_watermark) channels_to_prune s in
  set_watermarks (<[recipient_ := new_hrmp_watermark]> (HrmpWatermarks s)) s.

(** The digest of a recipient after [sender_] has sent a message at block [now]. *)
Definition push_digest (now : BlockNumber) (sender_ : ParaId) (d : list (BlockNumber * list ParaId)) :
    list (BlockNumber * list ParaId) :=
  match last d with
  | Some (block_no, senders) =>
      if decide (block_no = now)
      then take (length d - 1) d ++ [(block_no, senders ++ [sender_])]
      else d ++ [(now, [sender_])]
  | None => d ++ [(now, [sender_])]
  end.

Definition queue_message (now : BlockNumber) (sender_ : ParaId) (s : State) (out_msg : OutboundHrmpMessage) :
    State :=
  let c := mkChannelId sender_ (out_recipient out_msg) in
  match HrmpChannels s !! c with
  | None => s
  | Some ch =>
      let inbound := mkInbound now (out_data out_msg) in
      let prev_head := default zero_hash (channel_mqc_head ch) in
      let new_head := hash_link prev_head (sent_at inbound) (hash_data (data inbound)) in
      let ch := mkChannel (max_capacity ch) (max_total_size ch) (max_message_size ch)
                  (u32_add (msg_count ch) 1) (u32_add (total_size ch) (len32 (data inbound)))
                  (Some new_head) (sender_deposit ch) (recipient_deposit ch) in
      let s := set_channels (<[c := ch]> (HrmpChannels s)) (HrmpIngressChannelsIndex s)
                 (HrmpEgressChannelsIndex s) s in
      let s := set_contents (<[c := contents c s ++ [inbound]]> (HrmpChannelContents s))
                 (HrmpChannelDigests s) s in
      set_contents (HrmpChannelContents s)
        (<[recipient c := push_digest now sender_ (digest (recipient c) s)]> (HrmpChannelDigests s)) s
  end.

Definition queue_outbound_hrmp (now : BlockNumber) (sender_ : ParaId)
    (out_hrmp_msgs : list OutboundHrmpMessage) (s : State) : State :=
  fold_left (queue_message now sender_) out_hrmp_msgs s.

Definition inbound_hrmp_channels_contents (recipient_ : ParaId) (s : State) :
    gmap ParaId (list InboundHrmpMessage) :=
  foldl (λ m p, <[p := contents (mkChannelId p recipient_) s]> m) ∅ (ingress recipient_ s).

(** ** Requests *)

Section Requests.
Context (config : HostConfiguration) (paras : Paras.Lifecycles) (now : BlockNumber).

(** Notifications that do not fit are logged and dropped. *)
Definition notify (para : ParaId) (msg : Xcm) : M World (DispatchError Error) unit :=
  modify (λ w, mkWorld (hrmp w)
                 (Dmp.queue_downward_message config para (encode_xcm msg) now (dmp w)).1 (currency w)).

Definition reserve_deposit (p : ParaId) (amount : Balance) : M World (DispatchError Error) unit :=
  λ w, match reserve p amount (currency w) with
       | Some b => (mkWorld (hrmp w) (dmp w) b, Ok tt)
       | None => (w, Err (Other "InsufficientBalance"))
       end.

Definition init_open_channel (origin recipient_ : ParaId) (proposed_max_capacity proposed_max_message_size : Z) :
    Dispatch World Error :=
  ensure (bool_decide (origin ≠ recipient_)) (Module OpenHrmpChannelToSelf) ;;
  ensure (Paras.is_valid_para recipient_ paras) (Module OpenHrmpChannelInvalidRecipient) ;;
  ensure (bool_decide (0 < proposed_max_capacity)) (Module OpenHrmpChannelZeroCapacity) ;;
  ensure (bool_decide (proposed_max_capacity ≤ hrmp_channel_max_capacity config))
    (Module OpenHrmpChannelCapacityExceedsLimit) ;;
  ensure (bool_decide (0 < proposed_max_message_size)) (Module OpenHrmpChannelZeroMessageSize) ;;
  ensure (bool_decide (proposed_max_message_size ≤ hrmp_channel_max_message_size config))
    (Module OpenHrmpChannelMessageSizeExceedsLimit) ;;
  let c := mkChannelId origin recipient_ in
  w ← get;
  let s := hrmp w in
  ensure (negb (contains_key c (HrmpOpenChannelRequests s))) (Module OpenHrmpChannelAlreadyExists) ;;
  ensure (negb (contains_key c (HrmpChannels s))) (Module OpenHrmpChannelAlreadyRequested) ;;
  let egress_cnt := len32 (egress origin s) in
  let open_req_cnt := value_query 0 origin (HrmpOpenChannelRequestCount s) in
  let channel_num_limit := if Paras.is_parathread origin paras
                           then hrmp_max_parathread_outbound_channels config
                           else hrmp_max_parachain_outbound_channels config in
  ensure (bool_decide (u32_add egress_cnt open_req_cnt < channel_num_limit))
    (Module OpenHrmpChannelLimitExceeded) ;;
  reserve_deposit origin (hrmp_sender_deposit config) ;;
  modify (on_hrmp (λ s, set_counts (<[origin := u32_add open_req_cnt 1]> (HrmpOpenChannelRequestCount s))
                          (HrmpAcceptedChannelRequestCount s) s)) ;;
  modify (on_hrmp (λ s, set_open
    (<[c := mkRequest false 0 (hrmp_sender_deposit config) proposed_max_message_size
              proposed_max_capacity (hrmp_channel_max_total_size config)]> (HrmpOpenChannelRequests s))
    (HrmpOpenChannelRequestsList s ++ [c]) s)) ;;
  notify recipient_
    [HrmpNewChannelOpenRequest origin proposed_max_message_size proposed_max_capacity].

Definition accept_open_channel (origin sender_ : ParaId) : Dispatch World Error :=
  let c := mkChannelId sender_ origin in
  w ← get;
  let s := hrmp w in
  channel_req ← lift (ok_or (HrmpOpenChannelRequests s !! c) (Module AcceptHrmpChannelDoesntExist));
  ensure (negb (confirmed channel_req)) (Module AcceptHrmpChannelAlreadyConfirmed) ;;
  let channel_num_limit := if Paras.is_parathread origin paras
                           then hrmp_max_parathread_inbound_channels config
                           else hrmp_max_parachain_inbound_channels config in
  let ingress_cnt := len32 (ingress origin s) in
  let accepted_cnt := value_query 0 origin (HrmpAcceptedChannelRequestCount s) in
  ensure (bool_decide (u32_add ingress_cnt accepted_cnt < channel_num_limit))
    (Module AcceptHrmpChannelLimitExceeded) ;;
  reserve_deposit origin (hrmp_recipient_deposit config) ;;
  let channel_req := mkRequest true (age channel_req) (req_sender_deposit channel_req)
                       (req_max_message_size channel_req) (req_max_capacity channel_req)
                       (req_max_total_size channel_req) in
  modify (on_hrmp (λ s, set_open (<[c := channel_req]> (HrmpOpenChannelRequests s))
                          (HrmpOpenChannelRequestsList s) s)) ;;
  modify (on_hrmp (λ s, set_counts (HrmpOpenChannelRequestCount s)
                          (<[origin := u32_add accepted_cnt 1]> (HrmpAcceptedChannelRequestCount s)) s)) ;;
  notify sender_ [HrmpChannelAccepted origin].

Definition cancel_open_request (origin : ParaId) (c : HrmpChannelId) : Dispatch World Error :=
  ensure (is_participant c origin) (Module CancelHrmpOpenChannelUnauthorized) ;;
  w ← get;
  req ← lift (ok_or (HrmpOpenChannelRequests (hrmp w) !! c) (Module OpenHrmpChannelDoesntExist));
  ensure (negb (confirmed req)) (Module OpenHrmpChannelAlreadyConfirmed) ;;
  modify (on_hrmp (λ s, set_open (delete c (HrmpOpenChannelRequests s)) (HrmpOpenChannelRequestsList s) s)) ;;
  modify (on_hrmp (λ s, set_open (HrmpOpenChannelRequests s)
    (match position (λ x, bool_decide (x = c)) (HrmpOpenChannelRequestsList s) with
     | Some pos => swap_remove pos (HrmpOpenChannelRequestsList s)
     | None => HrmpOpenChannelRequestsList s
     end) s)) ;;
  modify (on_hrmp (decrease_open_channel_request_count (sender c))) ;;
  modify (unreserve_deposit (sender c) (req_sender_deposit req)).

Definition close_channel (origin : ParaId) (c : HrmpChannelId) : Dispatch World Error :=
  ensure (is_participant c origin) (Module CloseHrmpChannelUnauthorized) ;;
  w ← get;
  ensure (contains_key c (HrmpChannels (hrmp w))) (Module CloseHrmpChannelDoesntExist) ;;
  ensure (negb (contains_key c (HrmpCloseChannelRequests (hrmp w))))
    (Module CloseHrmpChannelAlreadyUnderway) ;;
  modify (on_hrmp (λ s, set_close (<[c := tt]> (HrmpCloseChannelRequests s))
                          (HrmpCloseChannelRequestsList s ++ [c]) s)) ;;
  let opposite_party := if decide (origin = sender c) then recipient c else sender c in
  notify opposite_party [HrmpChannelClosing origin (sender c) (recipient c)].

(** ** Dispatchables *)

Inductive Call :=
| hrmp_init_open_channel (recipient_ : ParaId) (proposed_max_capacity proposed_max_message_size : Z)
| hrmp_accept_open_channel (sender_ : ParaId)
| hrmp_close_channel (channel_id : HrmpChannelId)
| force_clean_hrmp (para : ParaId) (inbound outbound : Z)
| force_process_hrmp_open (channels : Z)
| force_process_hrmp_close (channels : Z)
| hrmp_cancel_open_request (channel_id : HrmpChannelId) (open_requests : Z).

Definition deposit_event (e : Event) : Dispatch World Error := modify (on_hrmp (add_event e)).

(** A panic is a failure that changes nothing. *)
Definition or_panic (f : World → option World) : Dispatch World Error :=
  λ w, match f w with Some w' => (w', Ok tt) | None => (w, Err (Other "panic")) end.

Definition process_open (w : World) : option World :=
  s ← process_hrmp_open_channel_requests config paras (hrmp w);
  Some (mkWorld s (dmp w) (currency w)).

Definition dispatch (origin : Origin) (call : Call) : Dispatch World Error :=
  match call with
  | hrmp_init_open_channel recipient_ cap size =>
      o ← or_bad_origin (ensure_parachain origin);
      init_open_channel o recipient_ cap size ;;
      deposit_event (OpenChannelRequested o recipient_ cap size)
  | hrmp_accept_open_channel sender_ =>
      o ← or_bad_origin (ensure_parachain origin);
      accept_open_channel o sender_ ;;
      deposit_event (OpenChannelAccepted sender_ o)
  | hrmp_close_channel c =>
      o ← or_bad_origin (ensure_parachain origin);
      close_channel o c ;;
      deposit_event (ChannelClosed o c)
  | force_clean_hrmp para _ _ =>
      _ ← or_bad_origin (ensure_root origin);
      modify (clean_hrmp_after_outgoing para)
  | force_process_hrmp_open _ =>
      _ ← or_bad_origin (ensure_root origin);
      or_panic process_open
  | force_process_hrmp_close _ =>
      _ ← or_bad_origin (ensure_root origin);
      modify process_hrmp_close_channel_requests
  | hrmp_cancel_open_request c open_requests =>
      o ← or_bad_origin (ensure_parachain origin);
      w ← get;
      ensure (bool_decide (len32 (HrmpOpenChannelRequestsList (hrmp w)) ≤ open_requests))
        (Module WrongWitness) ;;
      cancel_open_request o c ;;
      deposit_event (OpenChannelCanceled o c)
  end.

(** ** Genesis *)

Definition preopen_hrmp_channel (sender_ recipient_ : ParaId) (cap size : Z) : Dispatch World Error :=
  init_open_channel sender_ recipient_ cap size ;;
  accept_open_channel recipient_ sender_.

(** [None] when a channel cannot be opened, which panics. *)
Fixpoint preopen_all (l : list (ParaId * ParaId * Z * Z)) (w : World) : option World :=
  match l with
  | [] => Some w
  | (s, r, cap, size) :: l =>
      match preopen_hrmp_channel s r cap size w with
      | (w, Ok _) => preopen_all l w
      | (_, Err _) => None
      end
  end.

Definition initialize_storage (preopen_hrmp_channels : list (ParaId * ParaId * Z * Z)) (w : World) :
    option World :=
  w ← preopen_all preopen_hrmp_channels w;
  process_open w.
End Requests.

(** ** Channels *)

Definition bytes (l : list InboundHrmpMessage) : Z :=
  foldr (λ m n, Z.of_nat (length (data m)) + n) 0 l.

Lemma bytes_app l k : bytes (l ++ k) = bytes l + bytes k.
Proof. unfold bytes. induction l as [|m l IH]; cbn; lia. Qed.

Lemma bytes_nonneg l : 0 ≤ bytes l.
Proof. unfold bytes. induction l as [|m l IH]; cbn; lia. Qed.
#[local] Arguments bytes : simpl never.

(** The indexes list exactly the channels, and the counters of a channel are
    those of its contents, modulo their width. *)
Record channels_ok (s : State) : Prop := {
  ch_ingress_sorted p : sorted (ingress p s);
  ch_egress_sorted p : sorted (egress p s);
  ch_ingress c : sender c ∈ ingress (recipient c) s ↔ is_Some (HrmpChannels s !! c);
  ch_egress c : recipient c ∈ egress (sender c) s ↔ is_Some (HrmpChannels s !! c);
  ch_contents c : HrmpChannels s !! c = None → HrmpChannelContents s !! c = None;
  ch_nonempty c : HrmpChannelContents s !! c ≠ Some [];
  ch_counts c ch : HrmpChannels s !! c = Some ch →
    msg_count ch = wrap32 (Z.of_nat (length (contents c s))) ∧
    total_size ch = wrap32 (bytes (contents c s));
  ch_requests c : is_Some (HrmpOpenChannelRequests s !! c) → HrmpChannels s !! c = None;
}.

Lemma contents_none c s : HrmpChannelContents s !! c = None → contents c s = [].
Proof. unfold contents, value_query. by intros ->. Qed.

(** The parts of the state the invariant reads. *)
Lemma channels_ok_ext s s' :
  HrmpChannels s' = HrmpChannels s → HrmpIngressChannelsIndex s' = HrmpIngressChannelsIndex s →
  HrmpEgressChannelsIndex s' = HrmpEgressChannelsIndex s →
  HrmpChannelContents s' = HrmpChannelContents s →
  (∀ c, is_Some (HrmpOpenChannelRequests s' !! c) → HrmpChannels s !! c = None) →
  channels_ok s → channels_ok s'.
Proof.
  intros Hc Hi He Hcon Hr [H1 H2 H3 H4 H5 H6 H7 H8].
  unfold ingress, egress, contents in *.
  split; unfold ingress, egress, contents; rewrite ?Hc, ?Hi, ?He, ?Hcon; done.
Qed.

(** Closing the channels of a list. *)
Definition close_all (l : list HrmpChannelId) (w : World) : World :=
  fold_left (λ w c, close_hrmp_channel c w) l w.

Lemma close_spec c w :
  let s := hrmp w in
  let s' := hrmp (close_hrmp_channel c w) in
  HrmpChannels s' = delete c (HrmpChannels s) ∧
  HrmpChannelContents s' = delete c (HrmpChannelContents s) ∧
  (∀ p, ingress p s' = if decide (p = recipient c) then sorted_remove (sender c) (ingress p s)
                       else ingress p s) ∧
  (∀ p, egress p s' = if decide (p = sender c) then sorted_remove (recipient c) (egress p s)
                      else egress p s) ∧
  HrmpOpenChannelRequests s' = HrmpOpenChannelRequests s ∧
  HrmpOpenChannelRequestsList s' = HrmpOpenChannelRequestsList s ∧
  HrmpOpenChannelRequestCount s' = HrmpOpenChannelRequestCount s ∧
  HrmpAcceptedChannelRequestCount s' = HrmpAcceptedChannelRequestCount s ∧
  HrmpChannelDigests s' = HrmpChannelDigests s ∧ HrmpWatermarks s' = HrmpWatermarks s ∧
  HrmpCloseChannelRequests s' = HrmpCloseChannelRequests s ∧
  HrmpCloseChannelRequestsList s' = HrmpCloseChannelRequestsList s.
Proof.
  cbn zeta. unfold close_hrmp_channel. destruct (HrmpChannels (hrmp w) !! c) as [ch|] eqn:E; cbn.
  - split_and!; try done; intros p; unfold ingress, egress; cbn; rewrite value_query_insert;
      repeat case_decide; congruence || done.
  - split_and!; try done; [by rewrite delete_id|..]; intros p; unfold ingress, egress; cbn;
      rewrite value_query_insert; repeat case_decide; congruence || done.
Qed.

Lemma decide_cons {A} (c d : HrmpChannelId) l (x : option A) :
  (if decide (d ∈ l) then None else if decide (c = d) then None else x) =
  if decide (d ∈ c :: l) then None else x.
Proof. destruct (decide (d ∈ l)), (decide (d ∈ c :: l)), (decide (c = d)); set_solver. Qed.

Lemma close_all_spec l w :
  (∀ p, sorted (ingress p (hrmp w))) → (∀ p, sorted (egress p (hrmp w))) →
  let s := hrmp w in
  let s' := hrmp (close_all l w) in
  (∀ c, HrmpChannels s' !! c = if decide (c ∈ l) then None else HrmpChannels s !! c) ∧
  (∀ c, HrmpChannelContents s' !! c = if decide (c ∈ l) then None else HrmpChannelContents s !! c) ∧
  (∀ p, sorted (ingress p s')) ∧ (∀ p, sorted (egress p s')) ∧
  (∀ p x, x ∈ ingress p s' ↔ x ∈ ingress p s ∧ mkChannelId x p ∉ l) ∧
  (∀ p x, x ∈ egress p s' ↔ x ∈ egress p s ∧ mkChannelId p x ∉ l) ∧
  HrmpOpenChannelRequests s' = HrmpOpenChannelRequests s ∧
  HrmpOpenChannelRequestsList s' = HrmpOpenChannelRequestsList s ∧
  HrmpOpenChannelRequestCount s' = HrmpOpenChannelRequestCount s ∧
  HrmpAcceptedChannelRequestCount s' = HrmpAcceptedChannelRequestCount s ∧
  HrmpChannelDigests s' = HrmpChannelDigests s.
Proof.
  revert w. induction l as [|c l IH]; intros w Hi He; cbn zeta.
  { cbn. split_and!; try done; intros; rewrite ?decide_False by (apply not_elem_of_nil); try done;
      (split; [split; [done|apply not_elem_of_nil]|by intros [? _]]). }
  destruct (close_spec c w) as (Hc1 & Hc2 & Hc3 & Hc4 & Hc5 & Hc5' & Hc6 & Hc7 & Hc8 & _).
  destruct (IH (close_hrmp_channel c w)) as (I1 & I2 & I3 & I4 & I5 & I6 & I7 & I7' & I8 & I9 & I10).
  { intros p. rewrite Hc3. case_decide; [by apply sorted_remove_sorted|done]. }
  { intros p. rewrite Hc4. case_decide; [by apply sorted_remove_sorted|done]. }
  change (close_all (c :: l) w) with (close_all l (close_hrmp_channel c w)).
  split_and!; try (rewrite ?I7, ?I7', ?I8, ?I9, ?I10; done).
  - intros d. by rewrite I1, Hc1, lookup_delete, decide_cons.
  - intros d. by rewrite I2, Hc2, lookup_delete, decide_cons.
  - intros p x. rewrite I5, Hc3, not_elem_of_cons. case_decide as Hp.
    + subst p. rewrite elem_of_sorted_remove by done. destruct c; cbn. clear. naive_solver.
    + clear -Hp. split; [|naive_solver]. intros [? ?]. split; [done|]. split; [|done]. by intros <-.
  - intros p x. rewrite I6, Hc4, not_elem_of_cons. case_decide as Hp.
    + subst p. rewrite elem_of_sorted_remove by done. destruct c; cbn. clear. naive_solver.
    + clear -Hp. split; [|naive_solver]. intros [? ?]. split; [done|]. split; [|done]. by intros <-.
Qed.

Lemma channels_ok_close_all l w : channels_ok (hrmp w) → channels_ok (hrmp (close_all l w)).
Proof.
  intros [H1 H2 H3 H4 H5 H6 H7 H8].
  destruct (close_all_spec l w H1 H2) as (I1 & I2 & I3 & I4 & I5 & I6 & I7 & _).
  split; [done|done|..].
  - intros c. rewrite I5, I1, H3. destruct c as [a b]; cbn. case_decide.
    + split; [naive_solver|by intros [? ?]].
    + naive_solver.
  - intros c. rewrite I6, I1, H4. destruct c as [a b]; cbn. case_decide.
    + split; [naive_solver|by intros [? ?]].
    + naive_solver.
  - intros c. rewrite I1, I2. case_decide; [done|apply H5].
  - intros c. rewrite I2. case_decide; [done|apply H6].
  - intros c ch. unfold contents, value_query. rewrite I1, I2. case_decide; [done|apply H7].
  - intros c. rewrite I7, I1. case_decide; [done|apply H8].
Qed.

Lemma channels_ok_requests s s' :
  HrmpChannels s' = HrmpChannels s → HrmpIngressChannelsIndex s' = HrmpIngressChannelsIndex s →
  HrmpEgressChannelsIndex s' = HrmpEgressChannelsIndex s →
  HrmpChannelContents s' = HrmpChannelContents s →
  (∀ c, is_Some (HrmpOpenChannelRequests s' !! c) → is_Some (HrmpOpenChannelRequests s !! c)) →
  channels_ok s → channels_ok s'.
Proof.
  intros Hc Hi He Hcon Hr Hs. eapply channels_ok_ext; [done..| |done].
  intros c Hreq. by apply (ch_requests s Hs), Hr.
Qed.

Lemma channels_ok_process_close w :
  channels_ok (hrmp w) → channels_ok (hrmp (process_hrmp_close_channel_requests w)).
Proof.
  unfold process_hrmp_close_channel_requests. intros Hw.
  set (w0 := on_hrmp _ w). assert (channels_ok (hrmp w0)) as Hw0
    by (eapply channels_ok_requests; [| | | | |exact Hw]; done).
  clearbody w0. clear Hw. revert w0 Hw0. generalize (HrmpCloseChannelRequestsList (hrmp w)).
  intros l. induction l as [|c l IH]; intros w0 Hw0; [done|]. cbn. apply IH.
  apply (channels_ok_close_all [c]). eapply channels_ok_requests; [| | | | |exact Hw0]; done.
Qed.

Lemma channels_ok_open config c request s :
  HrmpOpenChannelRequests s !! c = Some request → channels_ok s →
  ∀ s', HrmpChannels s' = HrmpChannels (open_channel config c request s) →
    HrmpIngressChannelsIndex s' = HrmpIngressChannelsIndex (open_channel config c request s) →
    HrmpEgressChannelsIndex s' = HrmpEgressChannelsIndex (open_channel config c request s) →
    HrmpChannelContents s' = HrmpChannelContents s →
    HrmpOpenChannelRequests s' = delete c (HrmpOpenChannelRequests s) → channels_ok s'.
Proof.
  intros Hreq [H1 H2 H3 H4 H5 H6 H7 H8] s' Ec Ei Ee Econ Er.
  assert (HrmpChannels s !! c = None) as Hnone by (apply H8; by eexists).
  assert (∀ p, ingress p s' = if decide (recipient c = p) then sorted_insert (sender c) (ingress p s)
                              else ingress p s) as Hin.
  { intros p. unfold ingress. rewrite Ei. cbn. rewrite value_query_insert.
    case_decide; [by subst|done]. }
  assert (∀ p, egress p s' = if decide (sender c = p) then sorted_insert (recipient c) (egress p s)
                             else egress p s) as Heg.
  { intros p. unfold egress. rewrite Ee. cbn. rewrite value_query_insert.
    case_decide; [by subst|done]. }
  assert (∀ d, HrmpChannels s' !! d = if decide (c = d) then Some (mkChannel (req_max_capacity request)
    (req_max_total_size request) (req_max_message_size request) 0 0 None (req_sender_deposit request)
    (hrmp_recipient_deposit config)) else HrmpChannels s !! d) as Hch.
  { intros d. rewrite Ec. cbn. by rewrite lookup_insert. }
  assert (∀ d, contents d s' = contents d s) as Hcon by (intros d; unfold contents; by rewrite Econ).
  split.
  - intros p. rewrite Hin. case_decide; [by apply sorted_insert_sorted|done].
  - intros p. rewrite Heg. case_decide; [by apply sorted_insert_sorted|done].
  - intros d. rewrite Hin, Hch. destruct c as [cs cr], d as [ds dr]; cbn in *.
    case_decide as Hr; [rewrite elem_of_sorted_insert by done|].
    + case_decide; [naive_solver|]. rewrite (H3 (mkChannelId ds dr)). naive_solver.
    + rewrite decide_False by congruence. apply (H3 (mkChannelId ds dr)).
  - intros d. rewrite Heg, Hch. destruct c as [cs cr], d as [ds dr]; cbn in *.
    case_decide as Hr; [rewrite elem_of_sorted_insert by done|].
    + case_decide; [naive_solver|]. rewrite (H4 (mkChannelId ds dr)). naive_solver.
    + rewrite decide_False by congruence. apply (H4 (mkChannelId ds dr)).
  - intros d. rewrite Hch, Econ. case_decide; [done|apply H5].
  - intros d. rewrite Econ. apply H6.
  - intros d ch. rewrite Hch, Hcon. case_decide; [|apply H7]. subst d. intros [= <-]. cbn.
    by rewrite (contents_none c s) by (by apply H5).
  - intros d. rewrite Er, Hch, lookup_delete. case_decide; [by intros [? ?]|apply H8].
Qed.

Lemma channels_ok_open_loop config paras idx l s l' s' :
  channels_ok s → open_loop config paras idx l s = Some (l', s') → channels_ok s'.
Proof.
  revert l s. induction idx as [|idx IH]; intros l s Hs Hrun; cbn in Hrun; [by simplify_eq|].
  destruct (l !! idx) as [c|]; cbn in Hrun; [|done].
  destruct (HrmpOpenChannelRequests s !! c) as [request|] eqn:Hreq; cbn in Hrun; [|done].
  destruct (confirmed request); [|by eapply IH]. eapply IH; [|exact Hrun]. clear IH Hrun.
  destruct (Paras.is_valid_para _ _ && _).
  - by eapply (channels_ok_open config c request s Hreq Hs).
  - eapply channels_ok_requests; [| | | | |exact Hs]; try done. cbn.
    intros d. rewrite lookup_delete. case_decide; [by intros [? ?]|done].
Qed.

Lemma channels_ok_process_open config paras s s' :
  channels_ok s → process_hrmp_open_channel_requests config paras s = Some s' → channels_ok s'.
Proof.
  unfold process_hrmp_open_channel_requests. intros Hs.
  destruct (HrmpOpenChannelRequestsList s) as [|c0 l0] eqn:E; [by intros [= <-]|].
  destruct (open_loop _ _ _ _ _) as [[l s1]|] eqn:Hrun; cbn; [|done]. intros [= <-].
  apply channels_ok_open_loop in Hrun; [|done].
  eapply channels_ok_requests; [| | | | |exact Hrun]; done.
Qed.

Lemma channels_ok_clean_requests config outgoing w :
  channels_ok (hrmp w) → channels_ok (hrmp (clean_open_channel_requests config outgoing w)).
Proof.
  intros Hw. unfold clean_open_channel_requests. set (w0 := on_hrmp _ w).
  assert (channels_ok (hrmp w0)) as Hw0 by (eapply channels_ok_requests; [| | | | |exact Hw]; done).
  clearbody w0. generalize (filter (λ c, existsb (is_participant c) outgoing)
    (HrmpOpenChannelRequestsList (hrmp w))). intros l. clear Hw. revert w0 Hw0.
  induction l as [|c l IH]; intros w0 Hw0; [done|]. cbn. apply IH. unfold clean_request.
  destruct (HrmpOpenChannelRequests (hrmp w0) !! c) as [req|]; [|done].
  eapply channels_ok_requests; [| | | | |exact Hw0];
    try (destruct (confirmed req); repeat case_decide; done).
  intros d Hd.
  assert (is_Some (delete c (HrmpOpenChannelRequests (hrmp w0)) !! d)) as Hd'
    by (revert Hd; destruct (confirmed req); repeat case_decide; done).
  rewrite lookup_delete in Hd'. by case_decide; [destruct Hd'|].
Qed.

Lemma elem_of_dedup {A} `{EqDecision A} (l : list A) x : x ∈ dedup l ↔ x ∈ l.
Proof.
  induction l as [|a l IH]; [done|]. destruct l as [|b l]; [done|].
  change (dedup (a :: b :: l)) with (if decide (a = b) then dedup (b :: l) else a :: dedup (b :: l)).
  case_decide; [subst; rewrite IH; set_solver|]. rewrite !elem_of_cons, IH. set_solver.
Qed.

Lemma channels_ok_outgoing p w :
  channels_ok (hrmp w) → channels_ok (hrmp (clean_hrmp_after_outgoing p w)).
Proof.
  intros [H1 H2 H3 H4 H5 H6 H7 H8]. unfold clean_hrmp_after_outgoing.
  set (w0 := on_hrmp (λ s, set_channels _ _ _ s) _). set (l := dedup _).
  assert (∀ c, c ∈ l ↔ (recipient c = p ∧ sender c ∈ ingress p (hrmp w)) ∨
                       (sender c = p ∧ recipient c ∈ egress p (hrmp w))) as Hl.
  { intros c. unfold l. rewrite elem_of_dedup, merge_sort_Permutation, elem_of_app, !list_elem_of_fmap.
    destruct c as [a b]; cbn. split; [intros [(x & [= -> ->] & Hx)|(x & [= -> ->] & Hx)]; auto|].
    intros [[-> Hx]|[-> Hx]]; [left|right]; eauto. }
  assert (∀ q, ingress q (hrmp w0) = if decide (p = q) then [] else ingress q (hrmp w)) as Hin.
  { intros q. unfold ingress. cbn. rewrite value_query_delete. done. }
  assert (∀ q, egress q (hrmp w0) = if decide (p = q) then [] else egress q (hrmp w)) as Heg.
  { intros q. unfold egress. cbn. rewrite value_query_delete. done. }
  assert (∀ c, c ∈ l → is_Some (HrmpChannels (hrmp w) !! c)) as Hex.
  { intros c [[<- Hc]|[<- Hc]]%Hl; [by apply H3|by apply H4]. }
  destruct (close_all_spec l w0) as (I1 & I2 & I3 & I4 & I5 & I6 & I7 & _).
  { intros q. rewrite Hin. case_decide; [constructor|done]. }
  { intros q. rewrite Heg. case_decide; [constructor|done]. }
  change (fold_left _ l w0) with (close_all l w0). split; [done|done|..].
  - intros c. rewrite I5, I1, Hin. destruct c as [a b]. cbn. case_decide as Hb.
    + subst b. split; [by intros [?%elem_of_nil _]|]. case_decide as Hc; [by intros [? ?]|].
      intros Hs. destruct Hc. apply Hl. left. split; [done|]. by apply (H3 (mkChannelId a p)).
    + rewrite (H3 (mkChannelId a b)). case_decide; [split; [naive_solver|by intros [? ?]]|naive_solver].
  - intros c. rewrite I6, I1, Heg. destruct c as [a b]. cbn. case_decide as Ha.
    + subst a. split; [by intros [?%elem_of_nil _]|]. case_decide as Hc; [by intros [? ?]|].
      intros Hs. destruct Hc. apply Hl. right. split; [done|]. by apply (H4 (mkChannelId p b)).
    + rewrite (H4 (mkChannelId a b)). case_decide; [split; [naive_solver|by intros [? ?]]|naive_solver].
  - intros c. rewrite I1, I2. case_decide; [done|apply H5].
  - intros c. rewrite I2. case_decide; [done|apply H6].
  - intros c ch. unfold contents, value_query. rewrite I1, I2. case_decide; [done|apply H7].
  - intros c. rewrite I7, I1. case_decide; [done|apply H8].
Qed.

(** ** Messages *)

Lemma u32_sub_wrap a b : u32_sub (wrap32 a) (wrap32 b) = wrap32 (a - b).
Proof. unfold u32_sub, wrap32. by rewrite Zminus_mod_idemp_l, Zminus_mod_idemp_r. Qed.

Lemma u32_add_wraps a b : u32_add (wrap32 a) (wrap32 b) = wrap32 (a + b).
Proof. unfold u32_add, wrap32. by rewrite Zplus_mod_idemp_l, Zplus_mod_idemp_r. Qed.

(** The messages up to [wm], and those after it. *)
Abbreviation before wm l := (filter (λ m, sent_at m ≤ wm) l).
Abbreviation after wm l := (filter (λ m, ¬ sent_at m ≤ wm) l).

Lemma split_counts wm l :
  (length (before wm l) + length (after wm l) = length l)%nat ∧
  bytes (before wm l) + bytes (after wm l) = bytes l.
Proof.
  induction l as [|m l [IH1 IH2]]; [done|]. rewrite !filter_cons.
  change (bytes (m :: l)) with (Z.of_nat (length (data m)) + bytes l).
  destruct (decide (sent_at m ≤ wm)) as [Hm|Hm].
  - rewrite (decide_False (P := ¬ _)) by tauto. cbn [length].
    change (bytes (m :: before wm l)) with (Z.of_nat (length (data m)) + bytes (before wm l)). lia.
  - rewrite (decide_True (P := ¬ _)) by done. cbn [length].
    change (bytes (m :: after wm l)) with (Z.of_nat (length (data m)) + bytes (after wm l)). lia.
Qed.

(** What pruning a channel changes. *)
Lemma prune_channel_spec wm s c :
  let s' := prune_channel wm s c in
  (∀ d, contents d s' = if decide (c = d) then after wm (contents d s) else contents d s) ∧
  (∀ d, HrmpChannelContents s' !! d =
     if decide (c = d) then match after wm (contents d s) with [] => None | l => Some l end
     else HrmpChannelContents s !! d) ∧
  (∀ d, HrmpChannels s' !! d = if decide (c = d) then
     (λ ch, mkChannel (max_capacity ch) (max_total_size ch) (max_message_size ch)
        (u32_sub (msg_count ch) (wrap32 (Z.of_nat (length (before wm (contents d s))))))
        (u32_sub (total_size ch) (wrap32 (bytes (before wm (contents d s))))) (channel_mqc_head ch)
        (sender_deposit ch) (recipient_deposit ch)) <$> HrmpChannels s !! d
     else HrmpChannels s !! d) ∧
  HrmpIngressChannelsIndex s' = HrmpIngressChannelsIndex s ∧
  HrmpEgressChannelsIndex s' = HrmpEgressChannelsIndex s ∧
  HrmpOpenChannelRequests s' = HrmpOpenChannelRequests s ∧
  HrmpChannelDigests s' = HrmpChannelDigests s ∧
  HrmpWatermarks s' = HrmpWatermarks s.
Proof.
  cbn zeta. unfold prune_channel. fold (bytes (before wm (contents c s))).
  set (s1 := match after wm (contents c s) with [] => _ | _ => _ end).
  assert (HrmpChannels s1 = HrmpChannels s ∧ HrmpIngressChannelsIndex s1 = HrmpIngressChannelsIndex s ∧
    HrmpEgressChannelsIndex s1 = HrmpEgressChannelsIndex s ∧
    HrmpOpenChannelRequests s1 = HrmpOpenChannelRequests s ∧
    HrmpChannelDigests s1 = HrmpChannelDigests s ∧ HrmpWatermarks s1 = HrmpWatermarks s) as
    (E1 & E2 & E3 & E4 & E5 & E6) by (unfold s1; by destruct (after wm (contents c s))).
  assert (∀ d, HrmpChannelContents s1 !! d =
     if decide (c = d) then match after wm (contents d s) with [] => None | l => Some l end
     else HrmpChannelContents s !! d) as Hcon.
  { intros d. unfold s1. destruct (after wm (contents c s)) as [|m l] eqn:E; cbn;
      [rewrite lookup_delete|rewrite lookup_insert]; case_decide; try done; subst; by rewrite E. }
  clearbody s1. set (s2 := match HrmpChannels s1 !! c with Some _ => _ | None => _ end).
  assert (HrmpChannelContents s2 = HrmpChannelContents s1) as Ec by (unfold s2; by case_match).
  split_and!; try (unfold s2; case_match; cbn; congruence).
  - intros d. unfold contents at 1, value_query. rewrite Ec, Hcon. case_decide; [|done].
    by destruct (after wm (contents d s)).
  - intros d. rewrite Ec. apply Hcon.
  - intros d. unfold s2. rewrite E1. destruct (HrmpChannels s !! c) as [ch|] eqn:E.
    + cbn. rewrite lookup_insert. case_decide; [|done]. subst. by rewrite E.
    + rewrite E1. case_decide; [|done]. subst. by rewrite E.
Qed.

Lemma channels_ok_prune_channel wm s c : channels_ok s → channels_ok (prune_channel wm s c).
Proof.
  intros [H1 H2 H3 H4 H5 H6 H7 H8].
  destruct (prune_channel_spec wm s c) as (P1 & P2 & P3 & P4 & P5 & P6 & _).
  assert (∀ d, is_Some (HrmpChannels (prune_channel wm s c) !! d) ↔ is_Some (HrmpChannels s !! d)) as Hsome.
  { intros d. rewrite P3. case_decide; [apply fmap_is_Some|done]. }
  assert (∀ d, HrmpChannels (prune_channel wm s c) !! d = None ↔ HrmpChannels s !! d = None) as Hnone.
  { intros d. rewrite !eq_None_not_Some, Hsome. done. }
  unfold ingress, egress in *.
  split; unfold ingress, egress; rewrite ?P4, ?P5; try done.
  - intros d. rewrite Hsome. apply H3.
  - intros d. rewrite Hsome. apply H4.
  - intros d. rewrite Hnone, P2. intros Hd. case_decide; [|by apply H5].
    by rewrite (contents_none d s) by (by apply H5).
  - intros d. rewrite P2. case_decide; [by destruct (after wm (contents d s))|apply H6].
  - intros d ch. rewrite P1, P3. case_decide; [|apply H7].
    destruct (HrmpChannels s !! d) as [ch0|] eqn:E; [|done]. cbn. intros [= <-]. cbn.
    destruct (H7 d ch0 E) as [-> ->]. destruct (split_counts wm (contents d s)) as [Hl Hb].
    rewrite !u32_sub_wrap. split; f_equal; lia.
  - intros d. rewrite P6, Hnone. apply H8.
Qed.

Lemma channels_ok_prune r wm s : channels_ok s → channels_ok (prune_hrmp r wm s).
Proof.
  intros Hs. unfold prune_hrmp. set (l := fmap _ _). set (s0 := set_contents _ _ s).
  assert (channels_ok s0) as Hs0 by (eapply channels_ok_requests; [| | | | |exact Hs]; done).
  assert (channels_ok (fold_left (prune_channel wm) l s0)) as Hf.
  { clearbody s0 l. clear Hs. revert s0 Hs0. induction l as [|c l IH]; intros s0 Hs0; [done|].
    cbn. apply IH. by apply channels_ok_prune_channel. }
  eapply channels_ok_requests; [| | | | |exact Hf]; done.
Qed.

Lemma channels_ok_queue_message now p s m : channels_ok s → channels_ok (queue_message now p s m).
Proof.
  intros [H1 H2 H3 H4 H5 H6 H7 H8]. unfold queue_message. set (c := mkChannelId p (out_recipient m)).
  destruct (HrmpChannels s !! c) as [ch|] eqn:E; [|by split]. set (s' := set_contents _ _ _).
  assert (∀ d, is_Some (HrmpChannels s' !! d) ↔ is_Some (HrmpChannels s !! d)) as Hsome.
  { intros d. cbn. rewrite lookup_insert. case_decide; [subst d; by rewrite E|done]. }
  assert (∀ d, HrmpChannels s' !! d = None ↔ HrmpChannels s !! d = None) as Hnone.
  { intros d. by rewrite !eq_None_not_Some, Hsome. }
  assert (∀ d, contents d s' = if decide (c = d) then contents d s ++ [mkInbound now (out_data m)]
                               else contents d s) as Hcon.
  { intros d. unfold contents. cbn. rewrite value_query_insert. case_decide; [by subst d|done]. }
  split; try done.
  - intros d. rewrite Hsome. apply H3.
  - intros d. rewrite Hsome. apply H4.
  - intros d. rewrite Hnone. intros Hd. cbn. rewrite lookup_insert_ne; [by apply H5|].
    intros <-. congruence.
  - intros d. cbn. rewrite lookup_insert. case_decide; [|apply H6].
    intros [= Hx]. by apply app_nil in Hx as [_ ?].
  - intros d ch'. rewrite Hcon. cbn. rewrite lookup_insert. case_decide; [|apply H7].
    intros [= <-]. subst d. cbn. destruct (H7 c ch E) as [-> ->].
    rewrite length_app, bytes_app. unfold len32. rewrite u32_add_wraps. cbn.
    change (bytes [mkInbound now (out_data m)]) with (Z.of_nat (length (out_data m)) + 0).
    split; [|f_equal; lia]. change 1 with (wrap32 1) at 1. rewrite u32_add_wraps. f_equal. lia.
  - intros d. rewrite Hnone. apply H8.
Qed.

Lemma channels_ok_queue now p msgs s : channels_ok s → channels_ok (queue_outbound_hrmp now p msgs s).
Proof.
  unfold queue_outbound_hrmp. revert s. induction msgs as [|m msgs IH]; intros s Hs; [done|].
  cbn. apply IH. by apply channels_ok_queue_message.
Qed.

(** ** The pallet over time *)

(** Calls of any origin under any configuration, session changes, and what the
    inclusion of a candidate does: messages up to a watermark pruned, and the
    candidate's messages queued. *)
Inductive step : World → World → Prop :=
| step_call config paras now p origin call w :
    step w (run p (dispatch config paras now origin call) w).1
| step_session config paras outgoing w w' :
    initializer_on_new_session config paras outgoing w = Some w' → step w w'
| step_prune r wm w : step w (on_hrmp (prune_hrmp r wm) w)
| step_queue now p msgs w : step w (on_hrmp (queue_outbound_hrmp now p msgs) w).

Lemma channels_ok_init config paras now o r cap size w :
  channels_ok (hrmp w) → channels_ok (hrmp (init_open_channel config paras now o r cap size w).1).
Proof.
  intros Hw. unfold init_open_channel, reserve_deposit, notify. unfold_dispatch.
  repeat (case_match; cbn in *; simplify_eq); try done; case_storage;
    (apply (channels_ok_ext (hrmp w)); [done..| |done]); cbn; intros d;
    rewrite lookup_insert; (case_decide; [by subst|]); apply (ch_requests _ Hw).
Qed.

Lemma channels_ok_accept config paras now o p w :
  channels_ok (hrmp w) → channels_ok (hrmp (accept_open_channel config paras now o p w).1).
Proof.
  intros Hw. unfold accept_open_channel, reserve_deposit, notify. unfold_dispatch.
  destruct (HrmpOpenChannelRequests (hrmp w) !! mkChannelId p o) as [req|] eqn:Er; cbn; [|done].
  repeat (case_match; cbn in *; simplify_eq); try done;
    (apply (channels_ok_ext (hrmp w)); [done..| |done]); cbn; intros d;
    rewrite lookup_insert; (destruct (decide (mkChannelId p o = d)); [subst d; intros _; apply (ch_requests _ Hw); by eexists|apply (ch_requests _ Hw)]).
Qed.

Lemma channels_ok_cancel o c w :
  channels_ok (hrmp w) → channels_ok (hrmp (cancel_open_request o c w).1).
Proof.
  intros Hw. unfold cancel_open_request. unfold_dispatch.
  repeat (case_match; cbn in *; simplify_eq); try done;
    (eapply channels_ok_requests; [| | | | |exact Hw]; try done); cbn; intros d;
    rewrite lookup_delete; case_decide; done || by intros [? ?].
Qed.

Lemma channels_ok_close_channel config now o c w :
  channels_ok (hrmp w) → channels_ok (hrmp (close_channel config now o c w).1).
Proof.
  intros Hw. unfold close_channel, notify. unfold_dispatch.
  repeat (case_match; cbn in *; simplify_eq); try done;
    (eapply channels_ok_requests; [| | | | |exact Hw]; done).
Qed.

Lemma channels_ok_event e (m : Dispatch World Error) w :
  channels_ok (hrmp (m w).1) → channels_ok (hrmp ((m ;; deposit_event e) w).1).
Proof.
  unfold deposit_event. unfold_dispatch. destruct (m w) as [w' [[]|err]]; cbn; [|done].
  intros Hw. eapply channels_ok_requests; [| | | | |exact Hw]; done.
Qed.

Lemma channels_ok_dispatch config paras now origin call w :
  channels_ok (hrmp w) → channels_ok (hrmp (dispatch config paras now origin call w).1).
Proof.
  intros Hw. destruct call; cbn; unfold or_bad_origin, lift, ok_or, mbind at 1, M_bind at 1;
    destruct origin; cbn; try done.
  - by apply channels_ok_event, channels_ok_init.
  - by apply channels_ok_event, channels_ok_accept.
  - by apply channels_ok_event, channels_ok_close_channel.
  - by apply channels_ok_outgoing.
  - unfold or_panic, process_open. destruct (process_hrmp_open_channel_requests _ _ _) eqn:E; cbn; [|done].
    by eapply channels_ok_process_open.
  - by apply channels_ok_process_close.
  - unfold mbind, M_bind, get, ensure. cbn. case_match; cbn; [|done].
    by apply channels_ok_event, channels_ok_cancel.
Qed.

Lemma channels_ok_session config paras outgoing w w' :
  channels_ok (hrmp w) → initializer_on_new_session config paras outgoing w = Some w' →
  channels_ok (hrmp w').
Proof.
  intros Hw. unfold initializer_on_new_session.
  destruct (process_hrmp_open_channel_requests _ _ _) as [s|] eqn:E; cbn; [|done]. intros [= <-].
  apply channels_ok_process_close. cbn. eapply channels_ok_process_open; [|exact E].
  unfold perform_outgoing_para_cleanup.
  pose proof (channels_ok_clean_requests config outgoing w Hw) as Hc. revert Hc.
  generalize (clean_open_channel_requests config outgoing w). clear Hw E.
  induction outgoing as [|p l IH]; intros w0 Hw0; [done|]. cbn. apply IH. by apply channels_ok_outgoing.
Qed.

Lemma step_channels_ok w w' : step w w' → channels_ok (hrmp w) → channels_ok (hrmp w').
Proof.
  destruct 1; intros Hw.
  - apply (run_preserves (λ w, channels_ok (hrmp w))); [done|by apply channels_ok_dispatch].
  - by eapply channels_ok_session.
  - by apply channels_ok_prune.
  - by apply channels_ok_queue.
Qed.

Lemma empty_channels_ok : channels_ok empty_state.
Proof.
  split; unfold ingress, egress; cbn; intros *;
    rewrite ?lookup_empty; try done; try constructor; try (by intros [? ?]);
    try (by intros ?%elem_of_nil).
Qed.

(** C2. Channels, indexes, contents and counters agree: whatever requests are
    made, accepted, cancelled and processed, whatever messages are sent and
    pruned, and whichever paras are offboarded, the ingress and egress indexes
    are sorted and list exactly the open channels; only open channels have
    contents; and the counters of a channel are the number and the size of the
    messages it holds. *)
Theorem hrmp_channels_invariant d b w :
  rtc step (mkWorld empty_state d b) w → channels_ok (hrmp w).
Proof.
  intros Hrtc. assert (channels_ok (hrmp (mkWorld empty_state d b))) as H0 by exact empty_channels_ok.
  induction Hrtc; eauto using step_channels_ok.
Qed.
End Pallet.

(** ** Examples *)

Section Examples.

#[local] Instance example_hash : MessageHash (list byte) :=
  {| hash_data m := m; hash_link h b m := h ++ byte_of_Z b :: m; zero_hash := [] |}.

(** Free balances, less what is reserved. *)
#[local] Instance example_currency : ReservableCurrency (gmap ParaId Z) := {|
  reserve p amount m := if decide (amount ≤ value_query 0 p m) then Some (<[p := value_query 0 p m - amount]> m)
                        else None;
  unreserve p amount m := <[p := value_query 0 p m + amount]> m;
|}.

Definition example_config : HostConfiguration :=
  fold_left (λ c call, Configuration.updater call c)
    [Configuration.set_hrmp_channel_max_capacity 8; Configuration.set_hrmp_channel_max_message_size 16;
     Configuration.set_hrmp_channel_max_total_size 64; Configuration.set_hrmp_max_parachain_inbound_channels 4;
     Configuration.set_hrmp_max_parachain_outbound_channels 4; Configuration.set_hrmp_sender_deposit 5;
     Configuration.set_hrmp_recipient_deposit 3; Configuration.set_hrmp_max_message_num_per_candidate 2]
    HostConfiguration.default.

Definition example_paras : Paras.Lifecycles := {[2000 := ParachainLife; 3000 := ParachainLife]}.
Definition example_channel : HrmpChannelId := mkChannelId 2000 3000.
Definition world0 : World (H := list byte) (B := gmap ParaId Z) :=
  mkWorld empty_state Dmp.empty_state {[2000 := 10; 3000 := 10]}.

Definition example_call now o call (w : World) : World :=
  (run Layered (dispatch (λ _, []) example_config example_paras now o call) w).1.
Definition world1 := example_call 1 (ParachainOrigin 2000) (hrmp_init_open_channel 3000 4 16) world0.
Definition world2 := example_call 2 (ParachainOrigin 3000) (hrmp_accept_open_channel 2000) world1.
Definition world3 := default world2 (initializer_on_new_session example_config example_paras [] world2).
Definition world4 := on_hrmp (queue_outbound_hrmp 5 2000 [mkOutbound 3000 [Byte.x01; Byte.x02]]) world3.

Lemma hrmp_channels_invariant_witness :
  channels_ok (hrmp world4) ∧ contents example_channel (hrmp world4) = [mkInbound 5 [Byte.x01; Byte.x02]].
Proof.
  split; [|vm_compute; reflexivity].
  apply (hrmp_channels_invariant (λ _, []) Dmp.empty_state {[2000 := 10; 3000 := 10]}).
  apply (rtc_l _ _ world1); [exact (step_call _ _ _ _ Layered _ _ _)|].
  apply (rtc_l _ _ world2); [exact (step_call _ _ _ _ Layered _ _ _)|].
  apply (rtc_l _ _ world3); [apply (step_session _ example_config example_paras []); vm_compute; reflexivity|].
  apply rtc_once. exact (step_queue _ _ _ _ _).
Defined.
End Examples.
End Hrmp.
