(* ===== verification/HrmpRequests.v ===== *)
(** * Requests to open and to close channels

    What a session change makes of the requests the HRMP pallet ([Hrmp]) has
    collected: the list of open requests and their map agree, so processing
    them never panics, and the channels after the session are known exactly. *)

From S2P Require Import Prelude.
From S2P Require Import Vectors.
From S2P Require Import XcmTypes.
From S2P Require Import Frame.
From S2P Require Import Configuration.
From S2P Require Import Paras.
From S2P Require Import Dmp.
From S2P Require Import Hrmp.

Module HrmpRequests.
Import Hrmp.

Section Pallet.
Context {H B : Type} `{!MessageHash H} `{!ReservableCurrency B} (encode_xcm : Xcm → list byte).
Abbreviation State := (Hrmp.State (H := H)).
Abbreviation World := (Hrmp.World (H := H) (B := B)).

(** The list of requests names exactly the requests, each once. *)
Record requests_ok (s : State) : Prop := {
  req_nodup : NoDup (HrmpOpenChannelRequestsList s);
  req_listed c : c ∈ HrmpOpenChannelRequestsList s ↔ is_Some (HrmpOpenChannelRequests s !! c);
}.

Definition accepted (c : HrmpChannelId) (s : State) : bool :=
  match HrmpOpenChannelRequests s !! c with Some r => confirmed r | None => false end.

(** The channel a request becomes. *)
Definition opened (config : HostConfiguration) (paras : Paras.Lifecycles) (c : HrmpChannelId) (s : State) :
    option (HrmpChannel (H := H)) :=
  match HrmpOpenChannelRequests s !! c with
  | Some r =>
      if confirmed r && Paras.is_valid_para (sender c) paras && Paras.is_valid_para (recipient c) paras
      then Some (mkChannel (req_max_capacity r) (req_max_total_size r) (req_max_message_size r) 0 0 None
                   (req_sender_deposit r) (hrmp_recipient_deposit config))
      else None
  | None => None
  end.

Definition or_else {A} (x y : option A) : option A := match x with Some _ => x | None => y end.

(** ** Processing the open requests *)

Lemma take_swap_remove {A} i (l : list A) x : l !! i = Some x → take i (swap_remove i l) = take i l.
Proof.
  intros Hi. unfold swap_remove. destruct l as [|y l _] using rev_ind; [done|].
  rewrite last_snoc, length_app. cbn. apply lookup_lt_Some in Hi. rewrite length_app in Hi. cbn in Hi.
  rewrite take_take. replace (i `min` (length l + 1 - 1))%nat with i by lia.
  rewrite take_insert_ge by lia. done.
Qed.

Lemma open_loop_spec config paras idx l (s : State) :
  NoDup l → (∀ c, c ∈ l → is_Some (HrmpOpenChannelRequests s !! c)) → (idx ≤ length l)%nat →
  ∃ l' s', open_loop config paras idx l s = Some (l', s') ∧ NoDup l' ∧
    (∀ c, c ∈ l' ↔ c ∈ l ∧ ¬ (c ∈ take idx l ∧ accepted c s = true)) ∧
    (∀ c, HrmpOpenChannelRequests s' !! c =
       if decide (c ∈ take idx l ∧ accepted c s = true) then None else HrmpOpenChannelRequests s !! c) ∧
    (∀ c, HrmpChannels s' !! c =
       or_else (if decide (c ∈ take idx l) then opened config paras c s else None) (HrmpChannels s !! c)) ∧
    HrmpCloseChannelRequestsList s' = HrmpCloseChannelRequestsList s.
Proof.
  revert l s. induction idx as [|idx IH]; intros l s Hnd Hreq Hlen.
  { exists l, s. cbn. split_and!; try done; intros c.
    split; [intros Hc; split; [done|by intros [?%elem_of_nil _]]|by intros [? _]]. }
  destruct (lookup_lt_is_Some_2 l idx) as [c0 Hc0]; [lia|].
  destruct (Hreq c0) as [r0 Hr0]; [by eapply list_elem_of_lookup_2|].
  cbn [open_loop]. rewrite Hc0. cbn. rewrite Hr0. cbn.
  assert (∀ c, c ∈ take (S idx) l ↔ c ∈ take idx l ∨ c = c0) as Htake.
  { intros c. rewrite (take_S_r l idx c0 Hc0), elem_of_app, list_elem_of_singleton. done. }
  assert (c0 ∉ take idx l) as Hnew.
  { intros Hin. rewrite <-(take_drop_middle l idx c0 Hc0) in Hnd.
    apply NoDup_app in Hnd as (_ & Hd & _). apply (Hd c0 Hin). left. }
  destruct (confirmed r0) eqn:Econf.
  - set (s1 := set_open _ _ _).
    assert (∀ c, HrmpOpenChannelRequests s1 !! c =
      if decide (c0 = c) then None else HrmpOpenChannelRequests s !! c) as Hr1.
    { intros c. unfold s1. cbn. destruct (_ && _); cbn; apply lookup_delete. }
    assert (∀ c, HrmpChannels s1 !! c = if decide (c0 = c) then or_else (opened config paras c s) (HrmpChannels s !! c)
      else HrmpChannels s !! c) as Hch1.
    { intros c. unfold s1, opened. destruct (decide (c0 = c)) as [<-|Hne].
      - rewrite Hr0, Econf. cbn. destruct (_ && _); cbn; [by rewrite lookup_insert_eq|done].
      - destruct (_ && _); cbn; [by rewrite lookup_insert_ne|done]. }
    assert (HrmpCloseChannelRequestsList s1 = HrmpCloseChannelRequestsList s) as Hcl
      by (unfold s1; by destruct (_ && _)).
    clearbody s1.
    destruct (IH (swap_remove idx l) s1) as (l' & s' & Hrun & Hnd' & Hl' & Hr' & Hch' & Hcl').
    { by eapply NoDup_swap_remove. }
    { intros c Hc. apply (elem_of_swap_remove idx l c0 c Hnd Hc0) in Hc as [Hne Hc].
      rewrite Hr1, decide_False by done. by apply Hreq. }
    { pose proof (Permutation_length (swap_remove_Permutation idx l c0 Hc0)) as Hp. cbn in Hp. lia. }
    rewrite (take_swap_remove idx l c0 Hc0) in Hl', Hr', Hch'.
    assert (∀ c, c ≠ c0 → accepted c s1 = accepted c s ∧ opened config paras c s1 = opened config paras c s) as Hsame.
    { intros c Hne. unfold accepted, opened. by rewrite Hr1, decide_False. }
    assert (accepted c0 s = true) as Hacc by (unfold accepted; by rewrite Hr0).
    exists l', s'. split_and!; [done|done|..|congruence]; intros c.
    + rewrite Hl', (elem_of_swap_remove idx l c0 c Hnd Hc0), Htake.
      destruct (decide (c = c0)) as [->|Hne]; [clear -Hacc; tauto|]. rewrite (proj1 (Hsame c Hne)). clear -Hne. tauto.
    + rewrite Hr'. destruct (decide (c = c0)) as [->|Hne].
      * rewrite (decide_False (P := c0 ∈ take idx l ∧ _)) by tauto. rewrite Hr1, !decide_True; [done| |done].
        split; [apply Htake; by right|done].
      * rewrite (proj1 (Hsame c Hne)), Hr1, (decide_False (P := c0 = c)) by done.
        apply decide_ext. rewrite Htake. clear -Hne. tauto.
    + rewrite Hch'. destruct (decide (c = c0)) as [->|Hne].
      * rewrite decide_False by done. cbn. rewrite Hch1, !decide_True; [done| |done]. apply Htake. by right.
      * rewrite (proj2 (Hsame c Hne)), Hch1, (decide_False (P := c0 = c)) by done. f_equal.
        apply decide_ext. rewrite Htake. clear -Hne. tauto.
  - assert (accepted c0 s = false ∧ opened config paras c0 s = None) as [Hacc Hop]
      by (unfold accepted, opened; by rewrite Hr0, Econf).
    assert (∀ c, c ∈ take (S idx) l ∧ accepted c s = true ↔ c ∈ take idx l ∧ accepted c s = true) as Hact.
    { intros c. rewrite Htake. clear -Hacc. split; [intros [[?| ->] ?]; [done|congruence]|tauto]. }
    destruct (IH l s) as (l' & s' & Hrun & Hnd' & Hl' & Hr' & Hch' & Hcl'); [done|done|lia|].
    exists l', s'. split_and!; [done|done|..|done]; intros c.
    + rewrite Hl', Hact. done.
    + rewrite Hr'. apply decide_ext. symmetry. apply Hact.
    + rewrite Hch'. destruct (decide (c = c0)) as [->|Hne].
      * rewrite Hop. by repeat case_decide.
      * f_equal. apply decide_ext. rewrite Htake. clear -Hne. tauto.
Qed.

Lemma process_open_spec config paras (s : State) :
  requests_ok s →
  ∃ s', process_hrmp_open_channel_requests config paras s = Some s' ∧ requests_ok s' ∧
    (∀ c, HrmpOpenChannelRequests s' !! c =
       if accepted c s then None else HrmpOpenChannelRequests s !! c) ∧
    (∀ c, HrmpChannels s' !! c = or_else (opened config paras c s) (HrmpChannels s !! c)) ∧
    HrmpCloseChannelRequestsList s' = HrmpCloseChannelRequestsList s.
Proof.
  intros [Hnd Hl]. unfold process_hrmp_open_channel_requests.
  assert (∀ c, accepted c s = true → c ∈ HrmpOpenChannelRequestsList s) as Hacc.
  { intros c. unfold accepted. rewrite Hl. by destruct (HrmpOpenChannelRequests s !! c). }
  assert (∀ c x, opened config paras c s = Some x → c ∈ HrmpOpenChannelRequestsList s) as Hop.
  { intros c x. unfold opened. rewrite Hl. by destruct (HrmpOpenChannelRequests s !! c). }
  destruct (open_loop_spec config paras (length (HrmpOpenChannelRequestsList s)) _ s Hnd) as
    (l' & s' & Hrun & Hnd' & Hl' & Hr' & Hch' & Hcl'); [by intros c ?%Hl|done|].
  rewrite firstn_all in Hl', Hr', Hch'.
  assert (∀ c, HrmpOpenChannelRequests s' !! c =
    if accepted c s then None else HrmpOpenChannelRequests s !! c) as Hreq.
  { intros c. rewrite Hr'. destruct (accepted c s) eqn:E.
    - rewrite decide_True; [done|]. split; [by apply Hacc|done].
    - rewrite decide_False; [done|]. by intros [_ ?]. }
  assert (∀ c, HrmpChannels s' !! c = or_else (opened config paras c s) (HrmpChannels s !! c)) as Hch.
  { intros c. rewrite Hch'. destruct (opened config paras c s) eqn:E.
    - by rewrite decide_True by (by eapply Hop).
    - by case_decide. }
  destruct (HrmpOpenChannelRequestsList s) as [|c0 l0] eqn:E.
  { cbn in Hrun. simplify_eq. exists s'. split_and!; try done. split; [by rewrite E; constructor|].
    intros c. by rewrite E, <-Hl. }
  rewrite Hrun. cbn. eexists. split; [reflexivity|]. split; [|by split_and!].
  split; cbn; [done|]. intros c. rewrite Hl', Hreq. specialize (Hl c).
  destruct (accepted c s) eqn:Ea.
  - split; [|by intros [? ?]]. intros [Hc []]. by split.
  - rewrite <-Hl. split; [by intros [? _]|]. intros Hc. split; [done|]. by intros [_ ?].
Qed.

(** ** Offboarding *)

Definition leaving (outgoing : list ParaId) (c : HrmpChannelId) : bool := existsb (is_participant c) outgoing.

Lemma clean_request_spec config outgoing c (w : World) :
  let w' := clean_request config outgoing w c in
  (∀ d, HrmpOpenChannelRequests (hrmp w') !! d =
     if decide (c = d) then None else HrmpOpenChannelRequests (hrmp w) !! d) ∧
  HrmpOpenChannelRequestsList (hrmp w') = HrmpOpenChannelRequestsList (hrmp w) ∧
  HrmpChannels (hrmp w') = HrmpChannels (hrmp w) ∧
  HrmpCloseChannelRequestsList (hrmp w') = HrmpCloseChannelRequestsList (hrmp w).
Proof.
  cbn zeta. unfold clean_request. destruct (HrmpOpenChannelRequests (hrmp w) !! c) as [r|] eqn:E.
  - split_and!; try (destruct (confirmed r); repeat case_decide; done).
    intros d. rewrite <-lookup_delete. destruct (confirmed r); repeat case_decide; done.
  - split_and!; try done. intros d. case_decide; by subst.
Qed.

Lemma clean_requests_spec config outgoing (w : World) :
  requests_ok (hrmp w) →
  let w' := clean_open_channel_requests config outgoing w in
  requests_ok (hrmp w') ∧
  (∀ c, HrmpOpenChannelRequests (hrmp w') !! c =
     if leaving outgoing c then None else HrmpOpenChannelRequests (hrmp w) !! c) ∧
  HrmpChannels (hrmp w') = HrmpChannels (hrmp w) ∧
  HrmpCloseChannelRequestsList (hrmp w') = HrmpCloseChannelRequestsList (hrmp w).
Proof.
  intros [Hnd Hl]. unfold clean_open_channel_requests. cbn zeta.
  set (go := filter _ (HrmpOpenChannelRequestsList (hrmp w))).
  set (stay := filter (λ c, negb _) _). set (w0 := on_hrmp _ w).
  assert (∀ l (w0 : World), let w' := fold_left (clean_request config outgoing) l w0 in
    (∀ c, HrmpOpenChannelRequests (hrmp w') !! c =
       if decide (c ∈ l) then None else HrmpOpenChannelRequests (hrmp w0) !! c) ∧
    HrmpOpenChannelRequestsList (hrmp w') = HrmpOpenChannelRequestsList (hrmp w0) ∧
    HrmpChannels (hrmp w') = HrmpChannels (hrmp w0) ∧
    HrmpCloseChannelRequestsList (hrmp w') = HrmpCloseChannelRequestsList (hrmp w0)) as Hfold.
  { clear. induction l as [|c l IH]; intros w0; cbn zeta; [done|]. cbn [fold_left].
    destruct (clean_request_spec config outgoing c w0) as (S1 & S2 & S3 & S4).
    destruct (IH (clean_request config outgoing w0 c)) as (I1 & I2 & I3 & I4).
    split_and!; try congruence. intros d. by rewrite I1, S1, decide_cons. }
  destruct (Hfold go w0) as (F1 & F2 & F3 & F4). clear Hfold.
  assert (∀ c, HrmpOpenChannelRequests (hrmp (fold_left (clean_request config outgoing) go w0)) !! c =
    if leaving outgoing c then None else HrmpOpenChannelRequests (hrmp w) !! c) as Hreq.
  { intros c. rewrite F1. unfold leaving. destruct (existsb (is_participant c) outgoing) eqn:E.
    - case_decide as Hc; [done|]. unfold go in Hc. rewrite list_elem_of_filter in Hc.
      cbn. apply eq_None_not_Some. rewrite <-Hl. intros Hin. apply Hc. by rewrite E.
    - rewrite decide_False; [done|]. unfold go. rewrite list_elem_of_filter, E. by intros [[] _]. }
  split_and!; [split|exact Hreq|exact F3|exact F4].
  - rewrite F2. by apply NoDup_filter.
  - intros c. rewrite F2, Hreq. unfold w0, stay. cbn. rewrite list_elem_of_filter, Hl.
    unfold leaving. destruct (existsb (is_participant c) outgoing); cbn; [|naive_solver]. split; [by intros [[] _]|by intros [? ?]].
Qed.

(** What stays of the requests when only channels change. *)
Definition same_requests (s s' : State) : Prop :=
  HrmpOpenChannelRequests s' = HrmpOpenChannelRequests s ∧
  HrmpOpenChannelRequestsList s' = HrmpOpenChannelRequestsList s.

Lemma requests_ok_same s s' : same_requests s s' → requests_ok s → requests_ok s'.
Proof. intros [E1 E2] [H1 H2]. split; [by rewrite E2|intros c; by rewrite E1, E2]. Qed.

Lemma close_all_requests l (w : World) :
  same_requests (hrmp w) (hrmp (close_all l w)) ∧
  HrmpCloseChannelRequestsList (hrmp (close_all l w)) = HrmpCloseChannelRequestsList (hrmp w) ∧
  (∀ c, HrmpChannels (hrmp (close_all l w)) !! c =
     if decide (c ∈ l) then None else HrmpChannels (hrmp w) !! c).
Proof.
  revert w. induction l as [|c l IH]; intros w; [done|].
  destruct (close_spec c w) as (C1 & _ & _ & _ & C5 & C6 & _ & _ & _ & _ & _ & C12).
  destruct (IH (close_hrmp_channel c w)) as ([I1 I2] & I3 & I4).
  change (close_all (c :: l) w) with (close_all l (close_hrmp_channel c w)).
  split_and!; [split; congruence|congruence|]. intros d. by rewrite I4, C1, lookup_delete, decide_cons.
Qed.

Lemma outgoing_spec p (w : World) :
  channels_ok (hrmp w) →
  let w' := clean_hrmp_after_outgoing p w in
  same_requests (hrmp w) (hrmp w') ∧
  HrmpCloseChannelRequestsList (hrmp w') = HrmpCloseChannelRequestsList (hrmp w) ∧
  (∀ c, HrmpChannels (hrmp w') !! c = if is_participant c p then None else HrmpChannels (hrmp w) !! c).
Proof.
  intros Hw. unfold clean_hrmp_after_outgoing.
  set (w0 := on_hrmp (λ s, set_channels _ _ _ s) _). set (l := dedup _). cbn zeta.
  change (fold_left _ l w0) with (close_all l w0).
  destruct (close_all_requests l w0) as ([R1 R2] & R3 & R4).
  split_and!; [by split|done|]. intros c. rewrite R4. change (HrmpChannels (hrmp w0)) with (HrmpChannels (hrmp w)).
  assert (c ∈ l ↔ is_participant c p = true ∧ is_Some (HrmpChannels (hrmp w) !! c)) as Hc.
  { unfold l. rewrite elem_of_dedup, merge_sort_Permutation, elem_of_app, !list_elem_of_fmap.
    unfold is_participant. rewrite orb_true_iff, !bool_decide_eq_true.
    pose proof (ch_ingress _ Hw c) as Hi. pose proof (ch_egress _ Hw c) as He. cbn.
    destruct c as [a b]; cbn in *. split.
    - intros [(x & [= -> ->] & Hx)|(x & [= -> ->] & Hx)]; naive_solver.
    - intros [[<-|<-] Hs]; [right|left]; eexists; naive_solver. }
  case_decide as Hin; destruct (is_participant c p) eqn:E; try done; [naive_solver|].
  apply eq_None_not_Some. naive_solver.
Qed.

Lemma outgoing_all_spec l (w : World) :
  channels_ok (hrmp w) →
  let w' := fold_left (λ w p, clean_hrmp_after_outgoing p w) l w in
  same_requests (hrmp w) (hrmp w') ∧
  HrmpCloseChannelRequestsList (hrmp w') = HrmpCloseChannelRequestsList (hrmp w) ∧
  (∀ c, HrmpChannels (hrmp w') !! c = if leaving l c then None else HrmpChannels (hrmp w) !! c).
Proof.
  revert w. induction l as [|p l IH]; intros w Hw; cbn zeta; [done|]. cbn [fold_left].
  destruct (outgoing_spec p w Hw) as ([O1 O2] & O3 & O4).
  destruct (IH (clean_hrmp_after_outgoing p w)) as ([I1 I2] & I3 & I4);
    [by apply channels_ok_outgoing|].
  split_and!; [split; congruence|congruence|]. intros c. rewrite I4, O4.
  change (leaving (p :: l) c) with (is_participant c p || leaving l c).
  by destruct (is_participant c p), (leaving l c).
Qed.

Lemma process_close_spec (w : World) :
  let w' := process_hrmp_close_channel_requests w in
  same_requests (hrmp w) (hrmp w') ∧
  (∀ c, HrmpChannels (hrmp w') !! c =
     if decide (c ∈ HrmpCloseChannelRequestsList (hrmp w)) then None else HrmpChannels (hrmp w) !! c).
Proof.
  unfold process_hrmp_close_channel_requests. cbn zeta. set (w0 := on_hrmp _ w).
  generalize (HrmpCloseChannelRequestsList (hrmp w)). intros l.
  assert (same_requests (hrmp w) (hrmp w0) ∧ HrmpChannels (hrmp w0) = HrmpChannels (hrmp w)) as [H0 H1] by done.
  rewrite <-H1. clear H1. revert H0. generalize (hrmp w). intros s. clearbody w0. revert w0.
  induction l as [|c l IH]; intros w0 H0; [done|]. cbn [fold_left].
  set (w1 := on_hrmp _ w0).
  destruct (close_spec c w1) as (C1 & _ & _ & _ & C5 & C6 & _).
  destruct (IH (close_hrmp_channel c w1)) as [I1 I2].
  { destruct H0 as [? ?]. split; unfold w1 in *; cbn in *; congruence. }
  split; [done|]. intros d. rewrite I2, C1, lookup_delete. apply decide_cons.
Qed.

(** ** The requests over time *)

Lemma requests_ok_init config paras now o r cap size (w : World) :
  requests_ok (hrmp w) → requests_ok (hrmp (init_open_channel encode_xcm config paras now o r cap size w).1).
Proof.
  intros [Hnd Hl]. unfold init_open_channel, reserve_deposit, notify. unfold_dispatch.
  repeat (case_match; cbn in *; simplify_eq); try done; case_storage; split; cbn;
    try (apply NoDup_app; split_and!; [done| |apply NoDup_singleton];
         intros c Hc ->%list_elem_of_singleton; apply Hl in Hc as [? ?]; congruence);
    intros d; rewrite elem_of_app, list_elem_of_singleton, Hl, lookup_insert;
    destruct (decide (mkChannelId o r = d)); naive_solver.
Qed.

Lemma requests_ok_accept config paras now o p (w : World) :
  requests_ok (hrmp w) → requests_ok (hrmp (accept_open_channel encode_xcm config paras now o p w).1).
Proof.
  intros [Hnd Hl]. unfold accept_open_channel, reserve_deposit, notify. unfold_dispatch.
  destruct (HrmpOpenChannelRequests (hrmp w) !! mkChannelId p o) as [req|] eqn:Er; cbn; [|done].
  repeat (case_match; cbn in *; simplify_eq); try done; split; cbn; try done;
    intros d; rewrite Hl, lookup_insert; destruct (decide (mkChannelId p o = d)); naive_solver.
Qed.

Lemma requests_ok_remove c i l (s : State) :
  requests_ok s → HrmpOpenChannelRequestsList s !! i = Some c →
  HrmpOpenChannelRequests l = delete c (HrmpOpenChannelRequests s) →
  HrmpOpenChannelRequestsList l = swap_remove i (HrmpOpenChannelRequestsList s) →
  requests_ok l.
Proof.
  intros [Hnd Hl] Hi E1 E2. split; rewrite E2; [by eapply NoDup_swap_remove|].
  intros d. rewrite E1, (elem_of_swap_remove i _ c d Hnd Hi), Hl, lookup_delete.
  case_decide as Hd; [split; [by intros [? _]|by intros [? ?]]|]. naive_solver.
Qed.

Lemma requests_ok_cancel o c (w : World) :
  requests_ok (hrmp w) → requests_ok (hrmp (cancel_open_request o c w).1).
Proof.
  intros Hw. unfold cancel_open_request. unfold_dispatch.
  destruct (is_participant c o); cbn; [|done].
  destruct (HrmpOpenChannelRequests (hrmp w) !! c) as [req|] eqn:Er; cbn; [|done].
  destruct (confirmed req); cbn; [done|].
  destruct (position (λ x, bool_decide (x = c)) (HrmpOpenChannelRequestsList (hrmp w))) as [i|] eqn:Ep.
  - destruct (position_Some _ _ _ Ep) as (a & Hi & Ha & _). apply bool_decide_eq_true in Ha as ->.
    by apply (requests_ok_remove c i _ (hrmp w) Hw Hi).
  - exfalso. assert (c ∈ HrmpOpenChannelRequestsList (hrmp w)) as Hc by (apply (req_listed _ Hw); by eexists).
    apply (position_None _ _ Ep) in Hc. by apply bool_decide_eq_false in Hc.
Qed.

Lemma requests_ok_close_channel config now o c (w : World) :
  requests_ok (hrmp w) → requests_ok (hrmp (close_channel encode_xcm config now o c w).1).
Proof.
  intros Hw. unfold close_channel, notify. unfold_dispatch.
  repeat (case_match; cbn in *; simplify_eq); try done; by apply (requests_ok_same (hrmp w)).
Qed.

Lemma requests_ok_event e (m : Dispatch World Error) w :
  requests_ok (hrmp (m w).1) → requests_ok (hrmp ((m ;; deposit_event e) w).1).
Proof.
  unfold deposit_event. unfold_dispatch. destruct (m w) as [w' [[]|err]]; cbn; [|done].
  by apply requests_ok_same.
Qed.

Lemma requests_ok_dispatch config paras now origin call (w : World) :
  channels_ok (hrmp w) → requests_ok (hrmp w) →
  requests_ok (hrmp (dispatch encode_xcm config paras now origin call w).1).
Proof.
  intros Hok Hw. destruct call; cbn; unfold or_bad_origin, lift, ok_or, mbind at 1, M_bind at 1;
    destruct origin; cbn; try done.
  - by apply requests_ok_event, requests_ok_init.
  - by apply requests_ok_event, requests_ok_accept.
  - by apply requests_ok_event, requests_ok_close_channel.
  - apply (requests_ok_same (hrmp w)); [by apply outgoing_spec|done].
  - unfold or_panic, process_open.
    destruct (process_open_spec config paras (hrmp w) Hw) as (s' & -> & Hs' & _). done.
  - apply (requests_ok_same (hrmp w)); [by apply process_close_spec|done].
  - unfold mbind, M_bind, get, ensure. cbn. case_match; cbn; [|done].
    by apply requests_ok_event, requests_ok_cancel.
Qed.

Lemma prune_requests r wm (s : State) : same_requests s (prune_hrmp r wm s).
Proof.
  unfold prune_hrmp. set (l := fmap _ _). set (s0 := set_contents _ _ s).
  assert (same_requests s s0) as H0 by done. clearbody s0.
  assert (same_requests s (fold_left (prune_channel wm) l s0)) as [E1 E2]; [|by split].
  revert s0 H0. induction l as [|c l IH]; intros s0 H0; [done|]. cbn. apply IH.
  destruct H0 as [E1 E2]. unfold prune_channel. split; repeat case_match; done.
Qed.

Lemma queue_requests now p msgs (s : State) : same_requests s (queue_outbound_hrmp now p msgs s).
Proof.
  unfold queue_outbound_hrmp. assert (same_requests s s) as H0 by done. revert H0.
  generalize s at 2 4. induction msgs as [|m msgs IH]; intros s0 H0; [done|]. cbn. apply IH.
  destruct H0 as [E1 E2]. unfold queue_message. split; case_match; done.
Qed.

(** What a session change makes of the requests and of the channels. *)
Lemma session_spec config paras outgoing (w : World) :
  channels_ok (hrmp w) → requests_ok (hrmp w) →
  ∃ w', initializer_on_new_session config paras outgoing w = Some w' ∧ requests_ok (hrmp w') ∧
    (∀ c, HrmpOpenChannelRequests (hrmp w') !! c =
       if leaving outgoing c || accepted c (hrmp w) then None else HrmpOpenChannelRequests (hrmp w) !! c) ∧
    (∀ c, HrmpChannels (hrmp w') !! c =
       if decide (c ∈ HrmpCloseChannelRequestsList (hrmp w)) then None
       else if leaving outgoing c then None
       else or_else (opened config paras c (hrmp w)) (HrmpChannels (hrmp w) !! c)).
Proof.
  intros Hok Hw. unfold initializer_on_new_session, perform_outgoing_para_cleanup.
  destruct (clean_requests_spec config outgoing w Hw) as (K1 & K2 & K3 & K4).
  pose proof (channels_ok_clean_requests config outgoing w Hok) as Hok1.
  set (w1 := clean_open_channel_requests config outgoing w) in *. clearbody w1.
  destruct (outgoing_all_spec outgoing w1 Hok1) as (O1 & O2 & O3).
  set (w2 := fold_left _ outgoing w1) in *. clearbody w2.
  pose proof (requests_ok_same _ _ O1 K1) as Hw2.
  destruct (process_open_spec config paras (hrmp w2) Hw2) as (s3 & Hrun & P1 & P2 & P3 & P4).
  rewrite Hrun. cbn.
  destruct (process_close_spec (mkWorld s3 (dmp w2) (currency w2))) as [C1 C2].
  eexists. split; [reflexivity|]. split; [by eapply requests_ok_same|].
  assert (∀ c, HrmpOpenChannelRequests (hrmp w2) !! c =
    if leaving outgoing c then None else HrmpOpenChannelRequests (hrmp w) !! c) as Hreq.
  { intros c. destruct O1 as [-> _]. apply K2. }
  split.
  - intros c. destruct C1 as [-> _]. cbn. rewrite P2. unfold accepted. rewrite Hreq.
    by destruct (leaving outgoing c).
  - intros c. rewrite C2. cbn. rewrite P4, O2, K4, P3, O3, K3. unfold opened. rewrite Hreq.
    by destruct (leaving outgoing c).
Qed.

Lemma step_requests_ok w w' :
  step encode_xcm w w' → channels_ok (hrmp w) → requests_ok (hrmp w) → requests_ok (hrmp w').
Proof.
  destruct 1; intros Hok Hw.
  - apply (run_preserves (λ w, requests_ok (hrmp w))); [done|by apply requests_ok_dispatch].
  - destruct (session_spec config paras outgoing w Hok Hw) as (w1 & Hrun & Hw1 & _). congruence.
  - apply (requests_ok_same (hrmp w)); [apply prune_requests|done].
  - apply (requests_ok_same (hrmp w)); [apply queue_requests|done].
Qed.

Lemma reachable_requests d b (w : World) :
  rtc (step encode_xcm) (mkWorld empty_state d b) w → channels_ok (hrmp w) ∧ requests_ok (hrmp w).
Proof.
  intros Hrtc.
  assert (channels_ok (hrmp (mkWorld empty_state d b)) ∧ requests_ok (hrmp (mkWorld empty_state d b))) as H0.
  { split; [exact empty_channels_ok|]. split; cbn; [constructor|]. intros c. rewrite lookup_empty.
    split; [by intros ?%elem_of_nil|by intros [? ?]]. }
  induction Hrtc as [|w w1 w2 Hs _ IH]; [done|]. destruct H0 as [H1 H2].
  apply IH. split; [by eapply step_channels_ok|by eapply step_requests_ok].
Qed.

(** C17. A session change settles the requests: it never panics on a state the
    pallet can reach; every accepted request of two valid paras that stay is a
    channel with the parameters that were asked for, empty, unless its channel
    is also on the list of those to be closed, in which case there is none;
    requests that are not accepted wait on, unless one of their paras leaves;
    and of the other channels exactly those asked to be closed, or of a para
    that leaves, are gone. *)
Theorem session_settles_requests d b w config paras outgoing :
  rtc (step encode_xcm) (mkWorld empty_state d b) w →
  ∃ w', initializer_on_new_session config paras outgoing w = Some w' ∧
    ∀ c,
      HrmpOpenChannelRequests (hrmp w') !! c =
        (if leaving outgoing c || accepted c (hrmp w) then None
         else HrmpOpenChannelRequests (hrmp w) !! c) ∧
      HrmpChannels (hrmp w') !! c =
        (if decide (c ∈ HrmpCloseChannelRequestsList (hrmp w)) then None
         else if leaving outgoing c then None
         else or_else (opened config paras c (hrmp w)) (HrmpChannels (hrmp w) !! c)).
Proof.
  intros [Hok Hw]%reachable_requests.
  destruct (session_spec config paras outgoing w Hok Hw) as (w' & Hrun & _ & Hr & Hc). by exists w'.
Qed.
End Pallet.

(** ** Examples *)

Section Examples.
#[local] Existing Instance Hrmp.example_hash.
#[local] Existing Instance Hrmp.example_currency.

Lemma session_settles_requests_witness :
  ∃ w', initializer_on_new_session example_config example_paras [] world2 = Some w' ∧
    HrmpChannels (hrmp w') !! example_channel = Some (mkChannel 4 64 16 0 0 None 5 3) ∧
    HrmpOpenChannelRequests (hrmp w') !! example_channel = None.
Proof.
  destruct (session_settles_requests (λ _, []) Dmp.empty_state {[2000 := 10; 3000 := 10]} world2
    example_config example_paras []) as (w' & Hrun & Hw').
  { apply (rtc_l _ _ world1); [exact (step_call _ _ _ _ Layered _ _ _)|].
    apply rtc_once. exact (step_call _ _ _ _ Layered _ _ _). }
  exists w'. split; [exact Hrun|]. destruct (Hw' example_channel) as [-> ->]. split; vm_compute; reflexivity.
Defined.
End Examples.
End HrmpRequests.
