(* ===== verification/HrmpMessages.v ===== *)
(** * Messages in channels

    How the HRMP pallet ([Hrmp]) keeps the messages of a channel: the digests
    of a recipient name every sender of a pending message, so that pruning by
    digest leaves exactly the messages after the watermark; and the check of a
    candidate's messages keeps every channel within the limits it was opened
    with. *)

From S2P Require Import Prelude.
From S2P Require Import Vectors.
From S2P Require Import XcmTypes.
From S2P Require Import Frame.
From S2P Require Import Configuration.
From S2P Require Import Paras.
From S2P Require Import Dmp.
From S2P Require Import Hrmp.
From S2P Require Import HrmpRequests.

Module HrmpMessages.
Import Hrmp HrmpRequests.

Section Pallet.
Context {H B : Type} `{!MessageHash H} `{!ReservableCurrency B} (encode_xcm : Xcm → list byte).
Abbreviation State := (Hrmp.State (H := H)).
Abbreviation World := (Hrmp.World (H := H) (B := B)).
(** The messages after a watermark. *)
Abbreviation after wm l := (filter (λ m, ¬ sent_at m ≤ wm) (l : list InboundHrmpMessage)).
#[local] Arguments bytes : simpl never.
#[local] Arguments filter : simpl never.

(** At block [now]: the digests are in order and of the past, pending messages
    are in the order they were sent in, and the digest of the recipient at the
    block a message was sent names its sender. *)
Record messages_ok (now : BlockNumber) (s : State) : Prop := {
  dig_sorted r : StronglySorted Z.lt (fst <$> digest r s);
  dig_past r e : e ∈ digest r s → e.1 ≤ now;
  dig_covers c m : m ∈ contents c s →
    ∃ senders, (sent_at m, senders) ∈ digest (recipient c) s ∧ sender c ∈ senders;
  con_sorted c : StronglySorted Z.le (sent_at <$> contents c s);
}.

(** ** Pruning *)

Lemma elem_of_collect (l acc : list ParaId) p :
  sorted acc → p ∈ foldl (λ acc p, sorted_insert p acc) acc l ↔ p ∈ acc ∨ p ∈ l.
Proof.
  revert acc. induction l as [|q l IH]; intros acc Hs; cbn.
  { split; [by left|]. by intros [?|?%elem_of_nil]. }
  rewrite IH by (by apply sorted_insert_sorted). rewrite elem_of_sorted_insert by done.
  rewrite elem_of_cons. tauto.
Qed.

Lemma after_after wm l : after wm (after wm l) = after wm l.
Proof.
  apply list_filter_id. intros x [Hx _]%list_elem_of_filter. done.
Qed.

Lemma after_id wm l : (∀ m, m ∈ l → wm < sent_at m) → after wm l = l.
Proof.
  intros Hl. apply list_filter_id. intros x Hx%Hl. lia.
Qed.

Lemma prune_fold_contents wm l (s : State) c :
  contents c (fold_left (prune_channel wm) l s) =
    (if decide (c ∈ l) then after wm (contents c s) else contents c s) ∧
  HrmpChannelDigests (fold_left (prune_channel wm) l s) = HrmpChannelDigests s.
Proof.
  revert s. induction l as [|d l IH]; intros s; cbn [fold_left]; [done|].
  destruct (prune_channel_spec wm s d) as (P1 & _ & _ & _ & _ & _ & P7 & _).
  destruct (IH (prune_channel wm s d)) as [-> ->]. split; [|done]. rewrite P1.
  destruct (decide (d = c)) as [->|Hne].
  - rewrite (decide_True (P := c ∈ c :: l)) by left. case_decide; [apply after_after|done].
  - destruct (decide (c ∈ l)) as [Hin|Hin].
    + by rewrite decide_True by (by right).
    + rewrite decide_False; [done|]. by intros [->|?]%elem_of_cons.
Qed.

Lemma prune_contents now r wm (s : State) c :
  messages_ok now s →
  contents c (prune_hrmp r wm s) =
    if decide (recipient c = r) then after wm (contents c s) else contents c s.
Proof.
  intros Hs. unfold prune_hrmp. set (senders := foldl _ _ _). set (s0 := set_contents _ _ s).
  set (l := fmap _ senders).
  change (contents c (set_watermarks _ _)) with (contents c (fold_left (prune_channel wm) l s0)).
  rewrite (proj1 (prune_fold_contents wm l s0 c)). change (contents c s0) with (contents c s).
  assert (c ∈ l ↔ recipient c = r ∧ sender c ∈ senders) as Hl.
  { unfold l. rewrite list_elem_of_fmap. destruct c as [a b]; cbn. naive_solver. }
  case_decide as Hc; case_decide as Hr; try done; [naive_solver|].
  symmetry. apply after_id. intros m Hm. apply Z.nle_gt. intros Hle. apply Hc, Hl. split; [done|].
  destruct (dig_covers _ _ Hs c m Hm) as (ps & Hd & Hp).
  unfold senders. rewrite elem_of_collect by constructor. right.
  apply elem_of_concat. exists ps. split; [done|]. apply list_elem_of_fmap.
  exists (sent_at m, ps). split; [done|]. rewrite list_elem_of_filter. by rewrite <-Hr.
Qed.

Lemma prune_messages_ok now r wm (s : State) : messages_ok now s → messages_ok now (prune_hrmp r wm s).
Proof.
  intros Hs.
  assert (∀ q, digest q (prune_hrmp r wm s) =
    if decide (r = q) then filter (λ e, ¬ e.1 ≤ wm) (digest q s) else digest q s) as Hd.
  { intros q. unfold prune_hrmp, digest at 1. set (l := fmap _ _). set (s0 := set_contents _ _ s).
    change (HrmpChannelDigests (set_watermarks _ _)) with
      (HrmpChannelDigests (fold_left (prune_channel wm) l s0)).
    rewrite (proj2 (prune_fold_contents wm l s0 (mkChannelId q q))). cbn. rewrite value_query_insert.
    case_decide; by subst. }
  split.
  - intros q. rewrite Hd. case_decide; [apply StronglySorted_fmap_filter|]; apply Hs.
  - intros q e. rewrite Hd. case_decide; [intros [_ He]%list_elem_of_filter; revert He|]; apply Hs.
  - intros c m. rewrite (prune_contents now r wm s c Hs), Hd. case_decide as Hr.
    + intros [Hm Hin]%list_elem_of_filter. destruct (dig_covers _ _ Hs c m Hin) as (ps & H1 & H2).
      exists ps. split; [|done]. rewrite decide_True by done. by apply list_elem_of_filter.
    + rewrite decide_False by done. apply Hs.
  - intros c. rewrite (prune_contents now r wm s c Hs).
    case_decide; [apply StronglySorted_fmap_filter|]; apply Hs.
Qed.

(** ** Queueing *)

Lemma push_digest_spec now p d :
  StronglySorted Z.lt (fst <$> d) → (∀ e, e ∈ d → e.1 ≤ now) →
  let d' := push_digest now p d in
  StronglySorted Z.lt (fst <$> d') ∧ (∀ e, e ∈ d' → e.1 ≤ now) ∧
  (∃ ps, (now, ps) ∈ d' ∧ p ∈ ps) ∧
  (∀ b ps q, (b, ps) ∈ d → q ∈ ps → ∃ ps', (b, ps') ∈ d' ∧ q ∈ ps').
Proof.
  intros Hs Hp. unfold push_digest. cbn zeta. destruct d as [|[b ps] l _] using rev_ind.
  { cbn. split_and!; [repeat constructor|by intros e ->%list_elem_of_singleton| |].
    - exists [p]. split; left.
    - by intros ? ? ? ?%elem_of_nil. }
  rewrite last_snoc. rewrite fmap_app in Hs. case_decide as Hb.
  - subst b. rewrite length_app. cbn. replace (length l + 1 - 1)%nat with (length l) by lia.
    rewrite take_app_length, fmap_app. split_and!; [exact Hs|..].
    + intros e [He| ->%list_elem_of_singleton]%elem_of_app; [|done]. apply Hp, elem_of_app. by left.
    + exists (ps ++ [p]). split; apply elem_of_app; right; left.
    + intros b ps' q [Hin|[= -> ->]%list_elem_of_singleton]%elem_of_app Hq.
      * exists ps'. split; [apply elem_of_app; by left|done].
      * exists (ps ++ [p]). split; apply elem_of_app; [right; left|by left].
  - assert (b < now) as Hlt.
    { assert (b ≤ now) by (apply (Hp (b, ps)), elem_of_app; right; left). lia. }
    split_and!.
    + rewrite fmap_app, fmap_app. apply StronglySorted_app_2; [|exact Hs|repeat constructor].
      intros x1 x2 Hx1 ->%list_elem_of_singleton. cbn.
      apply elem_of_app in Hx1 as [Hx1| ->%list_elem_of_singleton]; [|done].
      enough (x1 < b) by lia. eapply (StronglySorted_app_1_elem_of _ _ _ _ _ Hs Hx1). left.
    + intros e [He| ->%list_elem_of_singleton]%elem_of_app; [by apply Hp|done].
    + exists [p]. split; [apply elem_of_app; right|]; left.
    + intros b' ps' q Hin Hq. exists ps'. split; [apply elem_of_app; by left|done].
Qed.

Lemma queue_message_contents now p m (s : State) c :
  contents c (queue_message now p s m) =
    match HrmpChannels s !! c with
    | Some _ => if decide (c = mkChannelId p (out_recipient m))
                then contents c s ++ [mkInbound now (out_data m)] else contents c s
    | None => contents c s
    end.
Proof.
  unfold queue_message. destruct (HrmpChannels s !! mkChannelId p (out_recipient m)) as [ch|] eqn:E.
  - unfold contents. cbn. rewrite value_query_insert. destruct (decide (c = mkChannelId p (out_recipient m))) as [->|Hne].
    + by rewrite E, decide_True.
    + rewrite decide_False by done. by case_match.
  - repeat case_match; try done. congruence.
Qed.

Lemma queue_message_ok now p m (s : State) : messages_ok now s → messages_ok now (queue_message now p s m).
Proof.
  intros Hs. set (c0 := mkChannelId p (out_recipient m)).
  destruct (HrmpChannels s !! c0) as [ch|] eqn:E;
    [|unfold queue_message; fold c0; by rewrite E].
  set (s' := queue_message now p s m).
  assert (∀ q, digest q s' = if decide (recipient c0 = q) then push_digest now p (digest q s) else digest q s) as Hd.
  { intros q. unfold s', queue_message. fold c0. rewrite E. unfold digest. cbn.
    rewrite value_query_insert. case_decide; by subst. }
  assert (∀ c, contents c s' = if decide (c = c0) then contents c s ++ [mkInbound now (out_data m)]
                               else contents c s) as Hc.
  { intros c. unfold s'. rewrite queue_message_contents. fold c0.
    destruct (decide (c = c0)) as [->|]; [by rewrite E|by case_match]. }
  destruct (push_digest_spec now p (digest (recipient c0) s)) as (P1 & P2 & P3 & P4); [apply Hs..|].
  split.
  - intros q. rewrite Hd. case_decide; [by subst|apply Hs].
  - intros q e. rewrite Hd. case_decide; [subst; apply P2|apply Hs].
  - intros c x. rewrite Hc, Hd. destruct (decide (c = c0)) as [->|Hne].
    + rewrite decide_True by done. intros [Hx| ->%list_elem_of_singleton]%elem_of_app; [|exact P3].
      destruct (dig_covers _ _ Hs c0 x Hx) as (ps & H1 & H2). by apply (P4 _ ps).
    + intros Hx. destruct (dig_covers _ _ Hs c x Hx) as (ps & H1 & H2).
      destruct (decide (recipient c0 = recipient c)) as [Hr|]; [|by exists ps].
      rewrite <-Hr in H1 |- *. by apply (P4 _ ps).
  - intros c. rewrite Hc. case_decide; [|apply Hs]. rewrite fmap_app.
    apply StronglySorted_app_2; [|apply Hs|repeat constructor].
    intros x1 x2 Hx1 ->%list_elem_of_singleton. cbn. apply list_elem_of_fmap in Hx1 as (x & -> & Hx).
    destruct (dig_covers _ _ Hs c x Hx) as (ps & H1 & _). apply (dig_past _ _ Hs _ _ H1).
Qed.

Lemma queue_messages_ok now p msgs (s : State) :
  messages_ok now s → messages_ok now (queue_outbound_hrmp now p msgs s).
Proof.
  unfold queue_outbound_hrmp. revert s. induction msgs as [|m msgs IH]; intros s Hs; [done|].
  cbn. apply IH. by apply queue_message_ok.
Qed.

(** ** Limits *)

(** Limits whose sums do not leave the width of the counters. *)
Definition roomy (config : HostConfiguration) : Prop :=
  hrmp_channel_max_capacity config < u32_max ∧ 0 ≤ hrmp_channel_max_total_size config ∧
  hrmp_channel_max_total_size config + hrmp_channel_max_message_size config ≤ u32_max.

Definition within (ch : HrmpChannel (H := H)) (l : list InboundHrmpMessage) : Prop :=
  max_capacity ch < u32_max ∧
  (0 ≤ max_message_size ch ∧ max_total_size ch + max_message_size ch ≤ u32_max) ∧
  Z.of_nat (length l) ≤ max_capacity ch ∧ bytes l ≤ max_total_size ch.

Definition request_within (r : HrmpOpenChannelRequest) : Prop :=
  0 ≤ req_max_capacity r < u32_max ∧ 0 ≤ req_max_total_size r ∧ 0 ≤ req_max_message_size r ∧
  req_max_total_size r + req_max_message_size r ≤ u32_max.

Record limits_ok (s : State) : Prop := {
  lim_channels c ch : HrmpChannels s !! c = Some ch → within ch (contents c s);
  lim_requests c r : HrmpOpenChannelRequests s !! c = Some r → request_within r;
}.

Lemma within_nil ch l : within ch l → within ch [].
Proof.
  intros (H1 & H2 & H3 & H4). pose proof (bytes_nonneg l). unfold within. change (bytes []) with 0.
  split_and!; cbn; tauto || lia.
Qed.

(** Steps that send nothing: messages are kept or dropped with their channel,
    and a channel is an old one or comes from a request. *)
Record quiet (s s' : State) : Prop := {
  qu_digests : HrmpChannelDigests s' = HrmpChannelDigests s;
  qu_contents c : contents c s' = contents c s ∨ contents c s' = [];
  qu_channels c ch : HrmpChannels s' !! c = Some ch →
    HrmpChannels s !! c = Some ch ∨ ∃ config paras, opened config paras c s = Some ch;
  qu_requests c r : HrmpOpenChannelRequests s' !! c = Some r →
    ∃ r0, HrmpOpenChannelRequests s !! c = Some r0 ∧ req_max_capacity r = req_max_capacity r0 ∧
      req_max_total_size r = req_max_total_size r0 ∧ req_max_message_size r = req_max_message_size r0;
}.

Lemma quiet_messages_ok now s s' : quiet s s' → messages_ok now s → messages_ok now s'.
Proof.
  intros Hq Hs. assert (∀ r, digest r s' = digest r s) as Hd
    by (intros r; unfold digest; by rewrite (qu_digests _ _ Hq)).
  split.
  - intros r. rewrite Hd. apply Hs.
  - intros r. rewrite Hd. apply Hs.
  - intros c m. rewrite Hd. destruct (qu_contents _ _ Hq c) as [->| ->]; [apply Hs|by intros ?%elem_of_nil].
  - intros c. destruct (qu_contents _ _ Hq c) as [->| ->]; [apply Hs|constructor].
Qed.

Lemma quiet_limits_ok s s' : channels_ok s → quiet s s' → limits_ok s → limits_ok s'.
Proof.
  intros Hok Hq Hs. split.
  - intros c ch Hch. destruct (qu_channels _ _ Hq c ch Hch) as [Hold|(config & paras & Hop)].
    + pose proof (lim_channels _ Hs c ch Hold) as Hw.
      destruct (qu_contents _ _ Hq c) as [->| ->]; [done|by eapply within_nil].
    + unfold opened in Hop. destruct (HrmpOpenChannelRequests s !! c) as [r|] eqn:E; [|done].
      destruct (_ && _); simplify_eq. destruct (lim_requests _ Hs c r E) as (R1 & R2 & R3 & R4).
      assert (contents c s' = []) as ->.
      { destruct (qu_contents _ _ Hq c) as [->| ->]; [|done]. apply contents_none, Hok, Hok. by eexists. }
      split_and!; cbn; try lia. change (bytes []) with 0. lia.
  - intros c r Hr. destruct (qu_requests _ _ Hq c r Hr) as (r0 & E & E1 & E2 & E3).
    unfold request_within. rewrite E1, E2, E3. by apply (lim_requests _ Hs c).
Qed.

Lemma quiet_same s s' :
  HrmpChannelDigests s' = HrmpChannelDigests s → HrmpChannelContents s' = HrmpChannelContents s →
  HrmpChannels s' = HrmpChannels s →
  (∀ c r, HrmpOpenChannelRequests s' !! c = Some r →
    ∃ r0, HrmpOpenChannelRequests s !! c = Some r0 ∧ req_max_capacity r = req_max_capacity r0 ∧
      req_max_total_size r = req_max_total_size r0 ∧ req_max_message_size r = req_max_message_size r0) →
  quiet s s'.
Proof.
  intros E1 E2 E3 Hr. split; [done| | |done].
  - intros c. left. unfold contents. by rewrite E2.
  - intros c ch. rewrite E3. by left.
Qed.

(** Closing keeps or drops the contents of a channel, and leaves the digests. *)
Definition drops (s s' : State) : Prop :=
  HrmpChannelDigests s' = HrmpChannelDigests s ∧ ∀ c, contents c s' = contents c s ∨ contents c s' = [].

Lemma drops_trans s1 s2 s3 : drops s1 s2 → drops s2 s3 → drops s1 s3.
Proof.
  intros [E1 H1] [E2 H2]. split; [congruence|]. intros c.
  destruct (H2 c) as [->| ->]; [apply H1|by right].
Qed.

Lemma drops_same s s' :
  HrmpChannelDigests s' = HrmpChannelDigests s → HrmpChannelContents s' = HrmpChannelContents s → drops s s'.
Proof. intros E1 E2. split; [done|]. intros c. left. unfold contents. by rewrite E2. Qed.

Lemma close_drops c (w : World) : drops (hrmp w) (hrmp (close_hrmp_channel c w)).
Proof.
  destruct (close_spec c w) as (_ & C2 & _ & _ & _ & _ & _ & _ & C9 & _). split; [done|].
  intros d. unfold contents. rewrite C2, value_query_delete. case_decide; [by right|by left].
Qed.

Lemma close_all_drops l (w : World) : drops (hrmp w) (hrmp (close_all l w)).
Proof.
  revert w. induction l as [|c l IH]; intros w; [by apply drops_same|].
  eapply drops_trans; [apply close_drops|apply IH].
Qed.

Lemma outgoing_drops p (w : World) : drops (hrmp w) (hrmp (clean_hrmp_after_outgoing p w)).
Proof.
  unfold clean_hrmp_after_outgoing. set (w0 := on_hrmp (λ s, set_channels _ _ _ s) _).
  apply (drops_trans _ (hrmp w0)); [by apply drops_same|apply close_all_drops].
Qed.

Lemma process_close_drops (w : World) : drops (hrmp w) (hrmp (process_hrmp_close_channel_requests w)).
Proof.
  unfold process_hrmp_close_channel_requests. set (w0 := on_hrmp _ w).
  apply (drops_trans _ (hrmp w0)); [by apply drops_same|]. clearbody w0.
  generalize (HrmpCloseChannelRequestsList (hrmp w)). intros l. revert w0.
  induction l as [|c l IH]; intros w0; [by apply drops_same|]. cbn [fold_left].
  eapply drops_trans; [|apply IH]. eapply drops_trans; [|apply close_drops]. by apply drops_same.
Qed.

Lemma open_loop_drops config paras idx l (s : State) l' s' :
  open_loop config paras idx l s = Some (l', s') → drops s s'.
Proof.
  revert l s. induction idx as [|idx IH]; intros l s Hrun; cbn in Hrun; [simplify_eq; by apply drops_same|].
  destruct (l !! idx) as [c|]; cbn in Hrun; [|done].
  destruct (HrmpOpenChannelRequests s !! c) as [r|]; cbn in Hrun; [|done].
  destruct (confirmed r); [|by eapply IH]. eapply drops_trans; [|by eapply IH].
  apply drops_same; by destruct (_ && _).
Qed.

Lemma process_open_drops config paras (s s' : State) :
  process_hrmp_open_channel_requests config paras s = Some s' → drops s s'.
Proof.
  unfold process_hrmp_open_channel_requests.
  destruct (HrmpOpenChannelRequestsList s); [intros [= <-]; by apply drops_same|].
  destruct (open_loop _ _ _ _ _) as [[l1 s1]|] eqn:E; cbn; [|done]. intros [= <-].
  eapply drops_trans; [by eapply open_loop_drops|]. by apply drops_same.
Qed.

Lemma clean_requests_drops config outgoing (w : World) :
  drops (hrmp w) (hrmp (clean_open_channel_requests config outgoing w)).
Proof.
  unfold clean_open_channel_requests. set (w0 := on_hrmp _ w).
  apply (drops_trans _ (hrmp w0)); [by apply drops_same|]. clearbody w0. match goal with |- drops _ (hrmp (fold_left _ ?go _)) => generalize go end.
  intros l. revert w0.
  induction l as [|c l IH]; intros w0; [by apply drops_same|]. cbn [fold_left].
  eapply drops_trans; [|apply IH]. unfold clean_request.
  destruct (HrmpOpenChannelRequests (hrmp w0) !! c) as [r|]; [|by apply drops_same].
  apply drops_same; destruct (confirmed r); repeat case_decide; done.
Qed.

(** ** The messages of a candidate *)

Lemma queue_message_limits now p m (s : State) ch :
  channels_ok s → limits_ok s →
  HrmpChannels s !! mkChannelId p (out_recipient m) = Some ch →
  Z.of_nat (length (out_data m)) ≤ u32_max → len32 (out_data m) ≤ max_message_size ch →
  u32_add (total_size ch) (len32 (out_data m)) ≤ max_total_size ch →
  u32_add (msg_count ch) 1 ≤ max_capacity ch →
  limits_ok (queue_message now p s m).
Proof.
  intros Hok Hs Hch Hlen Hsize Htotal Hcap. set (c := mkChannelId p (out_recipient m)) in *.
  destruct (lim_channels _ Hs c ch Hch) as (L1 & L2 & L3 & L4).
  destruct (ch_counts _ Hok c ch Hch) as [E1 E2].
  pose proof (bytes_nonneg (contents c s)) as Hnn.
  assert (len32 (out_data m) = Z.of_nat (length (out_data m))) as El
    by (unfold len32; apply wrap32_small; unfold is_u32; lia).
  rewrite El in *.
  rewrite E1, wrap32_small in Hcap by (unfold is_u32; lia).
  rewrite E2, wrap32_small in Htotal by (unfold is_u32; lia).
  unfold u32_add in Hcap, Htotal. rewrite wrap32_small in Hcap by (unfold is_u32; lia).
  rewrite wrap32_small in Htotal by (unfold is_u32; lia).
  split.
  - intros d ch'. rewrite queue_message_contents. unfold queue_message. fold c. rewrite Hch. cbn.
    rewrite lookup_insert. destruct (decide (c = d)) as [<-|Hne].
    + intros [= <-]. rewrite Hch, decide_True by done. split_and!; cbn; try tauto.
      * rewrite length_app. cbn. lia.
      * rewrite bytes_app. change (bytes [mkInbound now (out_data m)]) with (Z.of_nat (length (out_data m)) + 0). lia.
    + intros Hd. rewrite Hd. rewrite decide_False by done. by apply Hs.
  - intros d r. unfold queue_message. fold c. rewrite Hch. cbn. apply Hs.
Qed.

Lemma queue_within now p msgs last idx (s0 s : State) :
  Forall (λ m, Z.of_nat (length (out_data m)) ≤ u32_max) msgs →
  check_messages p s0 idx last msgs = Ok tt →
  (∀ c, (∀ r, last = Some r → r < recipient c) → HrmpChannels s !! c = HrmpChannels s0 !! c) →
  channels_ok s → limits_ok s → limits_ok (queue_outbound_hrmp now p msgs s).
Proof.
  unfold queue_outbound_hrmp. revert last idx s. induction msgs as [|m msgs IH]; intros last idx s Hl Hc Hsame Hok Hs;
    [done|]. cbn [fold_left]. inversion Hl as [|? ? Hm Hl']; subst. cbn [check_messages] in Hc.
  set (c := mkChannelId p (out_recipient m)) in *.
  destruct (match last with Some r => bool_decide (out_recipient m ≤ r) | None => false end) eqn:Elast; [done|].
  destruct (HrmpChannels s0 !! c) as [ch|] eqn:Ech; [|done].
  assert (∀ r, last = Some r → r < out_recipient m) as Hlast.
  { intros r ->. apply bool_decide_eq_false in Elast. lia. }
  assert (HrmpChannels s !! c = Some ch) as Hch by (rewrite Hsame; [done|exact Hlast]).
  destruct (decide (max_message_size ch < len32 (out_data m))); [done|].
  destruct (decide (max_total_size ch < _)); [done|]. destruct (decide (max_capacity ch < _)); [done|].
  apply (IH (Some (out_recipient m)) (idx + 1)); [done|done| |by apply channels_ok_queue_message|].
  - intros d Hd. rewrite <-Hsame.
    + unfold queue_message. fold c. rewrite Hch. cbn. rewrite lookup_insert_ne; [done|].
      intros <-. specialize (Hd _ eq_refl). cbn in Hd. lia.
    + intros r Hr. specialize (Hd _ eq_refl). specialize (Hlast r Hr). lia.
  - apply (queue_message_limits now p m s ch); try done; lia.
Qed.

(** ** The pallet over time *)

(** Blocks pass, calls are made under roomy configurations, sessions change,
    and the messages of candidates that passed the check are queued. *)
Inductive tick : BlockNumber * World → BlockNumber * World → Prop :=
| tick_block now now' w : now ≤ now' → tick (now, w) (now', w)
| tick_call config paras now p origin call w : roomy config →
    tick (now, w) (now, (run p (dispatch encode_xcm config paras now origin call) w).1)
| tick_session config paras outgoing now w w' :
    initializer_on_new_session config paras outgoing w = Some w' → tick (now, w) (now, w')
| tick_prune now r wm w : tick (now, w) (now, on_hrmp (prune_hrmp r wm) w)
| tick_queue config now p msgs w :
    check_outbound_hrmp config p msgs (hrmp w) = Ok tt →
    Forall (λ m, Z.of_nat (length (out_data m)) ≤ u32_max) msgs →
    tick (now, w) (now, on_hrmp (queue_outbound_hrmp now p msgs) w).

Record all_ok (now : BlockNumber) (s : State) : Prop := {
  ok_channels : channels_ok s;
  ok_requests : requests_ok s;
  ok_messages : messages_ok now s;
  ok_limits : limits_ok s;
}.

Lemma tick_step p q : tick p q → (p.1 ≤ q.1 ∧ p.2 = q.2) ∨ step encode_xcm p.2 q.2.
Proof. destruct 1; [by left|right..]; cbn; by econstructor. Qed.

Definition fine (now : BlockNumber) (w : World) : Prop := messages_ok now (hrmp w) ∧ limits_ok (hrmp w).

Lemma init_all_ok config paras now o r cap size (w : World) :
  roomy config → messages_ok now (hrmp w) → limits_ok (hrmp w) →
  fine now (init_open_channel encode_xcm config paras now o r cap size w).1.
Proof.
  intros (R1 & R2 & R3) Hm Hl. unfold fine, init_open_channel, reserve_deposit, notify. unfold_dispatch.
  repeat (case_match; cbn in *; simplify_eq); try done; case_storage;
    (split; [by destruct Hm; split|]); (split; [apply Hl|]); cbn; intros d x; rewrite lookup_insert;
    (destruct (decide (mkChannelId o r = d)); [intros [= <-]|apply Hl]);
    unfold request_within; cbn; lia.
Qed.

Lemma event_all_ok now e (m : Dispatch World Error) w :
  fine now (m w).1 → fine now ((m ;; deposit_event e) w).1.
Proof.
  unfold fine, deposit_event. unfold_dispatch. destruct (m w) as [w' [[]|err]]; cbn; [|done].
  intros [[H1 H2 H3 H4] [L1 L2]]. by split; split.
Qed.

Lemma quiet_all_ok now (w w' : World) :
  channels_ok (hrmp w) → fine now w → quiet (hrmp w) (hrmp w') → fine now w'.
Proof. intros Hok [Hm Hl] Hq. split; [by eapply quiet_messages_ok|by eapply quiet_limits_ok]. Qed.

Lemma quiet_drops (s s' : State) :
  drops s s' →
  (∀ c ch, HrmpChannels s' !! c = Some ch →
     HrmpChannels s !! c = Some ch ∨ ∃ config paras, opened config paras c s = Some ch) →
  (∀ c r, HrmpOpenChannelRequests s' !! c = Some r → HrmpOpenChannelRequests s !! c = Some r) →
  quiet s s'.
Proof. intros [H1 H2] H3 H4. split; try done. intros c r Hr%H4. by exists r. Qed.

Lemma accept_quiet config paras now o p (w : World) :
  quiet (hrmp w) (hrmp (accept_open_channel encode_xcm config paras now o p w).1).
Proof.
  unfold accept_open_channel, reserve_deposit, notify. unfold_dispatch.
  destruct (HrmpOpenChannelRequests (hrmp w) !! mkChannelId p o) as [req|] eqn:Er; cbn;
    [|apply quiet_same; eauto].
  repeat (case_match; cbn in *; simplify_eq); apply quiet_same; cbn; eauto;
    intros d r; rewrite lookup_insert; (destruct (decide (mkChannelId p o = d)) as [<-|]; [|eauto]);
    intros [= <-]; by exists req.
Qed.

Lemma cancel_quiet o c (w : World) : quiet (hrmp w) (hrmp (cancel_open_request o c w).1).
Proof.
  unfold cancel_open_request. unfold_dispatch.
  repeat (case_match; cbn in *; simplify_eq); apply quiet_same; cbn; eauto;
    intros d r; rewrite lookup_delete; (case_decide; [done|]); eauto.
Qed.

Lemma close_quiet config now o c (w : World) :
  quiet (hrmp w) (hrmp (close_channel encode_xcm config now o c w).1).
Proof.
  unfold close_channel, notify. unfold_dispatch.
  repeat (case_match; cbn in *; simplify_eq); apply quiet_same; cbn; eauto.
Qed.

Lemma force_clean_quiet p (w : World) : channels_ok (hrmp w) → quiet (hrmp w) (hrmp (clean_hrmp_after_outgoing p w)).
Proof.
  intros Hok. destruct (outgoing_spec p w Hok) as ([O1 _] & _ & O3). apply quiet_drops.
  - apply outgoing_drops.
  - intros c ch. rewrite O3. case_match; [done|by left].
  - intros c r. by rewrite O1.
Qed.

Lemma process_open_quiet config paras (s s' : State) :
  requests_ok s → process_hrmp_open_channel_requests config paras s = Some s' → quiet s s'.
Proof.
  intros Hr Hrun. destruct (process_open_spec config paras s Hr) as (s1 & Hrun' & _ & P2 & P3 & _).
  simplify_eq. apply quiet_drops; [by eapply process_open_drops|..].
  - intros c ch. rewrite P3. destruct (opened config paras c s) eqn:E; cbn; [|by left].
    intros [= <-]. right. eauto.
  - intros c r. rewrite P2. by case_match.
Qed.

Lemma process_close_quiet (w : World) : quiet (hrmp w) (hrmp (process_hrmp_close_channel_requests w)).
Proof.
  destruct (process_close_spec w) as ([C1 _] & C2). apply quiet_drops; [apply process_close_drops|..].
  - intros c ch. rewrite C2. case_decide; [done|by left].
  - intros c r. by rewrite C1.
Qed.

Lemma session_quiet config paras outgoing (w w' : World) :
  channels_ok (hrmp w) → requests_ok (hrmp w) →
  initializer_on_new_session config paras outgoing w = Some w' → quiet (hrmp w) (hrmp w').
Proof.
  intros Hok Hr Hrun.
  destruct (session_spec config paras outgoing w Hok Hr) as (w1 & Hrun' & _ & S1 & S2). simplify_eq.
  apply quiet_drops.
  - rename Hrun into Hrun'. unfold initializer_on_new_session, perform_outgoing_para_cleanup in Hrun'.
    apply (drops_trans _ (hrmp (clean_open_channel_requests config outgoing w))); [apply clean_requests_drops|].
    revert Hrun'. generalize (clean_open_channel_requests config outgoing w). intros w0 Hrun'.
    apply (drops_trans _ (hrmp (fold_left (λ w p, clean_hrmp_after_outgoing p w) outgoing w0))).
    { clear. revert w0. induction outgoing as [|p l IH]; intros w0; [by apply drops_same|].
      eapply drops_trans; [apply outgoing_drops|apply IH]. }
    destruct (process_hrmp_open_channel_requests _ _ _) as [s1|] eqn:E; cbn in Hrun'; [|done]. simplify_eq.
    eapply drops_trans; [by eapply process_open_drops|apply (process_close_drops (mkWorld s1 _ _))].
  - intros c ch. rewrite S2. repeat case_match; try done.
    destruct (opened config paras c (hrmp w)) eqn:E; cbn; [|by left]. intros [= <-]. right. eauto.
  - intros c r. rewrite S1. by case_match.
Qed.

Lemma dispatch_all_ok config paras now origin call (w : World) :
  roomy config → channels_ok (hrmp w) → requests_ok (hrmp w) →
  fine now w → fine now (dispatch encode_xcm config paras now origin call w).1.
Proof.
  intros Hc Hok Hr Hw. destruct call; cbn; unfold or_bad_origin, lift, ok_or, mbind at 1, M_bind at 1;
    destruct origin; cbn; try done.
  - destruct Hw. apply event_all_ok. by apply init_all_ok.
  - apply event_all_ok. eapply quiet_all_ok; [done|done|apply accept_quiet].
  - apply event_all_ok. eapply quiet_all_ok; [done|done|apply close_quiet].
  - eapply quiet_all_ok; [done|done|by apply force_clean_quiet].
  - unfold or_panic, process_open.
    destruct (process_hrmp_open_channel_requests _ _ _) as [s1|] eqn:E; cbn; [|done].
    apply (quiet_all_ok now w (mkWorld s1 _ _)); [done|done|by eapply process_open_quiet].
  - eapply quiet_all_ok; [done|done|apply process_close_quiet].
  - unfold mbind, M_bind, get, ensure. cbn. case_match; cbn; [|done].
    apply event_all_ok. eapply quiet_all_ok; [done|done|apply cancel_quiet].
Qed.

Lemma prune_limits_ok now r wm (s : State) : messages_ok now s → limits_ok s → limits_ok (prune_hrmp r wm s).
Proof.
  intros Hm Hs. split.
  - intros c ch Hch.
    assert (∃ ch0, HrmpChannels s !! c = Some ch0 ∧ max_capacity ch = max_capacity ch0 ∧
      max_total_size ch = max_total_size ch0 ∧ max_message_size ch = max_message_size ch0) as (ch0 & E & E1 & E2 & E3).
    { unfold prune_hrmp in Hch. revert Hch. set (l := fmap _ _). set (s0 := set_contents _ _ s).
      change (HrmpChannels (set_watermarks _ _)) with (HrmpChannels (fold_left (prune_channel wm) l s0)).
      change (HrmpChannels s) with (HrmpChannels s0). clearbody s0 l. clear. revert s0 ch.
      induction l as [|d l IH]; intros s0 ch Hch; [by exists ch|]. cbn [fold_left] in Hch.
      apply IH in Hch as (ch1 & E & E1 & E2 & E3).
      destruct (prune_channel_spec wm s0 d) as (_ & _ & P3 & _). rewrite P3 in E.
      case_decide; [|eauto]. destruct (HrmpChannels s0 !! c) as [ch0|]; [|done]. cbn in E. simplify_eq.
      exists ch0. cbn in *. eauto. }
    destruct (lim_channels _ Hs c ch0 E) as (L1 & L2 & L3 & L4). unfold within. rewrite E1, E2, E3.
    rewrite (prune_contents now r wm s c Hm). case_decide; [|done].
    pose proof (split_counts wm (contents c s)) as [S1 S2].
    pose proof (bytes_nonneg (filter (λ m, sent_at m ≤ wm) (contents c s))).
    split_and!; tauto || lia.
  - intros c x. destruct (prune_requests r wm s) as [E _]. rewrite E. apply Hs.
Qed.

Lemma messages_ok_later now now' (s : State) : now ≤ now' → messages_ok now s → messages_ok now' s.
Proof.
  intros Hle [M1 M2 M3 M4]. split; try done. intros r e He. specialize (M2 r e He). lia.
Qed.

Lemma tick_all_ok p q : tick p q → all_ok p.1 (hrmp p.2) → all_ok q.1 (hrmp q.2).
Proof.
  intros Ht [Hok Hr Hm Hl]. destruct (tick_step _ _ Ht) as [Heq|Hs].
  - destruct Heq as [Hle <-]. split; try done. by eapply messages_ok_later.
  - assert (messages_ok q.1 (hrmp q.2) ∧ limits_ok (hrmp q.2)) as [Hm' Hl'];
      [|split; [by eapply step_channels_ok|by eapply step_requests_ok|done|done]].
    clear Hs. destruct Ht as [now now' w Hle|config paras now pr origin call w Hc|
      config paras outgoing now w w' Hrun|now r wm w|config now p msgs w Hc Hlen]; cbn in *.
    + split; [by eapply messages_ok_later|done].
    + apply (run_preserves (fine now)); [done|].
      by apply dispatch_all_ok.
    + apply (quiet_all_ok now w w'); [done|done|by eapply session_quiet].
    + split; [by apply prune_messages_ok|by eapply prune_limits_ok].
    + split; [by apply queue_messages_ok|]. unfold check_outbound_hrmp in Hc. case_decide; [done|].
      by eapply queue_within.
Qed.

Lemma reachable_all_ok now0 d b now (w : World) :
  rtc tick (now0, mkWorld empty_state d b) (now, w) → all_ok now (hrmp w).
Proof.
  intros Hrtc. assert (all_ok now0 (hrmp (mkWorld empty_state d b))) as H0.
  { split; [exact empty_channels_ok|..].
    - split; cbn; [constructor|]. intros c. rewrite lookup_empty. split; [by intros ?%elem_of_nil|by intros [? ?]].
    - split; unfold digest, contents; cbn; intros *; try constructor; by intros ?%elem_of_nil.
    - split; cbn; intros c x; by rewrite lookup_empty. }
  change now with (now, w).1. change (hrmp w) with (hrmp (now, w).2).
  change now0 with (now0, mkWorld empty_state d b).1 in H0. revert H0.
  change (hrmp (mkWorld empty_state d b)) with (hrmp (now0, mkWorld empty_state d b).2).
  revert Hrtc. generalize (now0, mkWorld empty_state d b) (now, w). clear.
  intros p q. induction 1; eauto using tick_all_ok.
Qed.

(** Pruning by digest is pruning: on every state the pallet can reach,
    advancing the watermark of a recipient leaves in each of its channels
    exactly the messages sent after the watermark, in order, and changes no
    other channel, although only the channels of the senders the digest names
    are visited. *)
Theorem prune_is_filter now0 d b now w r wm c :
  rtc tick (now0, mkWorld empty_state d b) (now, w) →
  contents c (prune_hrmp r wm (hrmp w)) =
    if decide (recipient c = r) then filter (λ m, ¬ sent_at m ≤ wm) (contents c (hrmp w))
    else contents c (hrmp w).
Proof. intros Hw%reachable_all_ok. by apply (prune_contents now), ok_messages. Qed.

(** Channels stay within their limits: as long as only the messages of
    checked candidates are queued, a channel never holds more messages, nor
    more bytes, than it was opened for, and its counters are exact. *)
Theorem channel_limits_kept now0 d b now w c ch :
  rtc tick (now0, mkWorld empty_state d b) (now, w) →
  HrmpChannels (hrmp w) !! c = Some ch →
  msg_count ch = Z.of_nat (length (contents c (hrmp w))) ∧ msg_count ch ≤ max_capacity ch ∧
  total_size ch = bytes (contents c (hrmp w)) ∧ total_size ch ≤ max_total_size ch.
Proof.
  intros Hw%reachable_all_ok Hch. destruct (lim_channels _ (ok_limits _ _ Hw) c ch Hch) as (L1 & L2 & L3 & L4).
  destruct (ch_counts _ (ok_channels _ _ Hw) c ch Hch) as [-> ->].
  pose proof (bytes_nonneg (contents c (hrmp w))).
  rewrite !wrap32_small by (unfold is_u32; lia). done.
Qed.
End Pallet.

(** ** Examples *)

Section Examples.
#[local] Existing Instance Hrmp.example_hash.
#[local] Existing Instance Hrmp.example_currency.

Lemma example_roomy : roomy example_config.
Proof. unfold roomy. vm_compute. repeat split; discriminate. Qed.

(** A second message, two blocks later. *)
Definition world5 := on_hrmp (queue_outbound_hrmp 7 2000 [mkOutbound 3000 [Byte.x03]]) world4.

Lemma world5_reachable :
  rtc (tick (λ _, [])) (1, mkWorld empty_state Dmp.empty_state {[2000 := 10; 3000 := 10]}) (7, world5).
Proof.
  pose proof example_roomy as Hc.
  apply (rtc_l _ _ (1, world1)); [by apply (tick_call _ _ _ _ Layered)|].
  apply (rtc_l _ _ (2, world1)); [by apply tick_block|].
  apply (rtc_l _ _ (2, world2)); [by apply (tick_call _ _ _ _ Layered)|].
  apply (rtc_l _ _ (2, world3)); [apply (tick_session _ example_config example_paras []); vm_compute; reflexivity|].
  apply (rtc_l _ _ (5, world3)); [by apply tick_block|].
  apply (rtc_l _ _ (5, world4)); [apply (tick_queue _ example_config);
    [vm_compute; reflexivity|repeat constructor; vm_compute; discriminate]|].
  apply (rtc_l _ _ (7, world4)); [by apply tick_block|].
  apply rtc_once. apply (tick_queue _ example_config);
    [vm_compute; reflexivity|repeat constructor; vm_compute; discriminate].
Qed.

Lemma prune_is_filter_witness :
  contents example_channel (prune_hrmp 3000 5 (hrmp world5)) = [mkInbound 7 [Byte.x03]].
Proof.
  rewrite (prune_is_filter _ _ _ _ _ _ _ _ _ world5_reachable). vm_compute. reflexivity.
Defined.

Lemma channel_limits_kept_witness :
  ∃ ch, HrmpChannels (hrmp world5) !! example_channel = Some ch ∧
    msg_count ch = 2 ∧ msg_count ch ≤ max_capacity ch ∧ total_size ch ≤ max_total_size ch.
Proof.
  destruct (HrmpChannels (hrmp world5) !! example_channel) as [ch|] eqn:E; [|vm_compute in E; discriminate].
  destruct (channel_limits_kept _ _ _ _ _ _ _ _ world5_reachable E) as (H1 & H2 & _ & H4).
  exists ch. split; [reflexivity|]. split; [rewrite H1; vm_compute; reflexivity|]. split; [exact H2|exact H4].
Defined.
End Examples.
End HrmpMessages.
