(* ===== verification/Scheduler.v ===== *)
(** * The scheduler

    [runtime/parachains/src/scheduler.rs] and the group rotation of
    [primitives/src/v2/mod.rs]: which para each availability core works for,
    which group of validators serves it, and the queue of claims of
    parathreads.  The list of parachains, the life cycles of paras and the
    configuration are read from the other pallets.  Indices of cores, groups
    and validators are natural numbers; their number is a [u32].  A value of
    type [option] around a state is [None] when the code panics. *)

From S2P Require Import Prelude.
From S2P Require Import Vectors.
From S2P Require Import Frame.
From S2P Require Import Configuration.
From S2P Require Import Paras.

Module Scheduler.

Abbreviation CoreIndex := nat.
Abbreviation GroupIndex := nat.
Abbreviation ValidatorIndex := nat.

Section Pallet.
Context {CollatorId : Type}.

Record ParathreadClaim := mkClaim { claim_para : ParaId; claim_collator : CollatorId }.
Record ParathreadEntry := mkEntry { claim : ParathreadClaim; retries : Z }.
Inductive CoreOccupied := OccupiedParathread (e : ParathreadEntry) | OccupiedParachain.
Record ScheduledCore := mkScheduledCore { core_para_id : ParaId; core_collator : option CollatorId }.

(** ** The queue of claims *)

Record QueuedParathread := mkQueued { queued_claim : ParathreadEntry; core_offset : Z }.
Record ParathreadClaimQueue := mkQueue { queue : list QueuedParathread; next_core_offset : Z }.

(** The remainder panics on zero. *)
Definition enqueue_entry (entry : ParathreadEntry) (n_parathread_cores : Z) (q : ParathreadClaimQueue) :
    option ParathreadClaimQueue :=
  if decide (n_parathread_cores = 0) then None
  else Some (mkQueue (queue q ++ [mkQueued entry (next_core_offset q)])
               (u32_add (next_core_offset q) 1 `mod` n_parathread_cores)).

Definition position_on_core (offset : Z) (q : ParathreadClaimQueue) : option nat :=
  position (λ queued, bool_decide (core_offset queued = offset)) (queue q).

Definition take_next_on_core (offset : Z) (q : ParathreadClaimQueue) :
    ParathreadClaimQueue * option ParathreadEntry :=
  match position_on_core offset q with
  | Some i => (mkQueue (delete i (queue q)) (next_core_offset q), queued_claim <$> queue q !! i)
  | None => (q, None)
  end.

Definition get_next_on_core (offset : Z) (q : ParathreadClaimQueue) : option ParathreadEntry :=
  i ← position_on_core offset q; queued_claim <$> queue q !! i.

Inductive FreedReason := Concluded | TimedOut.
Inductive AssignmentKind := KindParachain | KindParathread (collator : CollatorId) (retries_ : Z).

Record CoreAssignment := mkAssignment {
  core : CoreIndex;
  para_id : ParaId;
  kind : AssignmentKind;
  group_idx : GroupIndex;
}.

Definition required_collator (a : CoreAssignment) : option CollatorId :=
  match kind a with KindParachain => None | KindParathread id _ => Some id end.

Definition to_core_occupied (a : CoreAssignment) : CoreOccupied :=
  match kind a with
  | KindParachain => OccupiedParachain
  | KindParathread collator r => OccupiedParathread (mkEntry (mkClaim (para_id a) collator) r)
  end.

(** ** Storage *)

Record State := mkState {
  ValidatorGroups : list (list ValidatorIndex);
  ParathreadQueue : ParathreadClaimQueue;
  AvailabilityCores : list (option CoreOccupied);
  ParathreadClaimIndex : list ParaId;
  SessionStartBlock : BlockNumber;
  Scheduled : list CoreAssignment;
}.

Definition empty_state : State := mkState [] (mkQueue [] 0) [] [] 0 [].

Definition set_queue q (s : State) : State :=
  mkState (ValidatorGroups s) q (AvailabilityCores s) (ParathreadClaimIndex s) (SessionStartBlock s) (Scheduled s).
Definition set_cores c (s : State) : State :=
  mkState (ValidatorGroups s) (ParathreadQueue s) c (ParathreadClaimIndex s) (SessionStartBlock s) (Scheduled s).
Definition set_index i (s : State) : State :=
  mkState (ValidatorGroups s) (ParathreadQueue s) (AvailabilityCores s) i (SessionStartBlock s) (Scheduled s).
Definition set_scheduled l (s : State) : State :=
  mkState (ValidatorGroups s) (ParathreadQueue s) (AvailabilityCores s) (ParathreadClaimIndex s)
    (SessionStartBlock s) l.

(** ** A new session *)

Definition n_cores_for (config : HostConfiguration) (n_parachains n_validators : nat) : Z :=
  Z.max (u32_add (wrap32 (Z.of_nat n_parachains)) (parathread_cores config))
    match max_validators_per_core config with
    | Some x => if decide (x ≠ 0) then wrap32 (Z.of_nat n_validators) `div` x else 0
    | None => 0
    end.

(** The claims on cores that were occupied, in core order. *)
Definition occupied_claims (cores : list (option CoreOccupied)) : list ParathreadEntry :=
  omap (λ c, match c with Some (OccupiedParathread e) => Some e | _ => None end) cores.

Definition make_groups (n_validators n_cores : nat) : list (list ValidatorIndex) :=
  if decide (n_cores = 0 ∨ n_validators = 0)%nat then []
  else
    let group_base_size := (n_validators / n_cores)%nat in
    let n_larger_groups := (n_validators mod n_cores)%nat in
    ((λ i, seq ((group_base_size + 1) * i) (group_base_size + 1)) <$> seq 0 n_larger_groups) ++
    ((λ i, seq (n_larger_groups * (group_base_size + 1) + i * group_base_size) group_base_size) <$>
       seq 0 (n_cores - n_larger_groups)).

(** [retain] over the queue; the index loses the entries that are dropped. *)
Fixpoint retain_claims (config : HostConfiguration) (paras : Paras.Lifecycles) (l : list QueuedParathread)
    (claim_index : list ParaId) : list QueuedParathread * list ParaId :=
  match l with
  | [] => ([], claim_index)
  | queued :: l =>
      let p := claim_para (claim (queued_claim queued)) in
      if bool_decide (retries (queued_claim queued) ≤ parathread_retries config) && Paras.is_parathread p paras
      then let '(l, i) := retain_claims config paras l claim_index in (queued :: l, i)
      else retain_claims config paras l (sorted_remove p claim_index)
  end.

Definition rebalance (config : HostConfiguration) (l : list QueuedParathread) : ParathreadClaimQueue :=
  mkQueue
    (imap (λ i queued, mkQueued (queued_claim queued) (wrap32 (Z.of_nat i) `mod` parathread_cores config)) l)
    (len32 l `mod` parathread_cores config).

Definition initializer_on_new_session (config : HostConfiguration) (paras : Paras.Lifecycles)
    (parachains : list ParaId) (n_validators : nat) (block_number : BlockNumber) (s : State) : State :=
  let n_cores := Z.to_nat (n_cores_for config (length parachains) n_validators) in
  let cores := AvailabilityCores s in
  let thread_queue :=
    mkQueue (queue (ParathreadQueue s) ++ ((λ e, mkQueued e 0) <$> occupied_claims cores))
      (next_core_offset (ParathreadQueue s)) in
  let s := set_cores (resize n_cores None ((λ _, None) <$> cores)) s in
  let '(thread_queue, claim_index) :=
    if decide (parathread_cores config = 0) then (mkQueue [] 0, [])
    else
      let '(l, i) := retain_claims config paras (queue thread_queue) (ParathreadClaimIndex s) in
      (rebalance config l, i) in
  mkState (make_groups n_validators n_cores) thread_queue (AvailabilityCores s) claim_index
    (u32_add block_number 1) (Scheduled s).

(** ** Claims *)

Definition add_parathread_claim (config : HostConfiguration) (paras : Paras.Lifecycles)
    (c : ParathreadClaim) (s : State) : option State :=
  if negb (Paras.is_parathread (claim_para c) paras) then Some s
  else
    let queue_max_size := wrap32 (parathread_cores config * scheduling_lookahead config) in
    if decide (queue_max_size ≤ Z.of_nat (length (queue (ParathreadQueue s)))) then Some s
    else match binary_search (ParathreadClaimIndex s) (claim_para c) with
         | Ok _ => Some s
         | Err i =>
             let s := set_index (vec_insert i (claim_para c) (ParathreadClaimIndex s)) s in
             q ← enqueue_entry (mkEntry c 0) (parathread_cores config) (ParathreadQueue s);
             Some (set_queue q s)
         end.

(** ** Freeing cores *)

Definition free_core (config : HostConfiguration) (s : State) (freed : CoreIndex * FreedReason) : option State :=
  match AvailabilityCores s !! freed.1 with
  | None | Some None => Some s
  | Some (Some occupied) =>
      let s := set_cores (<[freed.1 := None]> (AvailabilityCores s)) s in
      match occupied, freed.2 with
      | OccupiedParachain, _ => Some s
      | OccupiedParathread entry, Concluded =>
          Some (set_index (sorted_remove (claim_para (claim entry)) (ParathreadClaimIndex s)) s)
      | OccupiedParathread entry, TimedOut =>
          q ← enqueue_entry entry (parathread_cores config) (ParathreadQueue s);
          Some (set_queue q s)
      end
  end.

Fixpoint free_cores (config : HostConfiguration) (just_freed_cores : list (CoreIndex * FreedReason)) (s : State) :
    option State :=
  match just_freed_cores with
  | [] => Some s
  | freed :: l => s ← free_core config s freed; free_cores config l s
  end.

(** ** Groups *)

Definition group_validators (group_index : GroupIndex) (s : State) : option (list ValidatorIndex) :=
  ValidatorGroups s !! group_index.

(** The division panics on zero. *)
Definition group_assigned_to_core (config : HostConfiguration) (core_ : CoreIndex) (at_ : BlockNumber) (s : State) :
    option (option GroupIndex) :=
  if decide (at_ < SessionStartBlock s) then Some None
  else if decide (length (ValidatorGroups s) ≤ core_)%nat then Some None
  else if decide (group_rotation_frequency config = 0) then None
  else
    let rotations := (at_ - SessionStartBlock s) `div` group_rotation_frequency config in
    Some (Some ((core_ + Z.to_nat rotations) mod length (ValidatorGroups s)))%nat.

(** ** Scheduling *)

(** The iterator over the schedule, at position [idx], advanced to the first
    assignment of a core that is not below [core_index]. *)
Fixpoint skip_below (core_index : CoreIndex) (idx : nat) (rest : list CoreAssignment) :
    nat * list CoreAssignment :=
  match rest with
  | a :: rest' => if decide (core a < core_index)%nat then skip_below core_index (S idx) rest' else (idx, rest)
  | [] => (idx, [])
  end.

(** [None] when the [expect] on the group panics. *)
Definition assign (config : HostConfiguration) (parachains : list ParaId) (now : BlockNumber) (s : State)
    (core_index : CoreIndex) (q : ParathreadClaimQueue) :
    option (ParathreadClaimQueue * option CoreAssignment) :=
  match parachains !! core_index with
  | Some p =>
      g ← group_assigned_to_core config core_index now s; g ← g;
      Some (q, Some (mkAssignment core_index p KindParachain g))
  | None =>
      let '(q, entry) := take_next_on_core (Z.of_nat (core_index - length parachains)) q in
      match entry with
      | None => Some (q, None)
      | Some entry =>
          g ← group_assigned_to_core config core_index now s; g ← g;
          Some (q, Some (mkAssignment core_index (claim_para (claim entry))
                           (KindParathread (claim_collator (claim entry)) (retries entry)) g))
      end
  end.

(** The sweep over the free cores: the queue that is left and the updates, each
    with the position to insert it at. *)
Fixpoint sweep (config : HostConfiguration) (parachains : list ParaId) (now : BlockNumber) (s : State)
    (free : list CoreIndex) (idx : nat) (rest : list CoreAssignment) (q : ParathreadClaimQueue) :
    option (ParathreadClaimQueue * list (nat * CoreAssignment)) :=
  match free with
  | [] => Some (q, [])
  | core_index :: free =>
      let '(idx, rest) := skip_below core_index idx rest in
      let schedule_and_insert_at :=
        match rest with
        | [] => Some (length (Scheduled s))
        | a :: _ => if decide (core a = core_index) then None else Some idx
        end in
      match schedule_and_insert_at with
      | None => sweep config parachains now s free idx rest q
      | Some at_ =>
          '(q, assignment) ← assign config parachains now s core_index q;
          '(q, updates) ← sweep config parachains now s free idx rest q;
          Some (q, match assignment with Some a => (at_, a) :: updates | None => updates end)
      end
  end.

(** Insertions at their positions, [n] of them done before; [Vec::insert]
    panics beyond the end. *)
Fixpoint insert_updates (n : nat) (updates : list (nat * CoreAssignment)) (scheduled : list CoreAssignment) :
    option (list CoreAssignment) :=
  match updates with
  | [] => Some scheduled
  | (at_, a) :: updates =>
      if decide (n + at_ ≤ length scheduled)%nat
      then insert_updates (S n) updates (vec_insert (n + at_) a scheduled)
      else None
  end.

Definition is_free (cores : list (option CoreOccupied)) (i : CoreIndex) : bool :=
  match cores !! i with Some None => true | _ => false end.
Definition free_indices (cores : list (option CoreOccupied)) : list CoreIndex :=
  filter (λ i, is_free cores i = true) (seq 0 (length cores)).

Definition schedule (config : HostConfiguration) (parachains : list ParaId)
    (just_freed_cores : list (CoreIndex * FreedReason)) (now : BlockNumber) (s : State) : option State :=
  s ← free_cores config just_freed_cores s;
  match ValidatorGroups s with
  | [] => Some s
  | _ =>
      '(q, updates) ← sweep config parachains now s (free_indices (AvailabilityCores s)) 0 (Scheduled s)
                        (ParathreadQueue s);
      scheduled ← insert_updates 0 updates (Scheduled s);
      Some (set_queue q (set_scheduled scheduled s))
  end.

(** ** Occupation *)

(** [retain] over the schedule, with the iterator over the occupied cores. *)
Fixpoint occupy (now_occupied : list CoreIndex) (scheduled : list CoreAssignment)
    (cores : list (option CoreOccupied)) : option (list CoreAssignment * list (option CoreOccupied)) :=
  match scheduled with
  | [] => Some ([], cores)
  | a :: scheduled =>
      match now_occupied with
      | o :: now_occupied' =>
          if decide (o = core a) then
            if decide (core a < length cores)%nat
            then occupy now_occupied' scheduled (<[core a := Some (to_core_occupied a)]> cores)
            else None
          else
            '(l, cores) ← occupy now_occupied scheduled cores; Some (a :: l, cores)
      | [] => '(l, cores) ← occupy now_occupied scheduled cores; Some (a :: l, cores)
      end
  end.

Definition occupied (now_occupied : list CoreIndex) (s : State) : option State :=
  match now_occupied with
  | [] => Some s
  | _ =>
      '(l, cores) ← occupy now_occupied (Scheduled s) (AvailabilityCores s);
      Some (set_cores cores (set_scheduled l s))
  end.

(** ** Queries *)

Definition core_para (parachains : list ParaId) (core_index : CoreIndex) (s : State) : option (option ParaId) :=
  match AvailabilityCores s !! core_index with
  | None | Some None => Some None
  | Some (Some OccupiedParachain) => p ← parachains !! core_index; Some (Some p)
  | Some (Some (OccupiedParathread entry)) => Some (Some (claim_para (claim entry)))
  end.

Definition availability_timeout_predicate (config : HostConfiguration) (now : BlockNumber) (s : State) :
    option (option (CoreIndex → BlockNumber → bool)) :=
  let blocks_since_session_start := saturating_sub now (SessionStartBlock s) in
  if decide (group_rotation_frequency config = 0) then None
  else
    let blocks_since_last_rotation := blocks_since_session_start `mod` group_rotation_frequency config in
    let absolute_cutoff := Z.max (chain_availability_period config) (thread_availability_period config) in
    if decide (absolute_cutoff ≤ blocks_since_last_rotation) then Some None
    else Some (Some (λ core_index pending_since,
      match AvailabilityCores s !! core_index with
      | None | Some None => true
      | Some (Some OccupiedParachain) =>
          if decide (chain_availability_period config ≤ blocks_since_last_rotation) then false
          else bool_decide (chain_availability_period config ≤ saturating_sub now pending_since)
      | Some (Some (OccupiedParathread _)) =>
          if decide (thread_availability_period config ≤ blocks_since_last_rotation) then false
          else bool_decide (thread_availability_period config ≤ saturating_sub now pending_since)
      end)).

Definition scheduled_core_of (entry : ParathreadEntry) : ScheduledCore :=
  mkScheduledCore (claim_para (claim entry)) (Some (claim_collator (claim entry))).

Definition next_up_on_available (parachains : list ParaId) (core_ : CoreIndex) (s : State) : option ScheduledCore :=
  match parachains !! core_ with
  | Some p => Some (mkScheduledCore p None)
  | None =>
      scheduled_core_of <$> get_next_on_core (Z.of_nat (core_ - length parachains)) (ParathreadQueue s)
  end.

Definition next_up_on_time_out (parachains : list ParaId) (core_ : CoreIndex) (s : State) : option ScheduledCore :=
  match parachains !! core_ with
  | Some p => Some (mkScheduledCore p None)
  | None =>
      match get_next_on_core (Z.of_nat (core_ - length parachains)) (ParathreadQueue s) with
      | Some entry => Some (scheduled_core_of entry)
      | None =>
          match AvailabilityCores s !! core_ with
          | Some (Some (OccupiedParathread entry)) => Some (scheduled_core_of entry)
          | _ => None
          end
      end
  end.

(** ** The end of a schedule *)

Fixpoint requeue (config : HostConfiguration) (paras : Paras.Lifecycles) (l : list CoreAssignment)
    (q : ParathreadClaimQueue) : option ParathreadClaimQueue :=
  match l with
  | [] => Some q
  | a :: l =>
      match kind a with
      | KindParathread collator r =>
          if negb (Paras.is_parathread (para_id a) paras) then requeue config paras l q
          else
            let entry := mkEntry (mkClaim (para_id a) collator) (u32_add r 1) in
            if decide (retries entry ≤ parathread_retries config) then
              q ← enqueue_entry entry (parathread_cores config) q;
              requeue config paras l q
            else requeue config paras l q
      | KindParachain => requeue config paras l q
      end
  end.

Definition clear (config : HostConfiguration) (paras : Paras.Lifecycles) (s : State) : option State :=
  q ← requeue config paras (Scheduled s) (ParathreadQueue s);
  Some (set_queue q (set_scheduled [] s)).
End Pallet.

(** ** Group rotation *)

Record GroupRotationInfo := mkRotation {
  session_start_block : BlockNumber;
  rotation_frequency : BlockNumber;
  rotation_now : BlockNumber;
}.

Definition group_for_core (r : GroupRotationInfo) (core_index : CoreIndex) (cores : nat) : GroupIndex :=
  if decide (rotation_frequency r = 0) then core_index
  else if decide (cores = 0)%nat then 0%nat
  else
    let cores := Nat.min cores (Z.to_nat u32_max) in
    let rotations := saturating_sub (rotation_now r) (session_start_block r) `div` rotation_frequency r in
    ((core_index + Z.to_nat rotations) mod cores)%nat.

Definition core_for_group (r : GroupRotationInfo) (group_index : GroupIndex) (cores : nat) : CoreIndex :=
  if decide (rotation_frequency r = 0) then group_index
  else if decide (cores = 0)%nat then 0%nat
  else
    let cores := Nat.min cores (Z.to_nat u32_max) in
    let rotations := saturating_sub (rotation_now r) (session_start_block r) `div` rotation_frequency r in
    let rotations := rotations `mod` Z.of_nat cores in
    ((group_index + cores - Z.to_nat rotations) mod cores)%nat.

(** The remainders panic on a frequency of zero. *)
Definition next_rotation_at (r : GroupRotationInfo) : option BlockNumber :=
  let cycle_once := u32_add (rotation_now r) (rotation_frequency r) in
  if decide (rotation_frequency r = 0) then None
  else Some (u32_sub cycle_once (saturating_sub cycle_once (session_start_block r) `mod` rotation_frequency r)).

Definition last_rotation_at (r : GroupRotationInfo) : option BlockNumber :=
  if decide (rotation_frequency r = 0) then None
  else Some (u32_sub (rotation_now r)
               (saturating_sub (rotation_now r) (session_start_block r) `mod` rotation_frequency r)).

Definition bump_rotation (r : GroupRotationInfo) : option GroupRotationInfo :=
  n ← next_rotation_at r; Some (mkRotation (session_start_block r) (rotation_frequency r) n).

Definition group_rotation_info {C} (config : HostConfiguration) (now : BlockNumber) (s : State (CollatorId := C)) :
    GroupRotationInfo := mkRotation (SessionStartBlock s) (group_rotation_frequency config) now.

(** ** Validator groups *)

Lemma concat_blocks o k n : concat ((λ i, seq (o + i * k) k) <$> seq 0 n) = seq o (n * k).
Proof.
  induction n as [|n IH]; [done|].
  rewrite seq_S, fmap_app, concat_app, IH. cbn. rewrite app_nil_r, <-seq_app. f_equal. lia.
Qed.

Lemma make_groups_partition nv nc :
  (0 < nv)%nat → (0 < nc)%nat →
  concat (make_groups nv nc) = seq 0 nv ∧ length (make_groups nv nc) = nc ∧
  ∀ g, g ∈ make_groups nv nc → (nv / nc ≤ length g ≤ nv / nc + 1)%nat.
Proof.
  intros Hv Hc. unfold make_groups. rewrite decide_False by lia. cbn zeta.
  pose proof (Nat.div_mod nv nc ltac:(lia)) as Hdm.
  pose proof (Nat.mod_upper_bound nv nc ltac:(lia)) as Hlt.
  set (base := (nv / nc)%nat) in *. set (larger := (nv mod nc)%nat) in *. split_and!.
  - rewrite concat_app.
    replace ((λ i, seq ((base + 1) * i) (base + 1)) <$> seq 0 larger) with
      ((λ i, seq (0 + i * (base + 1)) (base + 1)) <$> seq 0 larger)
      by (apply list_fmap_ext; intros ? x ?; f_equal; lia).
    rewrite !concat_blocks. rewrite <-seq_app. f_equal. nia.
  - rewrite length_app, !length_fmap, !length_seq. lia.
  - intros g [Hg|Hg]%elem_of_app; apply list_elem_of_fmap in Hg as (x & -> & _); rewrite length_seq; lia.
Qed.

(** ** Rotation *)

Lemma add_mod_cases (c k n : nat) :
  (c < n)%nat → ((c + k) mod n = if decide (c + k mod n < n) then c + k mod n else c + k mod n - n)%nat.
Proof.
  intros Hc. pose proof (Nat.div_mod k n ltac:(lia)) as Hk.
  pose proof (Nat.mod_upper_bound k n ltac:(lia)) as Hlt. case_decide.
  - symmetry. apply (Nat.mod_unique _ _ (k / n)%nat); [lia|]. rewrite Hk at 1. lia.
  - symmetry. apply (Nat.mod_unique _ _ (k / n + 1)%nat); [lia|]. rewrite Hk at 1. lia.
Qed.

Lemma sub_mod_cases (g k n : nat) :
  (g < n)%nat → (k < n)%nat → ((g + n - k) mod n = if decide (k ≤ g) then g - k else g + n - k)%nat.
Proof.
  intros Hg Hk. case_decide.
  - symmetry. apply (Nat.mod_unique _ _ 1%nat); lia.
  - apply Nat.mod_small. lia.
Qed.

Lemma rotation_inverse r c cores :
  0 ≤ rotation_frequency r → (c < cores)%nat → Z.of_nat cores ≤ u32_max →
  core_for_group r (group_for_core r c cores) cores = c ∧
  group_for_core r (core_for_group r c cores) cores = c ∧
  (rotation_frequency r ≠ 0 → (group_for_core r c cores < cores)%nat ∧ (core_for_group r c cores < cores)%nat).
Proof.
  intros Hf Hc Hn. unfold group_for_core, core_for_group.
  destruct (decide (rotation_frequency r = 0)); [done|]. rewrite !decide_False by lia.
  replace (Nat.min cores (Z.to_nat u32_max)) with cores by lia. cbn zeta.
  set (rot := saturating_sub _ _ `div` _).
  assert (0 ≤ rot) as Hrot by (apply Z.div_pos; unfold saturating_sub; lia).
  assert (Z.to_nat (rot `mod` Z.of_nat cores) = Z.to_nat rot mod cores)%nat as ->
    by (rewrite Z2Nat.inj_mod by lia; by rewrite Nat2Z.id).
  generalize (Z.to_nat rot). clearbody rot. intros k.
  pose proof (Nat.mod_upper_bound k cores ltac:(lia)) as Hlt. split_and!.
  - rewrite add_mod_cases by done. rewrite sub_mod_cases; repeat case_decide; lia.
  - rewrite sub_mod_cases by lia. rewrite add_mod_cases; repeat case_decide; lia.
  - intros _. split; apply Nat.mod_upper_bound; lia.
Qed.

(** ** The schedule *)

Section Schedule.
Context {CollatorId : Type} (config : HostConfiguration) (parachains : list ParaId) (now : BlockNumber).
Abbreviation State := (Scheduler.State (CollatorId := CollatorId)).
Abbreviation CoreAssignment := (Scheduler.CoreAssignment (CollatorId := CollatorId)).
Abbreviation Queue := (Scheduler.ParathreadClaimQueue (CollatorId := CollatorId)).
Abbreviation by_core l := (StronglySorted lt (core <$> l)).

(** What a free core is due to work on, from the queue as it stands. *)
Definition due (s : State) (q : Queue) (c : CoreIndex) : option CoreAssignment :=
  g ← group_assigned_to_core config c now s; g ← g;
  match parachains !! c with
  | Some p => Some (mkAssignment c p KindParachain g)
  | None =>
      entry ← get_next_on_core (Z.of_nat (c - length parachains)) q;
      Some (mkAssignment c (claim_para (claim entry))
              (KindParathread (claim_collator (claim entry)) (retries entry)) g)
  end.

Lemma due_core s q c a : due s q c = Some a → core a = c.
Proof.
  unfold due. destruct (group_assigned_to_core _ _ _ _) as [[g|]|]; cbn; try done.
  destruct (parachains !! c); [by intros [= <-]|].
  destruct (get_next_on_core _ _); cbn; [by intros [= <-]|done].
Qed.

(** *** The queue *)

Abbreviation on_core o l := (filter (λ x, core_offset x = o) l).

Lemma position_on_core_Some o (q : Queue) i :
  position_on_core o q = Some i →
  ∃ x, queue q !! i = Some x ∧ core_offset x = o ∧ on_core o (take i (queue q)) = [].
Proof.
  intros (x & Hi & Hx%bool_decide_eq_true & Hlt)%position_Some. exists x. split_and!; [done|done|].
  apply list_filter_nil. intros y Hin Hy. apply list_elem_of_lookup in Hin as [j Hj].
  apply lookup_take_Some in Hj as [Hj Hji]. specialize (Hlt j y Hj Hji).
  by apply bool_decide_eq_false in Hlt.
Qed.

Lemma get_next_spec o (q : Queue) : get_next_on_core o q = queued_claim <$> head (on_core o (queue q)).
Proof.
  unfold get_next_on_core. destruct (position_on_core o q) as [i|] eqn:E; cbn.
  - apply position_on_core_Some in E as (x & Hi & Hx & Hnil). rewrite Hi. cbn.
    rewrite <-(take_drop_middle _ _ _ Hi) at 1. rewrite filter_app, Hnil. cbn [app].
    by rewrite filter_cons_True.
  - destruct (on_core o (queue q)) as [|x l] eqn:Ef; [done|].
    assert (x ∈ on_core o (queue q)) as [Hx Hin]%list_elem_of_filter by (rewrite Ef; left).
    apply (position_None _ _ E) in Hin. by apply bool_decide_eq_false in Hin.
Qed.

Lemma take_next_spec o (q : Queue) :
  let q' := (take_next_on_core o q).1 in
  (take_next_on_core o q).2 = get_next_on_core o q ∧
  next_core_offset q' = next_core_offset q ∧
  (∀ o', o' ≠ o → on_core o' (queue q') = on_core o' (queue q)) ∧
  match get_next_on_core o q with
  | Some e => ∃ x, queued_claim x = e ∧ queue q ≡ₚ x :: queue q'
  | None => q' = q
  end.
Proof.
  unfold take_next_on_core, get_next_on_core. cbn zeta.
  destruct (position_on_core o q) as [i|] eqn:E; cbn; [|done].
  apply position_on_core_Some in E as (x & Hi & Hx & _). rewrite Hi. cbn. split_and!; try done.
  - intros o' Ho'. rewrite delete_take_drop, filter_app.
    rewrite <-(take_drop_middle _ _ _ Hi) at 3. rewrite filter_app, filter_cons_False; [done|congruence].
  - exists x. split; [done|]. apply delete_Permutation. done.
Qed.

(** *** The sweep *)

Lemma skip_below_spec c idx (L : list CoreAssignment) :
  by_core L → (∀ x, x ∈ take idx L → core x < c)%nat → (idx ≤ length L)%nat →
  ∃ idx', skip_below c idx (drop idx L) = (idx', drop idx' L) ∧ (idx ≤ idx' ≤ length L)%nat ∧
    (∀ x, x ∈ take idx' L → core x < c)%nat ∧
    (∀ x, x ∈ drop idx' L → c ≤ core x)%nat.
Proof.
  intros HL. remember (drop idx L) as rest eqn:Er. revert idx Er.
  induction rest as [|a rest IH]; intros idx Er Ht Hle; cbn.
  { exists idx. rewrite <-Er. split_and!; try done. by intros x ?%elem_of_nil. }
  assert (L !! idx = Some a) as Ha by (rewrite <-(Nat.add_0_r idx), <-lookup_drop; by rewrite <-Er).
  assert (rest = drop (S idx) L) as Er'.
  { rewrite <-Nat.add_1_r, <-drop_drop, <-Er. done. }
  apply lookup_lt_Some in Ha as Hlt. case_decide as Hc.
  - destruct (IH (S idx) Er') as (i & -> & Hi & H1 & H2); [|lia|].
    + intros x Hx. rewrite (take_S_r L idx a Ha) in Hx.
      apply elem_of_app in Hx as [Hx| ->%list_elem_of_singleton]; [by apply Ht|done].
    + exists i. split_and!; [done|lia|lia|done|done].
  - exists idx. rewrite <-Er. split_and!; try done. intros x [->|Hx]%elem_of_cons; [lia|].
    enough (core a < core x)%nat by lia. rewrite <-(take_drop idx L), fmap_app in HL.
    apply StronglySorted_app_1_r in HL. rewrite <-Er, fmap_cons in HL.
    apply StronglySorted_inv in HL as [_ HL]. rewrite Forall_fmap, Forall_forall in HL. by apply HL.
Qed.

(** Updates that keep the schedule sorted: each goes after the assignments of
    smaller cores and before those of larger ones, and they come in order. *)
Fixpoint good (L : list CoreAssignment) (k : nat) (ups : list (nat * CoreAssignment)) : Prop :=
  match ups with
  | [] => True
  | (at_, a) :: ups =>
      (k ≤ at_ ≤ length L)%nat ∧ (∀ x, x ∈ take at_ L → core x < core a)%nat ∧
      (∀ x, x ∈ drop at_ L → core a < core x)%nat ∧
      (∀ u, u ∈ ups → core a < core u.2)%nat ∧ good L at_ ups
  end.

Lemma good_weaken L k k' ups : (k' ≤ k)%nat → good L k ups → good L k' ups.
Proof. destruct ups as [|[at_ a] ups]; [done|]. cbn. intros ? (? & ? & ? & ? & ?). split_and!; try done; lia. Qed.

Lemma insert_updates_spec (L : list CoreAssignment) ups n k P :
  by_core L → good L k ups → length P = (n + k)%nat → (k ≤ length L)%nat →
  by_core (P ++ drop k L) →
  (∀ x u, x ∈ P → u ∈ ups → core x < core u.2)%nat →
  ∃ L', insert_updates n ups (P ++ drop k L) = Some L' ∧ by_core L' ∧
    L' ≡ₚ ups.*2 ++ P ++ drop k L.
Proof.
  intros HL. revert n k P. induction ups as [|[at_ a] ups IH]; intros n k P Hg HP Hk Hs HPu; cbn.
  { by exists (P ++ drop k L). }
  destruct Hg as ([Hk1 Hk2] & Hbelow & Habove & Hnext & Hg).
  rewrite decide_True by (rewrite length_app, length_drop; lia).
  set (P' := P ++ take (at_ - k) (drop k L) ++ [a]).
  assert (drop k L = take (at_ - k) (drop k L) ++ drop at_ L) as Hsplit.
  { rewrite <-(take_drop (at_ - k) (drop k L)) at 1. rewrite drop_drop. do 2 f_equal. lia. }
  assert (vec_insert (n + at_) a (P ++ drop k L) = P' ++ drop at_ L) as ->.
  { unfold vec_insert, P'. rewrite take_app, drop_app. rewrite HP.
    rewrite (take_ge P), (drop_ge P) by lia. replace (n + at_ - (n + k))%nat with (at_ - k)%nat by lia.
    rewrite drop_drop. replace (k + (at_ - k))%nat with at_ by lia. by rewrite <-!app_assoc. }
  assert (∀ x, x ∈ take (at_ - k) (drop k L) → x ∈ take at_ L) as Hmid.
  { intros x Hx. rewrite take_drop_commute in Hx. replace (k + (at_ - k))%nat with at_ in Hx by lia.
    apply list_elem_of_lookup in Hx as [j Hj]. rewrite lookup_drop in Hj. by eapply list_elem_of_lookup_2. }
  destruct (IH (S n) at_ P' Hg) as (L' & -> & Hs' & Hp).
  - unfold P'. rewrite !length_app, length_take, length_drop. cbn. lia.
  - done.
  - unfold P'. rewrite Hsplit in Hs. rewrite <-!app_assoc in *. rewrite !fmap_app in *.
    rewrite app_assoc in Hs. apply StronglySorted_app in Hs as (Hx & Hs1 & Hs2).
    rewrite app_assoc. apply StronglySorted_app_2; [|done|].
    + intros x1 x2 Hx1 Hx2. apply elem_of_app in Hx2 as [Hx2|Hx2]; [|by apply Hx].
      rewrite fmap_cons in Hx2. apply list_elem_of_singleton in Hx2 as ->.
      rewrite <-fmap_app in Hx1. apply list_elem_of_fmap in Hx1 as (y & -> & Hy).
      apply elem_of_app in Hy as [Hy|Hy]; [apply (HPu y (at_, a)); [done|left]|by apply Hbelow, Hmid].
    + cbn. constructor; [done|]. rewrite Forall_fmap, Forall_forall. intros x Hx'. by apply Habove.
  - intros x u Hx Hu. unfold P' in Hx. rewrite !elem_of_app, list_elem_of_singleton in Hx.
    destruct Hx as [Hx|[Hx| ->]].
    + apply HPu; [done|by right].
    + etransitivity; [by apply Hbelow, Hmid|by apply Hnext].
    + by apply Hnext.
  - exists L'. split_and!; [done|done|]. rewrite Hp. unfold P'. clear -Hsplit.
    set (M := take (at_ - k) (drop k L)) in *. clearbody M. rewrite Hsplit.
    cbn [fmap list_fmap]. solve_Permutation.
Qed.

Lemma due_other (s : State) (q : Queue) c c' :
  c ≠ c' → (length parachains ≤ c)%nat →
  due s (take_next_on_core (Z.of_nat (c - length parachains)) q).1 c' = due s q c'.
Proof.
  intros Hne Hc. unfold due. destruct (group_assigned_to_core _ _ _ _) as [[g|]|]; cbn; try done.
  destruct (parachains !! c') eqn:E; [done|]. apply lookup_ge_None in E. rewrite !get_next_spec.
  destruct (take_next_spec (Z.of_nat (c - length parachains)) q) as (_ & _ & Ho & _).
  rewrite Ho by lia. done.
Qed.

(** The paras with a claim in the queue, and in a schedule. *)
Definition queue_paras (q : Queue) : list ParaId := (λ x, claim_para (claim (queued_claim x))) <$> queue q.
Definition sched_paras (l : list CoreAssignment) : list ParaId :=
  omap (λ a, match kind a with KindParathread _ _ => Some (para_id a) | KindParachain => None end) l.

Lemma group_total (s : State) c :
  SessionStartBlock s ≤ now → group_rotation_frequency config ≠ 0 → (c < length (ValidatorGroups s))%nat →
  ∃ g, group_assigned_to_core config c now s = Some (Some g).
Proof.
  intros H1 H2 H3. unfold group_assigned_to_core. rewrite !decide_False by lia. eauto.
Qed.

Lemma assign_spec (s : State) c q :
  SessionStartBlock s ≤ now → group_rotation_frequency config ≠ 0 → (c < length (ValidatorGroups s))%nat →
  ∃ q', assign config parachains now s c q = Some (q', due s q c) ∧
    next_core_offset q' = next_core_offset q ∧ (∀ c', c' ≠ c → due s q' c' = due s q c') ∧
    (∀ x, x ∈ queue q' → x ∈ queue q) ∧
    queue_paras q ≡ₚ sched_paras (option_list (due s q c)) ++ queue_paras q'.
Proof.
  intros H1 H2 H3. destruct (group_total s c H1 H2 H3) as [g Hg]. unfold assign.
  assert (due s q c = match parachains !! c with
    | Some p => Some (mkAssignment c p KindParachain g)
    | None => entry ← get_next_on_core (Z.of_nat (c - length parachains)) q;
        Some (mkAssignment c (claim_para (claim entry))
              (KindParathread (claim_collator (claim entry)) (retries entry)) g) end) as Hdue
    by (unfold due; by rewrite Hg).
  rewrite Hg. destruct (parachains !! c) as [p|] eqn:Ep.
  - exists q. cbn. rewrite Hdue. by split_and!.
  - apply lookup_ge_None in Ep. set (o := Z.of_nat (c - length parachains)) in *.
    destruct (take_next_spec o q) as (T1 & T2 & _ & T4).
    assert (∀ c', c' ≠ c → due s (take_next_on_core o q).1 c' = due s q c') as Hother
      by (intros c' Hc'; by apply due_other).
    destruct (take_next_on_core o q) as [q' entry]. cbn in *. subst entry.
    exists q'. rewrite Hdue. destruct (get_next_on_core o q) as [e|] eqn:Ee; cbn.
    + destruct T4 as (x & Hx & Hp). split_and!; try done.
      * intros y Hy. rewrite Hp. by right.
      * unfold queue_paras. rewrite Hp. cbn. by rewrite Hx.
    + subst q'. by split_and!.
Qed.

Lemma sweep_spec (s : State) free idx q :
  by_core (Scheduled s) → StronglySorted lt free →
  (∀ c x, c ∈ free → x ∈ take idx (Scheduled s) → (core x < c)%nat) → (idx ≤ length (Scheduled s))%nat →
  SessionStartBlock s ≤ now → group_rotation_frequency config ≠ 0 →
  (∀ c, c ∈ free → (c < length (ValidatorGroups s))%nat) →
  ∃ q' ups, sweep config parachains now s free idx (drop idx (Scheduled s)) q = Some (q', ups) ∧
    good (Scheduled s) idx ups ∧
    (∀ a, a ∈ ups.*2 ↔ core a ∈ free ∧ (core a ∉ core <$> Scheduled s) ∧ due s q (core a) = Some a) ∧
    next_core_offset q' = next_core_offset q ∧ (∀ x, x ∈ queue q' → x ∈ queue q) ∧
    queue_paras q ≡ₚ sched_paras (ups.*2) ++ queue_paras q'.
Proof.
  intros HL Hfree Hbelow Hidx Hnow Hfreq Hgr. revert idx q Hbelow Hidx.
  induction free as [|c free IH]; intros idx q Hbelow Hidx; cbn [sweep].
  { exists q, []. split_and!; try done. intros a. cbn.
    split; [by intros ?%elem_of_nil|by intros (?%elem_of_nil & _)]. }
  apply StronglySorted_inv in Hfree as [Hfree Hc]. rewrite Forall_forall in Hc.
  destruct (skip_below_spec c idx (Scheduled s)) as (i & -> & Hi & Hlow & Hhigh); [done| |done|].
  { intros x. apply Hbelow. left. }
  assert (∀ c' x, c' ∈ free → x ∈ take i (Scheduled s) → (core x < c')%nat) as Hbelow'.
  { intros c' x Hc' Hx. specialize (Hc c' Hc'). specialize (Hlow x Hx). lia. }
  assert (∀ c', c' ∈ free → c' < length (ValidatorGroups s))%nat as Hgr' by (intros; apply Hgr; by right).
  specialize (IH Hfree Hgr').
  destruct (decide (c ∈ core <$> Scheduled s)) as [Hin|Hout].
  - assert (∃ a l, drop i (Scheduled s) = a :: l ∧ core a = c) as (a & l & Ed & Ha).
    { apply list_elem_of_fmap in Hin as (x & Hx & Hin). rewrite <-(take_drop i (Scheduled s)) in Hin.
      apply elem_of_app in Hin as [Hin|Hin]; [specialize (Hlow x Hin); lia|].
      destruct (drop i (Scheduled s)) as [|a l] eqn:Ed; [by apply elem_of_nil in Hin|]. exists a, l. split; [done|].
      assert (c ≤ core a)%nat by (apply Hhigh; left).
      apply elem_of_cons in Hin as [->|Hin]; [done|].
      assert (by_core (a :: l)) as Hs by (rewrite <-Ed, fmap_drop; apply (StronglySorted_app_1_r _ (take i (core <$> Scheduled s))); by rewrite take_drop).
      rewrite fmap_cons in Hs. apply StronglySorted_inv in Hs as [_ Hs]. rewrite Forall_fmap, Forall_forall in Hs.
      specialize (Hs x Hin). cbn in Hs. lia. }
    rewrite Ed, decide_True by done. rewrite <-Ed.
    destruct (IH i q) as (q' & ups & Hrun & Hg & Hups & Hrest); [done|lia|].
    exists q', ups. split_and!; [done|eapply good_weaken; [|done]; lia| |apply Hrest..].
    intros b. rewrite Hups, elem_of_cons. split; [naive_solver|]. intros ([->|?] & ? & ?); [done|naive_solver].
  - destruct (assign_spec s c q Hnow Hfreq) as (q1 & Has & Hn1 & Hd1 & Hq1 & Hp1); [apply Hgr; left|].
    assert (match drop i (Scheduled s) with
      | [] => Some (length (Scheduled s))
      | a :: _ => if decide (core a = c) then None else Some i end = Some i) as ->.
    { destruct (drop i (Scheduled s)) as [|a l] eqn:Ed.
      - assert (length (Scheduled s) - i = 0)%nat by (by rewrite <-length_drop, Ed). f_equal. lia.
      - rewrite decide_False; [done|].
        intros <-. apply Hout, list_elem_of_fmap. exists a. split; [done|].
        rewrite <-(take_drop i (Scheduled s)), Ed. apply elem_of_app. right. left. }
    rewrite Has. cbn. destruct (IH i q1) as (q' & ups & Hrun & Hg & Hups & Hn' & Hq' & Hp'); [done|lia|].
    rewrite Hrun. cbn. eexists q', _. split; [reflexivity|].
    assert (∀ u, u ∈ ups → (c < core u.2)%nat) as Hlt.
    { intros u Hu. apply Hc. apply (Hups u.2). apply list_elem_of_fmap. by exists u. }
    split_and!; [| |congruence|by auto|].
    + destruct (due s q c) as [a|] eqn:Edue; [|eapply good_weaken; [|done]; lia].
      pose proof (due_core _ _ _ _ Edue) as Hcore. cbn. rewrite Hcore. split_and!; try lia; try done.
      intros x Hx. specialize (Hhigh x Hx). enough (core x ≠ c) by lia. intros Hx'.
      apply Hout, list_elem_of_fmap. exists x. split; [done|]. rewrite <-(take_drop i (Scheduled s)).
      apply elem_of_app. by right.
    + intros b.
      assert (b ∈ (match due s q c with Some a => (i, a) :: ups | None => ups end).*2 ↔
        due s q c = Some b ∨ b ∈ ups.*2) as ->.
      { destruct (due s q c) as [a|]; cbn; [rewrite elem_of_cons|]; naive_solver. }
      rewrite Hups, elem_of_cons. split.
      * intros [Hb|(Hb1 & Hb2 & Hb3)].
        -- pose proof (due_core _ _ _ _ Hb) as <-. by split_and!; [left|..].
        -- split_and!; [by right|done|]. rewrite <-(Hd1 (core b)); [done|]. intros Heq. specialize (Hc _ Hb1). lia.
      * intros ([->|Hb1] & Hb2 & Hb3); [by left|]. right. split_and!; [done..|].
        rewrite (Hd1 (core b)); [done|]. intros Heq. specialize (Hc _ Hb1). lia.
    + rewrite Hp1, Hp'. destruct (due s q c) as [a|]; cbn; [|done].
      destruct (kind a); done.
Qed.

Lemma elem_of_free_indices (cores : list (option (CoreOccupied (CollatorId := CollatorId)))) c :
  c ∈ free_indices cores ↔ is_free cores c = true.
Proof.
  unfold free_indices. rewrite list_elem_of_filter, elem_of_seq. split; [tauto|]. intros Hf. split; [done|].
  unfold is_free in Hf. destruct (cores !! c) eqn:E; [|done]. apply lookup_lt_Some in E. lia.
Qed.

Lemma seq_sorted o n : StronglySorted lt (seq o n).
Proof.
  revert o. induction n as [|n IH]; intros o; cbn; constructor; [done|].
  apply Forall_forall. intros x Hx%elem_of_seq. lia.
Qed.

Lemma free_indices_sorted (cores : list (option (CoreOccupied (CollatorId := CollatorId)))) :
  StronglySorted lt (free_indices cores).
Proof.
  unfold free_indices. rewrite <-(list_fmap_id (filter _ _)). apply StronglySorted_fmap_filter.
  rewrite list_fmap_id. apply seq_sorted.
Qed.

(** *** Freeing *)

Lemma enqueue_total e n (q : Queue) : n ≠ 0 → ∃ q', enqueue_entry e n q = Some q'.
Proof. intros Hn. unfold enqueue_entry. rewrite decide_False by done. eauto. Qed.

(** A claim can be queued again, or none is on a core. *)
Definition requeues (s : State) : Prop :=
  parathread_cores config ≠ 0 ∨ occupied_claims (AvailabilityCores s) = [].

Lemma occupied_claims_nil (cores : list (option (CoreOccupied (CollatorId := CollatorId)))) :
  occupied_claims cores = [] ↔ ∀ i e, cores !! i ≠ Some (Some (OccupiedParathread e)).
Proof.
  unfold occupied_claims. split.
  - intros Hn i e Hi%list_elem_of_lookup_2. apply (not_elem_of_nil e). rewrite <-Hn, list_elem_of_omap. eauto.
  - intros Hc. apply elem_of_nil_inv. intros e (x & Hx & He)%list_elem_of_omap.
    apply list_elem_of_lookup in Hx as [i Hi]. destruct x as [[e'|]|]; [|done..]. by destruct (Hc i e').
Qed.

Lemma free_core_spec (s : State) f :
  requeues s →
  ∃ s', free_core config s f = Some s' ∧ ValidatorGroups s' = ValidatorGroups s ∧
    SessionStartBlock s' = SessionStartBlock s ∧ Scheduled s' = Scheduled s ∧
    length (AvailabilityCores s') = length (AvailabilityCores s) ∧ requeues s'.
Proof.
  intros Hn. unfold free_core. destruct (AvailabilityCores s !! f.1) as [[[e|]|]|] eqn:E; eauto 10.
  - destruct Hn as [Hn|Hn]; [|rewrite occupied_claims_nil in Hn; by destruct (Hn _ _ E)].
    destruct (f.2); [eexists; cbn; split_and!; try reflexivity; [apply length_insert|by left]|].
    destruct (enqueue_total e (parathread_cores config) (ParathreadQueue s) Hn) as [q' Hq]. cbn. rewrite Hq. cbn.
    eexists. cbn. split_and!; try reflexivity; [apply length_insert|by left].
  - eexists. cbn. split_and!; try reflexivity; [apply length_insert|].
    destruct Hn as [Hn|Hn]; [by left|]. right. rewrite occupied_claims_nil in Hn. apply occupied_claims_nil. cbn [AvailabilityCores set_cores].
    intros i e. rewrite list_lookup_insert_Some. intros [(_ & [=] & _)|[_ Hi]]. by apply (Hn i e).
Qed.

Lemma free_cores_spec l (s : State) :
  requeues s →
  ∃ s', free_cores config l s = Some s' ∧ ValidatorGroups s' = ValidatorGroups s ∧
    SessionStartBlock s' = SessionStartBlock s ∧ Scheduled s' = Scheduled s ∧
    length (AvailabilityCores s') = length (AvailabilityCores s).
Proof.
  revert s. induction l as [|f l IH]; intros s Hn; cbn; [eauto 10|].
  destruct (free_core_spec s f Hn) as (s1 & -> & E1 & E2 & E3 & E4 & Hn1). cbn.
  destruct (IH s1 Hn1) as (s2 & -> & F1 & F2 & F3 & F4). exists s2. split_and!; congruence.
Qed.

(** The state after the scheduling of [s1], whose cores have been freed. *)
Lemma schedule_spec freed (s : State) :
  requeues s → 0 < group_rotation_frequency config → SessionStartBlock s ≤ now →
  ValidatorGroups s ≠ [] → (length (AvailabilityCores s) ≤ length (ValidatorGroups s))%nat →
  by_core (Scheduled s) →
  ∃ s1 s2 new, free_cores config freed s = Some s1 ∧
    schedule config parachains freed now s = Some s2 ∧
    by_core (Scheduled s2) ∧ Scheduled s2 ≡ₚ new ++ Scheduled s ∧
    (∀ a, a ∈ new ↔ is_free (AvailabilityCores s1) (core a) = true ∧
       (core a ∉ core <$> Scheduled s) ∧ due s1 (ParathreadQueue s1) (core a) = Some a) ∧
    AvailabilityCores s2 = AvailabilityCores s1 ∧ ValidatorGroups s2 = ValidatorGroups s ∧
    SessionStartBlock s2 = SessionStartBlock s ∧
    ParathreadClaimIndex s2 = ParathreadClaimIndex s1 ∧
    next_core_offset (ParathreadQueue s2) = next_core_offset (ParathreadQueue s1) ∧
    (∀ x, x ∈ queue (ParathreadQueue s2) → x ∈ queue (ParathreadQueue s1)) ∧
    queue_paras (ParathreadQueue s1) ≡ₚ sched_paras new ++ queue_paras (ParathreadQueue s2).
Proof.
  intros Hn Hf Hnow Hg Hlen HL. destruct (free_cores_spec freed s Hn) as (s1 & Hfree & E1 & E2 & E3 & E4).
  unfold schedule. rewrite Hfree. cbn. rewrite E1.
  destruct (sweep_spec s1 (free_indices (AvailabilityCores s1)) 0 (ParathreadQueue s1)) as
    (q' & ups & Hrun & Hgood & Hups & Hn' & Hq' & Hp');
    [by rewrite E3|apply free_indices_sorted|by intros c x _ ?%elem_of_nil|lia|by rewrite E2|lia| |].
  { intros c Hc%elem_of_free_indices. rewrite E1. unfold is_free in Hc.
    destruct (AvailabilityCores s1 !! c) eqn:Ec; [|done]. apply lookup_lt_Some in Ec. lia. }
  rewrite drop_0 in Hrun. rewrite Hrun. cbn.
  destruct (insert_updates_spec (Scheduled s1) ups 0 0 []) as (L' & Hins & HL' & Hperm);
    [by rewrite E3|done|done|lia|by rewrite E3|by intros x u ?%elem_of_nil|].
  cbn in Hins. rewrite drop_0 in Hins, Hperm. rewrite Hins. cbn in *. rewrite E3 in *.
  exists s1, (set_queue q' (set_scheduled L' s1)), (ups.*2). cbn.
  destruct (ValidatorGroups s); [done|]. split_and!; try done.
  intros a. rewrite Hups. by rewrite elem_of_free_indices.
Qed.
End Schedule.

(** ** Claims *)

Section Claims.
Context {CollatorId : Type}.
Abbreviation State := (Scheduler.State (CollatorId := CollatorId)).
Abbreviation Cores := (list (option (CoreOccupied (CollatorId := CollatorId)))).

Definition occ_paras (cores : Cores) : list ParaId := (λ e, claim_para (claim e)) <$> occupied_claims cores.

(** Every claim that is queued, scheduled or being worked on. *)
Definition claims (s : State) : list ParaId :=
  queue_paras (ParathreadQueue s) ++ sched_paras (Scheduled s) ++ occ_paras (AvailabilityCores s).

(** What every step but a new claim does: claims move or go away, and a para
    leaves the index only with its claim. *)
Record evolves (s s' : State) : Prop := {
  ev_sorted : sorted (ParathreadClaimIndex s');
  ev_claims : claims s' ⊆+ claims s;
  ev_index p : p ∈ ParathreadClaimIndex s' → p ∈ ParathreadClaimIndex s;
  ev_gone p : p ∈ ParathreadClaimIndex s → p ∉ ParathreadClaimIndex s' → p ∈ claims s ∧ p ∉ claims s';
}.

Record claims_ok (s : State) : Prop := {
  cl_sorted : sorted (ParathreadClaimIndex s);
  cl_nodup : NoDup (claims s);
  cl_indexed p : p ∈ claims s → p ∈ ParathreadClaimIndex s;
}.

Lemma evolves_ok s s' : evolves s s' → claims_ok s → claims_ok s'.
Proof.
  intros [E1 E2 E3 E4] [H1 H2 H3]. split; [done|by eapply submseteq_NoDup|].
  intros p Hp. destruct (decide (p ∈ ParathreadClaimIndex s')) as [|Hn]; [done|].
  destruct (E4 p); [|done|done]. apply H3. by eapply elem_of_submseteq.
Qed.

Lemma evolves_trans s1 s2 s3 : evolves s1 s2 → evolves s2 s3 → evolves s1 s3.
Proof.
  intros [E1 E2 E3 E4] [F1 F2 F3 F4]. split; [done|by etrans|auto|].
  intros p Hp Hn. destruct (decide (p ∈ ParathreadClaimIndex s2)) as [H2|H2].
  - destruct (F4 p H2 Hn) as [H3 H4]. split; [by eapply elem_of_submseteq|done].
  - destruct (E4 p Hp H2) as [H3 H4]. split; [done|]. intros H5. apply H4. by eapply elem_of_submseteq.
Qed.

Lemma evolves_same s s' :
  sorted (ParathreadClaimIndex s) → ParathreadClaimIndex s' = ParathreadClaimIndex s →
  claims s' ⊆+ claims s → evolves s s'.
Proof. intros Hs E Hsub. split; rewrite ?E; try done. Qed.

(** *** Freeing *)

Definition claim_of (c : option (CoreOccupied (CollatorId := CollatorId))) : list ParaId :=
  match c with Some (OccupiedParathread e) => [claim_para (claim e)] | _ => [] end.

Lemma occ_paras_insert (cores : Cores) i x y :
  cores !! i = Some x → claim_of x ++ occ_paras (<[i := y]> cores) ≡ₚ claim_of y ++ occ_paras cores.
Proof.
  intros Hi. apply lookup_lt_Some in Hi as Hlt. rewrite insert_take_drop by done.
  rewrite <-(take_drop_middle cores i x Hi) at 3. unfold occ_paras, occupied_claims.
  rewrite !omap_app, !fmap_app. cbn.
  destruct x as [[?|]|], y as [[?|]|]; cbn; solve_Permutation.
Qed.

Lemma queue_paras_enqueue e n q (q' : ParathreadClaimQueue (CollatorId := CollatorId)) :
  enqueue_entry e n q = Some q' → queue_paras q' = queue_paras q ++ [claim_para (claim e)].
Proof.
  unfold enqueue_entry. case_decide; [done|]. intros [= <-]. unfold queue_paras. cbn. by rewrite fmap_app.
Qed.

Lemma free_core_evolves config (s : State) f s' :
  claims_ok s → free_core config s f = Some s' → evolves s s'.
Proof.
  intros [Hs Hnd _]. unfold free_core.
  destruct (AvailabilityCores s !! f.1) as [[[e|]|]|] eqn:E;
    [|..|by intros [= <-]; apply evolves_same].
  - pose proof (occ_paras_insert _ _ _ None E) as Hp. cbn in Hp. destruct (f.2).
    + intros [= <-]. set (p := claim_para (claim e)) in *.
      assert (claims s ≡ₚ p :: claims (set_cores (<[f.1 := None]> (AvailabilityCores s)) s)) as Hcl.
      { unfold claims. cbn. rewrite <-Hp. solve_Permutation. }
      rewrite Hcl in Hnd. apply NoDup_cons in Hnd as [Hout _].
      split; cbn; [by apply sorted_remove_sorted|..].
      * rewrite Hcl. apply submseteq_cons. done.
      * intros q. rewrite elem_of_sorted_remove by done. tauto.
      * intros q Hq Hn. rewrite elem_of_sorted_remove in Hn by done.
        assert (q = p) as -> by (destruct (decide (q = p)); [done|exfalso; apply Hn; tauto]).
        split; [rewrite Hcl; left|done].
    + cbn. destruct (enqueue_entry _ _ _) as [q'|] eqn:Eq; cbn; [|done]. intros [= <-].
      apply evolves_same; [done|done|]. unfold claims. cbn. rewrite (queue_paras_enqueue _ _ _ _ Eq).
      rewrite <-Hp. apply Permutation_submseteq. solve_Permutation.
  - intros [= <-]. apply evolves_same; [done|done|]. pose proof (occ_paras_insert _ _ _ None E) as Hp. cbn in Hp.
    unfold claims. cbn. by rewrite Hp.
  - intros [= <-]. by apply evolves_same.
Qed.

Lemma free_cores_evolves config l (s : State) s' :
  claims_ok s → free_cores config l s = Some s' → evolves s s'.
Proof.
  revert s. induction l as [|f l IH]; intros s Hs; cbn; [intros [= <-]; apply evolves_same; [apply Hs|done..]|].
  destruct (free_core config s f) as [s1|] eqn:E; cbn; [|done]. intros Hrun.
  pose proof (free_core_evolves _ _ _ _ Hs E) as He. eapply evolves_trans; [done|].
  apply IH; [by eapply evolves_ok|done].
Qed.

(** *** Clearing, scheduling, occupying *)

(** The assignments whose claim is queued again when the schedule is cleared. *)
Definition retried (config : HostConfiguration) (paras : Paras.Lifecycles)
    (a : CoreAssignment (CollatorId := CollatorId)) : bool :=
  match kind a with
  | KindParathread _ r => Paras.is_parathread (para_id a) paras && bool_decide (u32_add r 1 ≤ parathread_retries config)
  | KindParachain => false
  end.

Lemma requeue_paras config paras l (q q' : ParathreadClaimQueue (CollatorId := CollatorId)) :
  requeue config paras l q = Some q' →
  queue_paras q' = queue_paras q ++ sched_paras (filter (λ a, retried config paras a = true) l).
Proof.
  revert q. induction l as [|a l IH]; intros q; cbn [requeue]; [intros [= <-]; by rewrite app_nil_r|].
  rewrite filter_cons. pose proof (eq_refl (retried config paras a)) as Er. unfold retried at 2 in Er.
  destruct (kind a) as [|collator r] eqn:Ek; [rewrite decide_False by congruence; by apply IH|].
  destruct (Paras.is_parathread _ _); cbn [negb andb] in *; [|rewrite decide_False by congruence; by apply IH].
  cbn [retries]. destruct (decide (u32_add r 1 ≤ parathread_retries config)) as [Hr|Hr].
  - rewrite (decide_True (P := retried config paras a = true)) by (rewrite Er; by apply bool_decide_eq_true).
    destruct (enqueue_entry _ _ _) as [q1|] eqn:Eq; cbn [mbind option_bind]; [|done]. intros ->%IH.
    rewrite (queue_paras_enqueue _ _ _ _ Eq). unfold sched_paras at 2. cbn [omap list_omap]. rewrite Ek. cbn.
    by rewrite <-app_assoc.
  - rewrite (decide_False (P := retried config paras a = true)) by (rewrite Er; by rewrite bool_decide_eq_true). by apply IH.
Qed.

Lemma sched_paras_filter (P : CoreAssignment (CollatorId := CollatorId) → Prop) `{∀ a, Decision (P a)} l :
  sched_paras (filter P l) ⊆+ sched_paras l.
Proof.
  induction l as [|a l IH]; [done|]. rewrite filter_cons. unfold sched_paras in *. case_decide; cbn.
  - destruct (kind a); [done|by apply submseteq_skip].
  - destruct (kind a); [done|by apply submseteq_cons].
Qed.

Lemma clear_evolves config paras (s : State) s' :
  claims_ok s → clear config paras s = Some s' → evolves s s'.
Proof.
  intros Hs. unfold clear. destruct (requeue _ _ _ _) as [q'|] eqn:E; cbn; [|done]. intros [= <-].
  apply evolves_same; [apply Hs|done|]. 
  change (queue_paras q' ++ occ_paras (AvailabilityCores s) ⊆+ claims s). unfold claims.
  rewrite (app_assoc (queue_paras (ParathreadQueue s))).
  apply submseteq_app; [|done]. rewrite (requeue_paras _ _ _ _ _ E). apply submseteq_app; [done|apply sched_paras_filter].
Qed.

(** A claim that is not queued again is gone. *)
Lemma clear_drops config paras (s : State) s' a collator r :
  claims_ok s → a ∈ Scheduled s → kind a = KindParathread collator r → retried config paras a = false →
  clear config paras s = Some s' → para_id a ∉ claims s'.
Proof.
  intros Hs (l1 & l2 & Hl)%list_elem_of_split Hk Hr. unfold clear.
  destruct (requeue _ _ _ _) as [q'|] eqn:E; cbn; [|done]. intros [= <-] Hin.
  apply requeue_paras in E. unfold claims in Hin. cbn in Hin. rewrite E, Hl in Hin.
  rewrite filter_app, filter_cons, decide_False in Hin by congruence.
  pose proof (cl_nodup _ Hs) as Hnd. unfold claims in Hnd. rewrite Hl in Hnd.
  assert (sched_paras (l1 ++ a :: l2) ≡ₚ para_id a :: sched_paras l1 ++ sched_paras l2) as Hp.
  { unfold sched_paras. rewrite omap_app. cbn. rewrite Hk. solve_Permutation. }
  rewrite Hp in Hnd. cbn in Hnd. rewrite <-Permutation_middle in Hnd. apply NoDup_cons in Hnd as [Hnd _]. apply Hnd.
  unfold sched_paras in *. rewrite omap_app in Hin. rewrite !elem_of_app in Hin |- *.
  destruct Hin as [[?|[Hin|Hin]]|?]; try tauto; eapply elem_of_submseteq in Hin; try apply sched_paras_filter;
    unfold sched_paras in Hin; tauto.
Qed.

Lemma assign_paras config parachains now (s : State) c q q' a :
  assign config parachains now s c q = Some (q', a) →
  queue_paras q ≡ₚ sched_paras (option_list a) ++ queue_paras q'.
Proof.
  unfold assign. destruct (parachains !! c) as [p|].
  - destruct (group_assigned_to_core _ _ _ _) as [[g|]|]; cbn; [|done..]. by intros [= <- <-].
  - set (o := Z.of_nat _). destruct (take_next_spec o q) as (T1 & _ & _ & T4).
    destruct (take_next_on_core o q) as [q1 entry]. cbn in T1, T4. subst entry.
    destruct (get_next_on_core o q) as [e|]; [|intros [= <- <-]; by subst q1].
    destruct (group_assigned_to_core _ _ _ _) as [[g|]|]; cbn; [|done..]. intros [= <- <-].
    destruct T4 as (x & Hx & Hp). unfold queue_paras. rewrite Hp. cbn. by rewrite Hx.
Qed.

Lemma sweep_paras config parachains now (s : State) free idx rest q q' ups :
  sweep config parachains now s free idx rest q = Some (q', ups) →
  queue_paras q ≡ₚ sched_paras ups.*2 ++ queue_paras q'.
Proof.
  revert idx rest q ups. induction free as [|c free IH]; intros idx rest q ups; cbn [sweep]; [by intros [= <- <-]|].
  destruct (skip_below c idx rest) as [i rest']. destruct (match rest' with [] => _ | _ => _ end) as [at_|]; [|by apply IH].
  destruct (assign _ _ _ _ _ _) as [[q1 a]|] eqn:Ea; cbn [mbind option_bind]; [|done].
  destruct (sweep _ _ _ _ _ _ _ _) as [[q2 ups2]|] eqn:Es; cbn [mbind option_bind]; [|done]. intros [= <- <-].
  rewrite (assign_paras _ _ _ _ _ _ _ _ Ea), (IH _ _ _ _ Es). destruct a as [a|]; [|done].
  unfold sched_paras. cbn. by destruct (kind a).
Qed.

Lemma insert_updates_perm n ups (l l' : list (CoreAssignment (CollatorId := CollatorId))) :
  insert_updates n ups l = Some l' → l' ≡ₚ ups.*2 ++ l.
Proof.
  revert n l. induction ups as [|[at_ a] ups IH]; intros n l; cbn; [by intros [= <-]|].
  case_decide; [|done]. intros ->%IH. unfold vec_insert. rewrite <-Permutation_middle, take_drop. solve_Permutation.
Qed.

Lemma free_cores_scheduled config l (s s' : State) : free_cores config l s = Some s' → Scheduled s' = Scheduled s.
Proof.
  revert s. induction l as [|f l IH]; intros s; cbn; [by intros [= <-]|].
  destruct (free_core config s f) as [s1|] eqn:E; cbn; [|done]. intros ->%IH.
  unfold free_core in E. repeat (case_match; simplify_eq/=; try done).
  destruct (enqueue_entry _ _ _); by simplify_eq/=.
Qed.

Lemma schedule_evolves config parachains freed now (s : State) s' :
  claims_ok s → schedule config parachains freed now s = Some s' → evolves s s'.
Proof.
  intros Hs. unfold schedule. destruct (free_cores config freed s) as [s1|] eqn:Ef; cbn [mbind option_bind]; [|done].
  pose proof (free_cores_evolves _ _ _ _ Hs Ef) as He.
  destruct (ValidatorGroups s1); [intros [= <-]; exact He|].
  destruct (sweep _ _ _ _ _ _ _ _) as [[q ups]|] eqn:Es; cbn [mbind option_bind]; [|done].
  destruct (insert_updates _ _ _) as [l'|] eqn:Ei; cbn [mbind option_bind]; [|done]. intros [= <-].
  eapply evolves_trans; [exact He|]. apply evolves_same; [apply He|done|].
  apply Permutation_submseteq. unfold claims. cbn. rewrite (sweep_paras _ _ _ _ _ _ _ _ _ _ Es).
  unfold sched_paras. rewrite (insert_updates_perm _ _ _ _ Ei), omap_app. solve_Permutation.
Qed.

Lemma occupy_paras occ l (cores : Cores) l' cores' :
  occupy occ l cores = Some (l', cores') →
  sched_paras l' ++ occ_paras cores' ⊆+ sched_paras l ++ occ_paras cores.
Proof.
  revert occ cores l'. induction l as [|a l IH]; intros occ cores l'; cbn [occupy]; [by intros [= <- <-]|].
  assert (∀ occ, ('(l0, c0) ← occupy occ l cores; Some (a :: l0, c0)) = Some (l', cores') →
    sched_paras l' ++ occ_paras cores' ⊆+ sched_paras (a :: l) ++ occ_paras cores) as Hkeep.
  { intros o. destruct (occupy o l cores) as [[l0 c0]|] eqn:E; cbn; [|done]. intros [= <- <-].
    apply IH in E. unfold sched_paras in *. cbn. destruct (kind a); [done|]. cbn. by apply submseteq_skip. }
  destruct occ as [|o occ]; [apply Hkeep|]. case_decide as Ho; [|apply Hkeep].
  case_decide as Hlt; [|done]. intros Hrun%IH. rewrite Hrun. clear Hrun Hkeep IH.
  apply lookup_lt_is_Some in Hlt as [x Hx].
  pose proof (occ_paras_insert cores (core a) x (Some (to_core_occupied a)) Hx) as Hp.
  assert (claim_of (Some (to_core_occupied a)) ++ sched_paras l = sched_paras (a :: l)) as <-.
  { unfold claim_of, to_core_occupied, sched_paras. cbn. by destruct (kind a). }
  assert (occ_paras (<[core a := Some (to_core_occupied a)]> cores) ⊆+
    claim_of (Some (to_core_occupied a)) ++ occ_paras cores) as Hsub.
  { rewrite <-Hp. apply submseteq_inserts_l. done. }
  etrans; [apply submseteq_app; [done|exact Hsub]|]. apply Permutation_submseteq. solve_Permutation.
Qed.

Lemma occupied_evolves occ (s : State) s' : claims_ok s → occupied occ s = Some s' → evolves s s'.
Proof.
  intros Hs. unfold occupied. destruct occ as [|o occ]; [intros [= <-]; apply evolves_same; [apply Hs|done..]|].
  destruct (occupy _ _ _) as [[l c]|] eqn:E; cbn; [|done]. intros [= <-].
  apply evolves_same; [apply Hs|done|]. unfold claims. cbn. apply submseteq_app; [done|].
  by eapply occupy_paras.
Qed.

(** *** A new session *)

Abbreviation paras_of l := ((λ x, claim_para (claim (queued_claim x))) <$> l).

Lemma retain_claims_spec config paras (l : list (QueuedParathread (CollatorId := CollatorId))) idx :
  sorted idx →
  let '(l', idx') := retain_claims config paras l idx in
  ∃ gone, paras_of l ≡ₚ paras_of l' ++ gone ∧ sorted idx' ∧ ∀ p, p ∈ idx' ↔ p ∈ idx ∧ p ∉ gone.
Proof.
  revert idx. induction l as [|x l IH]; intros idx Hs; cbn [retain_claims].
  { exists []. split_and!; try done. intros p. split; [|tauto]. intros Hp. split; [done|apply not_elem_of_nil]. }
  set (p := claim_para (claim (queued_claim x))). destruct (_ && _).
  - specialize (IH idx Hs). destruct (retain_claims config paras l idx) as [l' idx'].
    destruct IH as (gone & Hp & Hs' & Hm). exists gone. split_and!; [|done|done]. cbn. by rewrite Hp.
  - specialize (IH (sorted_remove p idx) ltac:(by apply sorted_remove_sorted)).
    destruct (retain_claims config paras l _) as [l' idx']. destruct IH as (gone & Hp & Hs' & Hm).
    exists (p :: gone). split_and!; [cbn; rewrite Hp; solve_Permutation|done|].
    intros q. rewrite Hm, elem_of_sorted_remove, not_elem_of_cons by done. tauto.
Qed.

Lemma cleared_cores n (cores : Cores) i (x : option (CoreOccupied (CollatorId := CollatorId))) :
  resize n None ((λ _, None) <$> cores) !! i = Some x → x = None.
Proof.
  intros Hi. destruct (decide (i < n)%nat) as [Hin|Hin]; [|by rewrite lookup_resize_old in Hi by lia].
  destruct (decide (i < length cores)%nat).
  - rewrite lookup_resize in Hi by (rewrite ?length_fmap; lia).
    rewrite list_lookup_fmap in Hi. by destruct (cores !! i); simplify_eq/=.
  - rewrite lookup_resize_new in Hi by (rewrite ?length_fmap; lia). by simplify_eq.
Qed.

Lemma occ_paras_cleared n (cores : Cores) : occ_paras (resize n None ((λ _, None) <$> cores)) = [].
Proof.
  unfold occ_paras. rewrite (proj2 (occupied_claims_nil _)); [done|]. intros i e Hi%cleared_cores. done.
Qed.

Lemma session_evolves config paras parachains nv bn (s : State) :
  parathread_cores config ≠ 0 → claims_ok s →
  evolves s (initializer_on_new_session config paras parachains nv bn s).
Proof.
  intros Hn [Hs Hnd _]. unfold initializer_on_new_session. rewrite decide_False by done. cbn.
  set (l := queue (ParathreadQueue s) ++ _).
  pose proof (retain_claims_spec config paras l (ParathreadClaimIndex s) Hs) as Hr.
  destruct (retain_claims config paras l _) as [l' idx']. destruct Hr as (gone & Hp & Hs' & Hm).
  set (n := Z.to_nat _). set (s' := mkState _ _ _ _ _ _).
  assert (queue_paras (ParathreadQueue s') = paras_of l') as Hq'.
  { unfold s', queue_paras, rebalance. cbn. rewrite fmap_imap. apply list_eq. intros i.
    rewrite list_lookup_imap, list_lookup_fmap. by destruct (l' !! i). }
  assert (claims s ≡ₚ claims s' ++ gone) as Hcl.
  { unfold claims. rewrite Hq'. 
    change (occ_paras (AvailabilityCores s')) with (occ_paras (resize n None ((λ _, None) <$> AvailabilityCores s))).
    rewrite occ_paras_cleared, app_nil_r. change (Scheduled s') with (Scheduled s).
    assert (paras_of l = queue_paras (ParathreadQueue s) ++ occ_paras (AvailabilityCores s)) as El.
    { unfold l, queue_paras, occ_paras. rewrite fmap_app, <-list_fmap_compose. done. }
    rewrite (Permutation_app_comm (sched_paras (Scheduled s))), app_assoc, <-El, Hp. solve_Permutation. }
  rewrite Hcl in Hnd. apply NoDup_app in Hnd as (_ & Hdis & _).
  split; [exact Hs'|..].
  - rewrite Hcl. apply submseteq_inserts_r. done.
  - intros p. change (ParathreadClaimIndex s') with idx'. rewrite Hm. tauto.
  - intros p Hp1. change (ParathreadClaimIndex s') with idx'. rewrite Hm. intros Hp2.
    destruct (decide (p ∈ gone)) as [Hg|Hg]; [|tauto]. split; [rewrite Hcl; apply elem_of_app; by right|].
    intros Hp3. by apply (Hdis p).
Qed.

(** *** A new claim *)

Lemma add_claim_ok config paras c (s : State) s' :
  claims_ok s → add_parathread_claim config paras c s = Some s' →
  claims_ok s' ∧ (s' = s ∨
    (claim_para c ∉ ParathreadClaimIndex s) ∧ claims s' ≡ₚ claim_para c :: claims s ∧
    ∀ p, p ∈ ParathreadClaimIndex s' ↔ p = claim_para c ∨ p ∈ ParathreadClaimIndex s).
Proof.
  intros Hs. unfold add_parathread_claim. destruct (negb _); [intros [= <-]; by auto|].
  case_decide; [intros [= <-]; by auto|].
  destruct (binary_search _ _) as [i|i] eqn:Eb; [intros [= <-]; by auto|].
  cbn. destruct (enqueue_entry _ _ _) as [q'|] eqn:Eq; cbn; [|done]. intros [= <-].
  pose proof (binary_search_absent _ _ _ (cl_sorted _ Hs) Eb) as Hout.
  assert (vec_insert i (claim_para c) (ParathreadClaimIndex s) =
    sorted_insert (claim_para c) (ParathreadClaimIndex s)) as -> by (unfold sorted_insert; by rewrite Eb).
  set (s' := set_queue _ _).
  assert (claims s' ≡ₚ claim_para c :: claims s) as Hcl.
  { unfold claims. cbn. rewrite (queue_paras_enqueue _ _ _ _ Eq). cbn. solve_Permutation. }
  assert (∀ p, p ∈ ParathreadClaimIndex s' ↔ p = claim_para c ∨ p ∈ ParathreadClaimIndex s) as Hm.
  { intros p. cbn. apply elem_of_sorted_insert, Hs. }
  split; [|right; by split_and!]. split.
  - cbn. apply sorted_insert_sorted, Hs.
  - rewrite Hcl. constructor; [|apply Hs]. intros Hin%Hs. done.
  - intros p. rewrite Hcl, Hm, elem_of_cons. pose proof (cl_indexed _ Hs p). tauto.
Qed.

(** *** The scheduler over time *)

(** What a block does with the scheduler ([paras_inherent/mod.rs]): cores of
    disputed candidates are freed, the schedule is cleared and made anew with
    the cores freed by the block, and cores are occupied by what was backed. *)
Definition block (config : HostConfiguration) (paras : Paras.Lifecycles) (parachains : list ParaId)
    (disputed freed : list (CoreIndex * FreedReason)) (now : BlockNumber) (occ : list CoreIndex) (s : State) :
    option State :=
  s ← free_cores config disputed s;
  s ← clear config paras s;
  s ← schedule config parachains freed now s;
  occupied occ s.

(** Claims, blocks and new sessions, as long as sessions have parathread cores. *)
Inductive step_open : State → State → Prop :=
| step_claim config paras c s s' : add_parathread_claim config paras c s = Some s' → step_open s s'
| step_block config paras parachains disputed freed now occ s s' :
    block config paras parachains disputed freed now occ s = Some s' → step_open s s'
| step_session config paras parachains nv bn s :
    parathread_cores config ≠ 0 →
    step_open s (initializer_on_new_session config paras parachains nv bn s).

(** A new session without parathread cores is taken together with the next
    block: the index is emptied at once, and the claims that are scheduled still
    are dropped, or make the block panic, when it clears the schedule. *)
Inductive step : State → State → Prop :=
| step_with_cores s s' : step_open s s' → step s s'
| step_close config paras parachains nv bn paras' parachains' disputed freed now occ s s' :
    parathread_cores config = 0 →
    block config paras' parachains' disputed freed now occ
      (initializer_on_new_session config paras parachains nv bn s) = Some s' → step s s'.

(** There is a group for every core, or none at all. *)
Definition shape_ok (s : State) : Prop :=
  ValidatorGroups s = [] ∨ (length (AvailabilityCores s) ≤ length (ValidatorGroups s))%nat.

Lemma session_shape config paras parachains nv bn (s : State) :
  shape_ok (initializer_on_new_session config paras parachains nv bn s).
Proof.
  unfold initializer_on_new_session, shape_ok. set (n := Z.to_nat _).
  destruct (if decide (parathread_cores config = 0) then _ else _) as [q i]. cbn.
  destruct (decide (n = 0 ∨ nv = 0)%nat) as [Hz|Hz].
  - left. unfold make_groups. by rewrite decide_True.
  - right. rewrite length_resize. destruct (make_groups_partition nv n) as (_ & -> & _); lia.
Qed.

Lemma filled_evolves config parachains freed now occ (s : State) s' :
  claims_ok s → (s ← schedule config parachains freed now s; occupied occ s) = Some s' → evolves s s'.
Proof.
  intros Hs. destruct (schedule config parachains freed now s) as [s1|] eqn:E; cbn; [|done].
  pose proof (schedule_evolves _ _ _ _ _ _ Hs E) as He. intros E'. eapply evolves_trans; [exact He|].
  eapply occupied_evolves; [by eapply evolves_ok|done].
Qed.

Lemma block_evolves config paras parachains disputed freed now occ (s : State) s' :
  claims_ok s → block config paras parachains disputed freed now occ s = Some s' → evolves s s'.
Proof.
  intros Hs. unfold block. destruct (free_cores config disputed s) as [s1|] eqn:E1; cbn [mbind option_bind]; [|done].
  pose proof (free_cores_evolves _ _ _ _ Hs E1) as He1. pose proof (evolves_ok _ _ He1 Hs) as Hs1.
  destruct (clear config paras s1) as [s2|] eqn:E2; cbn [mbind option_bind]; [|done].
  pose proof (clear_evolves _ _ _ _ Hs1 E2) as He2. intros E3.
  eapply evolves_trans; [exact He1|]. eapply evolves_trans; [exact He2|].
  eapply filled_evolves; [by eapply evolves_ok|exact E3].
Qed.

Lemma requeue_closed config paras l (q q' : ParathreadClaimQueue (CollatorId := CollatorId)) :
  parathread_cores config = 0 → requeue config paras l q = Some q' → q' = q.
Proof.
  intros Hz. revert q. induction l as [|a l IH]; intros q; cbn; [by intros [= <-]|].
  destruct (kind a); [apply IH|]. case_match; [apply IH|]. case_decide; [|apply IH].
  unfold enqueue_entry. by rewrite decide_True.
Qed.

Lemma free_cores_none config l (s : State) :
  (∀ i x, AvailabilityCores s !! i = Some x → x = None) → free_cores config l s = Some s.
Proof.
  intros Hc. induction l as [|f l IH]; cbn; [done|]. unfold free_core.
  destruct (AvailabilityCores s !! f.1) as [x|] eqn:E; [rewrite (Hc _ _ E)|]; exact IH.
Qed.

Lemma close_ok config paras parachains nv bn paras' parachains' disputed freed now occ (s : State) s' :
  parathread_cores config = 0 →
  block config paras' parachains' disputed freed now occ
    (initializer_on_new_session config paras parachains nv bn s) = Some s' → claims_ok s'.
Proof.
  intros Hz. unfold initializer_on_new_session. rewrite decide_True by done. set (n := Z.to_nat _).
  set (s1 := mkState _ _ _ _ _ _).
  assert (∀ i x, AvailabilityCores s1 !! i = Some x → x = None) as Hc.
  { intros i x. cbn. apply cleared_cores. }
  unfold block. rewrite free_cores_none by done. cbn [mbind option_bind]. unfold clear.
  destruct (requeue config paras' (Scheduled s1) _) as [q|] eqn:E; cbn [mbind option_bind]; [|done].
  apply requeue_closed in E as ->; [|done]. set (s2 := set_queue _ _).
  assert (claims_ok s2) as Hs2.
  { assert (claims s2 = []) as Hn by (unfold claims; cbn; apply occ_paras_cleared).
    split; [constructor|rewrite Hn; constructor|]. rewrite Hn. by intros p ?%elem_of_nil. }
  intros Hrun. eapply evolves_ok; [by eapply filled_evolves|done].
Qed.

Lemma step_open_ok (s s' : State) : step_open s s' → claims_ok s → claims_ok s'.
Proof.
  intros [config paras c t t' Hadd|config paras parachains disputed freed now occ t t' Hb|config paras parachains nv bn t Hn] Hs.
  - by eapply add_claim_ok.
  - eapply evolves_ok; [by eapply block_evolves|done].
  - eapply evolves_ok; [by apply session_evolves|done].
Qed.

Lemma claims_steps_ok (s s' : State) : rtc step s s' → claims_ok s → claims_ok s'.
Proof.
  induction 1 as [|s1 s2 s3 Hst _ IH]; intros Hs; [done|]. apply IH. destruct Hst as [? ? Ho|]; [by eapply step_open_ok|].
  by eapply close_ok.
Qed.

Lemma empty_claims_ok : claims_ok empty_state.
Proof. split; cbn; [constructor|constructor|]. by intros p ?%elem_of_nil. Qed.

(** C20. A parathread has one claim at most: through claims, blocks and session
    changes with any configuration, the queue, the schedule and the occupied
    cores together hold no two claims of one parathread, and all of them are in
    the claim index, which is sorted.  A change to a session without parathread
    cores is taken as one step with the next block, if that does not panic. *)
Theorem one_claim_per_parathread (s : State) : rtc step empty_state s → claims_ok s.
Proof. intros Hr. by eapply claims_steps_ok, empty_claims_ok. Qed.

Lemma locked_out (s s' : State) p :
  rtc step_open s s' → claims_ok s → p ∈ ParathreadClaimIndex s → p ∉ claims s →
  claims_ok s' ∧ p ∈ ParathreadClaimIndex s' ∧ p ∉ claims s'.
Proof.
  induction 1 as [|s1 s2 s3 Hst _ IH]; intros Hs Hp Hn; [done|].
  pose proof (step_open_ok _ _ Hst Hs) as Hs2.
  assert (∀ t, evolves s1 t → p ∈ ParathreadClaimIndex t ∧ p ∉ claims t) as Hev.
  { intros t He. split; [|intros Hin; by eapply Hn, elem_of_submseteq, He].
    destruct (decide (p ∈ ParathreadClaimIndex t)); [done|]. by destruct (ev_gone _ _ He p). }
  enough (p ∈ ParathreadClaimIndex s2 ∧ p ∉ claims s2) as [? ?] by (by apply IH).
  destruct Hst as [config paras c s s' Hadd|config paras parachains disputed freed now occ s s' Hb|].
  - destruct (add_claim_ok _ _ _ _ _ Hs Hadd) as [_ [->|(Hc & Hcl & Hm)]]; [done|]. split.
    + apply Hm. by right.
    + rewrite Hcl. intros [->|?]%elem_of_cons; done.
  - apply Hev. by eapply block_evolves.
  - apply Hev. by apply session_evolves.
Qed.

(** C40. A dropped claim locks its parathread out.  Take a reachable state with
    a scheduled claim that is out of retries, or whose para is no parathread,
    and clear the schedule, as every block does.  The claim is gone, but stays
    in the claim index; and then, through any claims and blocks and any session
    changes that leave parathread cores, the para stays in the index without a
    claim, and every new claim of it is ignored. *)
Theorem dropped_claim_locks_out config paras (s s1 s2 : State) a collator r :
  rtc step empty_state s → a ∈ Scheduled s → kind a = KindParathread collator r →
  Paras.is_parathread (para_id a) paras = false ∨ parathread_retries config < u32_add r 1 →
  clear config paras s = Some s1 → rtc step_open s1 s2 →
  para_id a ∈ ParathreadClaimIndex s2 ∧ (para_id a ∉ claims s2) ∧
  ∀ config' paras' collator', add_parathread_claim config' paras' (mkClaim (para_id a) collator') s2 = Some s2.
Proof.
  intros Hr Ha Hk Hout Hc Hr'. pose proof (claims_steps_ok _ _ Hr empty_claims_ok) as Hs.
  assert (retried config paras a = false) as Hre.
  { unfold retried. rewrite Hk. destruct Hout as [-> |Hlt]; [done|].
    rewrite (bool_decide_eq_false_2 (_ ≤ _)) by lia. apply andb_false_r. }
  pose proof (clear_drops _ _ _ _ _ _ _ Hs Ha Hk Hre Hc) as Hn.
  assert (ParathreadClaimIndex s1 = ParathreadClaimIndex s) as Ei.
  { unfold clear in Hc. destruct (requeue _ _ _ _); by simplify_eq/=. }
  assert (para_id a ∈ claims s) as Hin.
  { unfold claims, sched_paras. rewrite !elem_of_app, list_elem_of_omap. right; left. exists a. by rewrite Hk. }
  destruct (locked_out s1 s2 (para_id a) Hr') as (Hs2 & Hp & Hn2); [by eapply evolves_ok, Hs; eapply clear_evolves| |done|].
  { rewrite Ei. by apply Hs. }
  split_and!; [done..|]. intros config' paras' collator'. unfold add_parathread_claim.
  change (claim_para (mkClaim (para_id a) collator')) with (para_id a). destruct (negb _); [done|].
  case_decide; [done|]. destruct (binary_search _ _) as [i|i] eqn:Eb; [done|].
  by destruct (binary_search_absent _ _ _ (cl_sorted _ Hs2) Eb).
Qed.

(** C21. The schedule is exact.  Suppose that groups rotate (the frequency is
    not zero), the session has begun, there are validator groups, one for every
    core at least, the schedule is sorted by core, and there are parathread
    cores or no core works on a claim.  Then scheduling does not panic; it keeps
    what was scheduled, and adds, for every free core that is not scheduled, the
    parachain the core belongs to, or else the first queued claim for the core,
    if there is one, with the group the rotation gives; and the schedule stays
    sorted by core, although it is made in one sweep. *)
Theorem schedule_exact config parachains freed now (s : State) :
  parathread_cores config ≠ 0 ∨ occupied_claims (AvailabilityCores s) = [] →
  0 < group_rotation_frequency config → SessionStartBlock s ≤ now →
  ValidatorGroups s ≠ [] → (length (AvailabilityCores s) ≤ length (ValidatorGroups s))%nat →
  StronglySorted lt (core <$> Scheduled s) →
  ∃ s1 s2, free_cores config freed s = Some s1 ∧ schedule config parachains freed now s = Some s2 ∧
    StronglySorted lt (core <$> Scheduled s2) ∧
    ∀ a, a ∈ Scheduled s2 ↔ a ∈ Scheduled s ∨
      is_free (AvailabilityCores s1) (core a) = true ∧ (core a ∉ core <$> Scheduled s) ∧
      due config parachains now s1 (ParathreadQueue s1) (core a) = Some a.
Proof.
  intros Hn Hf Hnow Hg Hlen HL.
  destruct (schedule_spec config parachains now freed s) as
    (s1 & s2 & new & Hfree & Hrun & S1 & S2 & S3 & _); try done.
  exists s1, s2. split_and!; [done|done|done|]. intros a. rewrite S2, elem_of_app, S3. tauto.
Qed.

(** Groups partition the validators: a session change puts every validator
    in exactly one group, in order, makes one group for each core, and the sizes
    of the groups differ by one at most. *)
Theorem groups_partition config paras parachains nv bn (s : State) :
  (0 < nv)%nat → 0 < n_cores_for config (length parachains) nv →
  let s' := initializer_on_new_session config paras parachains nv bn s in
  concat (ValidatorGroups s') = seq 0 nv ∧
  length (ValidatorGroups s') = length (AvailabilityCores s') ∧
  ∀ g h, g ∈ ValidatorGroups s' → h ∈ ValidatorGroups s' → (length g ≤ length h + 1)%nat.
Proof.
  intros Hv Hc. unfold initializer_on_new_session. set (n := Z.to_nat _).
  destruct (if decide (parathread_cores config = 0) then _ else _) as [q i]. cbn.
  destruct (make_groups_partition nv n) as (H1 & H2 & H3); [done|lia|].
  split_and!; [done|by rewrite length_resize|].
  intros g h Hg Hh. pose proof (H3 g Hg). pose proof (H3 h Hh). lia.
Qed.

(** Rotation is a bijection and the two codes for it agree: at every block
    of a session the group the scheduler assigns to a core is the one
    [GroupRotationInfo] gives nodes, [core_for_group] leads back to the core,
    and each rotation moves every core to the next group. *)
Theorem rotation_agrees config (s : State) c now :
  let n := length (ValidatorGroups s) in
  let r := group_rotation_info config now s in
  0 < group_rotation_frequency config → SessionStartBlock s ≤ now → (c < n)%nat → Z.of_nat n ≤ u32_max →
  group_assigned_to_core config c now s = Some (Some (group_for_core r c n)) ∧
  core_for_group r (group_for_core r c n) n = c ∧
  group_assigned_to_core config c (now + group_rotation_frequency config) s =
    Some (Some ((group_for_core r c n + 1) mod n)%nat).
Proof.
  cbn zeta. intros Hf Hnow Hc Hn.
  set (n := length (ValidatorGroups s)) in *. set (r := group_rotation_info config now s).
  assert (0 ≤ (now - SessionStartBlock s) `div` group_rotation_frequency config) as Hd
    by (apply Z.div_pos; lia).
  assert (group_for_core r c n =
    ((c + Z.to_nat ((now - SessionStartBlock s) `div` group_rotation_frequency config)) mod n)%nat) as Hg.
  { unfold group_for_core, r. cbn. rewrite !decide_False by lia.
    replace (Nat.min n (Z.to_nat u32_max)) with n by lia. unfold saturating_sub.
    by replace (Z.max 0 (now - SessionStartBlock s)) with (now - SessionStartBlock s) by lia. }
  split_and!.
  - unfold group_assigned_to_core. fold n. rewrite !decide_False by lia. by rewrite Hg.
  - apply rotation_inverse; [cbn; lia|done|done].
  - unfold group_assigned_to_core. fold n. rewrite !decide_False by lia. rewrite Hg. do 2 f_equal.
    replace (now + group_rotation_frequency config - SessionStartBlock s) with
      (now - SessionStartBlock s + 1 * group_rotation_frequency config) by lia.
    rewrite Z.div_add, Z2Nat.inj_add by lia. change (Z.to_nat 1) with 1%nat.
    rewrite Nat.Div0.add_mod_idemp_l. f_equal. lia.
Qed.

(** Taking the last parathread core away stops the chain: a session change
    to no parathread cores keeps the schedule; if it holds a claim of a live
    parathread with retries left, clearing it in the next block computes a
    remainder by zero and panics. *)
Theorem clear_panics_without_cores config paras parachains nv bn (s : State) l a l' collator r :
  parathread_cores config = 0 → Scheduled s = l ++ a :: l' → kind a = KindParathread collator r →
  Paras.is_parathread (para_id a) paras = true → u32_add r 1 ≤ parathread_retries config →
  clear config paras (initializer_on_new_session config paras parachains nv bn s) = None.
Proof.
  intros Hz Hl Hk Hp Hr. unfold clear.
  assert (Scheduled (initializer_on_new_session config paras parachains nv bn s) = l ++ a :: l') as ->.
  { unfold initializer_on_new_session. by rewrite decide_True. }
  generalize (ParathreadQueue (initializer_on_new_session config paras parachains nv bn s)). intros q.
  assert (requeue config paras (l ++ a :: l') q = None) as ->; [|done].
  clear Hl. revert q. induction l as [|b l IH]; intros q; cbn.
  - rewrite Hk, Hp. cbn. rewrite decide_True by done. unfold enqueue_entry. by rewrite decide_True.
  - destruct (kind b); [apply IH|]. case_match; [apply IH|]. case_decide; [|apply IH].
    unfold enqueue_entry. by rewrite decide_True.
Qed.
End Claims.

(** ** Examples *)

Section Examples.

(** A parachain, one parathread core and no retries. *)
Definition example_config : HostConfiguration :=
  fold_left (λ c call, Configuration.updater call c)
    [Configuration.set_parathread_cores 1; Configuration.set_group_rotation_frequency 10;
     Configuration.set_scheduling_lookahead 2] HostConfiguration.default.
Definition example_paras : Paras.Lifecycles := {[2000 := ParachainLife; 3000 := Parathread]}.
Definition example_claim : ParathreadClaim (CollatorId := Z) := mkClaim 3000 7.

Definition state0 : State (CollatorId := Z) :=
  initializer_on_new_session example_config example_paras [2000] 5 0 empty_state.
Definition state1 : State := default empty_state (add_parathread_claim example_config example_paras example_claim state0).
Definition state2 : State := default empty_state (block example_config example_paras [2000] [] [] 1 [0%nat] state1).
Definition state3 : State := default empty_state (clear example_config example_paras state2).
Definition state4 : State := default empty_state (block example_config example_paras [2000] [] [] 2 [] state3).

Lemma step1 : rtc step empty_state state1.
Proof.
  apply (rtc_l _ _ state0); [constructor; by apply step_session|].
  apply rtc_once. constructor. by apply (step_claim example_config example_paras example_claim).
Qed.

Lemma step2 : step state1 state2.
Proof. constructor. by apply (step_block example_config example_paras [2000] [] [] 1 [0%nat]). Qed.

Lemma one_claim_per_parathread_witness :
  claims_ok state2 ∧ claims state2 = [3000] ∧
  Scheduled state2 = [mkAssignment 1 3000 (KindParathread 7 0) 1%nat].
Proof.
  split; [|vm_compute; split; reflexivity].
  apply one_claim_per_parathread. eapply rtc_r; [exact step1|exact step2].
Defined.

Lemma dropped_claim_locks_out_witness :
  claims state4 = [] ∧
  add_parathread_claim example_config example_paras example_claim state4 = Some state4.
Proof.
  split; [vm_compute; reflexivity|].
  apply (dropped_claim_locks_out example_config example_paras state2 state3 state4
           (mkAssignment 1 3000 (KindParathread 7 0) 1%nat) 7 0).
  - eapply rtc_r; [exact step1|exact step2].
  - vm_compute. left.
  - reflexivity.
  - right. vm_compute. reflexivity.
  - vm_compute. reflexivity.
  - apply rtc_once. by apply (step_block example_config example_paras [2000] [] [] 2 []).
Defined.

Lemma schedule_exact_witness :
  ∃ s1 s2, free_cores example_config [] state1 = Some s1 ∧
    schedule example_config [2000] [] 1 state1 = Some s2 ∧
    mkAssignment 1 3000 (KindParathread 7 0) 1%nat ∈ Scheduled s2.
Proof.
  destruct (schedule_exact example_config [2000] [] 1 state1) as (s1 & s2 & H1 & H2 & _ & H3);
    [left; vm_compute; discriminate|vm_compute; reflexivity|vm_compute; discriminate|
     vm_compute; discriminate|vm_compute; repeat constructor|vm_compute; constructor|].
  exists s1, s2. split; [exact H1|]. split; [exact H2|]. apply H3. right.
  injection H1 as <-. split; [vm_compute; reflexivity|]. split; [|vm_compute; reflexivity].
  vm_compute. apply not_elem_of_nil.
Defined.

Lemma groups_partition_witness :
  ValidatorGroups state0 = [[0; 1; 2]; [3; 4]]%nat ∧ concat (ValidatorGroups state0) = seq 0 5.
Proof.
  split; [vm_compute; reflexivity|].
  apply (groups_partition example_config example_paras [2000] 5 0 empty_state);
    [repeat constructor|vm_compute; reflexivity].
Defined.

Lemma rotation_agrees_witness :
  group_assigned_to_core example_config 0 11 state0 = Some (Some 1%nat) ∧
  core_for_group (group_rotation_info example_config 11 state0) 1 2 = 0%nat.
Proof.
  destruct (rotation_agrees example_config state0 0 11) as (H1 & H2 & _);
    [vm_compute; reflexivity|vm_compute; discriminate|vm_compute; repeat constructor|vm_compute; discriminate|].
  split; [exact H1|exact H2].
Defined.

Definition no_parathreads : HostConfiguration :=
  fold_left (λ c call, Configuration.updater call c)
    [Configuration.set_parathread_cores 0; Configuration.set_parathread_retries 3] example_config.

Lemma clear_panics_without_cores_witness :
  clear no_parathreads example_paras
    (initializer_on_new_session no_parathreads example_paras [2000] 5 2 state2) = None.
Proof.
  apply (clear_panics_without_cores _ _ _ _ _ _ [] (mkAssignment 1 3000 (KindParathread 7 0) 1%nat) [] 7 0);
    try reflexivity. vm_compute. discriminate.
Defined.
End Examples.
End Scheduler.
