(* ===== verification/ParasPallet.v ===== *)
(** * The paras pallet

    [runtime/parachains/src/paras/mod.rs]: registration of paras and their way
    through the life cycles, the validation code of each with its pre-checking
    vote, its upgrade, its past versions and the count of its references.

    A [ValidationCodeHash] is its 32 bytes read as a big-endian number, which
    has the order of the byte strings; hashing and signature verification are
    parameters.  Bit vectors are lists of booleans.  What the pallet reads from
    [frame_system], [shared] and [configuration] is an [Env].  Weights are not
    modelled. *)

From S2P Require Import Prelude.
From S2P Require Import Vectors.
From S2P Require Import Codec.
From S2P Require Import Frame.
From S2P Require Import Configuration.
From S2P Require Import Paras.

Module ParasPallet.

Abbreviation Hash := Z.
Abbreviation HeadData := (list byte).
Abbreviation ValidationCode := (list byte).

(** ** Data *)

Record ReplacementTimes := mkTimes { expected_at : BlockNumber; activated_at : BlockNumber }.

Record ParaPastCodeMeta := mkMeta {
  upgrade_times : list ReplacementTimes;
  last_pruned : option BlockNumber;
}.
Definition default_meta : ParaPastCodeMeta := mkMeta [] None.

Definition note_replacement (expected activated : BlockNumber) (m : ParaPastCodeMeta) : ParaPastCodeMeta :=
  mkMeta (upgrade_times m ++ [mkTimes expected activated]) (last_pruned m).

Definition meta_is_empty (m : ParaPastCodeMeta) : bool := bool_decide (upgrade_times m = []).

(** The blocks whose replaced code is to be pruned, and what is kept. *)
Definition prune_up_to (max : BlockNumber) (m : ParaPastCodeMeta) : list BlockNumber * ParaPastCodeMeta :=
  let to_prune := length (take_while (λ t, activated_at t <=? max) (upgrade_times m)) in
  let pruned := take to_prune (upgrade_times m) in
  (expected_at <$> pruned,
   mkMeta (drop to_prune (upgrade_times m))
     (match last pruned with Some t => Some (activated_at t) | None => last_pruned m end)).

Record ParaGenesisArgs := mkGenesis {
  genesis_head : HeadData;
  validation_code : ValidationCode;
  parachain : bool;
}.

Inductive PvfCheckCause :=
| OnboardingCause (id : ParaId)
| UpgradeCause (id : ParaId) (relay_parent_number : BlockNumber).

Definition cause_para_id (c : PvfCheckCause) : ParaId :=
  match c with OnboardingCause id | UpgradeCause id _ => id end.

Inductive PvfCheckOutcome := Accepted | Rejected.

(** [primitives/src/v2/mod.rs] *)
Definition byzantine_threshold (n : nat) : nat := ((n - 1) / 3)%nat.
Definition supermajority_threshold (n : nat) : nat := (n - byzantine_threshold n)%nat.

Inductive UpgradeRestriction := Present.
Inductive UpgradeGoAhead := Abort | GoAhead.

Record PvfCheckStatement := mkStatement {
  accept : bool;
  subject : Hash;
  stmt_session_index : SessionIndex;
  validator_index : Z;
}.

(** ["VCPC"], the vote, the hash, the session and the validator, SCALE encoded. *)
Definition signing_payload (stmt : PvfCheckStatement) : list byte :=
  [Byte.x56; Byte.x43; Byte.x50; Byte.x43; if accept stmt then Byte.x01 else Byte.x00] ++
  rev (le_bytes 32 (subject stmt)) ++
  u32_to_le_bytes (stmt_session_index stmt) ++ u32_to_le_bytes (validator_index stmt).

(** *** Ballots *)

Record PvfCheckActiveVoteState := mkVote {
  votes_accept : list bool;
  votes_reject : list bool;
  age : SessionIndex;
  created_at : BlockNumber;
  causes : list PvfCheckCause;
}.

Definition new_vote (now : BlockNumber) (n_validators : nat) (cause : PvfCheckCause) : PvfCheckActiveVoteState :=
  mkVote (replicate n_validators false) (replicate n_validators false) 0 now [cause].

Definition reinitialize_ballots (n_validators : nat) (v : PvfCheckActiveVoteState) : PvfCheckActiveVoteState :=
  mkVote (replicate n_validators false) (replicate n_validators false) (age v) (created_at v) (causes v).

Definition has_vote (v : PvfCheckActiveVoteState) (i : nat) : option bool :=
  accept_vote ← votes_accept v !! i;
  reject_vote ← votes_reject v !! i;
  Some (accept_vote || reject_vote).

Definition count_ones (b : list bool) : nat := length (filter (λ x, x = true) b).

Definition quorum (v : PvfCheckActiveVoteState) (n_validators : nat) : option PvfCheckOutcome :=
  let q_threshold := supermajority_threshold n_validators in
  if decide (q_threshold ≤ count_ones (votes_reject v))%nat then Some Rejected
  else if decide (q_threshold ≤ count_ones (votes_accept v))%nat then Some Accepted
  else None.

Definition cast_vote (accept_ : bool) (i : nat) (v : PvfCheckActiveVoteState) : PvfCheckActiveVoteState :=
  if accept_ then mkVote (<[i := true]> (votes_accept v)) (votes_reject v) (age v) (created_at v) (causes v)
  else mkVote (votes_accept v) (<[i := true]> (votes_reject v)) (age v) (created_at v) (causes v).

Definition add_cause (c : PvfCheckCause) (v : PvfCheckActiveVoteState) : PvfCheckActiveVoteState :=
  mkVote (votes_accept v) (votes_reject v) (age v) (created_at v) (causes v ++ [c]).

Definition older (v : PvfCheckActiveVoteState) : PvfCheckActiveVoteState :=
  mkVote (votes_accept v) (votes_reject v) (u32_add (age v) 1) (created_at v) (causes v).

(** ** Storage *)

Inductive Event :=
| CurrentCodeUpdated (id : ParaId)
| CurrentHeadUpdated (id : ParaId)
| CodeUpgradeScheduled (id : ParaId)
| NewHeadNoted (id : ParaId)
| ActionQueued (id : ParaId) (session : SessionIndex)
| PvfCheckStarted (code_hash : Hash) (id : ParaId)
| PvfCheckAccepted (code_hash : Hash) (id : ParaId)
| PvfCheckRejected (code_hash : Hash) (id : ParaId).

Inductive Error :=
| NotRegistered
| CannotOnboard
| CannotOffboard
| CannotUpgrade
| CannotDowngrade
| PvfCheckStatementStale
| PvfCheckStatementFuture
| PvfCheckValidatorIndexOutOfBounds
| PvfCheckInvalidSignature
| PvfCheckDoubleVote
| PvfCheckSubjectInvalid
| PvfCheckDisabled.

(** [ConsensusLog] of [primitives/src/v2/mod.rs], the entries of this pallet. *)
Inductive ConsensusLog :=
| ParaUpgradeCode (id : ParaId) (code_hash : Hash)
| ParaScheduleUpgradeCode (id : ParaId) (code_hash : Hash) (at_ : BlockNumber).

Record State := mkState {
  PvfActiveVoteMap : gmap Hash PvfCheckActiveVoteState;
  PvfActiveVoteList : list Hash;
  Parachains : list ParaId;
  ParaLifecycles : gmap ParaId ParaLifecycle;
  Heads : gmap ParaId HeadData;
  CurrentCodeHash : gmap ParaId Hash;
  PastCodeHash : gmap (ParaId * BlockNumber) Hash;
  PastCodeMeta : gmap ParaId ParaPastCodeMeta;
  PastCodePruning : list (ParaId * BlockNumber);
  FutureCodeUpgrades : gmap ParaId BlockNumber;
  FutureCodeHash : gmap ParaId Hash;
  UpgradeGoAheadSignal : gmap ParaId UpgradeGoAhead;
  UpgradeRestrictionSignal : gmap ParaId UpgradeRestriction;
  UpgradeCooldowns : list (ParaId * BlockNumber);
  UpcomingUpgrades : list (ParaId * BlockNumber);
  ActionsQueue : gmap SessionIndex (list ParaId);
  UpcomingParasGenesis : gmap ParaId ParaGenesisArgs;
  CodeByHashRefs : gmap Hash Z;
  CodeByHash : gmap Hash ValidationCode;
  events : list Event;
  logs : list ConsensusLog;
}.

Definition empty_state : State :=
  mkState ∅ [] [] ∅ ∅ ∅ ∅ ∅ [] ∅ ∅ ∅ ∅ [] [] ∅ ∅ ∅ ∅ [] [].

Definition upd_PvfActiveVoteMap (f : gmap Hash PvfCheckActiveVoteState → gmap Hash PvfCheckActiveVoteState) (s : State) : State :=
  mkState (f (PvfActiveVoteMap s)) (PvfActiveVoteList s) (Parachains s) (ParaLifecycles s) (Heads s)
    (CurrentCodeHash s) (PastCodeHash s) (PastCodeMeta s) (PastCodePruning s) (FutureCodeUpgrades s)
    (FutureCodeHash s) (UpgradeGoAheadSignal s) (UpgradeRestrictionSignal s) (UpgradeCooldowns s)
    (UpcomingUpgrades s) (ActionsQueue s) (UpcomingParasGenesis s) (CodeByHashRefs s) (CodeByHash s) (events s)
    (logs s).
Definition upd_PvfActiveVoteList (f : list Hash → list Hash) (s : State) : State :=
  mkState (PvfActiveVoteMap s) (f (PvfActiveVoteList s)) (Parachains s) (ParaLifecycles s) (Heads s)
    (CurrentCodeHash s) (PastCodeHash s) (PastCodeMeta s) (PastCodePruning s) (FutureCodeUpgrades s)
    (FutureCodeHash s) (UpgradeGoAheadSignal s) (UpgradeRestrictionSignal s) (UpgradeCooldowns s)
    (UpcomingUpgrades s) (ActionsQueue s) (UpcomingParasGenesis s) (CodeByHashRefs s) (CodeByHash s) (events s)
    (logs s).
Definition upd_Parachains (f : list ParaId → list ParaId) (s : State) : State :=
  mkState (PvfActiveVoteMap s) (PvfActiveVoteList s) (f (Parachains s)) (ParaLifecycles s) (Heads s)
    (CurrentCodeHash s) (PastCodeHash s) (PastCodeMeta s) (PastCodePruning s) (FutureCodeUpgrades s)
    (FutureCodeHash s) (UpgradeGoAheadSignal s) (UpgradeRestrictionSignal s) (UpgradeCooldowns s)
    (UpcomingUpgrades s) (ActionsQueue s) (UpcomingParasGenesis s) (CodeByHashRefs s) (CodeByHash s) (events s)
    (logs s).
Definition upd_ParaLifecycles (f : gmap ParaId ParaLifecycle → gmap ParaId ParaLifecycle) (s : State) : State :=
  mkState (PvfActiveVoteMap s) (PvfActiveVoteList s) (Parachains s) (f (ParaLifecycles s)) (Heads s)
    (CurrentCodeHash s) (PastCodeHash s) (PastCodeMeta s) (PastCodePruning s) (FutureCodeUpgrades s)
    (FutureCodeHash s) (UpgradeGoAheadSignal s) (UpgradeRestrictionSignal s) (UpgradeCooldowns s)
    (UpcomingUpgrades s) (ActionsQueue s) (UpcomingParasGenesis s) (CodeByHashRefs s) (CodeByHash s) (events s)
    (logs s).
Definition upd_Heads (f : gmap ParaId HeadData → gmap ParaId HeadData) (s : State) : State :=
  mkState (PvfActiveVoteMap s) (PvfActiveVoteList s) (Parachains s) (ParaLifecycles s) (f (Heads s))
    (CurrentCodeHash s) (PastCodeHash s) (PastCodeMeta s) (PastCodePruning s) (FutureCodeUpgrades s)
    (FutureCodeHash s) (UpgradeGoAheadSignal s) (UpgradeRestrictionSignal s) (UpgradeCooldowns s)
    (UpcomingUpgrades s) (ActionsQueue s) (UpcomingParasGenesis s) (CodeByHashRefs s) (CodeByHash s) (events s)
    (logs s).
Definition upd_CurrentCodeHash (f : gmap ParaId Hash → gmap ParaId Hash) (s : State) : State :=
  mkState (PvfActiveVoteMap s) (PvfActiveVoteList s) (Parachains s) (ParaLifecycles s) (Heads s) (f
    (CurrentCodeHash s)) (PastCodeHash s) (PastCodeMeta s) (PastCodePruning s) (FutureCodeUpgrades s)
    (FutureCodeHash s) (UpgradeGoAheadSignal s) (UpgradeRestrictionSignal s) (UpgradeCooldowns s)
    (UpcomingUpgrades s) (ActionsQueue s) (UpcomingParasGenesis s) (CodeByHashRefs s) (CodeByHash s) (events s)
    (logs s).
Definition upd_PastCodeHash (f : gmap (ParaId * BlockNumber) Hash → gmap (ParaId * BlockNumber) Hash) (s : State) : State :=
  mkState (PvfActiveVoteMap s) (PvfActiveVoteList s) (Parachains s) (ParaLifecycles s) (Heads s)
    (CurrentCodeHash s) (f (PastCodeHash s)) (PastCodeMeta s) (PastCodePruning s) (FutureCodeUpgrades s)
    (FutureCodeHash s) (UpgradeGoAheadSignal s) (UpgradeRestrictionSignal s) (UpgradeCooldowns s)
    (UpcomingUpgrades s) (ActionsQueue s) (UpcomingParasGenesis s) (CodeByHashRefs s) (CodeByHash s) (events s)
    (logs s).
Definition upd_PastCodeMeta (f : gmap ParaId ParaPastCodeMeta → gmap ParaId ParaPastCodeMeta) (s : State) : State :=
  mkState (PvfActiveVoteMap s) (PvfActiveVoteList s) (Parachains s) (ParaLifecycles s) (Heads s)
    (CurrentCodeHash s) (PastCodeHash s) (f (PastCodeMeta s)) (PastCodePruning s) (FutureCodeUpgrades s)
    (FutureCodeHash s) (UpgradeGoAheadSignal s) (UpgradeRestrictionSignal s) (UpgradeCooldowns s)
    (UpcomingUpgrades s) (ActionsQueue s) (UpcomingParasGenesis s) (CodeByHashRefs s) (CodeByHash s) (events s)
    (logs s).
Definition upd_PastCodePruning (f : list (ParaId * BlockNumber) → list (ParaId * BlockNumber)) (s : State) : State :=
  mkState (PvfActiveVoteMap s) (PvfActiveVoteList s) (Parachains s) (ParaLifecycles s) (Heads s)
    (CurrentCodeHash s) (PastCodeHash s) (PastCodeMeta s) (f (PastCodePruning s)) (FutureCodeUpgrades s)
    (FutureCodeHash s) (UpgradeGoAheadSignal s) (UpgradeRestrictionSignal s) (UpgradeCooldowns s)
    (UpcomingUpgrades s) (ActionsQueue s) (UpcomingParasGenesis s) (CodeByHashRefs s) (CodeByHash s) (events s)
    (logs s).
Definition upd_FutureCodeUpgrades (f : gmap ParaId BlockNumber → gmap ParaId BlockNumber) (s : State) : State :=
  mkState (PvfActiveVoteMap s) (PvfActiveVoteList s) (Parachains s) (ParaLifecycles s) (Heads s)
    (CurrentCodeHash s) (PastCodeHash s) (PastCodeMeta s) (PastCodePruning s) (f (FutureCodeUpgrades s))
    (FutureCodeHash s) (UpgradeGoAheadSignal s) (UpgradeRestrictionSignal s) (UpgradeCooldowns s)
    (UpcomingUpgrades s) (ActionsQueue s) (UpcomingParasGenesis s) (CodeByHashRefs s) (CodeByHash s) (events s)
    (logs s).
Definition upd_FutureCodeHash (f : gmap ParaId Hash → gmap ParaId Hash) (s : State) : State :=
  mkState (PvfActiveVoteMap s) (PvfActiveVoteList s) (Parachains s) (ParaLifecycles s) (Heads s)
    (CurrentCodeHash s) (PastCodeHash s) (PastCodeMeta s) (PastCodePruning s) (FutureCodeUpgrades s) (f
    (FutureCodeHash s)) (UpgradeGoAheadSignal s) (UpgradeRestrictionSignal s) (UpgradeCooldowns s)
    (UpcomingUpgrades s) (ActionsQueue s) (UpcomingParasGenesis s) (CodeByHashRefs s) (CodeByHash s) (events s)
    (logs s).
Definition upd_UpgradeGoAheadSignal (f : gmap ParaId UpgradeGoAhead → gmap ParaId UpgradeGoAhead) (s : State) : State :=
  mkState (PvfActiveVoteMap s) (PvfActiveVoteList s) (Parachains s) (ParaLifecycles s) (Heads s)
    (CurrentCodeHash s) (PastCodeHash s) (PastCodeMeta s) (PastCodePruning s) (FutureCodeUpgrades s)
    (FutureCodeHash s) (f (UpgradeGoAheadSignal s)) (UpgradeRestrictionSignal s) (UpgradeCooldowns s)
    (UpcomingUpgrades s) (ActionsQueue s) (UpcomingParasGenesis s) (CodeByHashRefs s) (CodeByHash s) (events s)
    (logs s).
Definition upd_UpgradeRestrictionSignal (f : gmap ParaId UpgradeRestriction → gmap ParaId UpgradeRestriction) (s : State) : State :=
  mkState (PvfActiveVoteMap s) (PvfActiveVoteList s) (Parachains s) (ParaLifecycles s) (Heads s)
    (CurrentCodeHash s) (PastCodeHash s) (PastCodeMeta s) (PastCodePruning s) (FutureCodeUpgrades s)
    (FutureCodeHash s) (UpgradeGoAheadSignal s) (f (UpgradeRestrictionSignal s)) (UpgradeCooldowns s)
    (UpcomingUpgrades s) (ActionsQueue s) (UpcomingParasGenesis s) (CodeByHashRefs s) (CodeByHash s) (events s)
    (logs s).
Definition upd_UpgradeCooldowns (f : list (ParaId * BlockNumber) → list (ParaId * BlockNumber)) (s : State) : State :=
  mkState (PvfActiveVoteMap s) (PvfActiveVoteList s) (Parachains s) (ParaLifecycles s) (Heads s)
    (CurrentCodeHash s) (PastCodeHash s) (PastCodeMeta s) (PastCodePruning s) (FutureCodeUpgrades s)
    (FutureCodeHash s) (UpgradeGoAheadSignal s) (UpgradeRestrictionSignal s) (f (UpgradeCooldowns s))
    (UpcomingUpgrades s) (ActionsQueue s) (UpcomingParasGenesis s) (CodeByHashRefs s) (CodeByHash s) (events s)
    (logs s).
Definition upd_UpcomingUpgrades (f : list (ParaId * BlockNumber) → list (ParaId * BlockNumber)) (s : State) : State :=
  mkState (PvfActiveVoteMap s) (PvfActiveVoteList s) (Parachains s) (ParaLifecycles s) (Heads s)
    (CurrentCodeHash s) (PastCodeHash s) (PastCodeMeta s) (PastCodePruning s) (FutureCodeUpgrades s)
    (FutureCodeHash s) (UpgradeGoAheadSignal s) (UpgradeRestrictionSignal s) (UpgradeCooldowns s) (f
    (UpcomingUpgrades s)) (ActionsQueue s) (UpcomingParasGenesis s) (CodeByHashRefs s) (CodeByHash s) (events s)
    (logs s).
Definition upd_ActionsQueue (f : gmap SessionIndex (list ParaId) → gmap SessionIndex (list ParaId)) (s : State) : State :=
  mkState (PvfActiveVoteMap s) (PvfActiveVoteList s) (Parachains s) (ParaLifecycles s) (Heads s)
    (CurrentCodeHash s) (PastCodeHash s) (PastCodeMeta s) (PastCodePruning s) (FutureCodeUpgrades s)
    (FutureCodeHash s) (UpgradeGoAheadSignal s) (UpgradeRestrictionSignal s) (UpgradeCooldowns s)
    (UpcomingUpgrades s) (f (ActionsQueue s)) (UpcomingParasGenesis s) (CodeByHashRefs s) (CodeByHash s) (events
    s) (logs s).
Definition upd_UpcomingParasGenesis (f : gmap ParaId ParaGenesisArgs → gmap ParaId ParaGenesisArgs) (s : State) : State :=
  mkState (PvfActiveVoteMap s) (PvfActiveVoteList s) (Parachains s) (ParaLifecycles s) (Heads s)
    (CurrentCodeHash s) (PastCodeHash s) (PastCodeMeta s) (PastCodePruning s) (FutureCodeUpgrades s)
    (FutureCodeHash s) (UpgradeGoAheadSignal s) (UpgradeRestrictionSignal s) (UpgradeCooldowns s)
    (UpcomingUpgrades s) (ActionsQueue s) (f (UpcomingParasGenesis s)) (CodeByHashRefs s) (CodeByHash s) (events
    s) (logs s).
Definition upd_CodeByHashRefs (f : gmap Hash Z → gmap Hash Z) (s : State) : State :=
  mkState (PvfActiveVoteMap s) (PvfActiveVoteList s) (Parachains s) (ParaLifecycles s) (Heads s)
    (CurrentCodeHash s) (PastCodeHash s) (PastCodeMeta s) (PastCodePruning s) (FutureCodeUpgrades s)
    (FutureCodeHash s) (UpgradeGoAheadSignal s) (UpgradeRestrictionSignal s) (UpgradeCooldowns s)
    (UpcomingUpgrades s) (ActionsQueue s) (UpcomingParasGenesis s) (f (CodeByHashRefs s)) (CodeByHash s) (events
    s) (logs s).
Definition upd_CodeByHash (f : gmap Hash ValidationCode → gmap Hash ValidationCode) (s : State) : State :=
  mkState (PvfActiveVoteMap s) (PvfActiveVoteList s) (Parachains s) (ParaLifecycles s) (Heads s)
    (CurrentCodeHash s) (PastCodeHash s) (PastCodeMeta s) (PastCodePruning s) (FutureCodeUpgrades s)
    (FutureCodeHash s) (UpgradeGoAheadSignal s) (UpgradeRestrictionSignal s) (UpgradeCooldowns s)
    (UpcomingUpgrades s) (ActionsQueue s) (UpcomingParasGenesis s) (CodeByHashRefs s) (f (CodeByHash s)) (events
    s) (logs s).
Definition upd_events (f : list Event → list Event) (s : State) : State :=
  mkState (PvfActiveVoteMap s) (PvfActiveVoteList s) (Parachains s) (ParaLifecycles s) (Heads s)
    (CurrentCodeHash s) (PastCodeHash s) (PastCodeMeta s) (PastCodePruning s) (FutureCodeUpgrades s)
    (FutureCodeHash s) (UpgradeGoAheadSignal s) (UpgradeRestrictionSignal s) (UpgradeCooldowns s)
    (UpcomingUpgrades s) (ActionsQueue s) (UpcomingParasGenesis s) (CodeByHashRefs s) (CodeByHash s) (f (events
    s)) (logs s).
Definition upd_logs (f : list ConsensusLog → list ConsensusLog) (s : State) : State :=
  mkState (PvfActiveVoteMap s) (PvfActiveVoteList s) (Parachains s) (ParaLifecycles s) (Heads s)
    (CurrentCodeHash s) (PastCodeHash s) (PastCodeMeta s) (PastCodePruning s) (FutureCodeUpgrades s)
    (FutureCodeHash s) (UpgradeGoAheadSignal s) (UpgradeRestrictionSignal s) (UpgradeCooldowns s)
    (UpcomingUpgrades s) (ActionsQueue s) (UpcomingParasGenesis s) (CodeByHashRefs s) (CodeByHash s) (events s) (f
    (logs s)).

Definition deposit_event (e : Event) : State → State := upd_events (λ l, l ++ [e]).
Definition deposit_log (e : ConsensusLog) : State → State := upd_logs (λ l, l ++ [e]).

(** What the pallet reads of other pallets: the block number, the current
    session and its validators, and the configuration in force. *)
Record Env (ValidatorId : Type) := mkEnv {
  block_number : BlockNumber;
  session_index : SessionIndex;
  active_validator_keys : list ValidatorId;
  config : HostConfiguration;
}.
Arguments mkEnv {_} _ _ _ _.
Arguments block_number {_} _.
Arguments session_index {_} _.
Arguments active_validator_keys {_} _.
Arguments config {_} _.

Section Pallet.
Context {ValidatorId Signature O A : Type} `{FrameOrigin O A}.
(** [ValidationCode::hash] *)
Context (code_hash_of : ValidationCode → Hash).
(** [ValidatorSignature::verify] *)
Context (verify : Signature → list byte → ValidatorId → bool).
Implicit Types (env : Env ValidatorId) (s : State).

(** ** Code references *)

Definition refs_of (h : Hash) s : Z := value_query 0 h (CodeByHashRefs s).

Definition increase_code_ref (h : Hash) (code : ValidationCode) s : State :=
  let refs := refs_of h s in
  let s := if decide (refs = 0) then upd_CodeByHash (insert h code) s else s in
  upd_CodeByHashRefs (insert h (u32_add refs 1)) s.

Definition decrease_code_ref (h : Hash) s : State :=
  let refs := refs_of h s in
  if decide (refs = 0) then s
  else if decide (refs ≤ 1) then upd_CodeByHashRefs (delete h) (upd_CodeByHash (delete h) s)
  else upd_CodeByHashRefs (insert h (refs - 1)) s.

Definition current_code (id : ParaId) s : option ValidationCode :=
  h ← CurrentCodeHash s !! id; CodeByHash s !! h.

(** ** The list of parachains, behind a cache that is written when dropped *)

Definition ParachainsCache : Type := option (list ParaId).

Definition ensure_initialized (c : ParachainsCache) s : list ParaId := default (Parachains s) c.
Definition cache_add (id : ParaId) (c : ParachainsCache) s : ParachainsCache :=
  Some (sorted_insert id (ensure_initialized c s)).
Definition cache_remove (id : ParaId) (c : ParachainsCache) s : ParachainsCache :=
  Some (sorted_remove id (ensure_initialized c s)).
Definition cache_drop (c : ParachainsCache) s : State :=
  match c with Some l => upd_Parachains (λ _, l) s | None => s end.

(** ** Queries *)

Definition lifecycle (id : ParaId) s : option ParaLifecycle := ParaLifecycles s !! id.
Definition can_schedule_para_initialize (id : ParaId) s : bool := bool_decide (ParaLifecycles s !! id = None).
Definition can_upgrade_validation_code (id : ParaId) s : bool :=
  bool_decide (FutureCodeHash s !! id = None) && bool_decide (UpgradeRestrictionSignal s !! id = None).
Definition pvfs_require_precheck s : list Hash := PvfActiveVoteList s.

(** ** Past code *)

Definition note_past_code (id : ParaId) (at_ now : BlockNumber) (old_code_hash : Hash) s : State :=
  let s := upd_PastCodeMeta (λ m, <[id := note_replacement at_ now (value_query default_meta id m)]> m) s in
  let s := upd_PastCodeHash (insert (id, at_) old_code_hash) s in
  upd_PastCodePruning (insert_by_key snd (id, now)) s.

Definition prune_entry (id : ParaId) s (at_ : BlockNumber) : State :=
  match PastCodeHash s !! (id, at_) with
  | Some h => decrease_code_ref h (upd_PastCodeHash (delete (id, at_)) s)
  | None => s
  end.

Definition prune_para (pruning_height : BlockNumber) s (id : ParaId) : State :=
  let '(pruned, meta) := prune_up_to pruning_height (value_query default_meta id (PastCodeMeta s)) in
  let s := foldl (prune_entry id) s pruned in
  let full_deactivate := meta_is_empty meta && bool_decide (Heads s !! id = None) in
  let s := upd_PastCodeMeta (insert id meta) s in
  if full_deactivate then upd_PastCodeMeta (delete id) s else s.

Definition prune_old_code env (now : BlockNumber) s : State :=
  let code_retention_period := code_retention_period (config env) in
  if decide (now ≤ code_retention_period) then s
  else
    let pruning_height := u32_sub now (u32_add code_retention_period 1) in
    let pruning_tasks := PastCodePruning s in
    let up_to_idx := length (take_while (λ t, snd t <=? pruning_height) pruning_tasks) in
    let s := foldl (prune_para pruning_height) s (fst <$> take up_to_idx pruning_tasks) in
    upd_PastCodePruning (λ _, drop up_to_idx pruning_tasks) s.

(** ** Timers of upgrades *)

Definition process_scheduled_upgrade_changes (now : BlockNumber) s : State :=
  let upcoming_upgrades := UpcomingUpgrades s in
  let num := length (take_while (λ t, snd t <=? now) upcoming_upgrades) in
  let s := foldl (λ s id, upd_UpgradeGoAheadSignal (insert id GoAhead) s) s (fst <$> take num upcoming_upgrades) in
  upd_UpcomingUpgrades (λ _, drop num upcoming_upgrades) s.

Definition process_scheduled_upgrade_cooldowns (now : BlockNumber) s : State :=
  foldl (λ s id, upd_UpgradeRestrictionSignal (delete id) s) s
    (fst <$> take_while (λ t, snd t <=? now) (UpgradeCooldowns s)).

Definition initializer_initialize env (now : BlockNumber) s : State :=
  process_scheduled_upgrade_changes now (prune_old_code env now s).

Definition initializer_finalize (now : BlockNumber) s : State := process_scheduled_upgrade_cooldowns now s.

(** ** The actions queue *)

Definition queue_action (session : SessionIndex) (id : ParaId) : State → State :=
  upd_ActionsQueue (λ q, <[session := sorted_insert id (value_query [] session q)]> q).

Definition initialize_para_now (id : ParaId) (genesis_data : ParaGenesisArgs) (c : ParachainsCache) s :
    ParachainsCache * State :=
  let c := if parachain genesis_data then cache_add id c s else c in
  let s := upd_ParaLifecycles (insert id (if parachain genesis_data then ParachainLife else Parathread)) s in
  let s := if decide (validation_code genesis_data = []) then s
           else
             let h := code_hash_of (validation_code genesis_data) in
             upd_CurrentCodeHash (insert id h) (increase_code_ref h (validation_code genesis_data) s) in
  (c, upd_Heads (insert id (genesis_head genesis_data)) s).

Definition offboard (now : BlockNumber) (id : ParaId) s : State :=
  let s := upd_Heads (delete id) s in
  let s := upd_FutureCodeUpgrades (delete id) s in
  let s := upd_UpgradeGoAheadSignal (delete id) s in
  let s := upd_UpgradeRestrictionSignal (delete id) s in
  let s := upd_ParaLifecycles (delete id) s in
  let removed_future_code_hash := FutureCodeHash s !! id in
  let s := upd_FutureCodeHash (delete id) s in
  let s := match removed_future_code_hash with Some h => decrease_code_ref h s | None => s end in
  let removed_code_hash := CurrentCodeHash s !! id in
  let s := upd_CurrentCodeHash (delete id) s in
  match removed_code_hash with Some h => note_past_code id now now h s | None => s end.

Definition apply_action (now : BlockNumber) (acc : ParachainsCache * list ParaId * State) (para : ParaId) :
    ParachainsCache * list ParaId * State :=
  let '(parachains, outgoing, s) := acc in
  match ParaLifecycles s !! para with
  | None | Some Parathread | Some ParachainLife => (parachains, outgoing, s)
  | Some Onboarding =>
      match UpcomingParasGenesis s !! para with
      | Some genesis_data =>
          let '(parachains, s) :=
            initialize_para_now para genesis_data parachains (upd_UpcomingParasGenesis (delete para) s) in
          (parachains, outgoing, s)
      | None => (parachains, outgoing, s)
      end
  | Some UpgradingParathread =>
      (cache_add para parachains s, outgoing, upd_ParaLifecycles (insert para ParachainLife) s)
  | Some DowngradingParachain =>
      (cache_remove para parachains s, outgoing, upd_ParaLifecycles (insert para Parathread) s)
  | Some OffboardingParachain | Some OffboardingParathread =>
      (cache_remove para parachains s, outgoing ++ [para], offboard now para s)
  end.

Definition drop_outgoing (outgoing : list ParaId) s : State :=
  let stays (t : ParaId * BlockNumber) := fst t ∉ outgoing in
  upd_UpgradeCooldowns (filter stays) (upd_UpcomingUpgrades (filter stays) s).

(** The outgoing paras, and the storage. *)
Definition apply_actions_queue env (session : SessionIndex) s : list ParaId * State :=
  let actions := value_query [] session (ActionsQueue s) in
  let s := upd_ActionsQueue (delete session) s in
  let '(parachains, outgoing, s) := foldl (apply_action (block_number env)) (None, [], s) actions in
  let s := if decide (outgoing = []) then s else drop_outgoing outgoing s in
  (outgoing, cache_drop parachains s).

(** ** Outcomes of a pre-checking vote *)

Definition proceed_with_onboarding env (id : ParaId) (sessions_observed : SessionIndex) s : State :=
  let onboard_at :=
    u32_add (session_index env) (Z.max (saturating_sub Configuration.SESSION_DELAY sessions_observed) 1) in
  queue_action onboard_at id s.

Definition proceed_with_upgrade (id : ParaId) (h : Hash) (now relay_parent_number : BlockNumber)
    (cfg : HostConfiguration) s : State :=
  let expected :=
    Z.max (u32_add relay_parent_number (validation_upgrade_delay cfg))
          (u32_add now (minimum_validation_upgrade_delay cfg)) in
  let s := upd_FutureCodeUpgrades (insert id expected) s in
  let s := upd_UpcomingUpgrades (insert_by_key snd (id, expected)) s in
  deposit_log (ParaScheduleUpgradeCode id h expected) s.

Definition accept_cause env (now : BlockNumber) (h : Hash) (sessions_observed : SessionIndex)
    (cfg : HostConfiguration) s (cause : PvfCheckCause) : State :=
  let s := deposit_event (PvfCheckAccepted h (cause_para_id cause)) s in
  match cause with
  | OnboardingCause id => proceed_with_onboarding env id sessions_observed s
  | UpgradeCause id relay_parent_number => proceed_with_upgrade id h now relay_parent_number cfg s
  end.

Definition enact_pvf_accepted env (now : BlockNumber) (h : Hash) (causes_ : list PvfCheckCause)
    (sessions_observed : SessionIndex) (cfg : HostConfiguration) s : State :=
  foldl (accept_cause env now h sessions_observed cfg) s causes_.

Definition reject_cause (h : Hash) s (cause : PvfCheckCause) : State :=
  let s := decrease_code_ref h s in
  let s := deposit_event (PvfCheckRejected h (cause_para_id cause)) s in
  match cause with
  | OnboardingCause id =>
      upd_ParaLifecycles (delete id) (upd_CurrentCodeHash (delete id) (upd_UpcomingParasGenesis (delete id) s))
  | UpgradeCause id _ =>
      upd_FutureCodeHash (delete id) (upd_UpgradeGoAheadSignal (insert id Abort) s)
  end.

Definition enact_pvf_rejected (h : Hash) (causes_ : list PvfCheckCause) s : State :=
  foldl (reject_cause h) s causes_.

(** ** Session changes *)

Definition groom_vote (cfg : HostConfiguration) (new_n_validators : nat) (acc : list Hash * State)
    (vote_subject : Hash) : list Hash * State :=
  let '(actually_active_votes, s) := acc in
  match PvfActiveVoteMap s !! vote_subject with
  | None => (actually_active_votes, s)
  | Some vote_state =>
      let s := upd_PvfActiveVoteMap (delete vote_subject) s in
      let vote_state := older vote_state in
      if decide (age vote_state < pvf_voting_ttl cfg) then
        (actually_active_votes ++ [vote_subject],
         upd_PvfActiveVoteMap (insert vote_subject (reinitialize_ballots new_n_validators vote_state)) s)
      else (actually_active_votes, enact_pvf_rejected vote_subject (causes vote_state) s)
  end.

Definition groom_ongoing_pvf_votes (cfg : HostConfiguration) (new_n_validators : nat) s : State :=
  let '(actually_active_votes, s) := foldl (groom_vote cfg new_n_validators) ([], s) (PvfActiveVoteList s) in
  upd_PvfActiveVoteList (λ _, actually_active_votes) s.

(** The notification of a session change: the new session, the configuration
    and the validators it runs with. *)
Definition initializer_on_new_session env (session : SessionIndex) (new_config : HostConfiguration)
    (validators : list ValidatorId) s : list ParaId * State :=
  let '(outgoing_paras, s) := apply_actions_queue env session s in
  (outgoing_paras, groom_ongoing_pvf_votes new_config (length validators) s).

(** ** Scheduling *)

Definition kick_off_pvf_check env (cause : PvfCheckCause) (h : Hash) (code : ValidationCode)
    (cfg : HostConfiguration) s : State :=
  let s := deposit_event (PvfCheckStarted h (cause_para_id cause)) s in
  let now := block_number env in
  let s :=
    match PvfActiveVoteMap s !! h with
    | None =>
        let known_code := contains_key h (CodeByHash s) in
        if negb (pvf_checking_enabled cfg) || known_code then enact_pvf_accepted env now h [cause] 0 cfg s
        else
          let n_validators := length (active_validator_keys env) in
          upd_PvfActiveVoteList (sorted_insert h)
            (upd_PvfActiveVoteMap (insert h (new_vote now n_validators cause)) s)
    | Some vote_state => upd_PvfActiveVoteMap (insert h (add_cause cause vote_state)) s
    end in
  increase_code_ref h code s.

Definition schedule_para_initialize env (id : ParaId) (genesis_data : ParaGenesisArgs) : Dispatch State Error :=
  s ← get;
  ensure (can_schedule_para_initialize id s) (Module CannotOnboard) ;;
  ensure (negb (bool_decide (validation_code genesis_data = []))) (Module CannotOnboard) ;;
  modify (upd_ParaLifecycles (insert id Onboarding)) ;;
  let h := code_hash_of (validation_code genesis_data) in
  modify (upd_UpcomingParasGenesis
            (insert id (mkGenesis (genesis_head genesis_data) [] (parachain genesis_data)))) ;;
  modify (upd_CurrentCodeHash (insert id h)) ;;
  modify (kick_off_pvf_check env (OnboardingCause id) h (validation_code genesis_data) (config env)).

Definition schedule_para_cleanup env (id : ParaId) : Dispatch State Error :=
  s ← get;
  ensure (negb (contains_key id (FutureCodeHash s))) (Module CannotOffboard) ;;
  match ParaLifecycles s !! id with
  | None => mret tt
  | Some Parathread =>
      modify (upd_ParaLifecycles (insert id OffboardingParathread)) ;;
      modify (queue_action (Configuration.scheduled_session (session_index env)) id)
  | Some ParachainLife =>
      modify (upd_ParaLifecycles (insert id OffboardingParachain)) ;;
      modify (queue_action (Configuration.scheduled_session (session_index env)) id)
  | Some _ => throw (Module CannotOffboard)
  end.

Definition schedule_parathread_upgrade env (id : ParaId) : Dispatch State Error :=
  s ← get;
  l ← lift (ok_or (ParaLifecycles s !! id) (Module NotRegistered));
  ensure (bool_decide (l = Parathread)) (Module CannotUpgrade) ;;
  modify (upd_ParaLifecycles (insert id UpgradingParathread)) ;;
  modify (queue_action (Configuration.scheduled_session (session_index env)) id).

Definition schedule_parachain_downgrade env (id : ParaId) : Dispatch State Error :=
  s ← get;
  l ← lift (ok_or (ParaLifecycles s !! id) (Module NotRegistered));
  ensure (bool_decide (l = ParachainLife)) (Module CannotDowngrade) ;;
  modify (upd_ParaLifecycles (insert id DowngradingParachain)) ;;
  modify (queue_action (Configuration.scheduled_session (session_index env)) id).

Definition schedule_code_upgrade env (id : ParaId) (new_code : ValidationCode) (relay_parent_number : BlockNumber)
    (cfg : HostConfiguration) s : State :=
  if contains_key id (FutureCodeHash s) then s
  else
    let h := code_hash_of new_code in
    if decide (CurrentCodeHash s !! id = Some h) then s
    else
      let s := upd_FutureCodeHash (insert id h) s in
      let s := upd_UpgradeRestrictionSignal (insert id Present) s in
      let next_possible_upgrade_at := u32_add relay_parent_number (validation_upgrade_cooldown cfg) in
      let s := upd_UpgradeCooldowns (insert_by_key snd (id, next_possible_upgrade_at)) s in
      kick_off_pvf_check env (UpgradeCause id relay_parent_number) h new_code cfg s.

Definition note_new_head env (id : ParaId) (new_head : HeadData) (execution_context : BlockNumber) s : State :=
  let s := upd_Heads (insert id new_head) s in
  match FutureCodeUpgrades s !! id with
  | Some expected =>
      if decide (expected ≤ execution_context) then
        let s := upd_FutureCodeUpgrades (delete id) s in
        let s := upd_UpgradeGoAheadSignal (delete id) s in
        match FutureCodeHash s !! id with
        | Some new_code_hash =>
            let s := upd_FutureCodeHash (delete id) s in
            let maybe_prior_code_hash := CurrentCodeHash s !! id in
            let s := upd_CurrentCodeHash (insert id new_code_hash) s in
            let s := deposit_log (ParaUpgradeCode id new_code_hash) s in
            match maybe_prior_code_hash with
            | Some prior_code_hash => note_past_code id expected (block_number env) prior_code_hash s
            | None => s
            end
        | None => s
        end
      else s
  | None => upd_UpgradeGoAheadSignal (delete id) s
  end.

(** ** Calls *)

Definition add_trusted env (code : ValidationCode) s : State :=
  let h := code_hash_of code in
  match PvfActiveVoteMap s !! h with
  | Some vote =>
      let s := upd_PvfActiveVoteMap (delete h) s in
      let s := upd_PvfActiveVoteList (sorted_remove h) s in
      enact_pvf_accepted env (block_number env) h (causes vote) (age vote) (config env) s
  | None => if contains_key h (CodeByHash s) then s else upd_CodeByHash (insert h code) s
  end.

Definition include_pvf_check_statement env (stmt : PvfCheckStatement) (signature : Signature) :
    Dispatch State Error :=
  ensure (pvf_checking_enabled (config env)) (Module PvfCheckDisabled) ;;
  let validators := active_validator_keys env in
  (if decide (stmt_session_index stmt < session_index env) then throw (Module PvfCheckStatementStale)
   else if decide (session_index env < stmt_session_index stmt) then throw (Module PvfCheckStatementFuture)
   else mret tt) ;;
  let i := Z.to_nat (validator_index stmt) in
  validator_public ← lift (ok_or (validators !! i) (Module PvfCheckValidatorIndexOutOfBounds));
  ensure (verify signature (signing_payload stmt) validator_public) (Module PvfCheckInvalidSignature) ;;
  s ← get;
  active_vote ← lift (ok_or (PvfActiveVoteMap s !! subject stmt) (Module PvfCheckSubjectInvalid));
  voted ← lift (ok_or (has_vote active_vote i) (Module PvfCheckValidatorIndexOutOfBounds));
  ensure (negb voted) (Module PvfCheckDoubleVote) ;;
  let active_vote := cast_vote (accept stmt) i active_vote in
  match quorum active_vote (length validators) with
  | Some outcome =>
      modify (upd_PvfActiveVoteMap (delete (subject stmt))) ;;
      modify (upd_PvfActiveVoteList (sorted_remove (subject stmt))) ;;
      match outcome with
      | Accepted =>
          modify (enact_pvf_accepted env (block_number env) (subject stmt) (causes active_vote)
                    (age active_vote) (config env))
      | Rejected => modify (enact_pvf_rejected (subject stmt) (causes active_vote))
      end
  | None => modify (upd_PvfActiveVoteMap (insert (subject stmt) active_vote))
  end.

Inductive Call :=
| force_set_current_code (para : ParaId) (new_code : ValidationCode)
| force_set_current_head (para : ParaId) (new_head : HeadData)
| force_schedule_code_upgrade (para : ParaId) (new_code : ValidationCode) (relay_parent_number : BlockNumber)
| force_note_new_head (para : ParaId) (new_head : HeadData)
| force_queue_action (para : ParaId)
| add_trusted_validation_code (code : ValidationCode)
| poke_unused_validation_code (h : Hash)
| include_pvf_check_statement_call (stmt : PvfCheckStatement) (signature : Signature).

Definition set_current_code env (para : ParaId) (new_code : ValidationCode) s : State :=
  let maybe_prior_code_hash := CurrentCodeHash s !! para in
  let h := code_hash_of new_code in
  let s := increase_code_ref h new_code s in
  let s := upd_CurrentCodeHash (insert para h) s in
  let now := block_number env in
  let s := match maybe_prior_code_hash with Some prior => note_past_code para now now prior s | None => s end in
  deposit_event (CurrentCodeUpdated para) s.

Definition dispatch env (origin : O) (call : Call) : Dispatch State Error :=
  match call with
  | force_set_current_code para new_code =>
      _ ← or_bad_origin (ensure_root origin);
      modify (set_current_code env para new_code)
  | force_set_current_head para new_head =>
      _ ← or_bad_origin (ensure_root origin);
      modify (upd_Heads (insert para new_head)) ;;
      modify (deposit_event (CurrentHeadUpdated para))
  | force_schedule_code_upgrade para new_code relay_parent_number =>
      _ ← or_bad_origin (ensure_root origin);
      modify (schedule_code_upgrade env para new_code relay_parent_number (config env)) ;;
      modify (deposit_event (CodeUpgradeScheduled para))
  | force_note_new_head para new_head =>
      _ ← or_bad_origin (ensure_root origin);
      modify (note_new_head env para new_head (block_number env)) ;;
      modify (deposit_event (NewHeadNoted para))
  | force_queue_action para =>
      _ ← or_bad_origin (ensure_root origin);
      let next_session := Z.min u32_max (session_index env + 1) in
      modify (queue_action next_session para) ;;
      modify (deposit_event (ActionQueued para next_session))
  | add_trusted_validation_code code =>
      _ ← or_bad_origin (ensure_root origin);
      modify (add_trusted env code)
  | poke_unused_validation_code h =>
      _ ← or_bad_origin (ensure_root origin);
      s ← get;
      if decide (refs_of h s = 0) then modify (upd_CodeByHash (delete h)) else mret tt
  | include_pvf_check_statement_call stmt signature =>
      _ ← or_bad_origin (ensure_none origin);
      include_pvf_check_statement env stmt signature
  end.

(** *** Validation of unsigned transactions *)

Inductive InvalidTransaction :=
| InvalidCall
| Stale
| Future
| BadProof
| Custom (code : Z).

Definition INVALID_TX_BAD_VALIDATOR_IDX : Z := 1.
Definition INVALID_TX_BAD_SUBJECT : Z := 2.
Definition INVALID_TX_DOUBLE_VOTE : Z := 3.
Definition INVALID_TX_PVF_CHECK_DISABLED : Z := 4.

Record ValidTransaction := mkValid {
  tag_prefix : string;
  priority : Z;
  longevity : Z;
  provides : SessionIndex * Z * Hash;
  propagate : bool;
}.

(** [UnsignedPriority] and the average session length are runtime constants. *)
Definition validate_unsigned env (unsigned_priority average_session_length : Z) (call : Call) s :
    result InvalidTransaction ValidTransaction :=
  match call with
  | include_pvf_check_statement_call stmt signature =>
      if negb (pvf_checking_enabled (config env)) then Err (Custom INVALID_TX_PVF_CHECK_DISABLED)
      else if decide (stmt_session_index stmt < session_index env) then Err Stale
      else if decide (session_index env < stmt_session_index stmt) then Err Future
      else
        let i := Z.to_nat (validator_index stmt) in
        match active_validator_keys env !! i with
        | None => Err (Custom INVALID_TX_BAD_VALIDATOR_IDX)
        | Some validator_public =>
            if negb (verify signature (signing_payload stmt) validator_public) then Err BadProof
            else
              match PvfActiveVoteMap s !! subject stmt with
              | None => Err (Custom INVALID_TX_BAD_SUBJECT)
              | Some active_vote =>
                  match has_vote active_vote i with
                  | Some false =>
                      Ok (mkValid "PvfPreCheckingVote" unsigned_priority (average_session_length / 2)
                            (stmt_session_index stmt, validator_index stmt, subject stmt) true)
                  | Some true => Err (Custom INVALID_TX_DOUBLE_VOTE)
                  | None => Err (Custom INVALID_TX_BAD_VALIDATOR_IDX)
                  end
              end
        end
  | _ => Err InvalidCall
  end.

(** ** Genesis *)

(** [None] when a para has no validation code, which panics. *)
Fixpoint genesis_paras (paras : list (ParaId * ParaGenesisArgs)) (c : ParachainsCache) s :
    option (ParachainsCache * State) :=
  match paras with
  | [] => Some (c, s)
  | (id, genesis_args) :: paras =>
      if decide (validation_code genesis_args = []) then None
      else let '(c, s) := initialize_para_now id genesis_args c s in genesis_paras paras c s
  end.

Definition genesis_build (paras : list (ParaId * ParaGenesisArgs)) : option State :=
  '(c, s) ← genesis_paras paras None empty_state; Some (cache_drop c s).
End Pallet.
End ParasPallet.
