(* ===== verification/ParasInvariant.v ===== *)
(** * The paras pallet: what its storage always holds

    [runtime/parachains/src/paras/mod.rs]: the code references count the users
    of every validation code, so that code in use is stored; a para in
    transition is queued for one of the next two sessions or waits for a vote;
    and the list of parachains is the set of paras that are parachains. *)

From S2P Require Import Prelude.
From S2P Require Import Vectors.
From S2P Require Import Frame.
From S2P Require Import Configuration.
From S2P Require Import Paras.
From S2P Require Import ParasPallet.

Module ParasInvariant.
Import ParasPallet.

(** ** Counting the users of a code *)

Section Occurrences.
Context {K : Type} `{Countable K}.
Implicit Types (m : gmap K Hash).

Definition occurrences (h : Hash) m : Z := Z.of_nat (size (filter (λ kv, kv.2 = h) m)).

Lemma occurrences_nonneg h m : 0 ≤ occurrences h m.
Proof. unfold occurrences. lia. Qed.

Lemma occurrences_insert h k x m :
  occurrences h (<[k := x]> m) = occurrences h (delete k m) + (if decide (x = h) then 1 else 0).
Proof.
  unfold occurrences. rewrite <-insert_delete_eq. rewrite map_filter_insert. cbn. case_decide.
  - rewrite map_size_insert_None; [lia|]. rewrite map_lookup_filter, lookup_delete_eq. done.
  - rewrite map_filter_delete. rewrite delete_id; [lia|]. by rewrite map_lookup_filter, lookup_delete_eq.
Qed.

Lemma occurrences_delete h k m :
  occurrences h (delete k m) = occurrences h m - (if decide (m !! k = Some h) then 1 else 0).
Proof.
  destruct (m !! k) as [x|] eqn:Hk.
  - assert (m = <[k := x]> (delete k m)) as Hm by (by rewrite insert_delete_id).
    pose proof (occurrences_insert h k x (delete k m)) as Ho. rewrite <-Hm, delete_delete_eq in Ho.
    destruct (decide (x = h)); destruct (decide (Some x = Some h)); try congruence; lia.
  - rewrite delete_id by done. rewrite decide_False by done. lia.
Qed.

Lemma occurrences_lookup h k m : m !! k = Some h → 1 ≤ occurrences h m.
Proof.
  intros Hk. pose proof (occurrences_delete h k m) as Hd. rewrite decide_True in Hd by done.
  pose proof (occurrences_nonneg h (delete k m)). lia.
Qed.
End Occurrences.

Definition users (s : State) (h : Hash) : Z :=
  occurrences h (CurrentCodeHash s) + occurrences h (FutureCodeHash s) + occurrences h (PastCodeHash s).

(** The references cover a number of uses of each code, and code with
    references is stored. *)
Definition covers (u : Hash → Z) (s : State) : Prop :=
  ∀ h, 0 ≤ u h ≤ refs_of h s ∧ refs_of h s ≤ u32_max ∧
       (0 < refs_of h s → is_Some (CodeByHash s !! h)).

Definition one (h : Hash) : Hash → Z := λ h', if decide (h = h') then 1 else 0.

Lemma covers_le u u' s : covers u s → (∀ h, 0 ≤ u' h ≤ u h) → covers u' s.
Proof. intros Hc Hu h. specialize (Hc h). specialize (Hu h). intuition lia. Qed.

Lemma refs_of_insert h h' r s :
  refs_of h' (upd_CodeByHashRefs (insert h r) s) = if decide (h = h') then r else refs_of h' s.
Proof. apply value_query_insert. Qed.

Lemma covers_increase u h code s :
  covers u s → refs_of h s < u32_max → covers (λ h', u h' + one h h') (increase_code_ref h code s).
Proof.
  intros Hc Hmax h'. specialize (Hc h') as (Hu & Hm & Hcode). unfold increase_code_ref.
  assert (is_u32 (refs_of h s + 1) ∨ h ≠ h') as Hr.
  { destruct (decide (h = h')) as [->|]; [left|by right]. unfold is_u32. lia. }
  rewrite refs_of_insert. unfold one. destruct (decide (h = h')) as [->|Hne].
  - unfold u32_add. destruct Hr as [Hr|?]; [|done]. rewrite wrap32_small by done.
    split_and!; [lia..|]. intros _. cbn. case_decide; cbn.
    + rewrite lookup_insert_eq. by eexists.
    + apply Hcode. lia.
  - assert (∀ b, refs_of h' (if (b : bool) then upd_CodeByHash (insert h code) s else s) = refs_of h' s) as Hb
      by (by intros []).
    case_decide; cbn; change (refs_of h' (upd_CodeByHash _ s)) with (refs_of h' s);
      (split_and!; [lia..|]); intros Hpos; [|by apply Hcode].
    rewrite lookup_insert_ne by done. by apply Hcode.
Qed.

Lemma covers_decrease u h s :
  covers u s → 1 ≤ u h → covers (λ h', u h' - one h h') (decrease_code_ref h s).
Proof.
  intros Hc Hu h'. pose proof (Hc h) as Hh. specialize (Hc h') as (Hu' & Hm & Hcode). unfold decrease_code_ref, one.
  destruct (decide (refs_of h s = 0)) as [|Hnz]; [lia|].
  destruct (decide (refs_of h s ≤ 1)) as [|Hgt].
  - unfold refs_of. cbn. rewrite value_query_delete. destruct (decide (h = h')) as [->|Hne].
    + split_and!; [lia..|by unfold u32_max|lia].
    + rewrite lookup_delete_ne by done. change (value_query 0 h' (CodeByHashRefs s)) with (refs_of h' s).
      split_and!; [lia..|done].
  - rewrite refs_of_insert. destruct (decide (h = h')) as [->|Hne].
    + split_and!; [lia..|]. intros _. apply Hcode. lia.
    + split_and!; [lia..|done].
Qed.

(** ** Life cycles, votes and the actions queue *)

(** What waits for a decision on a code: the causes of the vote on it. *)
Definition waiting (s : State) (h : Hash) : list PvfCheckCause := from_option causes [] (PvfActiveVoteMap s !! h).

Definition queued (s : State) (n : SessionIndex) : list ParaId := value_query [] n (ActionsQueue s).

Definition cause_key (c : PvfCheckCause) : bool * ParaId :=
  match c with OnboardingCause id => (false, id) | UpgradeCause id _ => (true, id) end.

Definition cause_ok (Q : SessionIndex → list ParaId) (s : State) (h : Hash) (c : PvfCheckCause) : Prop :=
  match c with
  | OnboardingCause id =>
      ParaLifecycles s !! id = Some Onboarding ∧ CurrentCodeHash s !! id = Some h ∧ ∀ n, id ∉ Q n
  | UpgradeCause id _ => FutureCodeHash s !! id = Some h ∧ FutureCodeUpgrades s !! id = None
  end.

(** [Q] gives the queue of each session, [P] the parachains, [B] the causes that
    wait on each code; while an operation is under way they run ahead of the
    storage or behind it. *)
Record lives_ok (cur : SessionIndex) (Q : SessionIndex → list ParaId) (P : list ParaId)
    (B : Hash → list PvfCheckCause) (s : State) : Prop := {
  lo_causes h c : c ∈ B h → cause_ok Q s h c;
  lo_nodup h : NoDup (cause_key <$> B h);
  lo_upgrades id : is_Some (FutureCodeUpgrades s !! id) → is_Some (FutureCodeHash s !! id);
  lo_future id : is_Some (FutureCodeHash s !! id) → Paras.is_valid_para id (ParaLifecycles s) = true;
  lo_current id : is_Some (ParaLifecycles s !! id) → is_Some (CurrentCodeHash s !! id);
  lo_genesis id : ParaLifecycles s !! id = Some Onboarding →
    ∃ g, UpcomingParasGenesis s !! id = Some g ∧ validation_code g = [];
  lo_sorted n : sorted (Q n);
  lo_queued n id : id ∈ Q n →
    cur < n ≤ cur + Configuration.SESSION_DELAY ∧
    ∃ l, ParaLifecycles s !! id = Some l ∧ ParaLifecycle.is_transitioning l = true;
  lo_once n m id : id ∈ Q n → id ∈ Q m → n = m;
  lo_transit id l : ParaLifecycles s !! id = Some l → ParaLifecycle.is_transitioning l = true →
    (∃ n, id ∈ Q n) ∨ (l = Onboarding ∧ ∃ h, OnboardingCause id ∈ B h);
  lo_parachains_sorted : sorted P;
  lo_parachains id : id ∈ P ↔ Paras.is_parachain id (ParaLifecycles s) = true;
}.

Definition fset {A} (n : Z) (a : A) (f : Z → A) : Z → A := λ m, if decide (n = m) then a else f m.

Lemma fset_eq {A} n (a : A) f : fset n a f n = a.
Proof. unfold fset. by rewrite decide_True. Qed.
Lemma fset_ne {A} n m (a : A) f : n ≠ m → fset n a f m = f m.
Proof. intros. unfold fset. by rewrite decide_False. Qed.

Lemma lives_ok_ext cur Q P B Q' B' s :
  lives_ok cur Q P B s → (∀ n, Q' n = Q n) → (∀ h, B' h = B h) → lives_ok cur Q' P B' s.
Proof.
  intros [] HQ HB. split; intros; rewrite ?HQ, ?HB in *; eauto.
  - unfold cause_ok. specialize (lo_causes0 _ _ H). destruct c; [|done]. cbn in *. setoid_rewrite HQ. done.
  - setoid_rewrite HQ. setoid_rewrite HB. eauto.
Qed.

(** The other storage items do not matter. *)
Lemma lives_frame cur Q P B s s' :
  ParaLifecycles s' = ParaLifecycles s → CurrentCodeHash s' = CurrentCodeHash s →
  FutureCodeHash s' = FutureCodeHash s → FutureCodeUpgrades s' = FutureCodeUpgrades s →
  UpcomingParasGenesis s' = UpcomingParasGenesis s →
  lives_ok cur Q P B s → lives_ok cur Q P B s'.
Proof.
  intros E1 E2 E3 E4 E5 []. split; rewrite ?E1, ?E2, ?E3, ?E4, ?E5; try done.
  intros h c Hc. specialize (lo_causes0 h c Hc). destruct c; cbn in *; by rewrite ?E1, ?E2, ?E3, ?E4.
Qed.

Ltac frame_lives H := refine (lives_frame _ _ _ _ _ _ _ _ _ _ _ H); reflexivity.

(** *** One cause is decided *)

Lemma cause_key_onboarding_upgrade id id' r : cause_key (OnboardingCause id) ≠ cause_key (UpgradeCause id' r).
Proof. done. Qed.

Lemma waiting_rest B h c cs :
  B h = c :: cs → NoDup (cause_key <$> B h) →
  (∀ h' c', c' ∈ fset h cs B h' → c' ∈ B h') ∧ (cause_key c ∉ cause_key <$> cs) ∧
  ∀ h', NoDup (cause_key <$> B h') → NoDup (cause_key <$> fset h cs B h').
Proof.
  intros HB Hnd. rewrite HB in Hnd. cbn in Hnd. apply NoDup_cons in Hnd as [Hc Hnd].
  split_and!; [|done|]; intros h'; unfold fset; destruct (decide (h = h')) as [<-|]; try done.
  intros c' Hc'. rewrite HB. by right.
Qed.

(** The causes that are left concern other paras or another matter. *)
Lemma other_cause cur Q P B s h c cs h' c' :
  lives_ok cur Q P B s → B h = c :: cs → c' ∈ fset h cs B h' → cause_key c' ≠ cause_key c.
Proof.
  intros Hl HB Hc' Heq. destruct (waiting_rest B h c cs HB (lo_nodup _ _ _ _ _ Hl h)) as (Hsub & Hnin & _).
  pose proof (lo_causes _ _ _ _ _ Hl h' c' (Hsub _ _ Hc')) as Hok'.
  assert (c ∈ B h) as Hc by (rewrite HB; by left).
  pose proof (lo_causes _ _ _ _ _ Hl h c Hc) as Hok.
  destruct (decide (h = h')) as [<-|Hne].
  - rewrite fset_eq in Hc'. apply Hnin. apply list_elem_of_fmap. exists c'. by split.
  - destruct c, c'; cbn in *; simplify_eq; naive_solver congruence.
Qed.

Lemma lives_accept_onboarding cur Q P B s h id cs n :
  lives_ok cur Q P B s → B h = OnboardingCause id :: cs → cur < n ≤ cur + Configuration.SESSION_DELAY →
  lives_ok cur (fset n (sorted_insert id (Q n)) Q) P (fset h cs B) s.
Proof.
  intros Hl HB Hn.
  assert (cause_ok Q s h (OnboardingCause id)) as (HL & Hcur & Hnq)
    by (apply (lo_causes _ _ _ _ _ Hl); rewrite HB; by left).
  destruct (waiting_rest _ _ _ _ HB (lo_nodup _ _ _ _ _ Hl h)) as (Hsub & Hnin & Hnd').
  assert (∀ m id', id' ∈ fset n (sorted_insert id (Q n)) Q m ↔ (n = m ∧ id' = id) ∨ id' ∈ Q m) as HQ.
  { intros m id'. unfold fset. destruct (decide (n = m)) as [<-|]; [|naive_solver].
    rewrite elem_of_sorted_insert by apply Hl. naive_solver. }
  split; try apply Hl.
  - intros h' c' Hc'. pose proof (lo_causes _ _ _ _ _ Hl _ _ (Hsub _ _ Hc')) as Hok.
    pose proof (other_cause _ _ _ _ _ _ _ _ _ _ Hl HB Hc') as Hne.
    destruct c'; cbn in *; [|done]. destruct Hok as (? & ? & Hq). split_and!; [done..|].
    intros m [[_ ->]|Hm]%HQ; [done|by apply (Hq m)].
  - intros h'. apply Hnd', Hl.
  - intros m. unfold fset. case_decide; [subst; apply sorted_insert_sorted|]; apply Hl.
  - intros m id' [[<- ->]|Hm]%HQ; [|by apply Hl]. split; [done|]. by exists Onboarding.
  - intros m m' id' [[<- ->]|Hm]%HQ [[<- Hid]|Hm']%HQ; try done.
    + by apply Hnq in Hm'.
    + subst. by apply Hnq in Hm.
    + by eapply (lo_once _ _ _ _ _ Hl).
  - intros id' l' HL' Ht. destruct (decide (id' = id)) as [->|Hid]; [left; exists n; apply HQ; by left|].
    destruct (lo_transit _ _ _ _ _ Hl id' l' HL' Ht) as [[m Hm]|[-> (h' & Hh')]]; [left; exists m; apply HQ; by right|].
    right. split; [done|]. exists h'. unfold fset. destruct (decide (h = h')) as [<-|]; [|done].
    rewrite HB in Hh'. apply elem_of_cons in Hh' as [?|?]; [congruence|done].
Qed.

(** Dropping a decided cause keeps what is said of paras in transition, but for
    the para of an onboarding cause. *)
Lemma transit_rest cur Q P B s h c cs id l :
  lives_ok cur Q P B s → B h = c :: cs → c ≠ OnboardingCause id →
  ParaLifecycles s !! id = Some l → ParaLifecycle.is_transitioning l = true →
  (∃ n, id ∈ Q n) ∨ (l = Onboarding ∧ ∃ h', OnboardingCause id ∈ fset h cs B h').
Proof.
  intros Hl HB Hne HL Ht. destruct (lo_transit _ _ _ _ _ Hl id l HL Ht) as [?|[-> (h' & Hh')]]; [by left|].
  right. split; [done|]. exists h'. unfold fset. destruct (decide (h = h')) as [<-|]; [|done].
  rewrite HB in Hh'. apply elem_of_cons in Hh' as [?|?]; [congruence|done].
Qed.

Lemma lives_accept_upgrade cur Q P B s h id r cs e :
  lives_ok cur Q P B s → B h = UpgradeCause id r :: cs →
  lives_ok cur Q P (fset h cs B) (upd_FutureCodeUpgrades (insert id e) s).
Proof.
  intros Hl HB.
  assert (cause_ok Q s h (UpgradeCause id r)) as [Hf Hu]
    by (apply (lo_causes _ _ _ _ _ Hl); rewrite HB; by left).
  destruct (waiting_rest _ _ _ _ HB (lo_nodup _ _ _ _ _ Hl h)) as (Hsub & Hnin & Hnd').
  split; cbn; try apply Hl.
  - intros h' c' Hc'. pose proof (lo_causes _ _ _ _ _ Hl _ _ (Hsub _ _ Hc')) as Hok.
    pose proof (other_cause _ _ _ _ _ _ _ _ _ _ Hl HB Hc') as Hne.
    destruct c'; cbn in *; [done|]. rewrite lookup_insert_ne by congruence. done.
  - intros h'. apply Hnd', Hl.
  - intros id'. rewrite lookup_insert. case_decide; [subst|apply Hl]. by rewrite Hf.
  - intros id' l' HL' Ht. by eapply transit_rest.
Qed.

Lemma lives_reject_onboarding cur Q P B s h id cs :
  lives_ok cur Q P B s → B h = OnboardingCause id :: cs →
  lives_ok cur Q P (fset h cs B)
    (upd_ParaLifecycles (delete id) (upd_CurrentCodeHash (delete id) (upd_UpcomingParasGenesis (delete id) s))).
Proof.
  intros Hl HB.
  assert (cause_ok Q s h (OnboardingCause id)) as (HL & Hcur & Hnq)
    by (apply (lo_causes _ _ _ _ _ Hl); rewrite HB; by left).
  destruct (waiting_rest _ _ _ _ HB (lo_nodup _ _ _ _ _ Hl h)) as (Hsub & Hnin & Hnd').
  assert (∀ id', id' ≠ id → delete id (ParaLifecycles s) !! id' = ParaLifecycles s !! id') as Hother
    by (intros; by rewrite lookup_delete_ne).
  split; cbn; try apply Hl.
  - intros h' c' Hc'. pose proof (lo_causes _ _ _ _ _ Hl _ _ (Hsub _ _ Hc')) as Hok.
    pose proof (other_cause _ _ _ _ _ _ _ _ _ _ Hl HB Hc') as Hne.
    destruct c'; cbn in *; [|done]. rewrite !lookup_delete_ne by congruence. done.
  - intros h'. apply Hnd', Hl.
  - intros id' Hf. apply (lo_future _ _ _ _ _ Hl) in Hf. unfold Paras.is_valid_para in *.
    rewrite lookup_delete_ne; [done|]. intros <-. by rewrite HL in Hf.
  - intros id'. rewrite !lookup_delete. case_decide; [by intros [? ?]|apply Hl].
  - intros id'. rewrite !lookup_delete. case_decide; [done|apply Hl].
  - intros n id' Hin. rewrite Hother; [by apply Hl|]. intros ->. by apply (Hnq n).
  - intros id' l'. rewrite lookup_delete. case_decide; [done|]. intros HL' Ht.
    eapply transit_rest; [done..|congruence|done|done].
  - intros id'. unfold Paras.is_parachain. rewrite lookup_delete.
    rewrite (lo_parachains _ _ _ _ _ Hl id'). unfold Paras.is_parachain.
    case_decide; [subst; by rewrite HL|done].
Qed.

Lemma lives_reject_upgrade cur Q P B s h id r cs :
  lives_ok cur Q P B s → B h = UpgradeCause id r :: cs →
  lives_ok cur Q P (fset h cs B) (upd_FutureCodeHash (delete id) s).
Proof.
  intros Hl HB.
  assert (cause_ok Q s h (UpgradeCause id r)) as [Hf Hu]
    by (apply (lo_causes _ _ _ _ _ Hl); rewrite HB; by left).
  destruct (waiting_rest _ _ _ _ HB (lo_nodup _ _ _ _ _ Hl h)) as (Hsub & Hnin & Hnd').
  split; cbn; try apply Hl.
  - intros h' c' Hc'. pose proof (lo_causes _ _ _ _ _ Hl _ _ (Hsub _ _ Hc')) as Hok.
    pose proof (other_cause _ _ _ _ _ _ _ _ _ _ Hl HB Hc') as Hne.
    destruct c'; cbn in *; [done|]. rewrite lookup_delete_ne by congruence. done.
  - intros h'. apply Hnd', Hl.
  - intros id' Hup. rewrite lookup_delete_ne; [by apply Hl|]. intros <-. rewrite Hu in Hup. by destruct Hup.
  - intros id'. rewrite lookup_delete. case_decide; [by intros [? ?]|apply Hl].
  - intros id' l' HL' Ht. by eapply transit_rest.
Qed.

(** *** The whole invariant *)

Section Pallet.
Context {ValidatorId Signature O A : Type} `{FrameOrigin O A}.
Context (code_hash_of : ValidationCode → Hash).
Context (verify : Signature → list byte → ValidatorId → bool).
Implicit Types (env : Env ValidatorId) (s : State).

(** Code is stored under its hash. *)
Definition codes_ok s : Prop := ∀ h code, CodeByHash s !! h = Some code → code_hash_of code = h.

(** Ballots for [n] validators, of whom none has voted both ways. *)
Record vote_ok (n : nat) (v : PvfCheckActiveVoteState) : Prop := {
  vo_accept : length (votes_accept v) = n;
  vo_reject : length (votes_reject v) = n;
  vo_once i : votes_accept v !! i = Some true → votes_reject v !! i = Some true → False;
  vo_age : 0 ≤ age v;
}.

Record votes_ok (n : nat) s : Prop := {
  vs_sorted : sorted (PvfActiveVoteList s);
  vs_listed h : h ∈ PvfActiveVoteList s ↔ is_Some (PvfActiveVoteMap s !! h);
  vs_votes h v : PvfActiveVoteMap s !! h = Some v → vote_ok n v;
}.

Record mid_ok cur Q P B s : Prop := {
  mo_covers : covers (users s) s;
  mo_codes : codes_ok s;
  mo_lives : lives_ok cur Q P B s;
}.

Record paras_ok cur n s : Prop := {
  po_mid : mid_ok cur (queued s) (Parachains s) (waiting s) s;
  po_votes : votes_ok n s;
}.

Lemma users_nonneg s h : 0 ≤ users s h.
Proof.
  unfold users. pose proof (occurrences_nonneg h (CurrentCodeHash s)).
  pose proof (occurrences_nonneg h (FutureCodeHash s)). pose proof (occurrences_nonneg h (PastCodeHash s)). lia.
Qed.

(** A reference change touches nothing but the references and the code. *)
Definition set_refs (r : gmap Hash Z) (c : gmap Hash ValidationCode) s : State :=
  upd_CodeByHashRefs (λ _, r) (upd_CodeByHash (λ _, c) s).

Lemma increase_set_refs h code s : ∃ r c, increase_code_ref h code s = set_refs r c s.
Proof. unfold increase_code_ref, set_refs. case_decide; destruct s; do 2 eexists; reflexivity. Qed.

Lemma decrease_set_refs h s : ∃ r c, decrease_code_ref h s = set_refs r c s.
Proof. unfold decrease_code_ref, set_refs. repeat case_decide; destruct s; do 2 eexists; reflexivity. Qed.

Lemma codes_decrease h s : codes_ok s → codes_ok (decrease_code_ref h s).
Proof.
  intros Hc h' code. unfold decrease_code_ref. repeat case_decide; cbn; try apply Hc.
  rewrite lookup_delete. case_decide; [done|apply Hc].
Qed.

Lemma codes_increase code s : codes_ok s → codes_ok (increase_code_ref (code_hash_of code) code s).
Proof.
  intros Hc h' code'. unfold increase_code_ref. case_decide; cbn; try apply Hc.
  rewrite lookup_insert. case_decide; [naive_solver|apply Hc].
Qed.

Lemma mid_reject cur Q P B s h c cs :
  mid_ok cur Q P B s → B h = c :: cs → mid_ok cur Q P (fset h cs B) (reject_cause h s c).
Proof.
  intros [Hcov Hcodes Hl] HB.
  assert (c ∈ B h) as Hin by (rewrite HB; by left).
  pose proof (lo_causes _ _ _ _ _ Hl h c Hin) as Hok.
  assert (1 ≤ users s h) as Hu.
  { unfold users. pose proof (occurrences_nonneg h (CurrentCodeHash s)).
    pose proof (occurrences_nonneg h (FutureCodeHash s)). pose proof (occurrences_nonneg h (PastCodeHash s)).
    destruct c; [destruct Hok as (_ & Hk & _)|destruct Hok as [Hk _]];
      apply occurrences_lookup in Hk; lia. }
  pose proof (covers_decrease _ h s Hcov Hu) as Hcov'.
  pose proof (codes_decrease h s Hcodes) as Hcodes'.
  unfold reject_cause. destruct (decrease_set_refs h s) as (r & m & E). rewrite E in *.
  assert (lives_ok cur Q P B (set_refs r m s)) as Hl' by frame_lives Hl.
  split.
  - apply covers_le with (λ h', users s h' - one h h'); [by destruct c|].
    intros h'. split; [apply users_nonneg|]. unfold users, one.
    destruct c as [id|id rp]; [destruct Hok as (_ & Hk & _)|destruct Hok as [Hk _]]; cbn;
      rewrite occurrences_delete, Hk; repeat case_decide; try congruence; lia.
  - by destruct c.
  - destruct c as [id|id rp].
    + frame_lives (lives_reject_onboarding _ _ _ _ _ _ _ _ Hl' HB).
    + frame_lives (lives_reject_upgrade _ _ _ _ _ _ _ _ _ Hl' HB).
Qed.

Lemma mid_frame cur Q P B s s' :
  CodeByHashRefs s' = CodeByHashRefs s → CodeByHash s' = CodeByHash s → PastCodeHash s' = PastCodeHash s →
  ParaLifecycles s' = ParaLifecycles s → CurrentCodeHash s' = CurrentCodeHash s →
  FutureCodeHash s' = FutureCodeHash s → FutureCodeUpgrades s' = FutureCodeUpgrades s →
  UpcomingParasGenesis s' = UpcomingParasGenesis s →
  mid_ok cur Q P B s → mid_ok cur Q P B s'.
Proof.
  intros E1 E2 E3 E4 E5 E6 E7 E8 [Hc Hcodes Hl]. split.
  - intros h. specialize (Hc h). unfold users, refs_of in *. by rewrite E1, E2, E3, E5, E6.
  - intros h. rewrite E2. apply Hcodes.
  - by eapply lives_frame; [..|exact Hl].
Qed.

Ltac frame_mid H := refine (mid_frame _ _ _ _ _ _ _ _ _ _ _ _ _ _ H); reflexivity.

Lemma mid_ext cur Q P B Q' B' s :
  mid_ok cur Q P B s → (∀ n, Q' n = Q n) → (∀ h, B' h = B h) → mid_ok cur Q' P B' s.
Proof. intros [] ? ?. split; [done..|]. by eapply lives_ok_ext. Qed.

Lemma queued_action n id s m :
  queued (queue_action n id s) m = fset n (sorted_insert id (queued s n)) (queued s) m.
Proof. unfold queued, fset. cbn. by rewrite value_query_insert. Qed.

Lemma session_delay_range cur observed :
  0 ≤ cur → 0 ≤ observed → cur + Configuration.SESSION_DELAY ≤ u32_max →
  let n := u32_add cur (Z.max (saturating_sub Configuration.SESSION_DELAY observed) 1) in
  cur < n ≤ cur + Configuration.SESSION_DELAY.
Proof.
  unfold Configuration.SESSION_DELAY, u32_add, saturating_sub. intros. rewrite wrap32_small; [lia|].
  unfold is_u32. lia.
Qed.

Lemma scheduled_session_range cur :
  0 ≤ cur → cur + Configuration.SESSION_DELAY ≤ u32_max →
  cur < Configuration.scheduled_session cur ≤ cur + Configuration.SESSION_DELAY.
Proof. unfold Configuration.scheduled_session, Configuration.SESSION_DELAY. lia. Qed.

Section Session.
Context (cur : SessionIndex) (Hcur : 0 ≤ cur) (Hmax : cur + Configuration.SESSION_DELAY ≤ u32_max).

Lemma lives_accept env P B s now h observed cfg c cs :
  session_index env = cur → 0 ≤ observed → lives_ok cur (queued s) P B s → B h = c :: cs →
  let s' := accept_cause env now h observed cfg s c in lives_ok cur (queued s') P (fset h cs B) s'.
Proof.
  intros Henv Hobs Hl HB. destruct c as [id|id rp]; cbn.
  - unfold proceed_with_onboarding. rewrite Henv.
    pose proof (session_delay_range cur observed Hcur Hobs Hmax) as Hn.
    pose proof (lives_accept_onboarding _ _ _ _ _ _ _ _ _ Hl HB Hn) as Hl'.
    eapply lives_ok_ext; [frame_lives Hl'| |done]. intros m. etransitivity; [apply queued_action|reflexivity].
  - unfold proceed_with_upgrade.
    frame_lives (lives_accept_upgrade _ _ _ _ _ _ _ _ _
      (Z.max (u32_add rp (validation_upgrade_delay cfg)) (u32_add now (minimum_validation_upgrade_delay cfg))) Hl HB).
Qed.

Lemma fset_fset {A'} h (a b : A') B h' : fset h a (fset h b B) h' = fset h a B h'.
Proof. unfold fset. by case_decide. Qed.

Lemma lives_accept_all env P B s now h observed cfg cs :
  session_index env = cur → 0 ≤ observed → lives_ok cur (queued s) P B s → B h = cs →
  let s' := enact_pvf_accepted env now h cs observed cfg s in lives_ok cur (queued s') P (fset h [] B) s'.
Proof.
  intros Henv Hobs. revert s B. induction cs as [|c cs IH]; intros s B Hm HB; cbn.
  - eapply lives_ok_ext; [exact Hm|done|]. intros h'. unfold fset. case_decide; congruence.
  - pose proof (lives_accept env P B s now h observed cfg c cs Henv Hobs Hm HB) as Hm'.
    apply IH in Hm'; [|by rewrite fset_eq].
    eapply lives_ok_ext; [exact Hm'|done|]. intros h'. by rewrite fset_fset.
Qed.

(** Accepting changes the timers and the actions queue only. *)
Definition set_accepted f u l e q s : State :=
  upd_FutureCodeUpgrades (λ _, f) (upd_UpcomingUpgrades (λ _, u)
    (upd_logs (λ _, l) (upd_events (λ _, e) (upd_ActionsQueue (λ _, q) s)))).

Lemma accept_set_accepted env now h cs observed cfg s :
  ∃ f u l e q, enact_pvf_accepted env now h cs observed cfg s = set_accepted f u l e q s.
Proof.
  unfold enact_pvf_accepted. revert s. induction cs as [|c cs IH]; intros s; cbn.
  - destruct s. do 5 eexists. reflexivity.
  - destruct (IH (accept_cause env now h observed cfg s c)) as (f & u & l & e & q & ->).
    exists f, u, l, e, q. by destruct c.
Qed.

Lemma mid_accept_all env P B s now h observed cfg cs :
  session_index env = cur → 0 ≤ observed → mid_ok cur (queued s) P B s → B h = cs →
  let s' := enact_pvf_accepted env now h cs observed cfg s in mid_ok cur (queued s') P (fset h [] B) s'.
Proof.
  intros Henv Hobs [Hcov Hcodes Hl] HB.
  pose proof (lives_accept_all env P B s now h observed cfg cs Henv Hobs Hl HB) as Hl'. cbn in *.
  destruct (accept_set_accepted env now h cs observed cfg s) as (f & u & l & e & q & E). rewrite E in *.
  split; [exact Hcov|exact Hcodes|exact Hl'].
Qed.

Lemma mid_reject_all Q P B s h cs :
  mid_ok cur Q P B s → B h = cs → mid_ok cur Q P (fset h [] B) (enact_pvf_rejected h cs s).
Proof.
  revert s B. induction cs as [|c cs IH]; intros s B Hm HB; cbn.
  - eapply mid_ext; [exact Hm|done|]. intros h'. unfold fset. case_decide; congruence.
  - pose proof (mid_reject cur Q P B s h c cs Hm HB) as Hm'.
    apply IH in Hm'; [|by rewrite fset_eq].
    eapply mid_ext; [exact Hm'|done|]. intros h'. by rewrite fset_fset.
Qed.

(** *** Votes *)

Lemma new_vote_ok now n cause : vote_ok n (new_vote now n cause).
Proof.
  split; cbn; rewrite ?length_replicate; try done.
  intros i Ha _. by apply lookup_replicate in Ha as [? _].
Qed.

Lemma votes_insert n s h v :
  votes_ok n s → vote_ok n v →
  votes_ok n (upd_PvfActiveVoteList (sorted_insert h) (upd_PvfActiveVoteMap (insert h v) s)).
Proof.
  intros [Hs Hlist Hv] Hok. split; cbn.
  - by apply sorted_insert_sorted.
  - intros h'. rewrite elem_of_sorted_insert, lookup_insert, Hlist by done.
    case_decide; [subst; naive_solver|naive_solver].
  - intros h' v'. rewrite lookup_insert. case_decide; [by intros [= <-]|apply Hv].
Qed.

Lemma votes_update n s h v v' :
  votes_ok n s → PvfActiveVoteMap s !! h = Some v → vote_ok n v' →
  votes_ok n (upd_PvfActiveVoteMap (insert h v') s).
Proof.
  intros [Hs Hlist Hv] Hh Hok. split; cbn; [done| |].
  - intros h'. rewrite lookup_insert, Hlist. case_decide; [subst; rewrite Hh; naive_solver|done].
  - intros h' w. rewrite lookup_insert. case_decide; [by intros [= <-]|apply Hv].
Qed.

Lemma votes_remove n s h :
  votes_ok n s → votes_ok n (upd_PvfActiveVoteList (sorted_remove h) (upd_PvfActiveVoteMap (delete h) s)).
Proof.
  intros [Hs Hlist Hv]. split; cbn.
  - by apply sorted_remove_sorted.
  - intros h'. rewrite elem_of_sorted_remove, lookup_delete, Hlist by done.
    case_decide; [subst; split; [naive_solver|by intros [? ?]]|naive_solver].
  - intros h' v'. rewrite lookup_delete. case_decide; [done|apply Hv].
Qed.

Lemma votes_frame n s s' :
  PvfActiveVoteMap s' = PvfActiveVoteMap s → PvfActiveVoteList s' = PvfActiveVoteList s →
  votes_ok n s → votes_ok n s'.
Proof. intros E1 E2 []. split; by rewrite ?E1, ?E2. Qed.

Lemma waiting_insert s h v h' :
  waiting (upd_PvfActiveVoteMap (insert h v) s) h' = fset h (causes v) (waiting s) h'.
Proof. unfold waiting, fset. cbn. rewrite lookup_insert. by case_decide. Qed.

Lemma waiting_delete s h h' : waiting (upd_PvfActiveVoteMap (delete h) s) h' = fset h [] (waiting s) h'.
Proof. unfold waiting, fset. cbn. rewrite lookup_delete. by case_decide. Qed.

(** *** A check is kicked off *)

(** The storage is as the caller left it: the new user is written, but neither
    counted nor waiting. *)
Lemma kick_off_ok env n u s cause code cfg :
  let h := code_hash_of code in
  let s' := kick_off_pvf_check env cause h code cfg s in
  session_index env = cur → length (active_validator_keys env) = n →
  covers u s → (∀ h', users s h' ≤ u h' + one h h') → refs_of h s < u32_max → codes_ok s →
  lives_ok cur (queued s) (Parachains s) (fset h (waiting s h ++ [cause]) (waiting s)) s → votes_ok n s →
  paras_ok cur n s'.
Proof.
  intros h s' Henv Hn Hcov Hu Hrefs Hcodes Hl Hv. unfold s', kick_off_pvf_check.
  set (s0 := deposit_event _ s). set (s1 := match PvfActiveVoteMap s0 !! h with Some _ => _ | None => _ end).
  assert (lives_ok cur (queued s1) (Parachains s1) (waiting s1) s1 ∧ votes_ok n s1 ∧
    CodeByHashRefs s1 = CodeByHashRefs s ∧ CodeByHash s1 = CodeByHash s ∧ ∀ h', users s1 h' = users s h')
    as (Hl1 & Hv1 & E1 & E2 & E3).
  { unfold s1. change (PvfActiveVoteMap s0) with (PvfActiveVoteMap s).
    assert (∀ h', waiting s0 h' = waiting s h') as Hw by done.
    destruct (PvfActiveVoteMap s !! h) as [v|] eqn:Hh; [|case_match].
    - split_and!; try done.
      + eapply lives_ok_ext; [frame_lives Hl|done|]. intros h'. rewrite waiting_insert.
        unfold fset, waiting. rewrite Hh. done.
      + eapply votes_update; [|done|]; [by eapply votes_frame; [..|exact Hv]|]. apply Hv in Hh as []. by split.
    - assert (lives_ok cur (queued s0) (Parachains s) (fset h [cause] (waiting s)) s0) as Hl0.
      { eapply lives_ok_ext; [frame_lives Hl|done|]. intros h'. unfold fset, waiting. by rewrite Hh. }
      pose proof (lives_accept_all env _ _ s0 (block_number env) h 0 cfg [cause] Henv ltac:(lia) Hl0 (fset_eq _ _ _))
        as Hl'. cbn zeta in Hl'.
      destruct (accept_set_accepted env (block_number env) h [cause] 0 cfg s0) as (f & x & l & e & q & E).
      rewrite E in *. split_and!; try done.
      + eapply lives_ok_ext; [exact Hl'|done|]. intros h'. rewrite fset_fset. unfold fset, waiting. cbn.
        case_decide; [subst h'; by rewrite Hh|done].
      + by eapply votes_frame; [..|exact Hv].
    - split_and!; try done.
      + eapply lives_ok_ext; [frame_lives Hl|done|]. intros h'. etransitivity; [apply waiting_insert|].
        unfold fset, waiting. rewrite Hh. done.
      + rewrite Hn. apply votes_insert; [by eapply votes_frame; [..|exact Hv]|apply new_vote_ok]. }
  assert (covers u s1) as Hcov1.
  { intros h'. specialize (Hcov h'). unfold refs_of in *. by rewrite E1, E2. }
  assert (codes_ok s1) as Hcodes1 by (intros h'; rewrite E2; apply Hcodes).
  assert (refs_of h s1 < u32_max) as Hrefs1 by (unfold refs_of in *; by rewrite E1).
  pose proof (covers_increase u h code s1 Hcov1 Hrefs1) as Hcov2.
  pose proof (codes_increase code s1 Hcodes1) as Hcodes2. fold h in Hcodes2.
  destruct (increase_set_refs h code s1) as (r & m & E). rewrite E in *.
  split; [split|].
  - eapply covers_le; [exact Hcov2|]. intros h'. split; [apply users_nonneg|].
    change (users (set_refs r m s1) h') with (users s1 h'). by rewrite E3.
  - exact Hcodes2.
  - frame_lives Hl1.
  - by eapply votes_frame; [..|exact Hv1].
Qed.

(** A cause joins those that wait. *)
Lemma waiting_more (B : Hash → list PvfCheckCause) h c h' c' : c' ∈ fset h (B h ++ [c]) B h' ↔ (h' = h ∧ c' = c) ∨ c' ∈ B h'.
Proof.
  unfold fset. case_decide as Hh; [subst|naive_solver].
  rewrite elem_of_app, list_elem_of_singleton. naive_solver.
Qed.

Lemma waiting_more_nodup (B : Hash → list PvfCheckCause) h c :
  (∀ c', c' ∈ B h → cause_key c' ≠ cause_key c) → (∀ h', NoDup (cause_key <$> B h')) →
  ∀ h', NoDup (cause_key <$> fset h (B h ++ [c]) B h').
Proof.
  intros Hc Hnd h'. unfold fset. case_decide; [|done]. rewrite fmap_app. apply NoDup_app.
  split_and!; [done| |apply NoDup_singleton].
  intros k (c' & -> & Hc')%list_elem_of_fmap Hk%list_elem_of_singleton. by apply (Hc c').
Qed.

Lemma lives_onboard Q P B s h id g :
  lives_ok cur Q P B s → ParaLifecycles s !! id = None → validation_code g = [] →
  lives_ok cur Q P (fset h (B h ++ [OnboardingCause id]) B)
    (upd_CurrentCodeHash (insert id h) (upd_UpcomingParasGenesis (insert id g)
      (upd_ParaLifecycles (insert id Onboarding) s))).
Proof.
  intros Hl HL Hg.
  assert (∀ n, id ∉ Q n) as Hnq.
  { intros n (_ & l & Hl' & _)%(lo_queued _ _ _ _ _ Hl). congruence. }
  assert (∀ h' c, c ∈ B h' → c ≠ OnboardingCause id) as Hnc.
  { intros h' c Hc ->. apply (lo_causes _ _ _ _ _ Hl) in Hc as [? _]. congruence. }
  split; cbn; try apply Hl.
  - intros h' c [[-> ->]|Hc]%waiting_more.
    + cbn. rewrite !lookup_insert_eq. done.
    + pose proof (Hnc h' c Hc) as Hne. apply (lo_causes _ _ _ _ _ Hl) in Hc. destruct c; cbn in *; [|done].
      rewrite !lookup_insert_ne by congruence. done.
  - apply waiting_more_nodup; [|apply Hl]. intros c Hc Hk. apply (Hnc h c Hc).
    destruct c; cbn in Hk; congruence.
  - intros id' Hf%(lo_future _ _ _ _ _ Hl). unfold Paras.is_valid_para in *. rewrite lookup_insert.
    case_decide; [subst; by rewrite HL in Hf|done].
  - intros id'. rewrite !lookup_insert. case_decide; [by eexists|apply Hl].
  - intros id'. rewrite !lookup_insert. case_decide; [by eexists|apply Hl].
  - intros n id' Hin. rewrite lookup_insert_ne; [by apply Hl|]. intros ->. by apply (Hnq n).
  - intros id' l. rewrite lookup_insert. case_decide.
    + intros [= <-] _. subst id'. right. split; [done|]. exists h. apply waiting_more. by left.
    + intros HL' Ht. destruct (lo_transit _ _ _ _ _ Hl id' l HL' Ht) as [?|[-> [h' Hh']]]; [by left|].
      right. split; [done|]. exists h'. apply waiting_more. by right.
  - intros id'. rewrite (lo_parachains _ _ _ _ _ Hl). unfold Paras.is_parachain. rewrite lookup_insert.
    case_decide; [subst; by rewrite HL|done].
Qed.

Lemma lives_upgrade Q P B s h id rp :
  lives_ok cur Q P B s → FutureCodeHash s !! id = None → Paras.is_valid_para id (ParaLifecycles s) = true →
  lives_ok cur Q P (fset h (B h ++ [UpgradeCause id rp]) B) (upd_FutureCodeHash (insert id h) s).
Proof.
  intros Hl HF Hvalid.
  assert (FutureCodeUpgrades s !! id = None) as Hup.
  { apply eq_None_not_Some. intros Hs%(lo_upgrades _ _ _ _ _ Hl). rewrite HF in Hs. by destruct Hs. }
  assert (∀ h' c, c ∈ B h' → cause_key c ≠ cause_key (UpgradeCause id rp)) as Hnc.
  { intros h' c Hc Hk. apply (lo_causes _ _ _ _ _ Hl) in Hc. destruct c; cbn in *; [done|].
    simplify_eq. destruct Hc. congruence. }
  split; cbn; try apply Hl.
  - intros h' c [[-> ->]|Hc]%waiting_more; [cbn; by rewrite lookup_insert_eq|].
    pose proof (Hnc h' c Hc) as Hne. apply (lo_causes _ _ _ _ _ Hl) in Hc. destruct c; cbn in *; [done|].
    rewrite lookup_insert_ne by congruence. done.
  - apply waiting_more_nodup; [|apply Hl]. eauto.
  - intros id'. rewrite lookup_insert. case_decide; [by eexists|apply Hl].
  - intros id'. rewrite lookup_insert. case_decide; [by subst|apply Hl].
  - intros id' l HL Ht. destruct (lo_transit _ _ _ _ _ Hl id' l HL Ht) as [?|[-> [h' Hh']]]; [by left|].
    right. split; [done|]. exists h'. apply waiting_more. by right.
Qed.

Lemma schedule_para_initialize_ok env n id g s :
  session_index env = cur → length (active_validator_keys env) = n →
  (∀ h, refs_of h s < u32_max) → paras_ok cur n s →
  paras_ok cur n (schedule_para_initialize code_hash_of env id g s).1.
Proof.
  intros Henv Hn Hrefs [[Hcov Hcodes Hl] Hv].
  unfold schedule_para_initialize, can_schedule_para_initialize. unfold_dispatch. cbn.
  destruct (decide (ParaLifecycles s !! id = None)) as [HL|HL]; rewrite ?bool_decide_true, ?bool_decide_false by done;
    cbn; [|done].
  destruct (bool_decide (validation_code g = [])) eqn:Hg; cbn; [done|].
  set (h := code_hash_of (validation_code g)).
  pose proof (lives_onboard _ _ _ _ h id (mkGenesis (genesis_head g) [] (parachain g)) Hl HL eq_refl) as Hl'.
  apply kick_off_ok with (users s); [done|done|exact Hcov| |apply Hrefs|exact Hcodes|exact Hl'|
    by eapply votes_frame; [..|exact Hv]].
  intros h'. unfold users, one. cbn. rewrite occurrences_insert, occurrences_delete.
  repeat case_decide; lia.
Qed.

Lemma schedule_code_upgrade_ok env n id code rp cfg s :
  session_index env = cur → length (active_validator_keys env) = n →
  (∀ h, refs_of h s < u32_max) → Paras.is_valid_para id (ParaLifecycles s) = true → paras_ok cur n s →
  paras_ok cur n (schedule_code_upgrade code_hash_of env id code rp cfg s).
Proof.
  intros Henv Hn Hrefs Hvalid Hok. unfold schedule_code_upgrade.
  destruct (contains_key id (FutureCodeHash s)) eqn:HF; [done|]. apply contains_key_false in HF.
  destruct (decide _); [done|]. destruct Hok as [[Hcov Hcodes Hl] Hv].
  pose proof (lives_upgrade _ _ _ _ (code_hash_of code) id rp Hl HF Hvalid) as Hl'.
  apply kick_off_ok with (users s); [done|done|exact Hcov| |apply Hrefs|exact Hcodes|frame_lives Hl'|
    by eapply votes_frame; [..|exact Hv]].
  intros h'. unfold users, one. cbn. rewrite occurrences_insert, occurrences_delete, HF.
  repeat case_decide; try congruence; lia.
Qed.

(** *** A stable para starts a transition *)

Lemma elem_of_queue_insert (Q : SessionIndex → list ParaId) n id m id' :
  sorted (Q n) → id' ∈ fset n (sorted_insert id (Q n)) Q m ↔ (n = m ∧ id' = id) ∨ id' ∈ Q m.
Proof.
  intros Hs. unfold fset. destruct (decide (n = m)) as [<-|]; [|naive_solver].
  rewrite elem_of_sorted_insert by done. naive_solver.
Qed.

Lemma lives_transition Q P B s id l l' n :
  lives_ok cur Q P B s → ParaLifecycles s !! id = Some l → ParaLifecycle.is_stable l = true →
  ParaLifecycle.is_stable l' = false → ParaLifecycle.is_onboarding l' = false →
  ParaLifecycle.is_parachain l' = ParaLifecycle.is_parachain l →
  (is_Some (FutureCodeHash s !! id) → ParaLifecycle.is_offboarding l' = false) →
  cur < n ≤ cur + Configuration.SESSION_DELAY →
  lives_ok cur (fset n (sorted_insert id (Q n)) Q) P B (upd_ParaLifecycles (insert id l') s).
Proof.
  intros Hl HL Hst Hst' Hon Hpc Hfut Hn.
  assert (∀ m id', id' ∈ fset n (sorted_insert id (Q n)) Q m ↔ (n = m ∧ id' = id) ∨ id' ∈ Q m) as HQ
    by (intros; apply elem_of_queue_insert, Hl).
  assert (∀ m, id ∉ Q m) as Hnq.
  { intros m (_ & l0 & HL0 & Ht)%(lo_queued _ _ _ _ _ Hl). unfold ParaLifecycle.is_transitioning in Ht.
    destruct (ParaLifecycle.is_stable l0) eqn:?; [done|]. congruence. }
  split; cbn; try apply Hl.
  - intros h c Hc. apply (lo_causes _ _ _ _ _ Hl) in Hc. destruct c as [id'|]; cbn in *; [|done].
    destruct Hc as (HL' & Hcur' & Hq). assert (id' ≠ id) by (intros ->; simplify_eq; done).
    rewrite lookup_insert_ne by done. split_and!; [done..|]. intros m [[_ ->]|Hm]%HQ; [done|by apply (Hq m)].
  - intros id' Hf. unfold Paras.is_valid_para. rewrite lookup_insert. case_decide.
    + subst id'. by rewrite Hon, (Hfut Hf).
    + by apply (lo_future _ _ _ _ _ Hl) in Hf.
  - intros id'. rewrite lookup_insert. case_decide; [subst; intros _|apply Hl]. apply Hl. by rewrite HL.
  - intros id'. rewrite lookup_insert. case_decide; [intros [= ->]; done|apply Hl].
  - intros m. unfold fset. case_decide; [apply sorted_insert_sorted|]; apply Hl.
  - intros m id'. intros [[<- ->]|Hm]%HQ.
    + split; [done|]. exists l'. rewrite lookup_insert_eq. unfold ParaLifecycle.is_transitioning. by rewrite Hst'.
    + rewrite lookup_insert_ne; [by apply Hl|]. intros ->. by apply (Hnq m).
  - intros m m' id' [[<- ->]|Hm]%HQ [[<- Hid]|Hm']%HQ; try done.
    + by apply Hnq in Hm'.
    + subst. by apply Hnq in Hm.
    + by eapply (lo_once _ _ _ _ _ Hl).
  - intros id' l0. rewrite lookup_insert. case_decide.
    + intros _ _. left. exists n. apply HQ. by left.
    + intros HL' Ht. destruct (lo_transit _ _ _ _ _ Hl id' l0 HL' Ht) as [[m Hm]|?]; [|by right].
      left. exists m. apply HQ. by right.
  - intros id'. rewrite (lo_parachains _ _ _ _ _ Hl). unfold Paras.is_parachain. rewrite lookup_insert.
    case_decide; [subst; by rewrite HL, Hpc|done].
Qed.

Lemma transition_ok env n id l l' s :
  session_index env = cur → paras_ok cur n s → ParaLifecycles s !! id = Some l →
  ParaLifecycle.is_stable l = true → ParaLifecycle.is_stable l' = false → ParaLifecycle.is_onboarding l' = false →
  ParaLifecycle.is_parachain l' = ParaLifecycle.is_parachain l →
  (is_Some (FutureCodeHash s !! id) → ParaLifecycle.is_offboarding l' = false) →
  paras_ok cur n
    (queue_action (Configuration.scheduled_session (session_index env)) id (upd_ParaLifecycles (insert id l') s)).
Proof.
  intros -> [[Hcov Hcodes Hl] Hv] HL Hst Hst' Hon Hpc Hfut.
  pose proof (lives_transition _ _ _ _ id l l' _ Hl HL Hst Hst' Hon Hpc Hfut (scheduled_session_range cur Hcur Hmax))
    as Hl'.
  split; [split; [exact Hcov|exact Hcodes|]|by eapply votes_frame; [..|exact Hv]].
  eapply lives_ok_ext; [frame_lives Hl'| |done]. intros m. etransitivity; [apply queued_action|reflexivity].
Qed.

Lemma schedule_para_cleanup_ok env n id s :
  session_index env = cur → paras_ok cur n s → paras_ok cur n (schedule_para_cleanup env id s).1.
Proof.
  intros Henv Hok. unfold schedule_para_cleanup. unfold_dispatch. cbn.
  destruct (contains_key id (FutureCodeHash s)) eqn:HF; cbn; [done|]. apply contains_key_false in HF.
  destruct (ParaLifecycles s !! id) as [[]|] eqn:HL; cbn; try done;
    (eapply transition_ok; [done..|]; rewrite HF; by intros [? ?]).
Qed.

Lemma schedule_parathread_upgrade_ok env n id s :
  session_index env = cur → paras_ok cur n s → paras_ok cur n (schedule_parathread_upgrade env id s).1.
Proof.
  intros Henv Hok. unfold schedule_parathread_upgrade. unfold_dispatch. cbn.
  destruct (ParaLifecycles s !! id) as [[]|] eqn:HL; cbn; try done. by eapply transition_ok.
Qed.

Lemma schedule_parachain_downgrade_ok env n id s :
  session_index env = cur → paras_ok cur n s → paras_ok cur n (schedule_parachain_downgrade env id s).1.
Proof.
  intros Henv Hok. unfold schedule_parachain_downgrade. unfold_dispatch. cbn.
  destruct (ParaLifecycles s !! id) as [[]|] eqn:HL; cbn; try done. by eapply transition_ok.
Qed.

(** *** New heads, new code *)

Lemma occurrences_insert_le {K} `{Countable K} (h x : Hash) (k : K) (m : gmap K Hash) :
  occurrences h (<[k := x]> m) ≤ occurrences h m + one x h.
Proof. unfold one. rewrite occurrences_insert, occurrences_delete. repeat case_decide; lia. Qed.

Lemma covers_users s s' : covers (users s) s' → (∀ h, users s' h ≤ users s h) → covers (users s') s'.
Proof. intros Hc Hu. eapply covers_le; [exact Hc|]. intros h. split; [apply users_nonneg|done]. Qed.

Lemma lives_apply_upgrade Q P B s id h e :
  lives_ok cur Q P B s → FutureCodeUpgrades s !! id = Some e →
  lives_ok cur Q P B (upd_CurrentCodeHash (insert id h)
    (upd_FutureCodeHash (delete id) (upd_FutureCodeUpgrades (delete id) s))).
Proof.
  intros Hl He.
  assert (Paras.is_valid_para id (ParaLifecycles s) = true) as Hvalid
    by (apply (lo_future _ _ _ _ _ Hl), (lo_upgrades _ _ _ _ _ Hl); by rewrite He).
  unfold Paras.is_valid_para in Hvalid.
  split; cbn; try apply Hl.
  - intros h' c Hc. apply (lo_causes _ _ _ _ _ Hl) in Hc. destruct c as [id'|id' rp]; cbn in *.
    + rewrite lookup_insert_ne; [done|]. intros ->. destruct Hc as [HL _]. by rewrite HL in Hvalid.
    + assert (id ≠ id') by (intros ->; destruct Hc; congruence). by rewrite !lookup_delete_ne.
  - intros id'. rewrite !lookup_delete. case_decide; [by intros [? ?]|apply Hl].
  - intros id'. rewrite !lookup_delete. case_decide; [by intros [? ?]|apply Hl].
  - intros id'. rewrite lookup_insert. case_decide; [by eexists|apply Hl].
Qed.

Lemma note_new_head_ok env n id head ctx s :
  paras_ok cur n s → paras_ok cur n (note_new_head env id head ctx s).
Proof.
  intros [[Hcov Hcodes Hl] Hv]. unfold note_new_head. cbn.
  destruct (FutureCodeUpgrades s !! id) as [e|] eqn:He;
    [|split; [split; [exact Hcov|exact Hcodes|frame_lives Hl]|by eapply votes_frame; [..|exact Hv]]].
  destruct (decide (e ≤ ctx));
    [|split; [split; [exact Hcov|exact Hcodes|frame_lives Hl]|by eapply votes_frame; [..|exact Hv]]].
  assert (is_Some (FutureCodeHash s !! id)) as [h Hh] by (apply (lo_upgrades _ _ _ _ _ Hl); by rewrite He).
  assert (is_Some (ParaLifecycles s !! id)) as HL.
  { assert (Paras.is_valid_para id (ParaLifecycles s) = true) as Hvalid
      by (apply (lo_future _ _ _ _ _ Hl); by rewrite Hh).
    unfold Paras.is_valid_para in Hvalid. destruct (ParaLifecycles s !! id); [by eexists|done]. }
  apply (lo_current _ _ _ _ _ Hl) in HL as [old Hold].
  cbn. rewrite Hh. cbn. rewrite Hold. cbn.
  split; [split|by eapply votes_frame; [..|exact Hv]].
  - apply (covers_users s); [exact Hcov|]. intros h'. unfold users. cbn.
    pose proof (occurrences_insert_le h' old (id, e) (PastCodeHash s)).
    rewrite occurrences_insert, !occurrences_delete, Hh, Hold. unfold one in *.
    repeat case_decide; simplify_eq; lia.
  - exact Hcodes.
  - frame_lives (lives_apply_upgrade _ _ _ _ id h e Hl He).
Qed.

Lemma lives_set_code Q P B s id h :
  lives_ok cur Q P B s → ParaLifecycles s !! id ≠ Some Onboarding →
  lives_ok cur Q P B (upd_CurrentCodeHash (insert id h) s).
Proof.
  intros Hl HL. split; cbn; try apply Hl.
  - intros h' c Hc. apply (lo_causes _ _ _ _ _ Hl) in Hc. destruct c as [id'|]; cbn in *; [|done].
    rewrite lookup_insert_ne; [done|]. intros ->. by destruct Hc.
  - intros id'. rewrite lookup_insert. case_decide; [by eexists|apply Hl].
Qed.

Lemma set_current_code_ok env n id code s :
  ParaLifecycles s !! id ≠ Some Onboarding → (∀ h, refs_of h s < u32_max) → paras_ok cur n s →
  paras_ok cur n (set_current_code code_hash_of env id code s).
Proof.
  intros HL Hrefs [[Hcov Hcodes Hl] Hv]. unfold set_current_code. set (h := code_hash_of code).
  pose proof (covers_increase _ h code s Hcov (Hrefs h)) as Hcov'.
  pose proof (codes_increase code s Hcodes) as Hcodes'. fold h in Hcodes'.
  destruct (increase_set_refs h code s) as (r & m & E). rewrite E in *.
  assert (lives_ok cur (queued s) (Parachains s) (waiting s) (set_refs r m s)) as Hl' by frame_lives Hl.
  pose proof (lives_set_code _ _ _ _ id h Hl' HL) as Hl''.
  assert (∀ h', occurrences h' (<[id := h]> (CurrentCodeHash s)) +
    from_option (λ old, one old h') 0 (CurrentCodeHash s !! id) ≤ occurrences h' (CurrentCodeHash s) + one h h') as Hu.
  { intros h'. rewrite occurrences_insert, occurrences_delete. unfold one.
    destruct (CurrentCodeHash s !! id); cbn; repeat case_decide; simplify_eq; try lia. }
  destruct (CurrentCodeHash s !! id) as [old|] eqn:Hold; cbn in *.
  - split; [split; [|exact Hcodes'|frame_lives Hl'']|by eapply votes_frame; [..|exact Hv]].
    eapply covers_le; [exact Hcov'|]. intros h'. split; [apply users_nonneg|]. specialize (Hu h').
    pose proof (occurrences_insert_le h' old (id, block_number env) (PastCodeHash s)).
    unfold users; cbn. lia.
  - split; [split; [|exact Hcodes'|frame_lives Hl'']|by eapply votes_frame; [..|exact Hv]].
    eapply covers_le; [exact Hcov'|]. intros h'. split; [apply users_nonneg|]. specialize (Hu h').
    unfold users; cbn. lia.
Qed.

(** *** Blocks *)

Lemma paras_frame n s s' :
  CodeByHashRefs s' = CodeByHashRefs s → CodeByHash s' = CodeByHash s → PastCodeHash s' = PastCodeHash s →
  ParaLifecycles s' = ParaLifecycles s → CurrentCodeHash s' = CurrentCodeHash s →
  FutureCodeHash s' = FutureCodeHash s → FutureCodeUpgrades s' = FutureCodeUpgrades s →
  UpcomingParasGenesis s' = UpcomingParasGenesis s → ActionsQueue s' = ActionsQueue s →
  Parachains s' = Parachains s → PvfActiveVoteMap s' = PvfActiveVoteMap s →
  PvfActiveVoteList s' = PvfActiveVoteList s →
  paras_ok cur n s → paras_ok cur n s'.
Proof.
  intros E1 E2 E3 E4 E5 E6 E7 E8 E9 E10 E11 E12 [Hm Hv]. split; [|by eapply votes_frame; [..|exact Hv]].
  rewrite E10. eapply mid_ext; [by eapply (mid_frame _ _ _ _ s)|..].
  - intros m. unfold queued. by rewrite E9.
  - intros h. unfold waiting. by rewrite E11.
Qed.

Ltac frame_paras H := refine (paras_frame _ _ _ _ _ _ _ _ _ _ _ _ _ _ _ H); reflexivity.

Lemma foldl_keeps {X Y} (R : X → Prop) (f : X → Y → X) l x :
  (∀ x y, R x → R (f x y)) → R x → R (foldl f x l).
Proof. intros Hf. revert x. induction l as [|y l IH]; intros x Hx; cbn; [done|]. by apply IH, Hf. Qed.

Lemma prune_entry_ok n id s at_ : paras_ok cur n s → paras_ok cur n (prune_entry id s at_).
Proof.
  intros Hok. unfold prune_entry. destruct (PastCodeHash s !! (id, at_)) as [h|] eqn:Hh; [|done].
  destruct Hok as [[Hcov Hcodes Hl] Hv].
  set (s0 := upd_PastCodeHash _ s).
  assert (1 ≤ users s h) as Hu.
  { pose proof (occurrences_lookup h (id, at_) (PastCodeHash s) Hh). unfold users.
    pose proof (occurrences_nonneg h (CurrentCodeHash s)). pose proof (occurrences_nonneg h (FutureCodeHash s)). lia. }
  assert (covers (users s) s0) as Hcov0 by exact Hcov.
  pose proof (covers_decrease _ h s0 Hcov0 Hu) as Hcov'.
  pose proof (codes_decrease h s0 Hcodes) as Hcodes'.
  destruct (decrease_set_refs h s0) as (r & m & E). rewrite E in *.
  split; [split; [|exact Hcodes'|frame_lives Hl]|by eapply votes_frame; [..|exact Hv]].
  eapply covers_le; [exact Hcov'|]. intros h'. split; [apply users_nonneg|]. unfold users. cbn.
  rewrite occurrences_delete, Hh. unfold one. repeat case_decide; try congruence; lia.
Qed.

Lemma prune_para_ok n height s id : paras_ok cur n s → paras_ok cur n (prune_para height s id).
Proof.
  intros Hok. unfold prune_para. destruct (prune_up_to _ _) as [pruned meta].
  assert (paras_ok cur n (foldl (prune_entry id) s pruned)) as Hok'
    by (apply foldl_keeps; [|done]; intros; by apply prune_entry_ok).
  case_match; frame_paras Hok'.
Qed.

Lemma initializer_initialize_ok env n now s : paras_ok cur n s → paras_ok cur n (initializer_initialize env now s).
Proof.
  intros Hok. unfold initializer_initialize, process_scheduled_upgrade_changes.
  assert (paras_ok cur n (prune_old_code env now s)) as Hok'.
  { unfold prune_old_code. case_decide; [done|].
    refine (paras_frame _ _ _ _ _ _ _ _ _ _ _ _ _ _ _ (foldl_keeps (paras_ok cur n) _ _ _ _ Hok)); try reflexivity.
    intros. by apply prune_para_ok. }
  refine (paras_frame _ _ _ _ _ _ _ _ _ _ _ _ _ _ _ (foldl_keeps (paras_ok cur n) _ _ _ _ Hok')); try reflexivity.
  intros s' id Hs'. frame_paras Hs'.
Qed.

Lemma initializer_finalize_ok n now s : paras_ok cur n s → paras_ok cur n (initializer_finalize now s).
Proof.
  intros Hok. unfold initializer_finalize, process_scheduled_upgrade_cooldowns. apply foldl_keeps; [|done].
  intros s' id Hs'. frame_paras Hs'.
Qed.

(** *** Calls *)

Lemma remove_vote_ok n s h v :
  paras_ok cur n s → PvfActiveVoteMap s !! h = Some v →
  let s' := upd_PvfActiveVoteList (sorted_remove h) (upd_PvfActiveVoteMap (delete h) s) in
  mid_ok cur (queued s') (Parachains s') (fset h (causes v) (waiting s')) s' ∧ votes_ok n s'.
Proof.
  intros [Hm Hv] Hh s'. split; [|by apply votes_remove].
  eapply mid_ext; [by eapply (mid_frame _ _ _ _ s)|done|]. intros h'. unfold fset.
  unfold waiting at 1. cbn. rewrite lookup_delete. unfold waiting. case_decide; [subst; by rewrite Hh|done].
Qed.

Lemma accept_vote_ok env n s h v now cfg :
  session_index env = cur → paras_ok cur n s → PvfActiveVoteMap s !! h = Some v →
  paras_ok cur n (enact_pvf_accepted env now h (causes v) (age v) cfg
    (upd_PvfActiveVoteList (sorted_remove h) (upd_PvfActiveVoteMap (delete h) s))).
Proof.
  intros Henv Hok Hh. destruct (remove_vote_ok n s h v Hok Hh) as [Hm Hv].
  assert (0 ≤ age v) as Hage by (apply Hok in Hh; apply Hh).
  pose proof (mid_accept_all env _ _ _ now h (age v) cfg _ Henv Hage Hm (fset_eq _ _ _)) as Hm'. cbn zeta in Hm'.
  destruct (accept_set_accepted env now h (causes v) (age v) cfg
    (upd_PvfActiveVoteList (sorted_remove h) (upd_PvfActiveVoteMap (delete h) s))) as (f & u & l & e & q & E).
  rewrite E in *. split; [|by eapply votes_frame; [..|exact Hv]].
  eapply mid_ext; [exact Hm'|done|]. intros h'. rewrite fset_fset. unfold fset, waiting. cbn.
  rewrite lookup_delete. by case_decide.
Qed.

Lemma reject_keeps h cs s :
  let s' := enact_pvf_rejected h cs s in
  PvfActiveVoteMap s' = PvfActiveVoteMap s ∧ PvfActiveVoteList s' = PvfActiveVoteList s ∧
  ActionsQueue s' = ActionsQueue s ∧ Parachains s' = Parachains s.
Proof.
  cbn. revert s. induction cs as [|c cs IH]; intros s; [done|].
  change (enact_pvf_rejected h (c :: cs) s) with (enact_pvf_rejected h cs (reject_cause h s c)).
  destruct (IH (reject_cause h s c)) as (-> & -> & -> & ->). unfold reject_cause.
  destruct (decrease_set_refs h s) as (r & m & ->). by destruct c.
Qed.

Lemma mid_of_reject n s h cs :
  mid_ok cur (queued s) (Parachains s) (fset h cs (waiting s)) s → votes_ok n s →
  PvfActiveVoteMap s !! h = None → paras_ok cur n (enact_pvf_rejected h cs s).
Proof.
  intros Hm Hv Hh. destruct (reject_keeps h cs s) as (E1 & E2 & E3 & E4).
  pose proof (mid_reject_all _ _ _ _ h cs Hm (fset_eq _ _ _)) as Hm'.
  split; [|by eapply votes_frame; [..|exact Hv]]. rewrite E4.
  eapply mid_ext; [exact Hm'|..].
  - intros m. unfold queued. by rewrite E3.
  - intros h'. rewrite fset_fset. unfold fset, waiting. rewrite E1. case_decide; [subst; by rewrite Hh|done].
Qed.

Lemma reject_vote_ok n s h v :
  paras_ok cur n s → PvfActiveVoteMap s !! h = Some v →
  paras_ok cur n (enact_pvf_rejected h (causes v)
    (upd_PvfActiveVoteList (sorted_remove h) (upd_PvfActiveVoteMap (delete h) s))).
Proof.
  intros Hok Hh. destruct (remove_vote_ok n s h v Hok Hh) as [Hm Hv].
  apply mid_of_reject; [exact Hm|done|apply lookup_delete_eq].
Qed.

Lemma cast_vote_causes b i v : causes (cast_vote b i v) = causes v ∧ age (cast_vote b i v) = age v.
Proof. by destruct b. Qed.

Lemma has_vote_false v i :
  has_vote v i = Some false → votes_accept v !! i = Some false ∧ votes_reject v !! i = Some false.
Proof.
  unfold has_vote. destruct (votes_accept v !! i) as [[]|]; cbn; [| |done];
    destruct (votes_reject v !! i) as [[]|]; cbn; naive_solver.
Qed.

Lemma cast_vote_ok n b i v : vote_ok n v → has_vote v i = Some false → vote_ok n (cast_vote b i v).
Proof.
  intros [Ha Hr Honce Hage] [Hai Hri]%has_vote_false. destruct b; split; cbn; rewrite ?length_insert; try done;
    intros j; destruct (decide (i = j)) as [<-|Hne].
  - rewrite Hri. done.
  - rewrite list_lookup_insert_ne by done. apply Honce.
  - rewrite Hai. done.
  - rewrite list_lookup_insert_ne by done. apply Honce.
Qed.

Lemma statement_ok env n stmt signature s :
  session_index env = cur → paras_ok cur n s →
  paras_ok cur n (include_pvf_check_statement verify env stmt signature s).1.
Proof.
  intros Henv Hok. unfold include_pvf_check_statement. unfold_dispatch. cbn.
  destruct (pvf_checking_enabled _); [|done]. case_decide; [done|]. case_decide; [done|].
  set (i := Z.to_nat _). destruct (active_validator_keys env !! i) as [pk|]; cbn; [|done].
  destruct (verify _ _ _); cbn; [|done].
  destruct (PvfActiveVoteMap s !! subject stmt) as [v|] eqn:Hh; cbn; [|done].
  destruct (has_vote v i) as [[]|] eqn:Hvote; cbn; try done.
  destruct (cast_vote_causes (accept stmt) i v) as [Ec Ea].
  destruct (quorum _ _) as [[]|]; cbn.
  - rewrite Ec, Ea. by apply accept_vote_ok.
  - rewrite Ec. by apply reject_vote_ok.
  - destruct Hok as [Hm Hv]. split.
    + eapply mid_ext; [by eapply (mid_frame _ _ _ _ s)|done|]. intros h'. rewrite waiting_insert, Ec.
      unfold fset, waiting. case_decide; [subst; by rewrite Hh|done].
    + eapply votes_update; [done..|]. apply cast_vote_ok; [by apply Hv in Hh|done].
Qed.

Lemma add_trusted_ok env n code s :
  session_index env = cur → paras_ok cur n s → paras_ok cur n (add_trusted code_hash_of env code s).
Proof.
  intros Henv Hok. unfold add_trusted. set (h := code_hash_of code).
  destruct (PvfActiveVoteMap s !! h) as [v|] eqn:Hh; [by apply accept_vote_ok|].
  destruct (contains_key h (CodeByHash s)) eqn:Hc; [done|].
  destruct Hok as [[Hcov Hcodes Hl] Hv]. split; [split|by eapply votes_frame; [..|exact Hv]].
  - intros h'. specialize (Hcov h') as (Hu & ? & Hcode). split_and!; [apply Hu|apply Hu|done|].
    intros Hpos. cbn. rewrite lookup_insert. case_decide; [by eexists|by apply Hcode].
  - intros h' code'. cbn. rewrite lookup_insert. case_decide; [naive_solver|apply Hcodes].
  - frame_lives Hl.
Qed.

Lemma poke_ok n h s : refs_of h s = 0 → paras_ok cur n s → paras_ok cur n (upd_CodeByHash (delete h) s).
Proof.
  intros Hz [[Hcov Hcodes Hl] Hv]. split; [split|by eapply votes_frame; [..|exact Hv]].
  - intros h'. specialize (Hcov h') as (Hu & ? & Hcode). split_and!; [apply Hu|apply Hu|done|].
    change (refs_of h' (upd_CodeByHash _ s)) with (refs_of h' s). intros Hpos. cbn.
    rewrite lookup_delete_ne; [by apply Hcode|]. intros ->. lia.
  - intros h' code'. cbn. rewrite lookup_delete. case_decide; [done|apply Hcodes].
  - frame_lives Hl.
Qed.

(** What a call of root must leave alone: the code of a para that is being
    onboarded, and the queue. *)
Definition call_ok (call : Call (Signature := Signature)) s : Prop :=
  match call with
  | force_set_current_code para _ => ParaLifecycles s !! para ≠ Some Onboarding
  | force_schedule_code_upgrade para _ _ => Paras.is_valid_para para (ParaLifecycles s) = true
  | force_queue_action _ => False
  | _ => True
  end.

Lemma paras_dispatch_ok env n origin call s :
  session_index env = cur → length (active_validator_keys env) = n → (∀ h, refs_of h s < u32_max) →
  ensure_root origin = None ∨ call_ok call s → paras_ok cur n s →
  paras_ok cur n (dispatch code_hash_of verify env origin call s).1.
Proof.
  intros Henv Hn Hrefs Hcall Hok.
  destruct call; cbn -[set_current_code schedule_code_upgrade note_new_head add_trusted include_pvf_check_statement];
    unfold_dispatch; try (destruct (ensure_root origin); cbn; [|done]); destruct Hcall as [Hcall|Hcall]; try done.
  - by apply set_current_code_ok.
  - frame_paras Hok.
  - frame_paras (schedule_code_upgrade_ok env n para new_code relay_parent_number (config env) s Henv Hn Hrefs Hcall Hok).
  - frame_paras (note_new_head_ok env n para new_head (block_number env) s Hok).
  - by apply add_trusted_ok.
  - case_decide; [by apply poke_ok|done].
  - destruct (ensure_none origin); cbn; [|done]. by apply statement_ok.
  - destruct (ensure_none origin); cbn; [|done]. by apply statement_ok.
Qed.

(** *** The actions of a session *)

Lemma queue_rest Q P B s n id rest :
  lives_ok cur Q P B s → Q n = id :: rest →
  id ∈ Q n ∧ (∀ m id', id' ∈ fset n rest Q m ↔ id' ∈ Q m ∧ id' ≠ id) ∧ ∀ m, sorted (fset n rest Q m).
Proof.
  intros Hl HQ. assert (id ∈ Q n) as Hin by (rewrite HQ; by left).
  pose proof (lo_sorted _ _ _ _ _ Hl n) as Hs. rewrite HQ in Hs.
  pose proof (sorted_NoDup _ Hs) as [Hnin _]%NoDup_cons.
  split_and!; [done| |].
  - intros m id'. unfold fset. case_decide as Hnm.
    + subst m. rewrite HQ, elem_of_cons. naive_solver.
    + split; [|naive_solver]. intros Hm. split; [done|]. intros ->.
      by apply Hnm, (lo_once _ _ _ _ _ Hl n m id).
  - intros m. unfold fset. case_decide; [by apply StronglySorted_inv in Hs as [Hs _]|apply Hl].
Qed.

Lemma lives_settle Q P P' B s id l l' n rest f :
  lives_ok cur Q P B s → Q n = id :: rest → ParaLifecycles s !! id = Some l →
  ParaLifecycle.is_stable l' = true → sorted P' →
  (∀ id', id' ∈ P' ↔ if decide (id' = id) then ParaLifecycle.is_parachain l' = true else id' ∈ P) →
  (∀ id', id' ≠ id → f (UpcomingParasGenesis s) !! id' = UpcomingParasGenesis s !! id') →
  lives_ok cur (fset n rest Q) P' B (upd_UpcomingParasGenesis f (upd_ParaLifecycles (insert id l') s)).
Proof.
  intros Hl HQ HL Hst HP' HP Hf.
  destruct (queue_rest _ _ _ _ _ _ _ Hl HQ) as (Hin & Hrest & Hsorted).
  split; cbn; try apply Hl; try done.
  - intros h c Hc. apply (lo_causes _ _ _ _ _ Hl) in Hc. destruct c as [id'|]; cbn in *; [|done].
    destruct Hc as (HL' & Hcur' & Hq). rewrite lookup_insert_ne by (intros ->; by apply (Hq n)).
    split_and!; [done..|]. intros m [Hm _]%Hrest. by apply (Hq m).
  - intros id' Hfut. unfold Paras.is_valid_para. rewrite lookup_insert. case_decide; [by destruct l'|].
    by apply (lo_future _ _ _ _ _ Hl) in Hfut.
  - intros id'. rewrite lookup_insert. case_decide; [subst; intros _; apply Hl; by rewrite HL|apply Hl].
  - intros id'. rewrite lookup_insert. case_decide; [by intros [= ->]|].
    rewrite Hf by done. apply Hl.
  - intros m id' [Hm Hne]%Hrest. rewrite lookup_insert_ne by done. by apply Hl.
  - intros m m' id' [Hm _]%Hrest [Hm' _]%Hrest. by apply (lo_once _ _ _ _ _ Hl m m' id').
  - intros id' l0. rewrite lookup_insert. case_decide.
    { intros [= <-] Ht. unfold ParaLifecycle.is_transitioning in Ht. by rewrite Hst in Ht. }
    intros HL' Ht. destruct (lo_transit _ _ _ _ _ Hl id' l0 HL' Ht) as [[m Hm]|?]; [|by right].
    left. exists m. by apply Hrest.
  - intros id'. rewrite HP. unfold Paras.is_parachain. rewrite lookup_insert.
    destruct (decide (id' = id)) as [->|]; [by rewrite decide_True|].
    rewrite decide_False by done. apply (lo_parachains _ _ _ _ _ Hl).
Qed.

Lemma lives_offboard Q P P' B s id l n rest :
  lives_ok cur Q P B s → Q n = id :: rest → ParaLifecycles s !! id = Some l →
  ParaLifecycle.is_offboarding l = true → sorted P' → (∀ id', id' ∈ P' ↔ id' ≠ id ∧ id' ∈ P) →
  lives_ok cur (fset n rest Q) P' B
    (upd_CurrentCodeHash (delete id) (upd_ParaLifecycles (delete id) s)).
Proof.
  intros Hl HQ HL Hoff HP' HP.
  destruct (queue_rest _ _ _ _ _ _ _ Hl HQ) as (Hin & Hrest & Hsorted).
  split; cbn; try apply Hl; try done.
  - intros h c Hc. apply (lo_causes _ _ _ _ _ Hl) in Hc. destruct c as [id'|]; cbn in *; [|done].
    destruct Hc as (HL' & Hcur' & Hq). rewrite !lookup_delete_ne by (intros ->; by apply (Hq n)).
    split_and!; [done..|]. intros m [Hm _]%Hrest. by apply (Hq m).
  - intros id' Hfut%(lo_future _ _ _ _ _ Hl). unfold Paras.is_valid_para in *. rewrite lookup_delete.
    case_decide; [subst; rewrite HL, Hoff in Hfut; by rewrite andb_false_r in Hfut|done].
  - intros id'. rewrite !lookup_delete. case_decide; [by intros [? ?]|apply Hl].
  - intros id'. rewrite lookup_delete. case_decide; [done|apply Hl].
  - intros m id' [Hm Hne]%Hrest. rewrite lookup_delete_ne by done. by apply Hl.
  - intros m m' id' [Hm _]%Hrest [Hm' _]%Hrest. by apply (lo_once _ _ _ _ _ Hl m m' id').
  - intros id' l0. rewrite lookup_delete. case_decide; [done|].
    intros HL' Ht. destruct (lo_transit _ _ _ _ _ Hl id' l0 HL' Ht) as [[m Hm]|?]; [|by right].
    left. exists m. by apply Hrest.
  - intros id'. rewrite HP, (lo_parachains _ _ _ _ _ Hl). unfold Paras.is_parachain.
    rewrite lookup_delete. case_decide; [subst; naive_solver|naive_solver].
Qed.

(** The fields an action leaves alone. *)
Definition action_frame s s' : Prop :=
  ActionsQueue s' = ActionsQueue s ∧ Parachains s' = Parachains s ∧
  PvfActiveVoteMap s' = PvfActiveVoteMap s ∧ PvfActiveVoteList s' = PvfActiveVoteList s.

Lemma offboard_ok Q P P' B s id l n rest now :
  mid_ok cur Q P B s → Q n = id :: rest → ParaLifecycles s !! id = Some l →
  ParaLifecycle.is_offboarding l = true → sorted P' → (∀ id', id' ∈ P' ↔ id' ≠ id ∧ id' ∈ P) →
  mid_ok cur (fset n rest Q) P' B (offboard now id s) ∧ action_frame s (offboard now id s).
Proof.
  intros [Hcov Hcodes Hl] HQ HL Hoff HP' HP.
  pose proof (lives_offboard _ _ _ _ _ _ _ _ _ Hl HQ HL Hoff HP' HP) as Hl'.
  assert (FutureCodeHash s !! id = None) as HF.
  { apply eq_None_not_Some. intros Hv%(lo_future _ _ _ _ _ Hl). unfold Paras.is_valid_para in Hv.
    rewrite HL, Hoff in Hv. by rewrite andb_false_r in Hv. }
  assert (FutureCodeUpgrades s !! id = None) as HU.
  { apply eq_None_not_Some. intros Hv%(lo_upgrades _ _ _ _ _ Hl). rewrite HF in Hv. by destruct Hv. }
  assert (is_Some (CurrentCodeHash s !! id)) as [old Hold] by (apply (lo_current _ _ _ _ _ Hl); by rewrite HL).
  unfold offboard. cbn. rewrite HF. cbn. rewrite Hold. cbn. split; [|done].
  split; [|exact Hcodes|].
  - apply (covers_users s); [exact Hcov|]. intros h'. unfold users. cbn.
    pose proof (occurrences_insert_le h' old (id, now) (PastCodeHash s)).
    rewrite !occurrences_delete, Hold, HF. unfold one in *. repeat case_decide; simplify_eq; try lia.
  - refine (lives_frame _ _ _ _ _ _ _ _ _ _ _ Hl'); try reflexivity; cbn; by rewrite delete_id.
Qed.

Lemma apply_action_ok Q B now parachains outgoing s n id rest :
  let r := apply_action code_hash_of now (parachains, outgoing, s) id in
  mid_ok cur Q (ensure_initialized parachains s) B s → Q n = id :: rest →
  mid_ok cur (fset n rest Q) (ensure_initialized r.1.1 r.2) B r.2 ∧ action_frame s r.2.
Proof.
  intros r Hm HQ. destruct Hm as [Hcov Hcodes Hl].
  assert (id ∈ Q n) as Hin by (rewrite HQ; by left).
  apply (lo_queued _ _ _ _ _ Hl) in Hin as (_ & l & HL & Ht).
  pose proof (lo_parachains_sorted _ _ _ _ _ Hl) as HP. set (P := ensure_initialized parachains s) in *.
  pose proof (lo_parachains _ _ _ _ _ Hl id) as Hpc. unfold Paras.is_parachain in Hpc. rewrite HL in Hpc.
  assert (∀ id', id' ∈ sorted_insert id P ↔ if decide (id' = id) then true = true else id' ∈ P) as HPi
    by (intros; rewrite elem_of_sorted_insert by done; case_decide; naive_solver).
  assert (∀ id', id' ∈ sorted_remove id P ↔ if decide (id' = id) then false = true else id' ∈ P) as HPr
    by (intros; rewrite elem_of_sorted_remove by done; case_decide; naive_solver).
  unfold r, apply_action. rewrite HL. destruct l; try done; cbn.
  - destruct (lo_genesis _ _ _ _ _ Hl id HL) as (g & Hg & Hempty). rewrite Hg.
    unfold initialize_para_now. rewrite Hempty. cbn. split; [|done]. split; [exact Hcov|exact Hcodes|].
    destruct (parachain g); cbn.
    + frame_lives (lives_settle _ _ _ _ _ _ _ ParachainLife _ _ (delete id) Hl HQ HL eq_refl
        (sorted_insert_sorted id P HP) HPi (λ id' Hne, lookup_delete_ne _ _ _ (not_eq_sym Hne))).
    + refine (lives_frame _ _ _ _ _ _ _ _ _ _ _ (lives_settle _ _ P _ _ _ _ Parathread _ _ (delete id) Hl HQ HL
        eq_refl HP _ (λ id' Hne, lookup_delete_ne _ _ _ (not_eq_sym Hne)))); try reflexivity.
      intros id'. case_decide; [subst; rewrite Hpc; done|done].
  - split; [|done]. split; [exact Hcov|exact Hcodes|].
    frame_lives (lives_settle _ _ _ _ _ _ _ ParachainLife _ _ (λ m, m) Hl HQ HL eq_refl
      (sorted_insert_sorted id P HP) HPi (λ _ _, eq_refl)).
  - split; [|done]. split; [exact Hcov|exact Hcodes|].
    frame_lives (lives_settle _ _ _ _ _ _ _ Parathread _ _ (λ m, m) Hl HQ HL eq_refl
      (sorted_remove_sorted id P HP) HPr (λ _ _, eq_refl)).
  - eapply offboard_ok; [by split|done..|by apply sorted_remove_sorted|].
    intros id'. by rewrite elem_of_sorted_remove.
  - eapply offboard_ok; [by split|done..|by apply sorted_remove_sorted|].
    intros id'. by rewrite elem_of_sorted_remove.
Qed.

Lemma apply_actions_ok B now n actions Q parachains outgoing s :
  let r := foldl (apply_action code_hash_of now) (parachains, outgoing, s) actions in
  mid_ok cur Q (ensure_initialized parachains s) B s → Q n = actions →
  mid_ok cur (fset n [] Q) (ensure_initialized r.1.1 r.2) B r.2 ∧ action_frame s r.2.
Proof.
  revert Q parachains outgoing s. induction actions as [|id rest IH]; intros Q parachains outgoing s; cbn -[apply_action].
  - intros Hm HQ. split; [|done]. eapply mid_ext; [exact Hm| |done]. intros m. unfold fset. case_decide; congruence.
  - intros Hm HQ. destruct (apply_action_ok Q B now parachains outgoing s n id rest Hm HQ) as [Hm' Hf].
    destruct (apply_action code_hash_of now (parachains, outgoing, s) id) as [[c out] s'] eqn:Ha.
    destruct (IH (fset n rest Q) c out s' Hm' (fset_eq _ _ _)) as [Hm'' Hf']. split.
    + eapply mid_ext; [exact Hm''| |done]. intros m. by rewrite fset_fset.
    + unfold action_frame in *. cbn [fst snd] in Hf, Hf' |- *. destruct Hf as (? & ? & ? & ?), Hf' as (? & ? & ? & ?). split_and!; congruence.
Qed.

Lemma actions_queue_ok env n s m :
  paras_ok cur n s →
  let s' := (apply_actions_queue code_hash_of env m s).2 in
  paras_ok cur n s' ∧ ∀ k, queued s' k = fset m [] (queued s) k.
Proof.
  intros [Hm Hv]. unfold apply_actions_queue. set (s0 := upd_ActionsQueue (delete m) s).
  assert (mid_ok cur (queued s) (ensure_initialized None s0) (waiting s0) s0) as Hm0
    by (by eapply (mid_frame _ _ _ _ s)).
  pose proof (apply_actions_ok (waiting s0) (block_number env) m (queued s m) (queued s) None [] s0 Hm0 eq_refl)
    as [Hm1 (Eq & Ep & Ev & El)]. unfold queued at 4 in Hm1. unfold queued in Eq, Ep, Ev, El.
  fold (queued s m) in Hm1, Eq, Ep, Ev, El |- *.
  destruct (foldl _ _ _) as [[c out] s1]. cbn [fst snd] in *.
  set (s2 := if decide (out = []) then s1 else drop_outgoing out s1).
  assert (mid_ok cur (fset m [] (queued s)) (ensure_initialized c s2) (waiting s0) s2 ∧ action_frame s1 s2)
    as [Hm2 (Eq2 & Ep2 & Ev2 & El2)] by (unfold s2; case_decide; [done|split; [frame_mid Hm1|done]]).
  assert (mid_ok cur (fset m [] (queued s)) (Parachains (cache_drop c s2)) (waiting s0) (cache_drop c s2)) as Hm3
    by (destruct c; [frame_mid Hm2|done]).
  assert (action_frame (upd_Parachains (λ _, Parachains (cache_drop c s2)) s2) (cache_drop c s2))
    as (Eq3 & _ & Ev3 & El3) by (by destruct c).
  cbn in Eq3, Ev3, El3.
  assert (∀ k, queued (cache_drop c s2) k = fset m [] (queued s) k) as Hq.
  { intros k. unfold queued. rewrite Eq3, Eq2, Eq. cbn. rewrite value_query_delete. unfold fset. by case_decide. }
  cbn. split; [|done]. split.
  - eapply mid_ext; [exact Hm3|done|]. intros h. unfold waiting. by rewrite Ev3, Ev2, Ev.
  - eapply votes_frame; [..|exact Hv]; [by rewrite Ev3, Ev2, Ev|by rewrite El3, El2, El].
Qed.

(** *** Votes at a session change *)

Record groom_inv (n : nat) (active l : list Hash) s : Prop := {
  gi_mid : mid_ok cur (queued s) (Parachains s) (waiting s) s;
  gi_sorted : sorted (active ++ l);
  gi_listed h : is_Some (PvfActiveVoteMap s !! h) ↔ h ∈ active ++ l;
  gi_votes h v : h ∈ active → PvfActiveVoteMap s !! h = Some v → vote_ok n v;
}.

Lemma reinitialized_ok n v : vote_ok n (reinitialize_ballots n (older v)).
Proof.
  split; cbn; rewrite ?length_replicate; try done.
  - intros i Ha _. by apply lookup_replicate in Ha as [? _].
  - apply wrap32_range.
Qed.

Lemma sorted_drop_middle (l k : list Z) x : sorted (l ++ x :: k) → sorted (l ++ k) ∧ x ∉ l ++ k.
Proof.
  intros Hs. pose proof (sorted_NoDup _ Hs) as Hnd.
  apply StronglySorted_app_lt in Hs as (Hl & Hxk & Hlt). apply StronglySorted_inv in Hxk as [Hk _].
  split; [apply StronglySorted_app_lt; split_and!; [done|done|]; intros a b Ha Hb; apply Hlt; [done|by right]|].
  rewrite <-Permutation_middle in Hnd. by apply NoDup_cons in Hnd as [? _].
Qed.

Lemma groom_vote_ok cfg n active h l s :
  groom_inv n active (h :: l) s →
  let r := groom_vote cfg n (active, s) h in groom_inv n r.1 l r.2.
Proof.
  intros [Hm Hs Hlisted Hv]. cbn zeta. unfold groom_vote.
  destruct (sorted_drop_middle _ _ _ Hs) as [Hs' Hnin].
  assert (is_Some (PvfActiveVoteMap s !! h)) as [v Hh] by (apply Hlisted, elem_of_app; right; left).
  rewrite Hh. set (s0 := upd_PvfActiveVoteMap (delete h) s).
  case_decide; cbn [fst snd].
  - split.
    + eapply mid_ext; [by eapply (mid_frame _ _ _ _ s)|done|]. intros h'. rewrite waiting_insert. cbn.
      unfold fset, waiting, s0. cbn. rewrite lookup_delete. case_decide; [subst; by rewrite Hh|done].
    + by rewrite <-app_assoc.
    + intros h'. rewrite <-app_assoc. cbn. rewrite lookup_insert, lookup_delete. case_decide; [subst|apply Hlisted].
      split; [intros _; apply elem_of_app; right; left|by eexists].
    + intros h' v'. cbn. rewrite lookup_insert, lookup_delete. case_decide.
      * intros _ [= <-]. apply reinitialized_ok.
      * rewrite elem_of_app, list_elem_of_singleton. intros [Hin| ->]; [by apply Hv|done].
  - destruct (reject_keeps h (causes (older v)) s0) as (E1 & E2 & E3 & E4).
    assert (∀ h', PvfActiveVoteMap (enact_pvf_rejected h (causes (older v)) s0) !! h' =
      if decide (h = h') then None else PvfActiveVoteMap s !! h') as Hmap.
    { intros h'. rewrite E1. unfold s0. cbn. by rewrite lookup_delete. }
    split; [|done| |].
    + assert (mid_ok cur (queued s0) (Parachains s0) (fset h (causes (older v)) (waiting s0)) s0) as Hm0.
      { eapply mid_ext; [by eapply (mid_frame _ _ _ _ s)|done|]. intros h'. unfold fset, waiting, s0. cbn.
        rewrite lookup_delete. case_decide; [subst; by rewrite Hh|done]. }
      pose proof (mid_reject_all _ _ _ _ h _ Hm0 (fset_eq _ _ _)) as Hm'. rewrite E4.
      eapply mid_ext; [exact Hm'|intros m; unfold queued; by rewrite E3|].
      intros h'. rewrite fset_fset. unfold fset, waiting. rewrite Hmap. unfold s0. cbn. rewrite lookup_delete.
      by case_decide.
    + intros h'. rewrite Hmap. case_decide; [subst; split; [by intros [? ?]|done]|].
      rewrite Hlisted, !elem_of_app, elem_of_cons. naive_solver.
    + intros h' v' Hin. rewrite Hmap. case_decide; [done|by apply Hv].
Qed.

Lemma groom_ok cfg n n' s : paras_ok cur n s → paras_ok cur n' (groom_ongoing_pvf_votes cfg n' s).
Proof.
  intros [Hm Hv]. unfold groom_ongoing_pvf_votes.
  assert (∀ l active s, groom_inv n' active l s →
    let r := foldl (groom_vote cfg n') (active, s) l in groom_inv n' r.1 [] r.2) as Hloop.
  { intros l. induction l as [|h l IH]; intros active s1 Hi; cbn -[groom_vote]; [done|].
    pose proof (groom_vote_ok cfg n' active h l s1 Hi) as Hi'. cbn zeta in Hi'.
    destruct (groom_vote cfg n' (active, s1) h) as [active' s1']. by apply IH. }
  specialize (Hloop (PvfActiveVoteList s) [] s). cbn zeta in Hloop.
  destruct (foldl _ _ _) as [active s1]. cbn [fst snd] in Hloop.
  destruct Hloop as [Hm1 Hs1 Hl1 Hv1].
  { split; [done|apply Hv|intros h; symmetry; apply Hv|]. by intros h v ?%elem_of_nil. }
  rewrite app_nil_r in Hs1. setoid_rewrite app_nil_r in Hl1.
  split; [by eapply (mid_frame _ _ _ _ s1)|]. split; cbn; [done|intros h; symmetry; apply Hl1|].
  intros h v Hh. eapply Hv1; [|done]. apply Hl1. by rewrite Hh.
Qed.

Lemma groom_keeps_queue cfg n s : ActionsQueue (groom_ongoing_pvf_votes cfg n s) = ActionsQueue s.
Proof.
  unfold groom_ongoing_pvf_votes.
  assert (∀ l acc, ActionsQueue (foldl (groom_vote cfg n) acc l).2 = ActionsQueue acc.2) as Hl.
  { intros l acc. apply (foldl_keeps (λ acc', ActionsQueue acc'.2 = ActionsQueue acc.2)); [|done].
    intros [active s1] h <-. unfold groom_vote. destruct (PvfActiveVoteMap s1 !! h); [|done].
    case_decide; [done|]. cbn [snd]. by destruct (reject_keeps h (causes (older p)) (upd_PvfActiveVoteMap (delete h) s1))
      as (_ & _ & -> & _). }
  specialize (Hl (PvfActiveVoteList s) ([], s)). by destruct (foldl _ _ _).
Qed.

Lemma paras_session_ok env n validators cfg s :
  paras_ok cur n s →
  paras_ok (cur + 1) (length validators)
    (initializer_on_new_session code_hash_of env (cur + 1) cfg validators s).2.
Proof.
  intros Hok. unfold initializer_on_new_session.
  pose proof (actions_queue_ok env n s (cur + 1) Hok) as [[Hm Hv] Hq]. cbn zeta in *.
  destruct (apply_actions_queue _ _ _ _) as [out s1]. cbn [fst snd] in *.
  assert (paras_ok cur n s1) as Hok1 by (by split).
  pose proof (groom_ok cfg n (length validators) s1 Hok1) as [[Hcov' Hcodes' Hl'] Hv'].
  split; [split; [done..|]|done]. destruct Hl'. split; try done.
  intros m id Hin. destruct (lo_queued0 m id Hin) as [Hr Hx]. split; [|done].
  assert (m ≠ cur + 1); [|unfold Configuration.SESSION_DELAY in *; lia]. intros ->.
  assert (queued (groom_ongoing_pvf_votes cfg (length validators) s1) (cur + 1) = []) as Hnil.
  { unfold queued at 1. rewrite groom_keeps_queue. fold (queued s1 (cur + 1)). by rewrite Hq, fset_eq. }
  rewrite Hnil in Hin. by apply elem_of_nil in Hin.
Qed.
End Session.

(** ** Genesis *)

Abbreviation no_queue := (λ _ : SessionIndex, [] : list ParaId).
Abbreviation no_causes := (λ _ : Hash, [] : list PvfCheckCause).

Record genesis_inv (cur : SessionIndex) (k : Z) (c : ParachainsCache) s : Prop := {
  gn_mid : mid_ok cur no_queue (ensure_initialized c s) no_causes s;
  gn_refs h : refs_of h s ≤ k;
  gn_future : FutureCodeHash s = ∅;
  gn_frame : ActionsQueue s = ∅ ∧ PvfActiveVoteMap s = ∅ ∧ PvfActiveVoteList s = [];
}.

Lemma empty_genesis cur : genesis_inv cur 0 None empty_state.
Proof.
  split; [split|done|done|done].
  - intros h. unfold users, refs_of, occurrences. cbn. rewrite !map_filter_empty, !map_size_empty.
    unfold value_query, u32_max. rewrite lookup_empty. cbn. lia.
  - intros h c. cbn. by rewrite lookup_empty.
  - assert (∀ {X} (k : Z), ¬ is_Some ((∅ : gmap Z X) !! k)) as Hno by (intros X k; rewrite lookup_empty; by intros [? ?]).
    split; cbn; try (intros; by constructor); try (by intros ? ?%Hno); try (by intros ? ? ?%elem_of_nil);
      try (by intros ? ? ? ?%elem_of_nil).
    + intros k Hk. by rewrite lookup_empty in Hk.
    + intros k. unfold Paras.is_parachain. rewrite lookup_empty. split; [by intros ?%elem_of_nil|done].
Qed.

Lemma lives_register cur P P' s id l h :
  lives_ok cur no_queue P no_causes s → ParaLifecycles s !! id = None → FutureCodeHash s = ∅ →
  ParaLifecycle.is_stable l = true → sorted P' →
  (∀ id', id' ∈ P' ↔ if decide (id' = id) then ParaLifecycle.is_parachain l = true else id' ∈ P) →
  lives_ok cur no_queue P' no_causes (upd_CurrentCodeHash (insert id h) (upd_ParaLifecycles (insert id l) s)).
Proof.
  intros Hl HL Hfut Hst HP' HP. split; cbn; try apply Hl; try done.
  - intros h' c Hc. by apply elem_of_nil in Hc.
  - intros id'. rewrite Hfut, lookup_empty. by intros [? ?].
  - intros id'. rewrite !lookup_insert. case_decide; [by eexists|apply Hl].
  - intros id'. rewrite lookup_insert. case_decide; [intros [= ->]; done|apply Hl].
  - intros n id' Hin. by apply elem_of_nil in Hin.
  - intros id' l0. rewrite lookup_insert. case_decide; [|apply Hl].
    intros [= <-]. unfold ParaLifecycle.is_transitioning. by rewrite Hst.
  - intros id'. rewrite HP. unfold Paras.is_parachain. rewrite lookup_insert.
    destruct (decide (id' = id)) as [->|]; [by rewrite decide_True|].
    rewrite decide_False by done. apply (lo_parachains _ _ _ _ _ Hl).
Qed.

Lemma genesis_para_ok cur k c s id g :
  genesis_inv cur k c s → ParaLifecycles s !! id = None → validation_code g ≠ [] → 0 ≤ k < u32_max →
  let r := initialize_para_now code_hash_of id g c s in
  genesis_inv cur (k + 1) r.1 r.2 ∧ ∀ id', id' ≠ id → ParaLifecycles r.2 !! id' = ParaLifecycles s !! id'.
Proof.
  intros [[Hcov Hcodes Hl] Hrefs Hfut (Eq & Ev & El)] HL Hg Hk. cbn zeta. unfold initialize_para_now.
  rewrite decide_False by done. set (h := code_hash_of (validation_code g)). set (code := validation_code g).
  set (l := if parachain g then ParachainLife else Parathread). set (s1 := upd_ParaLifecycles (insert id l) s).
  assert (covers (λ h', users s h' + one h h') (increase_code_ref h code s1)) as Hcov'.
  { apply covers_increase; [exact Hcov|]. specialize (Hrefs h). change (refs_of h s1) with (refs_of h s). lia. }
  assert (codes_ok (increase_code_ref h code s1)) as Hcodes' by (by apply codes_increase).
  assert (∀ h', refs_of h' (increase_code_ref h code s1) ≤ k + 1) as Hrefs'.
  { intros h'. specialize (Hrefs h') as Hh'. specialize (Hrefs h). unfold increase_code_ref. rewrite refs_of_insert.
    assert (refs_of h' (if decide (refs_of h s1 = 0) then upd_CodeByHash (insert h code) s1 else s1) =
      refs_of h' s) as -> by (by case_decide).
    case_decide; [|lia]. change (refs_of h s1) with (refs_of h s). unfold u32_add.
    pose proof (Hcov h) as (? & ? & _). rewrite wrap32_small; [lia|]. unfold is_u32. lia. }
  destruct (increase_set_refs h code s1) as (r & m & E). rewrite E in *. cbn [fst snd].
  split; [|intros id' Hne; cbn; by rewrite lookup_insert_ne].
  assert (sorted (ensure_initialized c s)) as HP by apply Hl.
  assert (∀ id', id' ∈ ensure_initialized c s → id' ≠ id) as Hnew.
  { intros id' Hin ->. apply (lo_parachains _ _ _ _ _ Hl) in Hin. unfold Paras.is_parachain in Hin.
    by rewrite HL in Hin. }
  assert (sorted (ensure_initialized (if parachain g then cache_add id c s else c) s) ∧
    ∀ id', id' ∈ ensure_initialized (if parachain g then cache_add id c s else c) s ↔
      if decide (id' = id) then ParaLifecycle.is_parachain l = true else id' ∈ ensure_initialized c s) as [HP' HPi].
  { unfold l. destruct (parachain g); cbn; (split; [by try apply sorted_insert_sorted|]); intros id'.
    - rewrite elem_of_sorted_insert by done. case_decide; naive_solver.
    - case_decide; [subst|done]. split; [by intros ?%Hnew|done]. }
  split; [split|exact Hrefs'|done|done].
  - eapply covers_le; [exact Hcov'|]. intros h'. split; [apply users_nonneg|].
    pose proof (occurrences_insert_le h' h id (CurrentCodeHash s)). unfold users. cbn. lia.
  - exact Hcodes'.
  - pose proof (lives_register _ _ _ _ id l h Hl HL Hfut ltac:(unfold l; by destruct (parachain g)) HP' HPi) as Hl'.
    frame_lives Hl'.
Qed.

Lemma genesis_paras_ok cur l c s c' s' k :
  genesis_inv cur k c s → NoDup l.*1 → (∀ id, id ∈ l.*1 → ParaLifecycles s !! id = None) →
  0 ≤ k → k + Z.of_nat (length l) ≤ u32_max →
  genesis_paras code_hash_of l c s = Some (c', s') → genesis_inv cur (k + Z.of_nat (length l)) c' s'.
Proof.
  revert c s k. induction l as [|[id g] l IH]; intros c s k Hi Hnd Hnew Hk Hmax; cbn -[Z.of_nat initialize_para_now].
  - intros [= -> ->]. by rewrite Z.add_0_r.
  - case_decide as Hg; [done|]. cbn in Hnd, Hmax. apply NoDup_cons in Hnd as [Hid Hnd].
    destruct (genesis_para_ok cur k c s id g Hi (Hnew id ltac:(by left)) Hg ltac:(lia)) as [Hi' HL].
    destruct (initialize_para_now _ _ _ _ _) as [c1 s1]. cbn [fst snd] in *. intros Hrun.
    replace (k + Z.of_nat (S (length l))) with ((k + 1) + Z.of_nat (length l)) by lia.
    eapply IH; [exact Hi'|done| |lia|lia|done].
    intros id' Hin. rewrite HL; [apply Hnew; by right|]. intros ->. done.
Qed.

Lemma genesis_ok cur n l s :
  NoDup l.*1 → Z.of_nat (length l) ≤ u32_max → genesis_build code_hash_of l = Some s → paras_ok cur n s.
Proof.
  intros Hnd Hmax. unfold genesis_build. destruct (genesis_paras _ _ _ _) as [[c s0]|] eqn:Hrun; cbn; [|done].
  intros [= <-]. destruct (genesis_paras_ok cur l None empty_state c s0 0 (empty_genesis cur) Hnd) as
    [Hm Hrefs Hfut (Eq & Ev & El)]; [intros; apply lookup_empty|done|lia|done|].
  assert (mid_ok cur no_queue (Parachains (cache_drop c s0)) no_causes (cache_drop c s0)) as Hm'
    by (destruct c; [frame_mid Hm|done]).
  assert (ActionsQueue (cache_drop c s0) = ∅ ∧ PvfActiveVoteMap (cache_drop c s0) = ∅ ∧
    PvfActiveVoteList (cache_drop c s0) = []) as (Eq' & Ev' & El') by (by destruct c).
  split.
  - eapply mid_ext; [exact Hm'|..].
    + intros m. unfold queued. by rewrite Eq'.
    + intros h. unfold waiting. by rewrite Ev', lookup_empty.
  - split; rewrite ?El', ?Ev'; [constructor| |].
    + intros h. rewrite lookup_empty. split; [by intros ?%elem_of_nil|by intros [? ?]].
    + intros h v. by rewrite lookup_empty.
Qed.

(** ** Histories *)

Record World := mkWorld { session : SessionIndex; validators_count : nat; paras : State }.

(** What an operation reads agrees with the session it runs in. *)
Definition at_session env (w : World) : Prop :=
  session_index env = session w ∧ length (active_validator_keys env) = validators_count w ∧
  0 ≤ session w ∧ session w + Configuration.SESSION_DELAY ≤ u32_max ∧ ∀ h, refs_of h (paras w) < u32_max.

Definition with_paras (w : World) (s : State) : World := mkWorld (session w) (validators_count w) s.

(** What happens to the pallet: calls, registrations and their end by other
    pallets, upgrades of paras that are neither being onboarded nor offboarded,
    new heads, the start and the end of a block, and session changes.  [call_ok]
    keeps root from queueing actions and from overriding a registration under
    way; indices and counters are below their bounds ([at_session]). *)
Inductive step : World → World → Prop :=
| step_call env origin call w :
    at_session env w → ensure_root origin = None ∨ call_ok call (paras w) →
    step w (with_paras w (dispatch code_hash_of verify env origin call (paras w)).1)
| step_initialize env id g w :
    at_session env w → step w (with_paras w (schedule_para_initialize code_hash_of env id g (paras w)).1)
| step_cleanup env id w : at_session env w → step w (with_paras w (schedule_para_cleanup env id (paras w)).1)
| step_parathread_upgrade env id w :
    at_session env w → step w (with_paras w (schedule_parathread_upgrade env id (paras w)).1)
| step_parachain_downgrade env id w :
    at_session env w → step w (with_paras w (schedule_parachain_downgrade env id (paras w)).1)
| step_code_upgrade env id code rp cfg w :
    at_session env w → Paras.is_valid_para id (ParaLifecycles (paras w)) = true →
    step w (with_paras w (schedule_code_upgrade code_hash_of env id code rp cfg (paras w)))
| step_new_head env id head ctx w :
    at_session env w → step w (with_paras w (note_new_head env id head ctx (paras w)))
| step_block_start env now w : at_session env w → step w (with_paras w (initializer_initialize env now (paras w)))
| step_block_end env now w : at_session env w → step w (with_paras w (initializer_finalize now (paras w)))
| step_session env cfg validators w :
    at_session env w →
    step w (mkWorld (session w + 1) (length validators)
      (initializer_on_new_session code_hash_of env (session w + 1) cfg validators (paras w)).2).

Lemma paras_step_ok w w' :
  step w w' → paras_ok (session w) (validators_count w) (paras w) →
  paras_ok (session w') (validators_count w') (paras w').
Proof.
  destruct 1 as [env origin call w Hat Hcall|env id g w Hat|env id w Hat|env id w Hat|env id w Hat|
    env id code rp cfg w Hat Hvalid|env id head ctx w Hat|env now w Hat|env now w Hat|env cfg validators w Hat];
    destruct Hat as (Henv & Hn & Hcur & Hmax & Hrefs); intros Hok; cbn.
  - by apply paras_dispatch_ok.
  - by apply schedule_para_initialize_ok.
  - by apply schedule_para_cleanup_ok.
  - by apply schedule_parathread_upgrade_ok.
  - by apply schedule_parachain_downgrade_ok.
  - by apply schedule_code_upgrade_ok.
  - by apply note_new_head_ok.
  - by apply initializer_initialize_ok.
  - by apply initializer_finalize_ok.
  - by eapply paras_session_ok.
Qed.

(** A chain starts from a genesis without repetitions. *)
Inductive reachable : World → Prop :=
| reachable_genesis l cur n s :
    NoDup l.*1 → Z.of_nat (length l) ≤ u32_max → genesis_build code_hash_of l = Some s →
    reachable (mkWorld cur n s)
| reachable_step w w' : reachable w → step w w' → reachable w'.

Lemma reachable_paras_ok w : reachable w → paras_ok (session w) (validators_count w) (paras w).
Proof.
  induction 1 as [l cur n s Hnd Hmax Hg|w w' _ IH Hs]; [by eapply genesis_ok|by eapply paras_step_ok].
Qed.
End Pallet.
End ParasInvariant.
