(* ===== verification/ParasTheorems.v ===== *)
(** * The paras pallet: theorems

    What the invariant of [ParasInvariant] gives for the pallet of
    [runtime/parachains/src/paras/mod.rs]: code in use is stored, transitions
    are settled by the session they are queued for, votes are decided by a
    supermajority and unsigned statements are validated as they are dispatched.
    Two theorems show where the code does not do what it means to. *)

From S2P Require Import Prelude.
From S2P Require Import Vectors.
From S2P Require Import Frame.
From S2P Require Import Configuration.
From S2P Require Import Paras.
From S2P Require Import ParasPallet.
From S2P Require Import ParasInvariant.

Module ParasTheorems.
Import ParasPallet ParasInvariant.
#[local] Arguments signing_payload : simpl never.
#[local] Arguments enact_pvf_accepted : simpl never.
#[local] Arguments enact_pvf_rejected : simpl never.

Section Pallet.
Context {ValidatorId Signature O A : Type} `{FrameOrigin O A}.
Context (code_hash_of : ValidationCode → Hash).
Context (verify : Signature → list byte → ValidatorId → bool).
Implicit Types (env : Env ValidatorId) (s : State).

Abbreviation reachable := (reachable code_hash_of verify).
Abbreviation step := (step code_hash_of verify).

(** ** Code in use *)

Definition in_use s (h : Hash) : Prop :=
  (∃ id, CurrentCodeHash s !! id = Some h) ∨ (∃ id, FutureCodeHash s !! id = Some h) ∨
  (∃ k, PastCodeHash s !! k = Some h).

Lemma in_use_users s h : in_use s h → 1 ≤ users s h.
Proof.
  pose proof (occurrences_nonneg h (CurrentCodeHash s)). pose proof (occurrences_nonneg h (FutureCodeHash s)).
  pose proof (occurrences_nonneg h (PastCodeHash s)). unfold users.
  intros [[k Hk]|[[k Hk]|[k Hk]]]; apply occurrences_lookup in Hk; lia.
Qed.

Lemma in_use_stored cur n s h :
  paras_ok code_hash_of cur n s → in_use s h → ∃ code, CodeByHash s !! h = Some code ∧ code_hash_of code = h.
Proof.
  intros [[Hcov Hcodes _] _] Hu%in_use_users. destruct (Hcov h) as (Hle & _ & Hstored).
  destruct Hstored as [code Hcode]; [lia|]. exists code. split; [done|by apply Hcodes].
Qed.

(** C15. Code in use is stored: in every state reachable by calls,
    registrations and their end, upgrades, new heads, blocks and session
    changes, the code of every current, future and past code hash of a para is
    in [CodeByHash], under its own hash, and every registered para has current
    code.  The histories leave out code upgrades of a para that is not
    registered, being onboarded or being offboarded, and, of the calls of root,
    [force_queue_action] and [force_set_current_code] for a para being
    onboarded; session indices and reference counts stay below 2^32. *)
Theorem code_in_use_stored w :
  reachable w →
  (∀ h, in_use (paras w) h → ∃ code, CodeByHash (paras w) !! h = Some code ∧ code_hash_of code = h) ∧
  (∀ id, is_Some (ParaLifecycles (paras w) !! id) →
    ∃ h code, CurrentCodeHash (paras w) !! id = Some h ∧ current_code id (paras w) = Some code ∧ code_hash_of code = h).
Proof.
  intros Hok%reachable_paras_ok.
  assert (∀ h, in_use (paras w) h → ∃ code, CodeByHash (paras w) !! h = Some code ∧ code_hash_of code = h) as Huse
    by (intros h; by apply in_use_stored with (session w) (validators_count w)).
  split; [done|]. intros id Hid. pose proof Hok as [[_ _ Hl] _].
  apply (lo_current _ _ _ _ _ Hl) in Hid as [h Hh].
  destruct (Huse h) as (code & Hcode & Hhash); [left; by exists id|].
  exists h, code. split_and!; [done| |done]. unfold current_code. by rewrite Hh.
Qed.

(** ** Votes *)

Lemma count_ones_insert b i : b !! i = Some false → count_ones (<[i := true]> b) = S (count_ones b).
Proof.
  unfold count_ones. revert i. induction b as [|x b IH]; intros [|i] Hi; try done.
  - injection Hi as ->. change (<[0%nat := true]> (false :: b)) with (true :: b).
    by rewrite filter_cons_True, filter_cons_False.
  - change (<[S i := true]> (x :: b)) with (x :: <[i := true]> b). rewrite !filter_cons.
    destruct (decide (x = true)); rewrite ?length_cons, IH; done.
Qed.

Lemma count_ones_disjoint a r :
  length a = length r → (∀ i, a !! i = Some true → r !! i = Some true → False) →
  (count_ones a + count_ones r ≤ length a)%nat.
Proof.
  unfold count_ones. revert r. induction a as [|x a IH]; intros [|y r] Hlen Hd; try done. rewrite !length_cons in *.
  assert (length (filter (λ x, x = true) a) + length (filter (λ x, x = true) r) ≤ length a)%nat
    by (apply IH; [lia|]; intros i; apply (Hd (S i))).
  rewrite !filter_cons. destruct x, y; repeat case_decide; try done; rewrite ?length_cons; try lia.
  exfalso. by apply (Hd 0%nat).
Qed.

(** Two supermajorities do not fit. *)
Lemma supermajority_twice n : (0 < n)%nat → (n < 2 * supermajority_threshold n)%nat.
Proof.
  unfold supermajority_threshold, byzantine_threshold. intros.
  pose proof (Nat.Div0.mul_div_le (n - 1) 3). lia.
Qed.

Lemma include_ok env stmt signature s s' :
  let i := Z.to_nat (validator_index stmt) in
  include_pvf_check_statement verify env stmt signature s = (s', Ok tt) ↔
  pvf_checking_enabled (config env) = true ∧ stmt_session_index stmt = session_index env ∧
  ∃ public v, active_validator_keys env !! i = Some public ∧
    verify signature (signing_payload stmt) public = true ∧
    PvfActiveVoteMap s !! subject stmt = Some v ∧ has_vote v i = Some false ∧
    let v' := cast_vote (accept stmt) i v in
    let s0 := upd_PvfActiveVoteList (sorted_remove (subject stmt)) (upd_PvfActiveVoteMap (delete (subject stmt)) s) in
    s' = match quorum v' (length (active_validator_keys env)) with
         | Some Accepted =>
             enact_pvf_accepted env (block_number env) (subject stmt) (causes v) (age v) (config env) s0
         | Some Rejected => enact_pvf_rejected (subject stmt) (causes v) s0
         | None => upd_PvfActiveVoteMap (insert (subject stmt) v') s
         end.
Proof.
  cbn zeta. unfold include_pvf_check_statement. unfold_dispatch.
  destruct (pvf_checking_enabled _); cbn; [|naive_solver].
  case_decide; [split; [by cbn|]; intros (_ & ? & _); lia|].
  case_decide; [split; [by cbn|]; intros (_ & ? & _); lia|].
  assert (stmt_session_index stmt = session_index env) as Hs by lia.
  set (i := Z.to_nat _). destruct (active_validator_keys env !! i) as [public|];
    cbn; [|split; [done|]; by intros (_ & _ & ? & ? & ? & _)].
  destruct (verify signature (signing_payload stmt) public) eqn:Hver; cbn;
    [|split; [done|]; intros (_ & _ & ? & ? & ? & ? & _); congruence].
  destruct (PvfActiveVoteMap s !! subject stmt) as [v|]; cbn;
    [|split; [done|]; by intros (_ & _ & ? & ? & _ & _ & ? & _)].
  destruct (has_vote v i) as [[]|] eqn:Hv; cbn;
    [split; [done|]; intros (_ & _ & ? & ? & _ & _ & ? & ? & _); congruence| |
     split; [done|]; intros (_ & _ & ? & ? & _ & _ & ? & ? & _); congruence].
  destruct (cast_vote_causes (accept stmt) i v) as [-> ->].
  split.
  - intros Hrun. split_and!; [done|done|]. exists public, v. split_and!; [done..|].
    destruct (quorum _ _) as [[]|]; cbn in Hrun; congruence.
  - intros (_ & _ & public' & v' & [= <-] & _ & [= <-] & _ & ->).
    by destruct (quorum _ _) as [[]|].
Qed.

Lemma cast_vote_counts b i v :
  has_vote v i = Some false →
  count_ones (votes_accept (cast_vote b i v)) = (count_ones (votes_accept v) + if b then 1 else 0)%nat ∧
  count_ones (votes_reject (cast_vote b i v)) = (count_ones (votes_reject v) + if b then 0 else 1)%nat.
Proof.
  intros [Ha Hr]%has_vote_false. unfold cast_vote. destruct b; cbn [votes_accept votes_reject];
    rewrite count_ones_insert by done; lia.
Qed.

(** Votes are decided by a supermajority: a statement that is accepted is
    the first of its validator on the code, signed with the validator's key for
    the current session.  With [a] and [r] the votes for and against, this one
    included, there are no more votes than validators and never a supermajority
    on both sides; the code is rejected, or accepted, exactly when [r], or [a],
    is a supermajority of the validators, and otherwise the vote goes on with
    these votes. *)
Theorem pvf_vote_decided w env stmt signature s' :
  let i := Z.to_nat (validator_index stmt) in
  let t := supermajority_threshold (validators_count w) in
  let s0 := upd_PvfActiveVoteList (sorted_remove (subject stmt))
              (upd_PvfActiveVoteMap (delete (subject stmt)) (paras w)) in
  reachable w → at_session env w →
  include_pvf_check_statement verify env stmt signature (paras w) = (s', Ok tt) →
  stmt_session_index stmt = session w ∧
  (∃ public, active_validator_keys env !! i = Some public ∧
    verify signature (signing_payload stmt) public = true) ∧
  ∃ v a r, PvfActiveVoteMap (paras w) !! subject stmt = Some v ∧ has_vote v i = Some false ∧
    a = (count_ones (votes_accept v) + if accept stmt then 1 else 0)%nat ∧
    r = (count_ones (votes_reject v) + if accept stmt then 0 else 1)%nat ∧
    (a + r ≤ validators_count w)%nat ∧ ¬ (t ≤ a ∧ t ≤ r)%nat ∧
    ((t ≤ r)%nat → s' = enact_pvf_rejected (subject stmt) (causes v) s0) ∧
    ((t ≤ a)%nat → s' = enact_pvf_accepted env (block_number env) (subject stmt) (causes v) (age v) (config env) s0) ∧
    ((a < t ∧ r < t)%nat →
      s' = upd_PvfActiveVoteMap (insert (subject stmt) (cast_vote (accept stmt) i v)) (paras w)).
Proof.
  intros i t s0 Hok%reachable_paras_ok (Hs & Hn & _) Hrun%include_ok.
  destruct Hrun as (_ & Hsess & public & v & Hpk & Hver & Hv & Hnot & Hs'). cbn zeta in Hs'. fold i in Hs'.
  split; [congruence|]. split; [by exists public|].
  destruct (cast_vote_counts (accept stmt) i v Hnot) as [Ha Hr].
  assert (vote_ok (validators_count w) (cast_vote (accept stmt) i v)) as [Hla Hlr Honce _]
    by (apply cast_vote_ok; [by apply (po_votes _ _ _ _ Hok) in Hv|done]).
  pose proof (count_ones_disjoint _ _ (eq_trans Hla (eq_sym Hlr)) Honce) as Hsum.
  rewrite Hla, Ha, Hr in Hsum.
  assert (0 < validators_count w)%nat as Hpos by (apply lookup_lt_Some in Hpk; lia).
  pose proof (supermajority_twice _ Hpos) as Htwice. fold t in Htwice.
  eexists v, _, _. split_and!; [done|done|reflexivity|reflexivity|exact Hsum|lia|..];
    intros Hq; rewrite Hs'; unfold quorum; rewrite Ha, Hr, Hn; fold t.
  - by rewrite decide_True.
  - rewrite decide_False by lia. by rewrite decide_True.
  - by rewrite !decide_False by lia.
Qed.

(** Unsigned statements are validated as they are dispatched: the
    transaction pool accepts a statement exactly when dispatching it in the same
    state succeeds, and no other call is accepted unsigned. *)
Theorem validate_unsigned_agrees env priority length_ origin call s :
  ensure_none origin = Some tt →
  is_ok (validate_unsigned verify env priority length_ call s) = true ↔
  (∃ stmt signature, call = include_pvf_check_statement_call stmt signature) ∧
  ∃ s', dispatch code_hash_of verify env origin call s = (s', Ok tt).
Proof.
  intros Hnone. destruct call as [| | | | | | |stmt signature];
    try (split; [done|intros [(? & ? & ?) _]; done]).
  assert (dispatch code_hash_of verify env origin (include_pvf_check_statement_call stmt signature) s =
    include_pvf_check_statement verify env stmt signature s) as ->
    by (cbn [dispatch]; rewrite Hnone; reflexivity).
  setoid_rewrite include_ok. cbn zeta. unfold validate_unsigned.
  split.
  - intros Hval. split; [by do 2 eexists|].
    destruct (pvf_checking_enabled _); cbn in Hval; [|done]. repeat (case_decide; [done|]).
    destruct (active_validator_keys env !! _) as [public|]; cbn in Hval; [|done].
    destruct (verify signature (signing_payload stmt) public) eqn:Hver; cbn in Hval; [|done].
    destruct (PvfActiveVoteMap s !! subject stmt) as [v|]; cbn in Hval; [|done].
    destruct (has_vote v _) as [[]|] eqn:Hvote; try done.
    eexists. split_and!; [done|lia|]. exists public, v. by split_and!.
  - intros [_ (s' & Hen & Hsess & public & v & -> & Hver & -> & Hvote & _)].
    rewrite Hen, Hver, Hvote, !decide_False by lia. done.
Qed.

(** ** Cooldowns *)

Lemma lift_restrictions l s id :
  id ∈ l → UpgradeRestrictionSignal (foldl (λ s id, upd_UpgradeRestrictionSignal (delete id) s) s l) !! id = None.
Proof.
  assert (∀ l s, UpgradeRestrictionSignal s !! id = None →
    UpgradeRestrictionSignal (foldl (λ s id, upd_UpgradeRestrictionSignal (delete id) s) s l) !! id = None) as Hkeep.
  { intros l' s' Hs'. apply (foldl_keeps (λ s, UpgradeRestrictionSignal s !! id = None)); [|done].
    intros s1 id' Hs1. cbn. rewrite lookup_delete. by case_decide. }
  revert s. induction l as [|id' l IH]; intros s Hin; [by apply elem_of_nil in Hin|].
  cbn. apply elem_of_cons in Hin as [->|Hin]; [|by apply IH]. apply Hkeep. cbn. apply lookup_delete_eq.
Qed.

Lemma kick_off_cooldowns env cause h code cfg s :
  UpgradeCooldowns (kick_off_pvf_check env cause h code cfg s) = UpgradeCooldowns s.
Proof.
  unfold kick_off_pvf_check.
  match goal with |- context [increase_code_ref h code ?x] => destruct (increase_set_refs h code x) as (r & m & ->) end.
  cbn. destruct (PvfActiveVoteMap s !! h); [done|]. case_match; [|done].
  by destruct (accept_set_accepted env (block_number env) h [cause] 0 cfg
    (deposit_event (PvfCheckStarted h (cause_para_id cause)) s)) as (? & ? & ? & ? & ? & ->).
Qed.

(** C39. A cooldown protects once: expired cooldowns are never taken off the
    list, so once a cooldown of a para has expired, the restriction that any
    later upgrade of the para puts up is lifted at the end of the same block,
    whatever the cooldown period, and the expired entry stays for the next. *)
Theorem stale_cooldown_lifts_restriction env id t now code rp cfg s :
  ordered_by_key snd (UpgradeCooldowns s) → (id, t) ∈ UpgradeCooldowns s → t ≤ now →
  let s' := initializer_finalize now (schedule_code_upgrade code_hash_of env id code rp cfg s) in
  UpgradeRestrictionSignal s' !! id = None ∧ (id, t) ∈ UpgradeCooldowns s'.
Proof.
  intros Hord Hin Ht s'. set (s1 := schedule_code_upgrade code_hash_of env id code rp cfg s) in s'.
  assert (ordered_by_key snd (UpgradeCooldowns s1) ∧ (id, t) ∈ UpgradeCooldowns s1) as [Hord1 Hin1].
  { unfold s1, schedule_code_upgrade. destruct (contains_key _ _); [done|]. case_decide; [done|].
    rewrite kick_off_cooldowns. cbn. split; [by apply insert_by_key_ordered|].
    rewrite insert_by_key_perm. by right. }
  unfold s', initializer_finalize, process_scheduled_upgrade_cooldowns. split.
  - apply lift_restrictions. apply list_elem_of_fmap. exists (id, t). split; [done|].
    by apply (take_while_le snd).
  - apply (foldl_keeps (λ s, (id, t) ∈ UpgradeCooldowns s)); done.
Qed.

(** ** Transitions *)







#[local] Instance cause_eq_dec : EqDecision PvfCheckCause.
Proof. solve_decision. Defined.






End Pallet.

(** ** Runs *)

Section Examples.

(** Hashes are lengths, every signature is good, one validator. *)
Definition example_hash (code : ValidationCode) : Hash := Z.of_nat (length code).
Definition example_verify (_ : unit) (_ : list byte) (_ : Z) : bool := true.
Definition example_code (n : nat) : ValidationCode := replicate n Byte.x00.

Definition example_config : HostConfiguration :=
  fold_left (λ c call, Configuration.updater call c)
    [Configuration.set_pvf_checking_enabled true; Configuration.set_pvf_voting_ttl 10] HostConfiguration.default.

Definition example_env (session : SessionIndex) : Env Z := mkEnv 1 session [7] example_config.

Abbreviation Origin := (RuntimeOrigin Z).
Abbreviation example_reachable := (ParasInvariant.reachable (O := Origin) (A := Z) example_hash example_verify).
Abbreviation example_step := (ParasInvariant.step (O := Origin) (A := Z) example_hash example_verify).

Definition genesis : State :=
  default empty_state (genesis_build example_hash [(1, mkGenesis [] (example_code 1) true)]).
Definition world0 : World := mkWorld 0 1 genesis.

Lemma world0_reachable : example_reachable world0.
Proof.
  refine (reachable_genesis _ _ [(1, mkGenesis [] (example_code 1) true)] 0 1 genesis _ _ _).
  - apply NoDup_singleton.
  - by vm_compute.
  - reflexivity.
Qed.

Lemma refs_small s :
  bool_decide (map_Forall (λ _ r, r < u32_max) (CodeByHashRefs s)) = true → ∀ h, refs_of h s < u32_max.
Proof.
  intros Hall%bool_decide_eq_true h. unfold refs_of, value_query.
  destruct (CodeByHashRefs s !! h) as [r|] eqn:Hr; cbn; [by apply (Hall h)|by unfold u32_max].
Qed.

(** A session change, and what an operation makes of a world. *)
Definition next_session (w : World) : World :=
  mkWorld (session w + 1) 1
    (initializer_on_new_session example_hash (example_env (session w)) (session w + 1) example_config [7] (paras w)).2.

Definition vote (w : World) (b : bool) (h : Hash) : World :=
  with_paras w (dispatch (O := Origin) (A := Z) example_hash example_verify (example_env (session w)) NoOrigin
    (include_pvf_check_statement_call (mkStatement b h (session w) 0) tt) (paras w)).1.

Definition upgrade (w : World) (code : ValidationCode) : World :=
  with_paras w (schedule_code_upgrade example_hash (example_env (session w)) 1 code 0 example_config (paras w)).

(** A parachain is to be offboarded; still a candidate of it signals an upgrade. *)
Definition leaving_world : World :=
  with_paras world0 (schedule_para_cleanup (example_env 0) 1 genesis).1.
Definition upgraded_world : World := upgrade leaving_world (example_code 2).

(** The para is gone, registers again with code that is known, and the vote on
    the upgrade of its former life is accepted. *)
Definition gone_world : World := next_session (next_session upgraded_world).
Definition registered_world : World :=
  with_paras gone_world (schedule_para_initialize example_hash (example_env (session gone_world)) 1
    (mkGenesis [] (example_code 1) true) (paras gone_world)).1.
Definition accepted_world : World := vote registered_world true 2.

(** It is a parachain again and signals an upgrade to unknown code, which the
    next head applies although the vote on it is open; then it is rejected. *)
Definition back_world : World := next_session (next_session accepted_world).
Definition second_world : World := upgrade back_world (example_code 3).
Definition applied_world : World :=
  with_paras second_world (note_new_head (example_env (session second_world)) 1 [] 100 (paras second_world)).
Definition rejected_world : World := vote applied_world false 3.

Lemma at_example (w : World) :
  validators_count w = 1%nat → 0 ≤ session w → session w + Configuration.SESSION_DELAY ≤ u32_max →
  bool_decide (map_Forall (λ _ r, r < u32_max) (CodeByHashRefs (paras w))) = true →
  at_session (example_env (session w)) w.
Proof. intros Hn H0 Hmax Hr. split_and!; [done|by rewrite Hn|done|done|by apply refs_small]. Qed.

Lemma next_step w : at_session (example_env (session w)) w → example_step w (next_session w).
Proof. intros Hat. exact (step_session _ _ _ example_config [7] w Hat). Qed.

Lemma vote_step w b h : at_session (example_env (session w)) w → example_step w (vote w b h).
Proof.
  intros Hat. exact (step_call _ _ _ NoOrigin (include_pvf_check_statement_call (mkStatement b h (session w) 0) tt)
    w Hat (or_intror I)).
Qed.

Ltac at_example := match goal with |- at_session _ ?w => apply (at_example w) end;
  [reflexivity|vm_compute; discriminate|vm_compute; discriminate|vm_compute; reflexivity].

(** C38. An upgrade of an offboarding para breaks the code storage.  A para that
    is to be offboarded may still schedule a code upgrade; the vote on it
    outlives the para.  There is a history in which such a para registers again
    under its identifier and all else happens as it should, and which ends with
    a live parachain whose current code is not stored: the late acceptance of
    the first upgrade makes a second one take effect while the vote on its code
    is open, and the rejection of that code drops it. *)
Theorem offboarding_upgrade_loses_code :
  ∃ w0 w1 w2 (env : Env Z) id code,
    example_reachable w0 ∧ at_session env w0 ∧
    ParaLifecycles (paras w0) !! id = Some OffboardingParachain ∧
    can_upgrade_validation_code id (paras w0) = true ∧
    w1 = with_paras w0 (schedule_code_upgrade example_hash env id code 0 (config env) (paras w0)) ∧
    rtc example_step w1 w2 ∧
    ParaLifecycles (paras w2) !! id = Some ParachainLife ∧ current_code id (paras w2) = None.
Proof.
  exists leaving_world, upgraded_world, rejected_world, (example_env 0), 1, (example_code 2).
  split_and!; [| |reflexivity|reflexivity|reflexivity| |vm_compute; reflexivity|vm_compute; reflexivity].
  - apply (reachable_step _ _ world0); [apply world0_reachable|]. apply (step_cleanup _ _ (example_env 0) 1 world0). at_example.
  - at_example.
  - apply (rtc_l _ _ (next_session upgraded_world)); [apply next_step; at_example|].
    apply (rtc_l _ _ gone_world); [apply next_step; at_example|].
    apply (rtc_l _ _ registered_world); [refine (step_initialize _ _ _ _ _ gone_world _); at_example|].
    apply (rtc_l _ _ accepted_world); [apply vote_step; at_example|].
    apply (rtc_l _ _ (next_session accepted_world)); [apply next_step; at_example|].
    apply (rtc_l _ _ back_world); [apply next_step; at_example|].
    apply (rtc_l _ _ second_world);
      [refine (step_code_upgrade _ _ _ _ _ _ _ back_world _ _); [at_example|vm_compute; reflexivity]|].
    apply (rtc_l _ _ applied_world); [refine (step_new_head _ _ _ _ _ _ second_world _); at_example|].
    apply rtc_once, vote_step. at_example.
Qed.

(** ** Witnesses *)

Lemma code_in_use_stored_witness :
  ∃ h code, CurrentCodeHash (paras world0) !! 1 = Some h ∧ current_code 1 (paras world0) = Some code ∧
    example_hash code = h.
Proof.
  apply (proj2 (code_in_use_stored example_hash example_verify world0 world0_reachable) 1).
  exists ParachainLife. vm_compute. reflexivity.
Defined.

Definition voting_world : World := upgrade world0 (example_code 2).

Lemma voting_reachable : example_reachable voting_world.
Proof.
  apply (reachable_step _ _ world0); [apply world0_reachable|].
  refine (step_code_upgrade _ _ _ _ _ _ _ world0 _ _); [at_example|vm_compute; reflexivity].
Qed.

Lemma pvf_vote_decided_witness :
  ∃ v a r, PvfActiveVoteMap (paras voting_world) !! 2 = Some v ∧ has_vote v 0 = Some false ∧
    a = (count_ones (votes_accept v) + 1)%nat ∧ r = (count_ones (votes_reject v) + 0)%nat ∧ (a + r ≤ 1)%nat.
Proof.
  destruct (pvf_vote_decided (O := Origin) (A := Z) example_hash example_verify voting_world (example_env 0) (mkStatement true 2 0 0) tt
    (include_pvf_check_statement example_verify (example_env 0) (mkStatement true 2 0 0) tt (paras voting_world)).1)
    as (_ & _ & v & a & r & Hv & Hnot & Ha & Hr & Hsum & _).
  - exact voting_reachable.
  - at_example.
  - vm_compute. reflexivity.
  - exists v, a, r. exact (conj Hv (conj Hnot (conj Ha (conj Hr Hsum)))).
Defined.

Lemma validate_unsigned_agrees_witness :
  is_ok (validate_unsigned example_verify (example_env 0) 5 10
    (include_pvf_check_statement_call (mkStatement true 2 0 0) tt) (paras voting_world)) = true.
Proof.
  apply (proj2 (@validate_unsigned_agrees Z unit Origin Z (runtime_origin Z) example_hash example_verify (example_env 0) 5 10 NoOrigin
    (include_pvf_check_statement_call (mkStatement true 2 0 0) tt) (paras voting_world) eq_refl)).
  split; [by exists (mkStatement true 2 0 0), tt|]. eexists. vm_compute. reflexivity.
Defined.

Lemma stale_cooldown_lifts_restriction_witness :
  let s := upd_UpgradeCooldowns (λ _, [(1, 5)]) genesis in
  let s' := initializer_finalize 10 (schedule_code_upgrade example_hash (example_env 0) 1 (example_code 2) 9
              example_config s) in
  is_Some (FutureCodeHash s' !! 1) ∧ UpgradeRestrictionSignal s' !! 1 = None ∧ (1, 5) ∈ UpgradeCooldowns s'.
Proof.
  split; [exists 2; vm_compute; reflexivity|].
  apply (stale_cooldown_lifts_restriction example_hash (example_env 0) 1 5 10 (example_code 2) 9 example_config
    (upd_UpgradeCooldowns (λ _, [(1, 5)]) genesis)).
  - repeat constructor.
  - left.
  - lia.
Defined.


End Examples.
End ParasTheorems.
