(* ===== verification/Candidates.v ===== *)
(** * Candidates and their backing

    [primitives/src/v2/mod.rs] and [primitives/src/v2/signed.rs]: para
    candidates with the outputs they commit to, the votes that back them, and
    the bitfields by which validators say what they hold.  A 32-byte hash is
    its bytes read as a big-endian number.  Hash functions, signature schemes
    and the encoding of bit vectors are not part of the repository: they are
    the interfaces [Blake2] and [Signatures]. *)

From S2P Require Import Prelude.
From S2P Require Import Vectors.
From S2P Require Import Codec.
From S2P Require Import Frame.
From S2P Require Import Configuration.
From S2P Require Import Hrmp.
From S2P Require Import Scheduler.
From S2P Require Import ParasPallet.

Abbreviation Hash := Z.
Abbreviation HeadData := (list byte).
Abbreviation ValidationCode := (list byte).
Abbreviation CandidateHash := Hash.
Abbreviation ValidatorIndex := nat.

(** The bytes of a hash. *)
Definition hash_bytes (h : Hash) : list byte := rev (le_bytes 32 h).

(** [.iter().enumerate().filter(|(_, b)| **b)]: the positions of the set bits. *)
Definition set_bits (bits : list bool) : list nat :=
  filter (λ i, bits !! i = Some true) (seq 0 (length bits)).

(** Folding a step that may panic over a list. *)
Fixpoint try_fold {S A} (f : S → A → option S) (l : list A) (s : S) : option S :=
  match l with
  | [] => Some s
  | a :: l => s ← f s a; try_fold f l s
  end.

(** The order in which a storage map is traversed is that of the hashed keys,
    which the storage decides: some enumeration of the entries. *)
Class StorageIter (K V : Type) `{Countable K} := {
  storage_iter : gmap K V → list (K * V);
  storage_iter_perm m : storage_iter m ≡ₚ map_to_list m;
}.

Lemma elem_of_set_bits bits i : i ∈ set_bits bits ↔ bits !! i = Some true.
Proof.
  unfold set_bits. rewrite list_elem_of_filter, elem_of_seq. split; [tauto|].
  intros Hi. split; [done|]. apply lookup_lt_Some in Hi. lia.
Qed.

Lemma NoDup_set_bits bits : NoDup (set_bits bits).
Proof. apply NoDup_filter, NoDup_seq. Qed.

Lemma set_bits_lt bits i : i ∈ set_bits bits → (i < length bits)%nat.
Proof. intros Hi%elem_of_set_bits. by eapply lookup_lt_Some. Qed.

Lemma filter_seq_ext (P Q : nat → Prop) `{∀ i, Decision (P i), ∀ i, Decision (Q i)} a n :
  (∀ i, (a ≤ i < a + n)%nat → P i ↔ Q i) → filter P (seq a n) = filter Q (seq a n).
Proof.
  revert a. induction n as [|n IH]; intros a HPQ; [done|]. cbn [seq]. rewrite !filter_cons.
  rewrite (IH (S a)) by (intros; apply HPQ; lia). pose proof (HPQ a). repeat case_decide; naive_solver lia.
Qed.

Lemma length_set_bits bits : length (set_bits bits) = ParasPallet.count_ones bits.
Proof.
  unfold set_bits, ParasPallet.count_ones.
  assert (∀ n, length (filter (λ i, bits !! (i - n)%nat = Some true) (seq n (length bits))) =
    length (filter (λ x, x = true) bits)) as Hn.
  { induction bits as [|b bits IH]; intros n; [done|]. cbn [length seq].
    rewrite !filter_cons, Nat.sub_diag. cbn [lookup list_lookup].
    assert (filter (λ i, (b :: bits) !! (i - n)%nat = Some true) (seq (S n) (length bits)) =
      filter (λ i, bits !! (i - S n)%nat = Some true) (seq (S n) (length bits))) as ->.
    { apply filter_seq_ext. intros i [Hi _]. by replace (i - n)%nat with (S (i - S n)) by lia. }
    specialize (IH (S n)). destruct b; repeat case_decide; simplify_eq; cbn [length]; congruence. }
  rewrite <-(Hn 0%nat). f_equal. apply filter_seq_ext. intros i _. by rewrite Nat.sub_0_r.
Qed.

Lemma sublist_fst_zip {A B} (l : list A) (k : list B) : (zip l k).*1 `sublist_of` l.
Proof.
  revert k. induction l as [|a l IH]; intros [|b k]; cbn; [done|done|apply sublist_nil_l|].
  by apply sublist_skip.
Qed.

Lemma try_fold_app {S A} (f : S → A → option S) l k s :
  try_fold f (l ++ k) s = s' ← try_fold f l s; try_fold f k s'.
Proof. revert s. induction l as [|a l IH]; intros s; cbn; [done|]. by destruct (f s a); cbn. Qed.

(** A property kept by every step that does not panic. *)
Lemma try_fold_ind {S A} (P : S → Prop) (f : S → A → option S) l s :
  P s → (∀ s a, a ∈ l → P s → ∃ s', f s a = Some s' ∧ P s') → ∃ s', try_fold f l s = Some s' ∧ P s'.
Proof.
  revert s. induction l as [|a l IH]; intros s Hs Hf; cbn; [by exists s|].
  destruct (Hf s a) as (s1 & -> & H1); [set_solver|done|]. cbn. apply IH; [done|].
  intros. apply Hf; [set_solver|done].
Qed.

Module Candidates.

(** ** Data *)

Record CandidateCommitments := mkCommitments {
  upward_messages : list (list byte);
  horizontal_messages : list Hrmp.OutboundHrmpMessage;
  new_validation_code : option ValidationCode;
  head_data : HeadData;
  processed_downward_messages : Z;
  hrmp_watermark : BlockNumber;
}.

Record PersistedValidationData := mkPvd {
  parent_head : HeadData;
  pvd_relay_parent_number : BlockNumber;
  relay_parent_storage_root : Hash;
  max_pov_size : Z;
}.

Record SigningContext := mkContext { ctx_session_index : SessionIndex; ctx_parent_hash : Hash }.

Section Types.
Context {CollatorId CollatorSignature ValidatorSignature : Type}.

Record CandidateDescriptor := mkDescriptor {
  para_id : ParaId;
  relay_parent : Hash;
  collator : CollatorId;
  persisted_validation_data_hash : Hash;
  pov_hash : Hash;
  erasure_root : Hash;
  signature : CollatorSignature;
  para_head : Hash;
  validation_code_hash : Hash;
}.

Record CandidateReceipt := mkReceipt {
  receipt_descriptor : CandidateDescriptor;
  commitments_hash : Hash;
}.

Record CommittedCandidateReceipt := mkCommitted {
  descriptor : CandidateDescriptor;
  commitments : CandidateCommitments;
}.

Inductive ValidityAttestation := Implicit (sig : ValidatorSignature) | Explicit (sig : ValidatorSignature).

Record BackedCandidate := mkBacked {
  candidate : CommittedCandidateReceipt;
  validity_votes : list ValidityAttestation;
  validator_indices : list bool;
}.

(** [UncheckedSigned<AvailabilityBitfield>] *)
Record UncheckedSigned := mkSigned {
  payload : list bool;
  validator_index : ValidatorIndex;
  bitfield_signature : ValidatorSignature;
}.
End Types.
Arguments CandidateDescriptor : clear implicits.
Arguments CandidateReceipt : clear implicits.
Arguments CommittedCandidateReceipt : clear implicits.
Arguments ValidityAttestation : clear implicits.
Arguments BackedCandidate : clear implicits.
Arguments UncheckedSigned : clear implicits.

(** [BlakeTwo256::hash_of] on the types hashed here, and [HeadData::hash]. *)
Class Blake2 (CollatorId CollatorSignature : Type) := {
  hash_commitments : CandidateCommitments → Hash;
  hash_receipt : CandidateReceipt CollatorId CollatorSignature → Hash;
  hash_pvd : PersistedValidationData → Hash;
  hash_head : HeadData → Hash;
}.

(** The signature schemes of collators and validators, and the SCALE encoding
    of a bit vector. *)
Class Signatures (CollatorId CollatorSignature ValidatorId ValidatorSignature : Type) := {
  collator_verify : CollatorSignature → list byte → CollatorId → bool;
  validator_verify : ValidatorSignature → list byte → ValidatorId → bool;
  encode_bits : list bool → list byte;
}.

Section Backing.
Context {CollatorId CollatorSignature ValidatorId ValidatorSignature : Type}
  `{!Blake2 CollatorId CollatorSignature}
  `{!Signatures CollatorId CollatorSignature ValidatorId ValidatorSignature}.
Implicit Types (d : CandidateDescriptor CollatorId CollatorSignature).
Implicit Types (backed : BackedCandidate CollatorId CollatorSignature ValidatorSignature).

(** ** Receipts *)

Definition to_plain (c : CommittedCandidateReceipt CollatorId CollatorSignature) :
    CandidateReceipt CollatorId CollatorSignature :=
  mkReceipt (descriptor c) (hash_commitments (commitments c)).

(** [CommittedCandidateReceipt::hash] *)
Definition candidate_hash (c : CommittedCandidateReceipt CollatorId CollatorSignature) : CandidateHash :=
  hash_receipt (to_plain c).

(** ** Signatures *)

Definition collator_signature_payload (relay_parent_ : Hash) (para : ParaId)
    (pvd_hash pov_hash_ code_hash : Hash) : list byte :=
  hash_bytes relay_parent_ ++ u32_to_le_bytes para ++ hash_bytes pvd_hash ++ hash_bytes pov_hash_ ++
  hash_bytes code_hash.

Definition check_collator_signature d : result unit unit :=
  let payload_ := collator_signature_payload (relay_parent d) (para_id d)
                    (persisted_validation_data_hash d) (pov_hash d) (validation_code_hash d) in
  if collator_verify (signature d) payload_ (collator d) then Ok tt else Err tt.

Definition encode_context (ctx : SigningContext) : list byte :=
  u32_to_le_bytes (ctx_session_index ctx) ++ hash_bytes (ctx_parent_hash ctx).

Definition attestation_signature (a : ValidityAttestation ValidatorSignature) : ValidatorSignature :=
  match a with Implicit sig | Explicit sig => sig end.

(** ["BKNG"], the kind of the statement, the candidate and the context. *)
Definition signed_payload (a : ValidityAttestation ValidatorSignature) (h : CandidateHash)
    (ctx : SigningContext) : list byte :=
  [Byte.x42; Byte.x4b; Byte.x4e; Byte.x47; match a with Implicit _ => Byte.x01 | Explicit _ => Byte.x02 end] ++
  hash_bytes h ++ encode_context ctx.

(** [UncheckedSigned::check_signature], on which [try_into_checked] decides. *)
Definition check_signature (b : UncheckedSigned ValidatorSignature) (ctx : SigningContext)
    (key : ValidatorId) : bool :=
  validator_verify (bitfield_signature b) (encode_bits (payload b) ++ encode_context ctx) key.

(** ** Backing *)

(** The votes with the positions in the group of the validators that cast them. *)
Definition votes backed : list (nat * ValidityAttestation ValidatorSignature) :=
  zip (set_bits (validator_indices backed)) (validity_votes backed).

Fixpoint check_votes (h : CandidateHash) (ctx : SigningContext) (validator_lookup : nat → option ValidatorId)
    (l : list (nat * ValidityAttestation ValidatorSignature)) (signed : nat) : result unit nat :=
  match l with
  | [] => Ok signed
  | (val_in_group_idx, attestation) :: l =>
      validator_id ← ok_or (validator_lookup val_in_group_idx) tt;
      if validator_verify (attestation_signature attestation) (signed_payload attestation h ctx) validator_id
      then check_votes h ctx validator_lookup l (S signed)
      else Err tt
  end.

Definition check_candidate_backing backed (ctx : SigningContext) (group_len : nat)
    (validator_lookup : nat → option ValidatorId) : result unit nat :=
  if decide (length (validator_indices backed) ≠ group_len) then Err tt
  else if decide (group_len < length (validity_votes backed))%nat then Err tt
  else
    signed ← check_votes (candidate_hash (candidate backed)) ctx validator_lookup (votes backed) 0;
    if decide (signed ≠ length (validity_votes backed)) then Err tt else Ok signed.

Lemma check_votes_ok h ctx lookup l n m :
  check_votes h ctx lookup l n = Ok m ↔
  m = (n + length l)%nat ∧
  ∀ i a, (i, a) ∈ l → ∃ key, lookup i = Some key ∧
    validator_verify (attestation_signature a) (signed_payload a h ctx) key = true.
Proof.
  revert n. induction l as [|[i a] l IH]; intros n; cbn.
  { split; [intros [= ->]; split; [lia|set_solver]|]. intros [-> _]. f_equal. lia. }
  destruct (lookup i) as [key|] eqn:El; cbn.
  - destruct (validator_verify _ _ key) eqn:Ev; [rewrite IH|].
    + split; intros [-> Hl]; (split; [lia|]); [|intros; apply Hl; set_solver].
      intros j b [[= -> ->]|Hj]%elem_of_cons; eauto.
    + split; [done|]. intros [_ Hl]. destruct (Hl i a) as (k & ? & ?); [set_solver|]. congruence.
  - split; [done|]. intros [_ Hl]. destruct (Hl i a) as (k & ? & _); [set_solver|]. congruence.
Qed.

(** A backing is accepted when each vote has a validator of the group that
    signed it, and the count is that of the votes. *)
Lemma check_candidate_backing_ok backed ctx n lookup m :
  check_candidate_backing backed ctx n lookup = Ok m ↔
  length (validator_indices backed) = n ∧ m = length (validity_votes backed) ∧
  length (votes backed) = m ∧
  ∀ i a, (i, a) ∈ votes backed → ∃ key, lookup i = Some key ∧
    validator_verify (attestation_signature a)
      (signed_payload a (candidate_hash (candidate backed)) ctx) key = true.
Proof.
  unfold check_candidate_backing. destruct (decide (length (validator_indices backed) ≠ n)) as [|Hn]; [naive_solver|].
  assert (length (validator_indices backed) = n) as <- by (apply dec_stable; lia). clear Hn.
  assert (length (votes backed) ≤ length (validator_indices backed))%nat as Hle.
  { unfold votes. rewrite length_zip_with. etrans; [apply Nat.le_min_l|]. unfold set_bits.
    rewrite length_filter. by rewrite length_seq. }
  destruct (decide _) as [Hgt|_]; [split; [done|]; intros (_ & -> & Hm & _); lia|].
  destruct (check_votes _ _ _ _ _) as [k|] eqn:E; cbn.
  - apply check_votes_ok in E as [-> Hv]. cbn. case_decide as Hd; [|].
    + split; [done|]. intros (_ & -> & Hm & _). lia.
    + rewrite Hd. split; [intros [= <-]; eauto|]. by intros (_ & -> & _).
  - split; [done|]. intros (_ & _ & Hm & Hv).
    assert (check_votes (candidate_hash (candidate backed)) ctx lookup (votes backed) 0 = Ok (length (votes backed)))
      as E'; [|congruence]. by apply check_votes_ok.
Qed.

Lemma votes_NoDup backed : NoDup (votes backed).*1.
Proof.
  unfold votes. eapply submseteq_NoDup; [|apply (NoDup_set_bits (validator_indices backed))].
  apply sublist_submseteq, sublist_fst_zip.
Qed.

Lemma votes_index backed i a : (i, a) ∈ votes backed → validator_indices backed !! i = Some true.
Proof. intros Hi. apply elem_of_set_bits. by eapply elem_of_zip_l. Qed.
End Backing.
End Candidates.
