(* ===== verification/Inclusion.v ===== *)
(** * Inclusion

    [runtime/parachains/src/inclusion/mod.rs]: candidates are backed, wait until
    enough validators hold their data, and are then included: their new head,
    code and messages take effect in the other pallets.  The checks of
    bitfields are those of [paras_inherent/mod.rs], which the pallet calls.

    Calls of the hook [T::RewardValidators] are recorded in the world.  An outer
    [option] is [None] when the code panics.  Weights are not modelled. *)

From S2P Require Import Prelude.
From S2P Require Import Vectors.
From S2P Require Import Frame.
From S2P Require Import Configuration.
From S2P Require Import Dmp.
From S2P Require Import Ump.
From S2P Require Import Hrmp.
From S2P Require Import Scheduler.
From S2P Require Import ParasPallet.
From S2P Require Import Candidates.

Module Inclusion.
Import Candidates.

Definition minimum_backing_votes (n_validators : nat) : nat := n_validators `min` 2.

Definition availability_threshold (n_validators : nat) : nat :=
  (n_validators * 2) / 3 + (n_validators * 2) mod 3.

Inductive FullCheck := CheckYes | CheckSkip.

Inductive Error :=
| UnsortedOrDuplicateValidatorIndices
| UnsortedOrDuplicateDisputeStatementSet
| UnsortedOrDuplicateBackedCandidates
| UnexpectedRelayParent
| WrongBitfieldSize
| BitfieldAllZeros
| BitfieldDuplicateOrUnordered
| ValidatorIndexOutOfBounds
| InvalidBitfieldSignature
| UnscheduledCandidate
| CandidateScheduledBeforeParaFree
| WrongCollator
| ScheduledOutOfOrder
| HeadDataTooLarge
| PrematureCodeUpgrade
| NewCodeTooLarge
| CandidateNotInParentContext
| InvalidGroupIndex
| InsufficientBacking
| InvalidBacking
| NotCollatorSigned
| ValidationDataHashMismatch
| IncorrectDownwardMessageHandling
| InvalidUpwardMessages
| HrmpWatermarkMishandling
| InvalidOutboundHrmp
| InvalidValidationCodeHash
| ParaHeadMismatch
| BitfieldReferencesFreedCore.

Inductive AcceptanceCheckErr :=
| AccHeadDataTooLarge
| AccPrematureCodeUpgrade
| AccNewCodeTooLarge
| AccProcessedDownwardMessages (e : Dmp.ProcessedDownwardMessagesAcceptanceErr)
| AccUpwardMessages (e : Ump.AcceptanceCheckErr)
| AccHrmpWatermark (e : Hrmp.HrmpWatermarkAcceptanceErr)
| AccOutboundHrmp (e : Hrmp.OutboundHrmpAcceptanceErr).

Definition strip_into_dispatch_err (e : AcceptanceCheckErr) : Error :=
  match e with
  | AccHeadDataTooLarge => HeadDataTooLarge
  | AccPrematureCodeUpgrade => PrematureCodeUpgrade
  | AccNewCodeTooLarge => NewCodeTooLarge
  | AccProcessedDownwardMessages _ => IncorrectDownwardMessageHandling
  | AccUpwardMessages _ => InvalidUpwardMessages
  | AccHrmpWatermark _ => HrmpWatermarkMishandling
  | AccOutboundHrmp _ => InvalidOutboundHrmp
  end.

(** [ensure!] in a routine that only reads, and [map_err] before [?]. *)
Definition check {E} (b : bool) (e : E) : result E unit := if b then Ok tt else Err e.
Definition map_err {E F A} (f : E → F) (r : result E A) : result F A :=
  match r with Ok a => Ok a | Err e => Err (f e) end.

Inductive Reward := reward_backing (l : list ValidatorIndex) | reward_bitfields (l : list ValidatorIndex).

Section Pallet.
Context {CollatorId CollatorSignature ValidatorId ValidatorSignature H : Type}
  `{!EqDecision CollatorId}
  `{!Blake2 CollatorId CollatorSignature}
  `{!Signatures CollatorId CollatorSignature ValidatorId ValidatorSignature}
  `{!MessageHash H}
  (code_hash_of : ValidationCode → Hash).
#[local] Abbreviation Descriptor := (CandidateDescriptor CollatorId CollatorSignature).
#[local] Abbreviation Receipt := (CandidateReceipt CollatorId CollatorSignature).
#[local] Abbreviation Committed := (CommittedCandidateReceipt CollatorId CollatorSignature).
#[local] Abbreviation Backed := (BackedCandidate CollatorId CollatorSignature ValidatorSignature).
#[local] Abbreviation Bitfield := (UncheckedSigned ValidatorSignature).
#[local] Abbreviation Attestation := (ValidityAttestation ValidatorSignature).
#[local] Abbreviation Assignment := (Scheduler.CoreAssignment (CollatorId := CollatorId)).
Implicit Types (env : ParasPallet.Env ValidatorId).

(** ** Storage *)

Record AvailabilityBitfieldRecord := mkRecord { bitfield : list bool; submitted_at : BlockNumber }.

Record CandidatePendingAvailability := mkPending {
  core : Scheduler.CoreIndex;
  hash : CandidateHash;
  pending_descriptor : Descriptor;
  availability_votes : list bool;
  backers : list bool;
  relay_parent_number : BlockNumber;
  backed_in_number : BlockNumber;
  backing_group : Scheduler.GroupIndex;
}.

Inductive Event :=
| CandidateBacked (r : Receipt) (head : HeadData) (core_ : Scheduler.CoreIndex) (group : Scheduler.GroupIndex)
| CandidateIncluded (r : Receipt) (head : HeadData) (core_ : Scheduler.CoreIndex) (group : Scheduler.GroupIndex)
| CandidateTimedOut (r : Receipt) (head : HeadData) (core_ : Scheduler.CoreIndex).

Record State := mkState {
  AvailabilityBitfields : gmap ValidatorIndex AvailabilityBitfieldRecord;
  PendingAvailability : gmap ParaId CandidatePendingAvailability;
  PendingAvailabilityCommitments : gmap ParaId CandidateCommitments;
  events : list Event;
}.

Definition empty_state : State := mkState ∅ ∅ ∅ [].

Definition set_bitfields f (s : State) : State :=
  mkState (f (AvailabilityBitfields s)) (PendingAvailability s) (PendingAvailabilityCommitments s) (events s).
Definition set_pending f (s : State) : State :=
  mkState (AvailabilityBitfields s) (f (PendingAvailability s)) (PendingAvailabilityCommitments s) (events s).
Definition set_commitments f (s : State) : State :=
  mkState (AvailabilityBitfields s) (PendingAvailability s) (f (PendingAvailabilityCommitments s)) (events s).
Definition deposit_event e (s : State) : State :=
  mkState (AvailabilityBitfields s) (PendingAvailability s) (PendingAvailabilityCommitments s) (events s ++ [e]).

(** The pallet with those its candidates take effect in. *)
Record World := mkWorld {
  inclusion : State;
  paras : ParasPallet.State;
  dmp : Dmp.State (H := H);
  ump : Ump.State;
  hrmp : Hrmp.State (H := H);
  rewards : list Reward;
}.

Definition on_inclusion f (w : World) : World :=
  mkWorld (f (inclusion w)) (paras w) (dmp w) (ump w) (hrmp w) (rewards w).
Definition on_paras f (w : World) : World :=
  mkWorld (inclusion w) (f (paras w)) (dmp w) (ump w) (hrmp w) (rewards w).
Definition on_dmp f (w : World) : World :=
  mkWorld (inclusion w) (paras w) (f (dmp w)) (ump w) (hrmp w) (rewards w).
Definition on_ump f (w : World) : World :=
  mkWorld (inclusion w) (paras w) (dmp w) (f (ump w)) (hrmp w) (rewards w).
Definition on_hrmp f (w : World) : World :=
  mkWorld (inclusion w) (paras w) (dmp w) (ump w) (f (hrmp w)) (rewards w).
Definition reward r (w : World) : World :=
  mkWorld (inclusion w) (paras w) (dmp w) (ump w) (hrmp w) (rewards w ++ [r]).

(** ** A new session *)

Definition initializer_on_new_session (s : State) : State :=
  let s := set_commitments (λ _, ∅) s in
  let s := set_pending (λ _, ∅) s in
  set_bitfields (λ _, ∅) s.

(** ** Taking effect *)

Definition enact_candidate env (relay_parent_number_ : BlockNumber) (receipt : Committed)
    (backers_ availability_votes_ : list bool) (core_index : Scheduler.CoreIndex)
    (backing_group_ : Scheduler.GroupIndex) (w : World) : World :=
  let plain := to_plain receipt in
  let para := para_id (descriptor receipt) in
  let c := commitments receipt in
  let w := reward (reward_backing (set_bits backers_)) w in
  let w := reward (reward_bitfields (set_bits availability_votes_)) w in
  let w := match new_validation_code c with
           | Some new_code =>
               on_paras (ParasPallet.schedule_code_upgrade code_hash_of env para new_code
                           relay_parent_number_ (ParasPallet.config env)) w
           | None => w
           end in
  let w := on_dmp (Dmp.prune_dmq para (processed_downward_messages c)) w in
  let w := on_ump (Ump.receive_upward_messages para (upward_messages c)) w in
  let w := on_hrmp (Hrmp.prune_hrmp para (hrmp_watermark c)) w in
  let w := on_hrmp (Hrmp.queue_outbound_hrmp (ParasPallet.block_number env) para (horizontal_messages c)) w in
  let w := on_inclusion (deposit_event (CandidateIncluded plain (head_data c) core_index backing_group_)) w in
  on_paras (ParasPallet.note_new_head env para (head_data c) relay_parent_number_) w.

(** ** Availability *)

(** What the loop keeps per core: the para the core works for, and its pending
    candidate. *)
#[local] Abbreviation Slot := (option (ParaId * option CandidatePendingAvailability)).

Definition load_slots (expected_bits : nat) (core_lookup : Scheduler.CoreIndex → option (option ParaId))
    (s : State) : option (list Slot) :=
  match mapM core_lookup (seq 0 expected_bits) with
  | Some l => Some (map (option_map (λ p, (p, PendingAvailability s !! p))) l)
  | None => None
  end.

Definition vote_available (v : ValidatorIndex) (c : CandidatePendingAvailability) :
    CandidatePendingAvailability :=
  mkPending (core c) (hash c) (pending_descriptor c) (<[v := true]> (availability_votes c)) (backers c)
    (relay_parent_number c) (backed_in_number c) (backing_group c).

(** One set bit of the bitfield of [v]; the index panics beyond the cores. *)
Definition mark_bit (v : ValidatorIndex) (slots : list Slot) (bit_idx : nat) : option (list Slot) :=
  slot ← slots !! bit_idx;
  match slot with
  | Some (p, Some c) => Some (<[bit_idx := Some (p, Some (vote_available v c))]> slots)
  | _ => Some slots
  end.

Definition record_bitfield (now : BlockNumber) (acc : list Slot * State) (b : Bitfield) :
    option (list Slot * State) :=
  slots ← try_fold (mark_bit (validator_index b)) (set_bits (payload b)) acc.1;
  Some (slots, set_bitfields (insert (validator_index b) (mkRecord (payload b) now)) acc.2).

Definition conclude env (enact : bool) (threshold : nat) (acc : list (Scheduler.CoreIndex * CandidateHash) * World)
    (x : ParaId * CandidatePendingAvailability) : list (Scheduler.CoreIndex * CandidateHash) * World :=
  let '(freed_cores, w) := acc in
  let '(para, c) := x in
  if decide (threshold ≤ ParasPallet.count_ones (availability_votes c))%nat then
    let w := on_inclusion (set_pending (delete para)) w in
    match PendingAvailabilityCommitments (inclusion w) !! para with
    | None => (freed_cores, w)
    | Some commitments_ =>
        let w := on_inclusion (set_commitments (delete para)) w in
        let w := if enact
                 then enact_candidate env (relay_parent_number c)
                        (mkCommitted (pending_descriptor c) commitments_) (backers c) (availability_votes c)
                        (core c) (backing_group c) w
                 else w in
        (freed_cores ++ [(core c, hash c)], w)
    end
  else (freed_cores, on_inclusion (set_pending (insert para c)) w).

Definition waiting (slots : list Slot) : list (ParaId * CandidatePendingAvailability) :=
  omap (λ slot, match slot with Some (p, Some c) => Some (p, c) | _ => None end) slots.

Definition update_pending_availability_and_get_freed_cores env (expected_bits : nat)
    (validators : list ValidatorId) (signed_bitfields : list Bitfield)
    (core_lookup : Scheduler.CoreIndex → option (option ParaId)) (enact : bool) (w : World) :
    option (list (Scheduler.CoreIndex * CandidateHash) * World) :=
  slots ← load_slots expected_bits core_lookup (inclusion w);
  '(slots, s) ← try_fold (record_bitfield (ParasPallet.block_number env)) signed_bitfields (slots, inclusion w);
  let threshold := availability_threshold (length validators) in
  Some (foldl (conclude env enact threshold) ([], on_inclusion (λ _, s) w) (waiting slots)).

(** The loop of [assure_sanity_bitfields], after a bitfield of [last_index]. *)
Fixpoint assure_bitfields (expected_bits : nat) (ctx : SigningContext) (validators : list ValidatorId)
    (full_check : FullCheck) (last_index : option ValidatorIndex) (l : list Bitfield) :
    result Error (list Bitfield) :=
  match l with
  | [] => Ok []
  | b :: l =>
      _ ← check (bool_decide (length (payload b) = expected_bits)) WrongBitfieldSize;
      let v := validator_index b in
      _ ← check match last_index with Some last => bool_decide (last < v)%nat | None => true end
            UnsortedOrDuplicateValidatorIndices;
      key ← ok_or (validators !! v) ValidatorIndexOutOfBounds;
      _ ← check match full_check with CheckYes => check_signature b ctx key | CheckSkip => true end
            InvalidBitfieldSignature;
      bitfields ← assure_bitfields expected_bits ctx validators full_check (Some v) l;
      Ok (b :: bitfields)
  end.

Definition assure_sanity_bitfields (unchecked_bitfields : list Bitfield) (disputed_bitfield : list bool)
    (expected_bits : nat) (parent_hash : Hash) (session_index : SessionIndex) (validators : list ValidatorId)
    (full_check : FullCheck) : result Error (list Bitfield) :=
  _ ← check (bool_decide (length disputed_bitfield = expected_bits)) WrongBitfieldSize;
  assure_bitfields expected_bits (mkContext session_index parent_hash) validators full_check None
    unchecked_bitfields.

Definition process_bitfields env (parent_hash : Hash) (expected_bits : nat) (signed_bitfields : list Bitfield)
    (disputed_bitfield : list bool) (core_lookup : Scheduler.CoreIndex → option (option ParaId))
    (full_check : FullCheck) (w : World) :
    option (result Error (list (Scheduler.CoreIndex * CandidateHash)) * World) :=
  let validators := ParasPallet.active_validator_keys env in
  match assure_sanity_bitfields signed_bitfields disputed_bitfield expected_bits parent_hash
          (ParasPallet.session_index env) validators full_check with
  | Err e => Some (Err e, w)
  | Ok checked_bitfields =>
      '(freed_cores, w) ← update_pending_availability_and_get_freed_cores env expected_bits validators
                            checked_bitfields core_lookup true w;
      Some (Ok freed_cores, w)
  end.

(** ** Checking a candidate *)

(** [util::make_persisted_validation_data] *)
Definition make_persisted_validation_data (config : HostConfiguration) (para : ParaId)
    (relay_parent_number_ : BlockNumber) (storage_root : Hash) (w : World) : option PersistedValidationData :=
  head ← ParasPallet.Heads (paras w) !! para;
  Some (mkPvd head relay_parent_number_ storage_root (Configuration.max_pov_size config)).

Definition check_validation_outputs (config : HostConfiguration) (relay_parent_number_ : BlockNumber)
    (para : ParaId) (c : CandidateCommitments) (w : World) : result AcceptanceCheckErr unit :=
  _ ← check (bool_decide (Z.of_nat (length (head_data c)) ≤ max_head_data_size config)) AccHeadDataTooLarge;
  _ ← match new_validation_code c with
      | Some code =>
          _ ← check (ParasPallet.can_upgrade_validation_code para (paras w)) AccPrematureCodeUpgrade;
          check (bool_decide (Z.of_nat (length code) ≤ max_code_size config)) AccNewCodeTooLarge
      | None => Ok tt
      end;
  _ ← map_err AccProcessedDownwardMessages
        (Dmp.check_processed_downward_messages para (processed_downward_messages c) (dmp w));
  _ ← map_err AccUpwardMessages (Ump.check_upward_messages config para (upward_messages c) (ump w));
  _ ← map_err AccHrmpWatermark
        (Hrmp.check_hrmp_watermark para relay_parent_number_ (hrmp_watermark c) (hrmp w));
  map_err AccOutboundHrmp (Hrmp.check_outbound_hrmp config para (horizontal_messages c) (hrmp w)).

(** Why [process_candidates] stops: there is no validation data for a
    candidate, or a check fails. *)
Inductive Stop := FailedToCreatePVD | Failed (e : Error).

Definition verify_backed_candidate env (parent_hash parent_storage_root : Hash) (backed : Backed) (w : World) :
    result Stop unit :=
  let d := descriptor (candidate backed) in
  let c := commitments (candidate backed) in
  let relay_parent_number_ := u32_sub (ParasPallet.block_number env) 1 in
  pvd ← ok_or (make_persisted_validation_data (ParasPallet.config env) (para_id d) relay_parent_number_
                 parent_storage_root w) FailedToCreatePVD;
  _ ← check (bool_decide (hash_pvd pvd = persisted_validation_data_hash d)) (Failed ValidationDataHashMismatch);
  _ ← check (bool_decide (relay_parent d = parent_hash)) (Failed CandidateNotInParentContext);
  _ ← check (is_ok (check_collator_signature d)) (Failed NotCollatorSigned);
  code_hash ← ok_or (ParasPallet.CurrentCodeHash (paras w) !! para_id d) (Failed UnscheduledCandidate);
  _ ← check (bool_decide (validation_code_hash d = code_hash)) (Failed InvalidValidationCodeHash);
  _ ← check (bool_decide (para_head d = hash_head (head_data c))) (Failed ParaHeadMismatch);
  map_err (λ e, Failed (strip_into_dispatch_err e))
    (check_validation_outputs (ParasPallet.config env) relay_parent_number_ (para_id d) c w).

(** The runtime API runs against the relay parent itself. *)
Definition check_validation_outputs_for_runtime_api env (para : ParaId) (c : CandidateCommitments) (w : World) :
    bool :=
  is_ok (check_validation_outputs (ParasPallet.config env) (ParasPallet.block_number env) para c w).

(** ** Backing *)

Record ProcessedCandidates := mkProcessed {
  core_indices : list Scheduler.CoreIndex;
  candidate_receipt_with_backing_validator_indices : list (Receipt * list (ValidatorIndex * Attestation));
}.

(** The inner loop: the first assignment of the para in what is left of the
    schedule, with what comes after it. *)
Fixpoint find_assignment (para : ParaId) (last_core : option Scheduler.CoreIndex) (scheduled : list Assignment) :
    result Error (Assignment * list Assignment) :=
  match scheduled with
  | [] => Err UnscheduledCandidate
  | a :: scheduled =>
      _ ← check match last_core with Some c => bool_decide (c < Scheduler.core a)%nat | None => true end
            ScheduledOutOfOrder;
      if decide (para = Scheduler.para_id a) then Ok (a, scheduled)
      else find_assignment para (Some (Scheduler.core a)) scheduled
  end.

Fixpoint check_in_order (last_core : option Scheduler.CoreIndex) (scheduled : list Assignment) :
    result Error unit :=
  match scheduled with
  | [] => Ok tt
  | a :: scheduled =>
      _ ← check match last_core with Some c => bool_decide (c < Scheduler.core a)%nat | None => true end
            ScheduledOutOfOrder;
      check_in_order (Some (Scheduler.core a)) scheduled
  end.

(** The backers, by their index among all validators; both look-ups panic out
    of range. *)
Definition note_backer (group_vals : list ValidatorIndex)
    (acc : list (ValidatorIndex * Attestation) * list bool) (vote : nat * Attestation) :
    option (list (ValidatorIndex * Attestation) * list bool) :=
  val_idx ← group_vals !! vote.1;
  if decide (val_idx < length acc.2)%nat
  then Some (acc.1 ++ [(val_idx, vote.2)], <[val_idx := true]> acc.2)
  else None.

(** What is kept of a candidate that passed the checks. *)
Record Accepted := mkAccepted {
  acc_core : Scheduler.CoreIndex;
  acc_group : Scheduler.GroupIndex;
  acc_backers : list bool;
  acc_receipt : Receipt;
  acc_attestations : list (ValidatorIndex * Attestation);
}.

(** The checks of a candidate against its assignment. *)
Definition check_assignment env (parent_hash : Hash)
    (group_validators : Scheduler.GroupIndex → option (list ValidatorIndex)) (backed : Backed) (a : Assignment)
    (s : State) : option (result Error Accepted) :=
  let para := para_id (descriptor (candidate backed)) in
  let validators := ParasPallet.active_validator_keys env in
  let checked :=
    _ ← check match Scheduler.required_collator a with
              | Some c => bool_decide (c = collator (descriptor (candidate backed)))
              | None => true
              end WrongCollator;
    _ ← check (negb (contains_key para (PendingAvailability s)) &&
               negb (contains_key para (PendingAvailabilityCommitments s))) CandidateScheduledBeforeParaFree;
    group_vals ← ok_or (group_validators (Scheduler.group_idx a)) InvalidGroupIndex;
    amount_validated ← map_err (λ _, InvalidBacking)
      (check_candidate_backing backed (mkContext (ParasPallet.session_index env) parent_hash)
         (length group_vals) (λ i, vi ← group_vals !! i; validators !! vi));
    _ ← check (bool_decide (minimum_backing_votes (length group_vals) ≤ amount_validated)%nat)
          InsufficientBacking;
    Ok group_vals in
  match checked with
  | Err e => Some (Err e)
  | Ok group_vals =>
      '(attestations, backers_) ← try_fold (note_backer group_vals) (votes backed)
                                   ([], replicate (length validators) false);
      Some (Ok (mkAccepted (Scheduler.core a) (Scheduler.group_idx a) backers_
                  (to_plain (candidate backed)) attestations))
  end.

(** The outer loop, over the candidates that are left, with the part of the
    schedule that is left and the core before it. *)
Fixpoint check_candidates env (parent_hash parent_storage_root : Hash)
    (group_validators : Scheduler.GroupIndex → option (list ValidatorIndex)) (w : World)
    (candidates : list Backed) (last_core : option Scheduler.CoreIndex) (scheduled : list Assignment) :
    option (result Stop (list Accepted)) :=
  match candidates with
  | [] => Some (map_err Failed (_ ← check_in_order last_core scheduled; Ok []))
  | backed :: candidates =>
      match verify_backed_candidate env parent_hash parent_storage_root backed w with
      | Err e => Some (Err e)
      | Ok _ =>
          match find_assignment (para_id (descriptor (candidate backed))) last_core scheduled with
          | Err e => Some (Err (Failed e))
          | Ok (a, rest) =>
              r ← check_assignment env parent_hash group_validators backed a (inclusion w);
              match r with
              | Err e => Some (Err (Failed e))
              | Ok acc =>
                  r ← check_candidates env parent_hash parent_storage_root group_validators w candidates
                        (Some (Scheduler.core a)) rest;
                  Some (l ← r; Ok (acc :: l))
              end
          end
      end
  end.

(** The writes for a candidate. *)
Definition note_backed env (w : World) (x : Backed * Accepted) : World :=
  let '(backed, acc) := x in
  let d := descriptor (candidate backed) in
  let c := commitments (candidate backed) in
  let para := para_id d in
  let votes_ := replicate (length (ParasPallet.active_validator_keys env)) false in
  let w := on_inclusion (deposit_event (CandidateBacked (to_plain (candidate backed)) (head_data c)
                                          (acc_core acc) (acc_group acc))) w in
  let w := on_inclusion (set_pending (insert para
             (mkPending (acc_core acc) (candidate_hash (candidate backed)) d votes_ (acc_backers acc)
                (u32_sub (ParasPallet.block_number env) 1) (ParasPallet.block_number env) (acc_group acc)))) w in
  on_inclusion (set_commitments (insert para c)) w.

Definition process_candidates env (parent_hash parent_storage_root : Hash) (candidates : list Backed)
    (scheduled : list Assignment) (group_validators : Scheduler.GroupIndex → option (list ValidatorIndex))
    (w : World) : option (result Error ProcessedCandidates * World) :=
  if decide (length scheduled < length candidates)%nat then Some (Err UnscheduledCandidate, w)
  else if decide (scheduled = []) then Some (Ok (mkProcessed [] []), w)
  else
    r ← check_candidates env parent_hash parent_storage_root group_validators w candidates None scheduled;
    match r with
    | Err FailedToCreatePVD => Some (Ok (mkProcessed [] []), w)
    | Err (Failed e) => Some (Err e, w)
    | Ok accepted =>
        Some (Ok (mkProcessed (acc_core <$> accepted)
                    ((λ a, (acc_receipt a, acc_attestations a)) <$> accepted)),
              foldl (note_backed env) w (zip candidates accepted))
    end.

(** ** Clean-up *)

#[local] Abbreviation PendingIter := (StorageIter ParaId CandidatePendingAvailability).

Definition drop_pending (announce : bool) (w : World) (para : ParaId) : World :=
  let pending := PendingAvailability (inclusion w) !! para in
  let w := on_inclusion (set_pending (delete para)) w in
  let commitments_ := PendingAvailabilityCommitments (inclusion w) !! para in
  let w := on_inclusion (set_commitments (delete para)) w in
  match announce, pending, commitments_ with
  | true, Some c, Some cm =>
      on_inclusion (deposit_event (CandidateTimedOut
        (mkReceipt (pending_descriptor c) (hash_commitments cm)) (head_data cm) (core c))) w
  | _, _, _ => w
  end.

Definition collect_pending `{!PendingIter} (pred : Scheduler.CoreIndex → BlockNumber → bool) (w : World) :
    list Scheduler.CoreIndex * World :=
  let cleaned_up := filter (λ x, pred (core x.2) (backed_in_number x.2) = true)
                      (storage_iter (PendingAvailability (inclusion w))) in
  ((λ x, core x.2) <$> cleaned_up, foldl (drop_pending true) w cleaned_up.*1).

Definition collect_disputed `{!PendingIter} (disputed : gset CandidateHash) (w : World) :
    list Scheduler.CoreIndex * World :=
  let cleaned_up := filter (λ x, hash x.2 ∈ disputed) (storage_iter (PendingAvailability (inclusion w))) in
  ((λ x, core x.2) <$> cleaned_up, foldl (drop_pending false) w cleaned_up.*1).

Definition force_enact env (para : ParaId) (w : World) : World :=
  let pending := PendingAvailability (inclusion w) !! para in
  let w := on_inclusion (set_pending (delete para)) w in
  let commitments_ := PendingAvailabilityCommitments (inclusion w) !! para in
  let w := on_inclusion (set_commitments (delete para)) w in
  match pending, commitments_ with
  | Some c, Some cm =>
      enact_candidate env (relay_parent_number c) (mkCommitted (pending_descriptor c) cm) (backers c)
        (availability_votes c) (core c) (backing_group c) w
  | _, _ => w
  end.

Definition candidate_pending_availability (para : ParaId) (s : State) : option Committed :=
  p ← PendingAvailability s !! para;
  c ← PendingAvailabilityCommitments s !! para;
  Some (mkCommitted (pending_descriptor p) c).
End Pallet.
End Inclusion.
