(* ===== verification/InclusionBacking.v ===== *)
(** * Backing of candidates

    What [process_candidates] of [Inclusion] checks before it writes: it never
    panics, writes nothing when it fails, and records exactly candidates that
    are scheduled, meet the acceptance criteria, and are signed by enough
    members of their group.  The invariant of the pending candidates and its
    preservation by every operation of the pallet. *)

From S2P Require Import Prelude.
From S2P Require Import Vectors.
From S2P Require Import Frame.
From S2P Require Import Configuration.
From S2P Require Import Dmp.
From S2P Require Import Ump.
From S2P Require Import Hrmp.
From S2P Require Import Scheduler.
From S2P Require Import ParasPallet.
From S2P Require Import Candidates.
From S2P Require Import Inclusion.

Module InclusionBacking.
Import Candidates Inclusion.

Lemma check_ok {E A} b (e : E) (k : unit → result E A) r :
  (check b e ≫= k) = Ok r ↔ b = true ∧ k tt = Ok r.
Proof. unfold check. destruct b; cbn; naive_solver. Qed.

Lemma bind_ok {E A B} (m : result E A) (k : A → result E B) r :
  (m ≫= k) = Ok r ↔ ∃ a, m = Ok a ∧ k a = Ok r.
Proof. destruct m; cbn; naive_solver. Qed.

Lemma ok_or_ok {E A} (o : option A) (e : E) a : ok_or o e = Ok a ↔ o = Some a.
Proof. destruct o; cbn; naive_solver. Qed.

Lemma map_err_ok {E F A} (f : E → F) (r : result E A) a : map_err f r = Ok a ↔ r = Ok a.
Proof. destruct r; cbn; naive_solver. Qed.

(** Takes apart a chain of checks that succeeded. *)
Ltac checks H :=
  repeat first
    [ apply check_ok in H as [? H]
    | apply bind_ok in H as (? & ? & H)
    | apply map_err_ok in H ];
  repeat match goal with Hx : map_err _ _ = Ok _ |- _ => apply map_err_ok in Hx end.

Section Backing.
Context {CollatorId CollatorSignature ValidatorId ValidatorSignature H : Type}
  `{!EqDecision CollatorId}
  `{!Blake2 CollatorId CollatorSignature}
  `{!Signatures CollatorId CollatorSignature ValidatorId ValidatorSignature}
  `{!MessageHash H}.
#[local] Abbreviation Backed := (BackedCandidate CollatorId CollatorSignature ValidatorSignature).
#[local] Abbreviation Assignment := (Scheduler.CoreAssignment (CollatorId := CollatorId)).
#[local] Abbreviation World := (World (CollatorId := CollatorId) (CollatorSignature := CollatorSignature) (H := H)).
#[local] Abbreviation State := (State (CollatorId := CollatorId) (CollatorSignature := CollatorSignature)).
#[local] Abbreviation Accepted :=
  (Accepted (CollatorId := CollatorId) (CollatorSignature := CollatorSignature)
     (ValidatorSignature := ValidatorSignature)).
Implicit Types (env : ParasPallet.Env ValidatorId) (w : World) (backed : Backed) (a : Assignment).
Implicit Types (gv : Scheduler.GroupIndex → option (list ValidatorIndex)).

#[local] Abbreviation para_of backed := (para_id (descriptor (candidate backed))).

(** ** The order of the schedule *)

(** The cores after [last] come in ascending order. *)
Fixpoint ascending (last : option Scheduler.CoreIndex) (l : list Assignment) : Prop :=
  match l with
  | [] => True
  | a :: l => match last with Some c => (c < Scheduler.core a)%nat | None => True end ∧
              ascending (Some (Scheduler.core a)) l
  end.

Lemma check_in_order_ok last l : check_in_order last l = Ok tt ↔ ascending last l.
Proof.
  revert last. induction l as [|a l IH]; intros last; cbn [check_in_order ascending]; [done|].
  rewrite check_ok, IH. destruct last; [by rewrite bool_decide_eq_true|tauto].
Qed.

Lemma find_assignment_ok para last l a rest :
  find_assignment para last l = Ok (a, rest) →
  ∃ skipped, l = skipped ++ a :: rest ∧ para = Scheduler.para_id a ∧
    (ascending (Some (Scheduler.core a)) rest → ascending last l).
Proof.
  revert last. induction l as [|b l IH]; intros last; cbn [find_assignment]; [done|].
  intros [Hb Hf]%check_ok.
  assert (match last with Some c => (c < Scheduler.core b)%nat | None => True end) as Hlast.
  { destruct last; [by apply bool_decide_eq_true in Hb|done]. }
  case_decide as Hp.
  - injection Hf as -> ->. exists []. split_and!; [done|done|]. cbn [ascending]. tauto.
  - apply IH in Hf as (sk & -> & -> & Hasc). exists (b :: sk). split_and!; [done|done|].
    cbn [ascending app]. intros Hr. split; [done|]. by apply Hasc.
Qed.

Lemma ascending_sorted last l :
  ascending last l → StronglySorted lt (Scheduler.core <$> l) ∧
  match last with Some c => Forall (λ a, c < Scheduler.core a)%nat l | None => True end.
Proof.
  revert last. induction l as [|a l IH]; intros last; cbn.
  { intros _. split; [constructor|]. destruct last; [constructor|done]. }
  intros [Hl [Hs Hf]%IH]. split.
  - constructor; [done|]. by apply Forall_fmap.
  - destruct last as [c|]; [|done]. constructor; [done|].
    eapply Forall_impl; [exact Hf|]. cbn. intros; lia.
Qed.

(** ** One candidate *)

(** The members of the group, by position in it, that signed for the candidate. *)
Definition signed_for env (parent_hash : Hash) (group : list ValidatorIndex) backed (i : nat) : Prop :=
  ∃ v key att, group !! i = Some v ∧ ParasPallet.active_validator_keys env !! v = Some key ∧
    (i, att) ∈ votes backed ∧
    validator_verify (attestation_signature att)
      (signed_payload att (candidate_hash (candidate backed))
         (mkContext (ParasPallet.session_index env) parent_hash)) key = true.

(** The part of [check_assignment] before the backers are noted. *)
Definition assigned env (parent_hash : Hash) gv backed a (s : State) (group : list ValidatorIndex) : Prop :=
  (∀ c, Scheduler.required_collator a = Some c → c = collator (descriptor (candidate backed))) ∧
  PendingAvailability s !! para_of backed = None ∧
  PendingAvailabilityCommitments s !! para_of backed = None ∧
  gv (Scheduler.group_idx a) = Some group ∧
  length (validator_indices backed) = length group ∧
  (minimum_backing_votes (length group) ≤ length (votes backed))%nat ∧
  ∀ i att, (i, att) ∈ votes backed → ∃ v key, group !! i = Some v ∧
    ParasPallet.active_validator_keys env !! v = Some key ∧
    validator_verify (attestation_signature att)
      (signed_payload att (candidate_hash (candidate backed))
         (mkContext (ParasPallet.session_index env) parent_hash)) key = true.

Lemma note_backers_total group (l : list (nat * ValidityAttestation ValidatorSignature)) n bits :
  length bits = n →
  (∀ i att, (i, att) ∈ l → ∃ v, group !! i = Some v ∧ (v < n)%nat) →
  ∀ atts, ∃ acc, try_fold (note_backer group) l (atts, bits) = Some acc ∧ length acc.2 = n.
Proof.
  intros Hb Hl atts. apply (try_fold_ind (λ acc, length acc.2 = n)); [done|].
  intros [as_ bs] [i att] Hin Hn. cbn in Hn. destruct (Hl i att Hin) as (v & Hv & Hlt).
  unfold note_backer. cbn. rewrite Hv. cbn. rewrite decide_True by lia.
  eexists. split; [done|]. cbn. by rewrite length_insert.
Qed.

Lemma check_assignment_cases env ph gv backed a s :
  (∃ e, check_assignment env ph gv backed a s = Some (Err e)) ∨
  ∃ group acc, assigned env ph gv backed a s group ∧
    check_assignment env ph gv backed a s = Some (Ok acc) ∧
    acc_core acc = Scheduler.core a ∧ acc_group acc = Scheduler.group_idx a ∧
    acc_receipt acc = to_plain (candidate backed) ∧
    length (acc_backers acc) = length (ParasPallet.active_validator_keys env).
Proof.
  unfold check_assignment. cbv zeta. match goal with |- context [match ?m with _ => _ end] =>
    destruct m as [group|e] eqn:E end; [|left; eauto].
  right. checks E. injection E as ->.
  match goal with Hc : ok_or _ _ = Ok _ |- _ => apply ok_or_ok in Hc; rename Hc into Hg end.
  match goal with Hc : check_candidate_backing _ _ _ _ = Ok _ |- _ =>
    apply check_candidate_backing_ok in Hc as (Hlen & -> & Hv & Hsig) end.
  rewrite andb_true_iff, !negb_true_iff, !contains_key_false in *. rewrite bool_decide_eq_true in *.
  assert (assigned env ph gv backed a s group) as Ha.
  { split_and!; try tauto.
    - intros c Hc. rewrite Hc in *. by eapply bool_decide_eq_true_1.
    - by rewrite Hv.
    - intros i att Hi. destruct (Hsig i att Hi) as (key & Hkey & Hver).
      destruct (group !! i) as [v|]; [|done]. cbn in Hkey. eauto. }
  destruct (note_backers_total group (votes backed) (length (ParasPallet.active_validator_keys env))
    (replicate (length (ParasPallet.active_validator_keys env)) false) (length_replicate _ _)) with (atts := @nil (ValidatorIndex * ValidityAttestation ValidatorSignature)) as ([atts bits] & Hacc & Hbits).
  { intros i att Hi. destruct Ha as (_ & _ & _ & _ & _ & _ & Hs).
    destruct (Hs i att Hi) as (v & key & Hgv & Hkey & _). exists v. split; [done|]. by eapply lookup_lt_Some. }
  exists group. eexists. rewrite Hacc. cbn. split_and!; done.
Qed.

(** What a candidate of a successful call has. *)
Definition accepted_for env (ph root : Hash) gv w backed a (acc : Accepted) : Prop :=
  verify_backed_candidate env ph root backed w = Ok tt ∧
  para_of backed = Scheduler.para_id a ∧
  (∃ group, assigned env ph gv backed a (inclusion w) group) ∧
  acc_core acc = Scheduler.core a ∧ acc_group acc = Scheduler.group_idx a ∧
  acc_receipt acc = to_plain (candidate backed) ∧
  length (acc_backers acc) = length (ParasPallet.active_validator_keys env).

(** ** The candidates *)

Lemma check_candidates_cases env ph root gv w candidates last scheduled :
  (∃ e, check_candidates env ph root gv w candidates last scheduled = Some (Err e)) ∨
  ∃ as_ accs, check_candidates env ph root gv w candidates last scheduled = Some (Ok accs) ∧
    as_ `sublist_of` scheduled ∧ ascending last scheduled ∧
    Forall3 (accepted_for env ph root gv w) candidates as_ accs.
Proof.
  revert last scheduled. induction candidates as [|backed candidates IH]; intros last scheduled.
  { cbn. destruct (check_in_order last scheduled) as [[]|e] eqn:E; cbn; [right|left; eauto].
    apply check_in_order_ok in E. exists [], []. split_and!; [done|apply sublist_nil_l|done|constructor]. }
  cbn [check_candidates].
  destruct (verify_backed_candidate _ _ _ _ _) as [[]|e] eqn:Ev; [|left; eauto].
  destruct (find_assignment _ _ _) as [[a rest]|e] eqn:Ef; [|left; eauto].
  apply find_assignment_ok in Ef as (skipped & -> & Hp & Hasc).
  destruct (check_assignment_cases env ph gv backed a (inclusion w)) as [[e ->]|(group & acc & Ha & -> & Hacc)];
    [left; cbn; eauto|]. cbn.
  destruct (IH (Some (Scheduler.core a)) rest) as [[e ->]|(as_ & accs & -> & Hsub & Hrest & Hall)];
    [left; cbn; eauto|]. cbn. right. exists (a :: as_), (acc :: accs).
  split_and!; [done| |by apply Hasc|].
  - apply sublist_inserts_l. by apply sublist_skip.
  - constructor; [|done]. split_and!; [done|done|by exists group|apply Hacc..].
Qed.

(** ** The result of the call *)

Lemma process_candidates_cases env ph root (candidates : list Backed) scheduled gv w :
  (∃ e, process_candidates env ph root candidates scheduled gv w = Some (Err e, w)) ∨
  process_candidates env ph root candidates scheduled gv w = Some (Ok (mkProcessed [] []), w) ∨
  ∃ as_ accs,
    process_candidates env ph root candidates scheduled gv w =
      Some (Ok (mkProcessed (acc_core <$> accs) ((λ x, (acc_receipt x, acc_attestations x)) <$> accs)),
            foldl (note_backed env) w (zip candidates accs)) ∧
    as_ `sublist_of` scheduled ∧ ascending None scheduled ∧
    Forall3 (accepted_for env ph root gv w) candidates as_ accs.
Proof.
  unfold process_candidates. case_decide; [left; eauto|]. case_decide; [right; left; done|].
  destruct (check_candidates_cases env ph root gv w candidates None scheduled)
    as [[[|e] ->]|(as_ & accs & -> & Hrest)]; cbn; eauto 10.
Qed.

(** The pending candidate that is written for an accepted one. *)
Definition pending_of env backed (acc : Accepted) : CandidatePendingAvailability :=
  mkPending (acc_core acc) (candidate_hash (candidate backed)) (descriptor (candidate backed))
    (replicate (length (ParasPallet.active_validator_keys env)) false) (acc_backers acc)
    (u32_sub (ParasPallet.block_number env) 1) (ParasPallet.block_number env) (acc_group acc).

Lemma note_all_pending env (l : list (Backed * Accepted)) w p :
  p ∉ (λ x, para_of x.1) <$> l →
  PendingAvailability (inclusion (foldl (note_backed env) w l)) !! p = PendingAvailability (inclusion w) !! p ∧
  PendingAvailabilityCommitments (inclusion (foldl (note_backed env) w l)) !! p =
    PendingAvailabilityCommitments (inclusion w) !! p.
Proof.
  revert w. induction l as [|[backed acc] l IH]; intros w Hp; [done|].
  cbn in Hp. apply not_elem_of_cons in Hp as [Hne Hp]. cbn [foldl].
  destruct (IH (note_backed env w (backed, acc)) Hp) as [-> ->]. cbn.
  by rewrite !lookup_insert_ne by done.
Qed.

Lemma note_all_noted env (l : list (Backed * Accepted)) w backed acc :
  NoDup ((λ x, para_of x.1) <$> l) → (backed, acc) ∈ l →
  PendingAvailability (inclusion (foldl (note_backed env) w l)) !! para_of backed =
    Some (pending_of env backed acc) ∧
  PendingAvailabilityCommitments (inclusion (foldl (note_backed env) w l)) !! para_of backed =
    Some (commitments (candidate backed)).
Proof.
  revert w. induction l as [|[b x] l IH]; intros w Hnd Hin; [by apply elem_of_nil in Hin|].
  cbn in Hnd. apply NoDup_cons in Hnd as [Hb Hnd]. cbn [foldl].
  apply elem_of_cons in Hin as [[= -> ->]|Hin]; [|by apply IH].
  destruct (note_all_pending env l (note_backed env w (b, x)) _ Hb) as [-> ->].
  cbn. by rewrite !lookup_insert_eq.
Qed.

(** Commitments are the old ones or those of a candidate. *)
Lemma note_all_commitments env (l : list (Backed * Accepted)) w p cm :
  PendingAvailabilityCommitments (inclusion (foldl (note_backed env) w l)) !! p = Some cm →
  PendingAvailabilityCommitments (inclusion w) !! p = Some cm ∨
  ∃ backed acc, (backed, acc) ∈ l ∧ para_of backed = p ∧ cm = commitments (candidate backed).
Proof.
  revert w. induction l as [|[b x] l IH]; intros w; cbn [foldl]; [by left|].
  intros [Hcm|(b' & x' & Hin & Hrest)]%IH; [|right; exists b', x'; split; [by right|done]].
  cbn in Hcm. destruct (decide (para_of b = p)) as [<-|Hne].
  - rewrite lookup_insert_eq in Hcm. simplify_eq. right. exists b, x. split; [left|done].
  - rewrite lookup_insert_ne in Hcm by done. by left.
Qed.

(** The other pallets are left alone. *)
Lemma note_all_frame env (l : list (Backed * Accepted)) w :
  let w' := foldl (note_backed env) w l in
  paras w' = paras w ∧ dmp w' = dmp w ∧ ump w' = ump w ∧ hrmp w' = hrmp w ∧ rewards w' = rewards w ∧
  AvailabilityBitfields (inclusion w') = AvailabilityBitfields (inclusion w).
Proof.
  revert w. induction l as [|[b x] l IH]; intros w; [done|]. cbn [foldl].
  destruct (IH (note_backed env w (b, x))) as (-> & -> & -> & -> & -> & ->). done.
Qed.

Lemma Forall3_paras env ph root gv w (candidates : list Backed) as_ accs :
  Forall3 (accepted_for env ph root gv w) candidates as_ accs →
  (λ x, para_of x.1) <$> zip candidates accs = Scheduler.para_id <$> as_ ∧
  acc_core <$> accs = Scheduler.core <$> as_ ∧ length accs = length candidates.
Proof.
  induction 1 as [|b a x ??? (_ & Hp & _ & Hc & _) _ (IH1 & IH2 & IH3)]; [done|].
  cbn. rewrite IH1, IH2, Hp, Hc, IH3. done.
Qed.

(** ** What backing means *)

(** The descriptor names the parent block, the validation data and the code of
    the para as they stand, the collator has signed it, and the outputs meet the
    acceptance criteria. *)
Definition verified env (ph root : Hash) w backed : Prop :=
  let d := descriptor (candidate backed) in
  let c := commitments (candidate backed) in
  let parent := u32_sub (ParasPallet.block_number env) 1 in
  relay_parent d = ph ∧
  (∃ head, ParasPallet.Heads (paras w) !! para_id d = Some head ∧
     persisted_validation_data_hash d =
       hash_pvd (mkPvd head parent root (Configuration.max_pov_size (ParasPallet.config env)))) ∧
  check_collator_signature d = Ok tt ∧
  ParasPallet.CurrentCodeHash (paras w) !! para_id d = Some (validation_code_hash d) ∧
  para_head d = hash_head (head_data c) ∧
  check_validation_outputs (ParasPallet.config env) parent (para_id d) c w = Ok tt.

Lemma verify_verified env ph root w backed :
  verify_backed_candidate env ph root backed w = Ok tt ↔ verified env ph root w backed.
Proof.
  unfold verify_backed_candidate, verified. cbv zeta.
  unfold make_persisted_validation_data.
  destruct (ParasPallet.Heads _ !! _) as [head|]; cbn [mbind option_bind ok_or result_bind]; [|naive_solver].
  rewrite !check_ok, !bool_decide_eq_true.
  destruct (ParasPallet.CurrentCodeHash _ !! _) as [h|]; cbn [mbind result_bind ok_or]; [|naive_solver].
  rewrite !check_ok, map_err_ok, !bool_decide_eq_true.
  destruct (check_collator_signature _) as [[]|[]]; cbn [is_ok]; [|naive_solver].
  split.
  - intros (? & ? & _ & ? & ? & ?). split_and!; eauto; congruence.
  - intros (? & (? & ? & ?) & _ & ? & ? & ?). simplify_eq. eauto 10.
Qed.

(** A candidate on an assignment that is for it. *)
Definition properly_backed env (ph root : Hash) gv w backed a : Prop :=
  verified env ph root w backed ∧
  Scheduler.para_id a = para_of backed ∧
  (∀ c, Scheduler.required_collator a = Some c → c = collator (descriptor (candidate backed))) ∧
  PendingAvailability (inclusion w) !! para_of backed = None ∧
  ∃ group signers, gv (Scheduler.group_idx a) = Some group ∧ NoDup signers ∧
    (length group `min` 2 ≤ length signers)%nat ∧ Forall (signed_for env ph group backed) signers.

(** What the storage has of a candidate that was just backed. *)
Definition newly_pending env backed a w : Prop :=
  PendingAvailabilityCommitments (inclusion w) !! para_of backed = Some (commitments (candidate backed)) ∧
  ∃ c, PendingAvailability (inclusion w) !! para_of backed = Some c ∧
    core c = Scheduler.core a ∧ backing_group c = Scheduler.group_idx a ∧
    hash c = candidate_hash (candidate backed) ∧ pending_descriptor c = descriptor (candidate backed) ∧
    set_bits (availability_votes c) = [] ∧ backed_in_number c = ParasPallet.block_number env.

Lemma accepted_properly env ph root gv w backed a acc :
  accepted_for env ph root gv w backed a acc → properly_backed env ph root gv w backed a.
Proof.
  intros (Hv & Hp & (group & Hcol & Hnone & _ & Hg & Hlen & Hmin & Hs) & _).
  split_and!; [by apply verify_verified|done|done|done|].
  exists group, (votes backed).*1. split_and!; [done|apply votes_NoDup| |].
  - by rewrite length_fmap.
  - apply Forall_fmap, Forall_forall. intros [i att] Hi. destruct (Hs i att Hi) as (v & key & Hgv & Hkey & Hver).
    exists v, key, att. done.
Qed.

Lemma set_bits_replicate n : set_bits (replicate n false) = [].
Proof.
  destruct (set_bits (replicate n false)) as [|i l] eqn:E; [done|].
  assert (i ∈ set_bits (replicate n false)) as Hi%elem_of_set_bits by (rewrite E; set_solver).
  by apply lookup_replicate in Hi as [? _].
Qed.

Lemma accepted_newly env ph root gv w (candidates : list Backed) as_ accs :
  Forall3 (accepted_for env ph root gv w) candidates as_ accs →
  NoDup (Scheduler.para_id <$> as_) →
  Forall2 (λ backed a, newly_pending env backed a (foldl (note_backed env) w (zip candidates accs))) candidates as_.
Proof.
  intros Hall Hnd. pose proof (Forall3_paras _ _ _ _ _ _ _ _ Hall) as (Hps & _ & _).
  rewrite <-Hps in Hnd.
  assert (Forall3 (λ b a x, accepted_for env ph root gv w b a x ∧ (b, x) ∈ zip candidates accs)
    candidates as_ accs) as Hin.
  { clear -Hall. induction Hall as [|b a x ??? Ha _ IH]; [constructor|]. cbn. constructor; [split; [done|left]|].
    eapply Forall3_impl; [exact IH|]. cbn. intros ??? [? ?]. split; [done|]. by right. }
  revert Hin. generalize (zip candidates accs) as l, Hnd. clear -CollatorId. intros l Hnd Hin.
  induction Hin as [|b a x ??? [Ha Hx] _ IH]; [constructor|]. constructor; [|done].
  destruct (note_all_noted env l w b x Hnd Hx) as [Hpend Hcom]. split; [done|].
  destruct Ha as (_ & _ & _ & Hc & Hg & _ & _).
  eexists. split; [exact Hpend|]. cbn. split_and!; try done. apply set_bits_replicate.
Qed.

(** C5. Backing is sound: [process_candidates] never panics and leaves
    everything as it is when it fails.  When it accepts candidates, the schedule
    is in ascending order of cores, and the candidates stand, in order, on
    assignments of it: each is verified against the state, is for the para and
    by the collator of its assignment, has no predecessor that waits, and
    carries valid signatures of at least two different members of the assigned
    group, or of all when there are fewer.  The returned cores are those of the
    assignments, and with one assignment per para each candidate is stored as
    pending with no availability votes. *)
Theorem backing_sound env ph root (candidates : list Backed) (scheduled : list Assignment) gv w :
  ∃ r w', process_candidates env ph root candidates scheduled gv w = Some (r, w') ∧
    match r with
    | Err _ => w' = w
    | Ok out =>
        out = mkProcessed [] [] ∧ w' = w ∨
        ∃ as_, as_ `sublist_of` scheduled ∧ StronglySorted lt (Scheduler.core <$> scheduled) ∧
          core_indices out = Scheduler.core <$> as_ ∧
          Forall2 (properly_backed env ph root gv w) candidates as_ ∧
          (NoDup (Scheduler.para_id <$> scheduled) →
           Forall2 (λ backed a, newly_pending env backed a w') candidates as_)
    end.
Proof.
  destruct (process_candidates_cases env ph root candidates scheduled gv w)
    as [[e ->]|[->|(as_ & accs & -> & Hsub & Hasc & Hall)]]; eexists _, _; (split; [done|]);
    [done|by left|right].
  exists as_. cbn.
  pose proof (Forall3_paras _ _ _ _ _ _ _ _ Hall) as (Hps & Hcs & _).
  split_and!; [done|by apply ascending_sorted in Hasc as [? _]|done| |].
  - clear -Hall. induction Hall as [|b a x ??? Ha _ IH]; [constructor|]. constructor; [|done].
    by eapply accepted_properly.
  - intros Hnd. apply accepted_newly with (ph := ph) (root := root) (gv := gv); [done|].
    eapply submseteq_NoDup; [|exact Hnd]. by apply fmap_submseteq, sublist_submseteq.
Qed.
End Backing.
End InclusionBacking.
