(* ===== verification/InclusionAvailability.v ===== *)
(** * Availability of candidates

    What the bitfields of validators do to the pending candidates of
    [Inclusion]: [update_pending_availability_and_get_freed_cores] includes
    exactly the candidates whose votes reach the threshold.  The invariant of
    the pending candidates, kept by every operation of the pallet, and where
    the threshold cannot be met. *)

From S2P Require Import Prelude.
From S2P Require Import Vectors.
From S2P Require Import Frame.
From S2P Require Import Configuration.
From S2P Require Import Dmp.
From S2P Require Import Ump.
From S2P Require Import Hrmp.
From S2P Require Import Scheduler.
From S2P Require Import ParasPallet.
From S2P Require Import Candidates.
From S2P Require Import Inclusion.
From S2P Require Import InclusionBacking.

Module InclusionAvailability.
Import Candidates Inclusion InclusionBacking.

Section Availability.
Context {CollatorId CollatorSignature ValidatorId ValidatorSignature H : Type}
  `{!EqDecision CollatorId}
  `{!Blake2 CollatorId CollatorSignature}
  `{!Signatures CollatorId CollatorSignature ValidatorId ValidatorSignature}
  `{!MessageHash H}
  (code_hash_of : ValidationCode → Hash).
#[local] Abbreviation Bitfield := (UncheckedSigned ValidatorSignature).
#[local] Abbreviation World := (World (CollatorId := CollatorId) (CollatorSignature := CollatorSignature) (H := H)).
#[local] Abbreviation State := (State (CollatorId := CollatorId) (CollatorSignature := CollatorSignature)).
#[local] Abbreviation Pending :=
  (CandidatePendingAvailability (CollatorId := CollatorId) (CollatorSignature := CollatorSignature)).
#[local] Abbreviation Slot := (option (ParaId * option Pending)).
Implicit Types (env : ParasPallet.Env ValidatorId) (w : World) (bfs : list Bitfield) (c : Pending).

(** ** The votes on a core *)

Definition with_votes (votes_ : list bool) c : Pending :=
  mkPending (core c) (hash c) (pending_descriptor c) votes_ (backers c) (relay_parent_number c)
    (backed_in_number c) (backing_group c).

(** The votes once the bits of the bitfields for core [i] are added. *)
Definition tally bfs (i : nat) (votes_ : list bool) : list bool :=
  foldl (λ vs b, if decide (payload b !! i = Some true) then <[validator_index b := true]> vs else vs) votes_ bfs.

Lemma length_tally bfs i votes_ : length (tally bfs i votes_) = length votes_.
Proof.
  unfold tally. revert votes_. induction bfs as [|b bfs IH]; intros vs; [done|]. cbn. rewrite IH.
  case_decide; [apply length_insert|done].
Qed.

Lemma tally_true bfs i votes_ v :
  tally bfs i votes_ !! v = Some true ↔
  votes_ !! v = Some true ∨
  (v < length votes_)%nat ∧ ∃ b, b ∈ bfs ∧ validator_index b = v ∧ payload b !! i = Some true.
Proof.
  unfold tally. revert votes_. induction bfs as [|b bfs IH]; intros vs; cbn.
  { split; [by left|]. intros [?|(_ & b & Hb & _)]; [done|]. by apply elem_of_nil in Hb. }
  rewrite IH. case_decide as Hb.
  - rewrite length_insert, list_lookup_insert_Some. split.
    + intros [[(<- & _ & ?)|[? ?]]|(? & b' & ? & ? & ?)]; [right|by left|right].
      * split; [done|]. exists b. set_solver.
      * split; [done|]. exists b'. set_solver.
    + intros [Hv|(Hlt & b' & [->|Hin]%elem_of_cons & Hv & Hp)].
      * destruct (decide (validator_index b = v)) as [<-|Hne]; left; [left|by right].
        split_and!; [done|done|]. by eapply lookup_lt_Some.
      * left. left. by rewrite Hv.
      * right. eauto.
  - split.
    + intros [?|(? & b' & ? & ? & ?)]; [by left|right]. split; [done|]. exists b'. set_solver.
    + intros [?|(Hlt & b' & [->|Hin]%elem_of_cons & Hv & Hp)]; [by left|done|right; eauto].
Qed.

Definition mark_slot bfs (i : nat) (slot : Slot) : Slot :=
  match slot with
  | Some (p, Some c) => Some (p, Some (with_votes (tally bfs i (availability_votes c)) c))
  | _ => slot
  end.

Lemma mark_bits_spec v (bits : list nat) (slots : list Slot) :
  NoDup bits → (∀ i, i ∈ bits → (i < length slots)%nat) →
  ∃ slots', try_fold (mark_bit v) bits slots = Some slots' ∧ length slots' = length slots ∧
    ∀ i, slots' !! i = match slots !! i with
      | Some (Some (p, Some c)) => Some (Some (p, Some (if decide (i ∈ bits) then vote_available v c else c)))
      | o => o
      end.
Proof.
  revert slots. induction bits as [|j bits IH]; intros slots Hnd Hlt.
  { exists slots. split_and!; [done|done|]. intros i. cbn.
    by destruct (slots !! i) as [[[p [c|]]|]|]. }
  apply NoDup_cons in Hnd as [Hj Hnd]. cbn [try_fold].
  destruct (lookup_lt_is_Some_2 slots j) as [slot Hslot]; [apply Hlt; set_solver|].
  assert (∃ slots1, mark_bit v slots j = Some slots1 ∧ length slots1 = length slots ∧
    ∀ i, slots1 !! i = match slots !! i with
      | Some (Some (p, Some c)) => Some (Some (p, Some (if decide (i = j) then vote_available v c else c)))
      | o => o
      end) as (slots1 & -> & Hlen & Hl1).
  { unfold mark_bit. rewrite Hslot. cbn. destruct slot as [[p [c|]]|]; eexists; (split_and!; [done|..]); try done.
    - apply length_insert.
    - intros i. destruct (decide (i = j)) as [->|Hne].
      + rewrite list_lookup_insert_eq, Hslot by (by eapply lookup_lt_Some). done.
      + rewrite list_lookup_insert_ne by done. by destruct (slots !! i) as [[[? [?|]]|]|].
    - intros i. destruct (slots !! i) as [[[q [d|]]|]|] eqn:E; try done. case_decide; [congruence|done].
    - intros i. destruct (slots !! i) as [[[q [d|]]|]|] eqn:E; try done. case_decide; [congruence|done]. }
  cbn. destruct (IH slots1 Hnd) as (slots' & Hs' & Hlen' & Hl').
  { intros i Hi. rewrite Hlen. apply Hlt. set_solver. }
  exists slots'. split_and!; [done|congruence|]. intros i. rewrite Hl', Hl1.
  destruct (slots !! i) as [[[q [d|]]|]|]; try done. do 4 f_equal.
  repeat case_decide; set_solver.
Qed.

Lemma record_bitfields_spec now bfs (slots : list Slot) (s : State) :
  Forall (λ b, length (payload b) = length slots) bfs →
  ∃ slots' s', try_fold (record_bitfield now) bfs (slots, s) = Some (slots', s') ∧
    slots' = imap (mark_slot bfs) slots ∧
    PendingAvailability s' = PendingAvailability s ∧
    PendingAvailabilityCommitments s' = PendingAvailabilityCommitments s ∧ events s' = events s.
Proof.
  revert slots s. induction bfs as [|b bfs IH]; intros slots s Hlen.
  { exists slots, s. split_and!; try done. apply list_eq. intros i. rewrite list_lookup_imap.
    by destruct (slots !! i) as [[[p [[]|]]|]|]. }
  apply Forall_cons in Hlen as [Hb Hlen].
  destruct (mark_bits_spec (validator_index b) (set_bits (payload b)) slots (NoDup_set_bits _))
    as (slots1 & Hs1 & Hl1 & Hlook). { intros i Hi%set_bits_lt. lia. }
  assert (record_bitfield now (slots, s) b =
    Some (slots1, set_bitfields (insert (validator_index b) (mkRecord (payload b) now)) s)) as Hrec.
  { unfold record_bitfield. cbn. by rewrite Hs1. }
  cbn [try_fold]. rewrite Hrec. cbn.
  destruct (IH slots1 (set_bitfields (insert (validator_index b) (mkRecord (payload b) now)) s))
    as (slots' & s' & -> & -> & Hp & Hc & He).
  { eapply Forall_impl; [exact Hlen|]. cbn. congruence. }
  eexists _, s'. split_and!; [done| |done|done|done].
  apply list_eq. intros i. rewrite !list_lookup_imap, Hlook.
  destruct (slots !! i) as [[[p [c|]]|]|]; try done. cbn. do 4 f_equal.
  destruct (decide (i ∈ set_bits (payload b))) as [Hi|Hi]; rewrite elem_of_set_bits in Hi;
    unfold tally, with_votes; cbn; by rewrite ?decide_True, ?decide_False by done.
Qed.

Lemma load_slots_spec n lookup (s : State) paras_ :
  mapM lookup (seq 0 n) = Some paras_ →
  load_slots n lookup s = Some (option_map (λ p, (p, PendingAvailability s !! p)) <$> paras_) ∧ length paras_ = n.
Proof.
  intros Hm. unfold load_slots. rewrite Hm. split; [done|].
  apply length_mapM in Hm. by rewrite length_seq in Hm.
Qed.

(** The candidates whose availability is decided, with their votes. *)
Lemma elem_of_waiting bfs (paras_ : list (option ParaId)) (s : State) (slots : list Slot) p c' :
  slots = imap (mark_slot bfs) (option_map (λ p, (p, PendingAvailability s !! p)) <$> paras_) →
  (p, c') ∈ waiting slots ↔
  ∃ i c, paras_ !! i = Some (Some p) ∧ PendingAvailability s !! p = Some c ∧
    c' = with_votes (tally bfs i (availability_votes c)) c.
Proof.
  intros ->. unfold waiting. rewrite list_elem_of_omap. split.
  - intros (slot & [i Hi]%list_elem_of_lookup & Hx). rewrite list_lookup_imap, list_lookup_fmap in Hi.
    destruct (paras_ !! i) as [[q|]|] eqn:E; cbn in Hi; simplify_eq.
    destruct (PendingAvailability s !! q) as [c|] eqn:Eq; cbn in *; simplify_eq. eauto 10.
  - intros (i & c & Hi & Hc & ->).
    exists (Some (p, Some (with_votes (tally bfs i (availability_votes c)) c))). split; [|done].
    apply list_elem_of_lookup. exists i. rewrite list_lookup_imap, list_lookup_fmap, Hi. cbn. by rewrite Hc.
Qed.

Lemma mark_slot_para bfs i (slot : Slot) : fst <$> mark_slot bfs i slot = fst <$> slot.
Proof. by destruct slot as [[p [c|]]|]. Qed.

Lemma waiting_paras bfs (paras_ : list (option ParaId)) (s : State) (slots : list Slot) :
  slots = imap (mark_slot bfs) (option_map (λ p, (p, PendingAvailability s !! p)) <$> paras_) →
  NoDup (omap id paras_) → NoDup (waiting slots).*1.
Proof.
  intros -> Hnd. eapply submseteq_NoDup; [|exact Hnd]. apply sublist_submseteq. clear Hnd.
  assert (∀ f : nat → Slot → Slot, (∀ i slot, fst <$> f i slot = fst <$> slot) →
    (waiting (imap f (option_map (λ p, (p, PendingAvailability s !! p)) <$> paras_))).*1
      `sublist_of` omap id paras_) as Hgen; [|apply Hgen, mark_slot_para].
  unfold waiting. intros f Hf.
  revert f Hf. induction paras_ as [|[q|] l IH]; intros f Hf; [done| |]; cbn [fmap list_fmap imap option_map].
  - cbn. pose proof (Hf 0%nat (Some (q, PendingAvailability s !! q))) as H0. cbn in H0.
    destruct (f 0%nat _) as [[p [c|]]|]; cbn in *; simplify_eq; [apply sublist_skip|apply sublist_cons];
      apply (IH (f ∘ S)); intros; apply Hf.
  - cbn. pose proof (Hf 0%nat None) as H0. destruct (f 0%nat None) as [[p [c|]]|]; cbn in *; try done.
    apply (IH (f ∘ S)); intros; apply Hf.
Qed.

(** ** Taking effect *)

Lemma schedule_upgrade_heads env id code rpn cfg (s : ParasPallet.State) :
  ParasPallet.Heads (ParasPallet.schedule_code_upgrade code_hash_of env id code rpn cfg s) = ParasPallet.Heads s.
Proof.
  unfold ParasPallet.schedule_code_upgrade, ParasPallet.kick_off_pvf_check, ParasPallet.increase_code_ref,
    ParasPallet.enact_pvf_accepted, ParasPallet.accept_cause, ParasPallet.proceed_with_upgrade. cbn.
  repeat case_match; done.
Qed.

Lemma note_new_head_heads env id head ctx (s : ParasPallet.State) :
  ParasPallet.Heads (ParasPallet.note_new_head env id head ctx s) = <[id := head]> (ParasPallet.Heads s).
Proof. unfold ParasPallet.note_new_head, ParasPallet.note_past_code. cbn. repeat case_match; done. Qed.

Lemma enact_spec env rpn receipt bs vs i g w :
  let w' := enact_candidate code_hash_of env rpn receipt bs vs i g w in
  inclusion w' = deposit_event (CandidateIncluded (to_plain receipt) (head_data (commitments receipt)) i g) (inclusion w) ∧
  ParasPallet.Heads (paras w') = <[para_id (descriptor receipt) := head_data (commitments receipt)]> (ParasPallet.Heads (paras w)).
Proof.
  unfold enact_candidate. cbv zeta. split; cbn.
  - by destruct (new_validation_code _).
  - rewrite note_new_head_heads. f_equal. destruct (new_validation_code _); cbn; [|done].
    apply schedule_upgrade_heads.
Qed.

Definition reached (threshold : nat) c : Prop := (threshold ≤ ParasPallet.count_ones (availability_votes c))%nat.
#[export] Instance reached_dec threshold c : Decision (reached threshold c).
Proof. unfold reached. apply _. Defined.

Definition included_event c (cm : CandidateCommitments) : Event (CollatorId := CollatorId) (CollatorSignature := CollatorSignature) :=
  CandidateIncluded (to_plain (mkCommitted (pending_descriptor c) cm)) (head_data cm) (core c) (backing_group c).

Lemma conclude_reached env enact threshold freed w p c cm :
  reached threshold c → PendingAvailabilityCommitments (inclusion w) !! p = Some cm →
  para_id (pending_descriptor c) = p →
  ∃ w', conclude code_hash_of env enact threshold (freed, w) (p, c) = (freed ++ [(core c, hash c)], w') ∧
    PendingAvailability (inclusion w') = delete p (PendingAvailability (inclusion w)) ∧
    PendingAvailabilityCommitments (inclusion w') = delete p (PendingAvailabilityCommitments (inclusion w)) ∧
    ParasPallet.Heads (paras w') =
      (if enact then <[p := head_data cm]> (ParasPallet.Heads (paras w)) else ParasPallet.Heads (paras w)) ∧
    events (inclusion w') = events (inclusion w) ++ (if enact then [included_event c cm] else []).
Proof.
  intros Hr Hcm <-. unfold conclude. rewrite decide_True by done. cbn. rewrite Hcm.
  destruct enact; eexists; (split; [done|]); [|by rewrite app_nil_r].
  destruct (enact_spec env (relay_parent_number c) (mkCommitted (pending_descriptor c) cm) (backers c)
    (availability_votes c) (core c) (backing_group c)
    (on_inclusion (set_commitments (delete (para_id (pending_descriptor c))))
       (on_inclusion (set_pending (delete (para_id (pending_descriptor c)))) w))) as [-> ->]. done.
Qed.

Lemma conclude_waits env enact threshold freed w p c :
  ¬ reached threshold c →
  conclude code_hash_of env enact threshold (freed, w) (p, c) =
    (freed, on_inclusion (set_pending (insert p c)) w).
Proof. intros Hr. unfold conclude. by rewrite decide_False by done. Qed.

(** Candidates of different paras, each stored with its commitments. *)
Definition concludable (xs : list (ParaId * Pending)) w : Prop :=
  NoDup xs.*1 ∧
  ∀ p c, (p, c) ∈ xs → is_Some (PendingAvailabilityCommitments (inclusion w) !! p) ∧ para_id (pending_descriptor c) = p.

(** One step, seen from a para: its own candidate is decided, those of others
    are left alone. *)
Lemma conclude_step env enact threshold freed w p c xs :
  concludable ((p, c) :: xs) w →
  ∃ w', conclude code_hash_of env enact threshold (freed, w) (p, c) =
      (freed ++ (if decide (reached threshold c) then [(core c, hash c)] else []), w') ∧
    concludable xs w' ∧
    (∀ q, q ≠ p →
       PendingAvailability (inclusion w') !! q = PendingAvailability (inclusion w) !! q ∧
       PendingAvailabilityCommitments (inclusion w') !! q = PendingAvailabilityCommitments (inclusion w) !! q ∧
       ParasPallet.Heads (paras w') !! q = ParasPallet.Heads (paras w) !! q) ∧
    (∀ e, e ∈ events (inclusion w) → e ∈ events (inclusion w')) ∧
    if decide (reached threshold c) then
      PendingAvailability (inclusion w') !! p = None ∧ PendingAvailabilityCommitments (inclusion w') !! p = None ∧
      (enact = true → ∀ cm, PendingAvailabilityCommitments (inclusion w) !! p = Some cm →
         ParasPallet.Heads (paras w') !! p = Some (head_data cm) ∧ included_event c cm ∈ events (inclusion w'))
    else
      PendingAvailability (inclusion w') !! p = Some c ∧
      PendingAvailabilityCommitments (inclusion w') !! p = PendingAvailabilityCommitments (inclusion w) !! p ∧
      ParasPallet.Heads (paras w') !! p = ParasPallet.Heads (paras w) !! p.
Proof.
  intros [Hnd Hxs]. cbn in Hnd. apply NoDup_cons in Hnd as [Hp Hnd].
  assert (∀ w', (∀ q, q ≠ p → PendingAvailabilityCommitments (inclusion w') !! q =
    PendingAvailabilityCommitments (inclusion w) !! q) → concludable xs w') as Hc.
  { intros w' Hw'. split; [done|]. intros q d Hq. rewrite Hw'; [apply Hxs; set_solver|].
    intros ->. apply Hp. apply list_elem_of_fmap. by exists (p, d). }
  destruct (Hxs p c) as [[cm Hcm] Hid]; [set_solver|]. destruct (decide (reached threshold c)) as [Hr|Hr].
  - destruct (conclude_reached env enact threshold freed w p c cm Hr Hcm Hid) as (w' & -> & Hpd & Hcd & Hh & He).
    exists w'. rewrite Hpd, Hcd, Hh, He. split_and!; [done| | | | | |].
    + apply Hc. intros q Hq. by rewrite Hcd, lookup_delete_ne.
    + intros q Hq. rewrite !lookup_delete_ne by done. destruct enact; [by rewrite lookup_insert_ne|done].
    + set_solver.
    + by rewrite lookup_delete_eq.
    + by rewrite lookup_delete_eq.
    + intros -> cm'. rewrite Hcm. intros [= <-]. rewrite lookup_insert_eq. set_solver.
  - rewrite conclude_waits by done. eexists. rewrite app_nil_r. split_and!; [done|by apply Hc| |done| |done|done].
    + intros q Hq. cbn. by rewrite lookup_insert_ne.
    + cbn. by rewrite lookup_insert_eq.
Qed.

Lemma conclude_all env enact threshold xs freed w :
  concludable xs w →
  ∃ w', foldl (conclude code_hash_of env enact threshold) (freed, w) xs =
      (freed ++ ((λ x, (core x.2, hash x.2)) <$> filter (λ x, reached threshold x.2) xs), w') ∧
    (∀ q, q ∉ xs.*1 →
       PendingAvailability (inclusion w') !! q = PendingAvailability (inclusion w) !! q ∧
       PendingAvailabilityCommitments (inclusion w') !! q = PendingAvailabilityCommitments (inclusion w) !! q ∧
       ParasPallet.Heads (paras w') !! q = ParasPallet.Heads (paras w) !! q) ∧
    (∀ e, e ∈ events (inclusion w) → e ∈ events (inclusion w')) ∧
    ∀ p c, (p, c) ∈ xs →
    if decide (reached threshold c) then
      PendingAvailability (inclusion w') !! p = None ∧ PendingAvailabilityCommitments (inclusion w') !! p = None ∧
      (enact = true → ∀ cm, PendingAvailabilityCommitments (inclusion w) !! p = Some cm →
         ParasPallet.Heads (paras w') !! p = Some (head_data cm) ∧ included_event c cm ∈ events (inclusion w'))
    else
      PendingAvailability (inclusion w') !! p = Some c ∧
      PendingAvailabilityCommitments (inclusion w') !! p = PendingAvailabilityCommitments (inclusion w) !! p ∧
      ParasPallet.Heads (paras w') !! p = ParasPallet.Heads (paras w) !! p.
Proof.
  revert freed w. induction xs as [|[p c] xs IH]; intros freed w Hc.
  { exists w. cbn. rewrite app_nil_r. split_and!; [done|done|done|]. intros ?? []%elem_of_nil. }
  pose proof Hc as [Hnd _]. cbn in Hnd. apply NoDup_cons in Hnd as [Hp _].
  destruct (conclude_step env enact threshold freed w p c xs Hc) as (w1 & E1 & Hc1 & Hq1 & He1 & Hp1).
  cbn [foldl]. rewrite E1.
  destruct (IH (freed ++ (if decide (reached threshold c) then [(core c, hash c)] else [])) w1 Hc1)
    as (w' & -> & Hq & He & Hpc).
  exists w'. split_and!.
  - f_equal. rewrite <-app_assoc. f_equal. rewrite filter_cons. cbn. by case_decide.
  - intros q Hq'. cbn in Hq'. apply not_elem_of_cons in Hq' as [Hne Hq'].
    destruct (Hq q Hq') as (-> & -> & ->). by apply Hq1.
  - auto.
  - intros q d [[= -> ->]|Hin]%elem_of_cons.
    + destruct (Hq p Hp) as (-> & -> & ->). case_decide; [|done].
      destruct Hp1 as (? & ? & Hen). split_and!; [done|done|]. intros Ht cm Hcm.
      destruct (Hen Ht cm Hcm). auto.
    + assert (q ≠ p) as Hne. { intros ->. apply Hp, list_elem_of_fmap. by exists (p, d). }
      destruct (Hq1 q Hne) as (H1 & H2 & H3). specialize (Hpc q d Hin). rewrite H2, H3 in Hpc. done.
Qed.

(** ** The pending candidates *)

(** Every pending candidate is stored with its commitments, under its para and
    its hash, with one vote and one backer bit for each of [n] validators. *)
Record pending_ok (n : nat) (s : State) : Prop := {
  pend_dom p : is_Some (PendingAvailability s !! p) ↔ is_Some (PendingAvailabilityCommitments s !! p);
  pend_para p c : PendingAvailability s !! p = Some c → para_id (pending_descriptor c) = p;
  pend_votes p c : PendingAvailability s !! p = Some c →
    length (availability_votes c) = n ∧ length (backers c) = n;
  pend_hash p c cm : PendingAvailability s !! p = Some c → PendingAvailabilityCommitments s !! p = Some cm →
    hash c = candidate_hash (mkCommitted (pending_descriptor c) cm);
}.

Lemma pending_ok_empty n (s : State) :
  PendingAvailability s = ∅ → PendingAvailabilityCommitments s = ∅ → pending_ok n s.
Proof.
  intros Hp Hc. split; intros p; rewrite ?Hp, ?Hc, ?lookup_empty; [|done..].
  by rewrite !is_Some_alt.
Qed.

Lemma session_pending_ok n (s : State) : pending_ok n (initializer_on_new_session s).
Proof. by apply pending_ok_empty. Qed.

(** What an operation may do to the candidate of a para: leave it, drop it, add
    votes to it, or put a new one. *)
Lemma pending_ok_change n (s s' : State) :
  pending_ok n s →
  (∀ p, (PendingAvailability s' !! p = PendingAvailability s !! p ∧
         PendingAvailabilityCommitments s' !! p = PendingAvailabilityCommitments s !! p) ∨
        (PendingAvailability s' !! p = None ∧ PendingAvailabilityCommitments s' !! p = None) ∨
        (∃ c vs, PendingAvailability s !! p = Some c ∧ PendingAvailability s' !! p = Some (with_votes vs c) ∧
           length vs = length (availability_votes c) ∧
           PendingAvailabilityCommitments s' !! p = PendingAvailabilityCommitments s !! p) ∨
        (∃ c cm, PendingAvailability s' !! p = Some c ∧ PendingAvailabilityCommitments s' !! p = Some cm ∧
           para_id (pending_descriptor c) = p ∧ length (availability_votes c) = n ∧ length (backers c) = n ∧
           hash c = candidate_hash (mkCommitted (pending_descriptor c) cm))) →
  pending_ok n s'.
Proof.
  intros [Hd Hp Hv Hh] Hch. split.
  - intros p. specialize (Hd p). destruct (Hch p) as [(-> & ->)|[(-> & ->)|[(c & vs & Hc & -> & _ & ->)|
      (c & cm & -> & -> & _)]]]; [done|done| |split; intros _; by eexists].
    rewrite <-Hd, Hc. split; intros _; by eexists.
  - intros p c Hc'. destruct (Hch p) as [(E & _)|[(E & _)|[(d & vs & Hc & E & _)|(d & cm & E & _ & Hid & _)]]];
      rewrite E in Hc'; simplify_eq; cbn; eauto.
  - intros p c Hc'. destruct (Hch p) as [(E & _)|[(E & _)|[(d & vs & Hc & E & Hl & _)|(d & cm & E & _ & _ & ? & ? & _)]]];
      rewrite E in Hc'; simplify_eq; eauto. cbn. rewrite Hl. eauto.
  - intros p c cm Hc' Hcm. destruct (Hch p) as [(E & Em)|[(E & Em)|[(d & vs & Hc & E & _ & Em)|
      (d & dm & E & Em & _ & _ & _ & ?)]]]; rewrite E in Hc'; rewrite Em in Hcm; simplify_eq; eauto.
    cbn. eauto.
Qed.

Lemma drop_pending_spec announce w q :
  let w' := drop_pending announce w q in
  (∀ p, PendingAvailability (inclusion w') !! p =
     if decide (p = q) then None else PendingAvailability (inclusion w) !! p) ∧
  (∀ p, PendingAvailabilityCommitments (inclusion w') !! p =
     if decide (p = q) then None else PendingAvailabilityCommitments (inclusion w) !! p) ∧
  paras w' = paras w ∧ dmp w' = dmp w ∧ ump w' = ump w ∧ hrmp w' = hrmp w.
Proof.
  cbv zeta. unfold drop_pending. cbn.
  split_and!; [intros p|intros p|..]; repeat case_match; cbn; subst;
    rewrite ?lookup_delete_eq, ?lookup_delete_ne by done; done.
Qed.

Lemma drop_all_spec announce l w :
  let w' := foldl (drop_pending announce) w l in
  (∀ p, PendingAvailability (inclusion w') !! p =
     if decide (p ∈ l) then None else PendingAvailability (inclusion w) !! p) ∧
  (∀ p, PendingAvailabilityCommitments (inclusion w') !! p =
     if decide (p ∈ l) then None else PendingAvailabilityCommitments (inclusion w) !! p) ∧
  paras w' = paras w ∧ dmp w' = dmp w ∧ ump w' = ump w ∧ hrmp w' = hrmp w.
Proof.
  revert w. induction l as [|q l IH]; intros w; cbv zeta; [done|]. cbn [foldl].
  destruct (IH (drop_pending announce w q)) as (Hp & Hc & -> & -> & -> & ->).
  destruct (drop_pending_spec announce w q) as (Hp1 & Hc1 & -> & -> & -> & ->).
  split_and!; try done; intros p; rewrite ?Hp, ?Hc, ?Hp1, ?Hc1; repeat case_decide; set_solver.
Qed.

Lemma drop_all_pending_ok n announce l w :
  pending_ok n (inclusion w) → pending_ok n (inclusion (foldl (drop_pending announce) w l)).
Proof.
  intros Hok. destruct (drop_all_spec announce l w) as (Hp & Hc & _).
  eapply pending_ok_change; [exact Hok|]. intros p. rewrite Hp, Hc. case_decide; [right; left|left]; done.
Qed.

(** ** The whole operation *)

(** The operation is the loop over the candidates of the occupied cores. *)
Lemma update_shape env n (validators : list ValidatorId) bfs lookup paras_ enact w :
  pending_ok (length validators) (inclusion w) →
  mapM lookup (seq 0 n) = Some paras_ → NoDup (omap id paras_) →
  Forall (λ b, length (payload b) = n) bfs →
  ∃ xs s,
    update_pending_availability_and_get_freed_cores code_hash_of env n validators bfs lookup enact w =
      Some (foldl (conclude code_hash_of env enact (availability_threshold (length validators)))
              ([], on_inclusion (λ _, s) w) xs) ∧
    concludable xs (on_inclusion (λ _, s) w) ∧
    PendingAvailability s = PendingAvailability (inclusion w) ∧
    PendingAvailabilityCommitments s = PendingAvailabilityCommitments (inclusion w) ∧
    ∀ p c', (p, c') ∈ xs ↔ ∃ i c, paras_ !! i = Some (Some p) ∧ PendingAvailability (inclusion w) !! p = Some c ∧
       c' = with_votes (tally bfs i (availability_votes c)) c.
Proof.
  intros Hok Hm Hnd Hlen. unfold update_pending_availability_and_get_freed_cores.
  destruct (load_slots_spec n lookup (inclusion w) paras_ Hm) as [-> Hn]. cbn [mbind option_bind].
  destruct (record_bitfields_spec (ParasPallet.block_number env) bfs
    (option_map (λ p, (p, PendingAvailability (inclusion w) !! p)) <$> paras_) (inclusion w))
    as (slots & s & -> & Hslots & Hp & Hc & He).
  { by rewrite length_fmap, Hn. }
  cbn [mbind option_bind]. pose proof (elem_of_waiting bfs paras_ (inclusion w) slots) as Hin.
  exists (waiting slots), s. split_and!; [done| |done|done|intros; by apply Hin].
  split; [by eapply waiting_paras|]. intros p c' (i & c & _ & Hpc & ->)%Hin; [|done]. cbn. rewrite Hc. split.
  - apply (pend_dom _ _ Hok). by eexists.
  - by apply (pend_para _ _ Hok).
Qed.

Lemma update_spec env n (validators : list ValidatorId) bfs lookup paras_ enact w :
  pending_ok (length validators) (inclusion w) →
  mapM lookup (seq 0 n) = Some paras_ → NoDup (omap id paras_) →
  Forall (λ b, length (payload b) = n) bfs →
  ∃ xs w',
    update_pending_availability_and_get_freed_cores code_hash_of env n validators bfs lookup enact w =
      Some ((λ x, (core x.2, hash x.2)) <$> filter (λ x, reached (availability_threshold (length validators)) x.2) xs, w') ∧
    NoDup xs.*1 ∧
    (∀ p c', (p, c') ∈ xs ↔ ∃ i c, paras_ !! i = Some (Some p) ∧ PendingAvailability (inclusion w) !! p = Some c ∧
       c' = with_votes (tally bfs i (availability_votes c)) c) ∧
    (∀ q, q ∉ xs.*1 →
       PendingAvailability (inclusion w') !! q = PendingAvailability (inclusion w) !! q ∧
       PendingAvailabilityCommitments (inclusion w') !! q = PendingAvailabilityCommitments (inclusion w) !! q ∧
       ParasPallet.Heads (paras w') !! q = ParasPallet.Heads (paras w) !! q) ∧
    ∀ p c, (p, c) ∈ xs →
    if decide (reached (availability_threshold (length validators)) c) then
      PendingAvailability (inclusion w') !! p = None ∧ PendingAvailabilityCommitments (inclusion w') !! p = None ∧
      (enact = true → ∀ cm, PendingAvailabilityCommitments (inclusion w) !! p = Some cm →
         ParasPallet.Heads (paras w') !! p = Some (head_data cm) ∧ included_event c cm ∈ events (inclusion w'))
    else
      PendingAvailability (inclusion w') !! p = Some c ∧
      PendingAvailabilityCommitments (inclusion w') !! p = PendingAvailabilityCommitments (inclusion w) !! p ∧
      ParasPallet.Heads (paras w') !! p = ParasPallet.Heads (paras w) !! p.
Proof.
  intros Hok Hm Hnd Hlen.
  destruct (update_shape env n validators bfs lookup paras_ enact w Hok Hm Hnd Hlen)
    as (xs & s & -> & Hcon & Hp & Hc & Hin).
  destruct (conclude_all env enact (availability_threshold (length validators)) xs []
    (on_inclusion (λ _, s) w) Hcon) as (w' & -> & Hq & _ & Hpc). cbn in Hq, Hpc.
  rewrite Hp, Hc in Hq. rewrite Hc in Hpc.
  exists xs, w'. split_and!; [done|apply Hcon|done|done|done].
Qed.

Lemma update_pending_ok env n (validators : list ValidatorId) bfs lookup paras_ enact w freed w' :
  pending_ok (length validators) (inclusion w) →
  mapM lookup (seq 0 n) = Some paras_ → NoDup (omap id paras_) →
  Forall (λ b, length (payload b) = n) bfs →
  update_pending_availability_and_get_freed_cores code_hash_of env n validators bfs lookup enact w = Some (freed, w') →
  pending_ok (length validators) (inclusion w').
Proof.
  intros Hok Hm Hnd Hlen Hup.
  destruct (update_spec env n validators bfs lookup paras_ enact w Hok Hm Hnd Hlen)
    as (xs & w1 & Hup' & Hxs & Hin & Hq & Hpc). rewrite Hup in Hup'. simplify_eq.
  eapply pending_ok_change; [exact Hok|]. intros p.
  destruct (decide (p ∈ xs.*1)) as [[[? c'] [-> Hx]]%list_elem_of_fmap|Hp]; [|left; split; by apply Hq].
  cbn. specialize (Hpc _ _ Hx). case_decide.
  - right. left. tauto.
  - right. right. left. apply Hin in Hx as (i & c & _ & Hc & ->). destruct Hpc as (? & ? & _).
    exists c, (tally bfs i (availability_votes c)). split_and!; [done|done|apply length_tally|done].
Qed.

Lemma process_candidates_pending_ok env ph root
    (candidates : list (BackedCandidate CollatorId CollatorSignature ValidatorSignature)) scheduled gv w r w' :
  pending_ok (length (ParasPallet.active_validator_keys env)) (inclusion w) →
  process_candidates env ph root candidates scheduled gv w = Some (r, w') →
  pending_ok (length (ParasPallet.active_validator_keys env)) (inclusion w').
Proof.
  intros Hok Hpr. destruct (process_candidates_cases env ph root candidates scheduled gv w)
    as [[e E]|[E|(as_ & accs & E & _ & _ & Hall)]]; rewrite Hpr in E; simplify_eq; [done|done|].
  clear Hpr. assert (Forall (λ x, length (acc_backers x.2) = length (ParasPallet.active_validator_keys env))
    (zip candidates accs)) as Hb.
  { clear -Hall. induction Hall as [|b a x ??? Ha _ IH]; [constructor|]. cbn. constructor; [|done]. apply Ha. }
  clear Hall. revert w Hok. induction Hb as [|[b x] l Hx _ IH]; intros w Hok; [done|]. cbn [foldl]. apply IH.
  eapply pending_ok_change; [exact Hok|]. intros p. cbn.
  destruct (decide (p = para_id (descriptor (candidate b)))) as [->|Hne].
  - right. right. right. rewrite !lookup_insert_eq. do 2 eexists.
    split_and!; [done|done|done|apply length_replicate|done|]. by destruct b as [[] ? ?].
  - left. by rewrite !lookup_insert_ne by done.
Qed.

(** The votes on the candidate of core [i] with the bits of the bitfields. *)
Definition votes_with bfs (i : nat) (old new : list bool) : Prop :=
  length new = length old ∧
  ∀ v, new !! v = Some true ↔
    old !! v = Some true ∨
    (v < length old)%nat ∧ ∃ b, b ∈ bfs ∧ validator_index b = v ∧ payload b !! i = Some true.

(** C6. Availability is decided by the votes: given bitfields with a bit per
    core, the operation never panics.  The candidate of each occupied core gets
    the votes of the validators that set its bit.  If those it has then reach
    the threshold, it is included: it is no longer pending, its core is freed,
    its head data becomes the head of the para, and the inclusion is announced.
    Otherwise it stays pending with these votes and the head stays.  Only cores
    of included candidates are freed, and candidates of other paras are left
    alone. *)
Theorem availability_decides env n (validators : list ValidatorId) bfs lookup paras_ w :
  pending_ok (length validators) (inclusion w) →
  mapM lookup (seq 0 n) = Some paras_ → NoDup (omap id paras_) →
  Forall (λ b, length (payload b) = n) bfs →
  let threshold := availability_threshold (length validators) in
  ∃ freed w',
    update_pending_availability_and_get_freed_cores code_hash_of env n validators bfs lookup true w = Some (freed, w') ∧
    (∀ i p c cm, paras_ !! i = Some (Some p) → PendingAvailability (inclusion w) !! p = Some c →
       PendingAvailabilityCommitments (inclusion w) !! p = Some cm →
       ∃ vs, votes_with bfs i (availability_votes c) vs ∧
         if decide (threshold ≤ length (set_bits vs))%nat then
           PendingAvailability (inclusion w') !! p = None ∧ (core c, hash c) ∈ freed ∧
           ParasPallet.Heads (paras w') !! p = Some (head_data cm) ∧
           included_event c cm ∈ events (inclusion w')
         else
           PendingAvailability (inclusion w') !! p = Some (with_votes vs c) ∧
           PendingAvailabilityCommitments (inclusion w') !! p = Some cm ∧
           ParasPallet.Heads (paras w') !! p = ParasPallet.Heads (paras w) !! p) ∧
    (∀ x, x ∈ freed → ∃ p c, Some p ∈ paras_ ∧ PendingAvailability (inclusion w) !! p = Some c ∧
       x = (core c, hash c) ∧ PendingAvailability (inclusion w') !! p = None) ∧
    (∀ p, Some p ∉ paras_ →
       PendingAvailability (inclusion w') !! p = PendingAvailability (inclusion w) !! p ∧
       ParasPallet.Heads (paras w') !! p = ParasPallet.Heads (paras w) !! p).
Proof.
  intros Hok Hm Hnd Hlen. cbv zeta.
  destruct (update_spec env n validators bfs lookup paras_ true w Hok Hm Hnd Hlen)
    as (xs & w' & -> & Hxs & Hin & Hq & Hpc).
  eexists _, w'. split; [done|]. split_and!.
  - intros i p c cm Hi Hc Hcm. exists (tally bfs i (availability_votes c)).
    split; [split; [apply length_tally|intros; apply tally_true]|].
    assert ((p, with_votes (tally bfs i (availability_votes c)) c) ∈ xs) as Hx by (apply Hin; eauto).
    specialize (Hpc _ _ Hx). rewrite length_set_bits.
    destruct (decide (reached (availability_threshold (length validators))
      (with_votes (tally bfs i (availability_votes c)) c))) as [Hr|Hr];
      [rewrite decide_True by exact Hr|rewrite decide_False by exact Hr].
    + destruct Hpc as (? & ? & Hen). destruct (Hen eq_refl cm Hcm). split_and!; [done| |done|done].
      apply list_elem_of_fmap. exists (p, with_votes (tally bfs i (availability_votes c)) c).
      split; [done|]. by apply list_elem_of_filter.
    + rewrite <-Hcm. tauto.
  - intros x Hx. apply list_elem_of_fmap in Hx as ([p c'] & -> & Hx).
    apply list_elem_of_filter in Hx as [Hr Hx].
    specialize (Hpc _ _ Hx). rewrite decide_True in Hpc by done.
    apply Hin in Hx as (i & c & Hi & Hc & ->). exists p, c. split_and!; [|done|done|tauto].
    by eapply list_elem_of_lookup_2.
  - intros p Hp. destruct (Hq p) as (? & _ & ?); [|done].
    intros ([? c'] & -> & (i & c & Hi & _)%Hin)%list_elem_of_fmap.
    exact (Hp (list_elem_of_lookup_2 _ _ _ Hi)).
Qed.

(** ** Where the threshold cannot be met *)

Lemma threshold_third f : availability_threshold (3 * f + 1) = (2 * f + 2)%nat.
Proof.
  unfold availability_threshold. replace ((3 * f + 1) * 2)%nat with (2 + 2 * f * 3)%nat by lia.
  rewrite Nat.div_add, Nat.Div0.mod_add by lia. cbn. lia.
Qed.

(** Votes that leave out [faulty] are at most those of the others. *)
Lemma ones_without (faulty : list nat) (vs : list bool) :
  NoDup faulty → (∀ v, v ∈ faulty → (v < length vs)%nat ∧ vs !! v ≠ Some true) →
  (length faulty + ParasPallet.count_ones vs ≤ length vs)%nat.
Proof.
  intros Hnd Hf. rewrite <-length_set_bits, <-length_app, <-(length_seq (length vs) 0).
  apply submseteq_length, NoDup_submseteq.
  - apply NoDup_app. split_and!; [done| |apply NoDup_set_bits].
    intros v Hv Hs%elem_of_set_bits. by destruct (Hf v Hv).
  - intros v [Hv|Hv%set_bits_lt]%elem_of_app; apply elem_of_seq; [destruct (Hf v Hv)|]; lia.
Qed.

(** C35. The threshold asks for more than the honest validators have: with
    [3f + 1] validators of which [f] do not vote, no candidate is ever included,
    whatever bitfields the other [2f + 1] send.  In particular a single
    validator cannot make its own candidates available. *)
Theorem availability_stalls f (faulty : list nat) env n (validators : list ValidatorId) bfs lookup paras_ w :
  length validators = (3 * f + 1)%nat →
  length faulty = f → NoDup faulty → Forall (λ v, v < 3 * f + 1)%nat faulty →
  pending_ok (length validators) (inclusion w) →
  mapM lookup (seq 0 n) = Some paras_ → NoDup (omap id paras_) →
  Forall (λ b, length (payload b) = n ∧ validator_index b ∉ faulty) bfs →
  (∀ p c v, PendingAvailability (inclusion w) !! p = Some c → v ∈ faulty → availability_votes c !! v ≠ Some true) →
  ∃ w', update_pending_availability_and_get_freed_cores code_hash_of env n validators bfs lookup true w = Some ([], w') ∧
    (∀ p, is_Some (PendingAvailability (inclusion w) !! p) → is_Some (PendingAvailability (inclusion w') !! p)) ∧
    (∀ p c v, PendingAvailability (inclusion w') !! p = Some c → v ∈ faulty → availability_votes c !! v ≠ Some true) ∧
    ∀ p, ParasPallet.Heads (paras w') !! p = ParasPallet.Heads (paras w) !! p.
Proof.
  intros Hn Hfl Hfn Hf Hok Hm Hnd Hlen Hno. rewrite Forall_forall in Hlen. rewrite Forall_forall in Hf.
  destruct (update_spec env n validators bfs lookup paras_ true w Hok Hm Hnd) as (xs & w' & -> & Hxs & Hin & Hq & Hpc).
  { apply Forall_forall. intros b Hb. by apply Hlen. }
  assert (∀ p c', (p, c') ∈ xs → is_Some (PendingAvailability (inclusion w) !! p) ∧
    ¬ reached (availability_threshold (length validators)) c' ∧
    ∀ v, v ∈ faulty → availability_votes c' !! v ≠ Some true) as Hlow.
  { intros p c' (i & c & _ & Hc & ->)%Hin. destruct (pend_votes _ _ Hok p c Hc) as [Hv _].
    assert (∀ v, v ∈ faulty → tally bfs i (availability_votes c) !! v ≠ Some true) as Ht.
    { intros v Hvf [Ht|(_ & b & Hb & <- & _)]%tally_true; [by eapply Hno|]. by apply Hlen in Hb as [_ []]. }
    split_and!; [by eexists| |done]. unfold reached. rewrite Hn, threshold_third.
    pose proof (ones_without faulty (tally bfs i (availability_votes c)) Hfn) as Hones.
    rewrite length_tally, Hv, Hn, Hfl in Hones. cut (f + ParasPallet.count_ones (tally bfs i (availability_votes c)) ≤ 3 * f + 1)%nat;
      [cbn [availability_votes with_votes]; lia|].
    apply Hones. intros v Hvf. split; [by apply Hf|by apply Ht]. }
  exists w'. split_and!.
  - f_equal. f_equal. rewrite list_filter_nil; [done|]. intros [p c] Hx. by apply (Hlow p c).
  - intros p Hp. destruct (decide (p ∈ xs.*1)) as [([? c'] & -> & Hx)%list_elem_of_fmap|Hpx].
    + specialize (Hpc _ _ Hx). rewrite decide_False in Hpc by (by apply (Hlow _ _ Hx)). eexists. apply Hpc.
    + destruct (Hq p Hpx) as (-> & _). done.
  - intros p c v Hc Hv. destruct (decide (p ∈ xs.*1)) as [([? c'] & -> & Hx)%list_elem_of_fmap|Hpx].
    + specialize (Hpc _ _ Hx). rewrite decide_False in Hpc by (by apply (Hlow _ _ Hx)). cbn in Hc.
      destruct Hpc as [Hpc _]. rewrite Hc in Hpc. simplify_eq. by apply (Hlow _ _ Hx).
    + destruct (Hq p Hpx) as (E & _). rewrite E in Hc. eauto.
  - intros p. destruct (decide (p ∈ xs.*1)) as [([? c'] & -> & Hx)%list_elem_of_fmap|Hpx].
    + specialize (Hpc _ _ Hx). rewrite decide_False in Hpc by (by apply (Hlow _ _ Hx)). apply Hpc.
    + apply (Hq p Hpx).
Qed.
End Availability.

(** ** Examples: para 2000 has core 0, validators 0 and 1 are its group *)

Section Examples.
#[local] Existing Instance Hrmp.example_hash.

#[local] Instance example_blake2 : Blake2 Z unit := {|
  hash_commitments c := Z.of_nat (length (head_data c));
  hash_receipt r := para_id (receipt_descriptor r) + commitments_hash r;
  hash_pvd d := pvd_relay_parent_number d;
  hash_head h := Z.of_nat (length h);
|}.
#[local] Instance example_signatures : Signatures Z unit Z Z := {|
  collator_verify _ _ _ := true;
  validator_verify sig _ key := bool_decide (sig = key);
  encode_bits bits := [];
|}.

Definition example_env (validators : list Z) : ParasPallet.Env Z :=
  ParasPallet.mkEnv 5 1 validators Hrmp.example_config.
Definition example_para_state : ParasPallet.State :=
  ParasPallet.upd_CurrentCodeHash (insert 2000 7)
    (ParasPallet.upd_Heads (insert 2000 []) ParasPallet.empty_state).
Definition example_world0 : World (CollatorId := Z) (CollatorSignature := unit) (H := list byte) :=
  mkWorld empty_state example_para_state Dmp.empty_state Ump.empty_state Hrmp.empty_state [].
Definition example_candidate : BackedCandidate Z unit Z :=
  mkBacked (mkCommitted (mkDescriptor 2000 9 3 4 0 0 tt 0 7) (mkCommitments [] [] None [] 0 4))
    [Implicit 10; Explicit 11] [true; true].
Definition example_scheduled : list (Scheduler.CoreAssignment (CollatorId := Z)) :=
  [Scheduler.mkAssignment 0 2000 Scheduler.KindParachain 0].

(** The candidate is backed in a set of [n] validators. *)
Definition example_backed (n : nat) : World :=
  match process_candidates (example_env (take n [10; 11; 12; 13])) 9 1 [example_candidate] example_scheduled
          (λ _, Some [0; 1]%nat) example_world0 with
  | Some (_, w) => w
  | None => example_world0
  end.

Lemma example_backed_ok (n : nat) : (n ≤ 4)%nat → pending_ok n (inclusion (example_backed n)).
Proof.
  intros Hn. unfold example_backed.
  destruct (process_candidates _ _ _ _ _ _ _) as [[r w]|] eqn:E; [|by apply pending_ok_empty].
  replace n with (length (take n [10; 11; 12; 13])) by (rewrite length_take; cbn; lia).
  refine (process_candidates_pending_ok (example_env (take n [10; 11; 12; 13])) _ _ _ _ _ _ _ _ _ E).
  by apply pending_ok_empty.
Qed.

Definition example_bitfield (v : nat) (bit : bool) : UncheckedSigned Z := mkSigned [bit] v 0.

Definition example_update (n : nat) (bfs : list (UncheckedSigned Z)) :=
  update_pending_availability_and_get_freed_cores (λ _, 0) (example_env (take n [10; 11; 12; 13])) 1
    (take n [10; 11; 12; 13]) bfs (λ _, Some (Some 2000)) true (example_backed n).

Lemma availability_decides_witness :
  ∃ w', example_update 3 [example_bitfield 0 true; example_bitfield 1 false; example_bitfield 2 true] =
      Some ([(0%nat, 2000)], w') ∧
    PendingAvailability (inclusion w') !! 2000 = None.
Proof.
  destruct (availability_decides (λ _, 0) (example_env [10; 11; 12]) 1 [10; 11; 12]
    [example_bitfield 0 true; example_bitfield 1 false; example_bitfield 2 true] (λ _, Some (Some 2000))
    [Some 2000] (example_backed 3)) as (freed & w' & E & _ & Hfreed & _).
  - apply (example_backed_ok 3). lia.
  - reflexivity.
  - apply NoDup_singleton.
  - repeat constructor.
  - assert (freed = [(0%nat, 2000)]) as ->.
    { assert (fst <$> example_update 3 [example_bitfield 0 true; example_bitfield 1 false; example_bitfield 2 true] =
        Some [(0%nat, 2000)]) as Hf by (vm_compute; reflexivity).
      unfold example_update in Hf. cbn [take] in Hf. rewrite E in Hf. by injection Hf. }
    exists w'. split; [exact E|].
    destruct (Hfreed (0%nat, 2000)) as (p & c & Hp & _ & _ & Hw'); [by left|].
    apply list_elem_of_singleton in Hp. by injection Hp as ->.
Defined.

Lemma availability_stalls_witness :
  ∃ w', example_update 4 [example_bitfield 0 true; example_bitfield 1 true; example_bitfield 2 true] = Some ([], w') ∧
    is_Some (PendingAvailability (inclusion w') !! 2000).
Proof.
  destruct (availability_stalls (λ _, 0) 1 [3%nat] (example_env [10; 11; 12; 13]) 1 [10; 11; 12; 13]
    [example_bitfield 0 true; example_bitfield 1 true; example_bitfield 2 true] (λ _, Some (Some 2000))
    [Some 2000] (example_backed 4)) as (w' & E & Hp & _).
  - reflexivity.
  - reflexivity.
  - apply NoDup_singleton.
  - repeat constructor.
  - apply (example_backed_ok 4). lia.
  - reflexivity.
  - apply NoDup_singleton.
  - repeat (constructor; [split; [reflexivity|by intros [=]%list_elem_of_singleton]|]). constructor.
  - intros p c v Hc Hv%list_elem_of_singleton. subst v.
    destruct (pend_votes _ _ (example_backed_ok 4 (le_n 4)) p c Hc) as [Hlen _].
    assert (map_Forall (λ _ c, availability_votes c = replicate 4 false)
      (PendingAvailability (inclusion (example_backed 4)))) as Hall.
    { apply map_Forall_to_list. vm_compute. repeat constructor. }
    rewrite (Hall p c Hc). done.
  - exists w'. split; [exact E|]. apply Hp. vm_compute. by eexists.
Defined.
End Examples.
End InclusionAvailability.
