(* ===== verification/InclusionMessages.v ===== *)
(** * Messages of candidates

    The acceptance criteria of [Inclusion] are checked when a candidate is
    backed, and its messages are queued when it is included, blocks later.  In
    between other candidates are included, queues are served and channels are
    requested.  This file shows that none of it invalidates what was checked,
    so that an included candidate has all its messages delivered: the
    composition of [Inclusion] with [Dmp], [Ump] and [Hrmp]. *)

From S2P Require Import Prelude.
From S2P Require Import Vectors.
From S2P Require Import XcmTypes.
From S2P Require Import Frame.
From S2P Require Import Configuration.
From S2P Require Import Paras.
From S2P Require Import Dmp.
From S2P Require Import Ump.
From S2P Require Import Hrmp.
From S2P Require Import HrmpRequests.
From S2P Require Import HrmpMessages.
From S2P Require Import Scheduler.
From S2P Require Import ParasPallet.
From S2P Require Import Candidates.
From S2P Require Import Inclusion.
From S2P Require Import InclusionBacking.
From S2P Require Import InclusionAvailability.

Module InclusionMessages.
Import Candidates Inclusion InclusionBacking InclusionAvailability.

(** ** Horizontal messages *)

Section Horizontal.
Context {H : Type} `{!MessageHash H}.
#[local] Abbreviation HState := (Hrmp.State (H := H)).
#[local] Abbreviation channel p m := (Hrmp.mkChannelId p (Hrmp.out_recipient m)).
Implicit Types (p q : ParaId) (m : Hrmp.OutboundHrmpMessage).
#[local] Arguments Hrmp.bytes : simpl never.
#[local] Arguments filter : simpl never.

(** There is a channel for the message with room for it. *)
Definition sendable p (s : HState) m : Prop :=
  ∃ ch, Hrmp.HrmpChannels s !! channel p m = Some ch ∧
    Z.of_nat (length (Hrmp.out_data m)) ≤ Hrmp.max_message_size ch ∧
    Z.of_nat (length (Hrmp.contents (channel p m) s)) + 1 ≤ Hrmp.max_capacity ch ∧
    Hrmp.bytes (Hrmp.contents (channel p m) s) + Z.of_nat (length (Hrmp.out_data m)) ≤ Hrmp.max_total_size ch.

Lemma check_messages_sendable p (s : HState) idx last msgs :
  Hrmp.channels_ok s → HrmpMessages.limits_ok s →
  Forall (λ m, Z.of_nat (length (Hrmp.out_data m)) ≤ u32_max) msgs →
  Hrmp.check_messages p s idx last msgs = Ok tt →
  Forall (sendable p s) msgs ∧ StronglySorted Z.lt (Hrmp.out_recipient <$> msgs) ∧
  ∀ r, last = Some r → Forall (λ m, r < Hrmp.out_recipient m) msgs.
Proof.
  intros Hok Hlim. revert idx last. induction msgs as [|m msgs IH]; intros idx last Hw Hc.
  { split_and!; [constructor..|]. intros; constructor. }
  apply Forall_cons in Hw as [Hm Hw]. cbn [Hrmp.check_messages] in Hc.
  destruct (match last with Some r => bool_decide (Hrmp.out_recipient m ≤ r) | None => false end) eqn:El; [done|].
  destruct (Hrmp.HrmpChannels s !! channel p m) as [ch|] eqn:Ech; [|done].
  destruct (HrmpMessages.lim_channels _ Hlim _ _ Ech) as (L1 & L2 & L3 & L4).
  destruct (Hrmp.ch_counts _ Hok _ _ Ech) as [E1 E2].
  pose proof (Hrmp.bytes_nonneg (Hrmp.contents (channel p m) s)) as Hnn.
  assert (len32 (Hrmp.out_data m) = Z.of_nat (length (Hrmp.out_data m))) as Elen
    by (unfold len32; apply wrap32_small; unfold is_u32; lia).
  rewrite Elen in Hc. case_decide as D1; [done|].
  rewrite E2, E1, wrap32_small in Hc by (unfold is_u32; lia).
  unfold u32_add in Hc. rewrite (wrap32_small (_ + _)) in Hc by (unfold is_u32; lia).
  case_decide as D2; [done|]. rewrite (wrap32_small (Z.of_nat _)) in Hc by (unfold is_u32; lia).
  rewrite (wrap32_small (_ + 1)) in Hc by (unfold is_u32; lia). case_decide as D3; [done|].
  destruct (IH _ _ Hw Hc) as (H1 & H2 & H3). specialize (H3 _ eq_refl). split_and!.
  - constructor; [|done]. exists ch. split_and!; [done|lia..].
  - cbn. constructor; [done|]. by apply Forall_fmap.
  - intros r ->. apply bool_decide_eq_false in El. constructor; [lia|].
    eapply Forall_impl; [exact H3|]. cbn. intros; lia.
Qed.

Lemma outbound_sendable config p (s : HState) msgs :
  Hrmp.channels_ok s → HrmpMessages.limits_ok s →
  Forall (λ m, Z.of_nat (length (Hrmp.out_data m)) ≤ u32_max) msgs →
  Hrmp.check_outbound_hrmp config p msgs s = Ok tt →
  Forall (sendable p s) msgs ∧ NoDup (Hrmp.out_recipient <$> msgs).
Proof.
  intros Hok Hlim Hw. unfold Hrmp.check_outbound_hrmp. case_decide; [done|]. intros Hc.
  destruct (check_messages_sendable p s 0 None msgs Hok Hlim Hw Hc) as (H1 & H2 & _).
  split; [done|]. by apply sorted_NoDup.
Qed.

(** Pruning leaves a channel its limits, and the same or fewer messages. *)
Lemma prune_channels r wm (s : HState) c ch :
  Hrmp.HrmpChannels s !! c = Some ch →
  ∃ ch', Hrmp.HrmpChannels (Hrmp.prune_hrmp r wm s) !! c = Some ch' ∧
    Hrmp.max_capacity ch' = Hrmp.max_capacity ch ∧ Hrmp.max_total_size ch' = Hrmp.max_total_size ch ∧
    Hrmp.max_message_size ch' = Hrmp.max_message_size ch.
Proof.
  unfold Hrmp.prune_hrmp. set (l := fmap _ _). set (s0 := Hrmp.set_contents _ _ s).
  change (Hrmp.HrmpChannels (Hrmp.set_watermarks _ _)) with
    (Hrmp.HrmpChannels (fold_left (Hrmp.prune_channel wm) l s0)).
  change (Hrmp.HrmpChannels s) with (Hrmp.HrmpChannels s0). clearbody s0 l. clear. revert s0 ch.
  induction l as [|d l IH]; intros s0 ch Hch; [by exists ch|]. cbn [fold_left].
  destruct (Hrmp.prune_channel_spec wm s0 d) as (_ & _ & P3 & _). specialize (P3 c). rewrite Hch in P3.
  destruct (decide (d = c)); (eapply IH in P3 as (ch' & E & E1 & E2 & E3)); exists ch'; cbn in *; done.
Qed.

Lemma prune_sendable now r wm p (s : HState) m :
  HrmpMessages.messages_ok now s → sendable p s m → sendable p (Hrmp.prune_hrmp r wm s) m.
Proof.
  intros Hm (ch & Hch & H1 & H2 & H3).
  destruct (prune_channels r wm s _ ch Hch) as (ch' & E & E1 & E2 & E3). exists ch'.
  rewrite E1, E2, E3, (HrmpMessages.prune_contents now r wm s _ Hm). split_and!; [done|done|..]; case_decide; try done.
  - pose proof (Hrmp.split_counts wm (Hrmp.contents (channel p m) s)) as [S1 _]. lia.
  - pose proof (Hrmp.split_counts wm (Hrmp.contents (channel p m) s)) as [_ S2].
    pose proof (Hrmp.bytes_nonneg (filter (λ x, Hrmp.sent_at x ≤ wm) (Hrmp.contents (channel p m) s))). lia.
Qed.

(** Sending on another channel changes nothing for a message. *)
Lemma queue_message_other now q m p (s : HState) x :
  channel p x ≠ channel q m → sendable p s x → sendable p (Hrmp.queue_message now q s m) x.
Proof.
  intros Hne (ch & Hch & Hrest). exists ch. rewrite HrmpMessages.queue_message_contents, Hch.
  rewrite decide_False by done. split; [|done].
  unfold Hrmp.queue_message. case_match; [|done]. cbn. by rewrite lookup_insert_ne.
Qed.

Lemma queue_other now q msgs p (s : HState) x :
  p ≠ q → sendable p s x → sendable p (Hrmp.queue_outbound_hrmp now q msgs s) x.
Proof.
  intros Hne. unfold Hrmp.queue_outbound_hrmp. revert s. induction msgs as [|m msgs IH]; intros s Hs; [done|].
  cbn [fold_left]. apply IH. apply queue_message_other; [congruence|done].
Qed.

(** All messages that are sendable are queued, each at the end of its channel. *)
Lemma queue_sendable now p msgs (s : HState) :
  Forall (sendable p s) msgs → NoDup (Hrmp.out_recipient <$> msgs) →
  Hrmp.channels_ok s → HrmpMessages.limits_ok s →
  HrmpMessages.limits_ok (Hrmp.queue_outbound_hrmp now p msgs s) ∧
  (∀ c, (∀ m, m ∈ msgs → c ≠ channel p m) →
     Hrmp.contents c (Hrmp.queue_outbound_hrmp now p msgs s) = Hrmp.contents c s) ∧
  ∀ m, m ∈ msgs → Hrmp.contents (channel p m) (Hrmp.queue_outbound_hrmp now p msgs s) =
    Hrmp.contents (channel p m) s ++ [Hrmp.mkInbound now (Hrmp.out_data m)].
Proof.
  unfold Hrmp.queue_outbound_hrmp. revert s. induction msgs as [|m msgs IH]; intros s Hs Hnd Hok Hlim.
  { split_and!; [done|done|]. by intros m Hm%elem_of_nil. }
  cbn [fold_left]. apply Forall_cons in Hs as [Hm Hs]. cbn in Hnd. apply NoDup_cons in Hnd as [Hr Hnd].
  assert (∀ x, x ∈ msgs → channel p x ≠ channel p m) as Hne.
  { intros x Hx [= E]. apply Hr. rewrite <-E. by apply list_elem_of_fmap_2. }
  pose proof Hm as (ch & Hch & B1 & B2 & B3).
  destruct (HrmpMessages.lim_channels _ Hlim _ _ Hch) as (L1 & L2 & L3 & L4).
  destruct (Hrmp.ch_counts _ Hok _ _ Hch) as [E1 E2].
  pose proof (Hrmp.bytes_nonneg (Hrmp.contents (channel p m) s)) as Hnn.
  assert (len32 (Hrmp.out_data m) = Z.of_nat (length (Hrmp.out_data m))) as El
    by (unfold len32; apply wrap32_small; unfold is_u32; lia).
  destruct (IH (Hrmp.queue_message now p s m)) as (I1 & I2 & I3).
  - rewrite Forall_forall in *. intros x Hx. apply queue_message_other; [by apply Hne|by apply Hs].
  - done.
  - by apply Hrmp.channels_ok_queue_message.
  - eapply HrmpMessages.queue_message_limits; [done|done|exact Hch|lia|lia| |].
    + rewrite El, E2, wrap32_small by (unfold is_u32; lia). unfold u32_add.
      rewrite wrap32_small by (unfold is_u32; lia). lia.
    + rewrite E1, wrap32_small by (unfold is_u32; lia). unfold u32_add.
      rewrite wrap32_small by (unfold is_u32; lia). lia.
  - split_and!; [done| |].
    + intros c Hc. rewrite I2 by (intros x Hx; apply Hc; by right). rewrite HrmpMessages.queue_message_contents.
      rewrite decide_False by (apply Hc; left). by case_match.
    + intros x [->|Hx]%elem_of_cons.
      * rewrite I2 by (intros y Hy E; by apply (Hne y Hy)).
        by rewrite HrmpMessages.queue_message_contents, Hch, decide_True.
      * rewrite I3 by done. rewrite HrmpMessages.queue_message_contents, decide_False by (by apply Hne).
        by case_match.
Qed.
End Horizontal.

(** ** The pallets together *)

Section Relay.
Context {CollatorId CollatorSignature ValidatorId ValidatorSignature H B W : Type}
  `{!EqDecision CollatorId}
  `{!Blake2 CollatorId CollatorSignature}
  `{!Signatures CollatorId CollatorSignature ValidatorId ValidatorSignature}
  `{!MessageHash H} `{!ReservableCurrency B} `{!Ump.UmpSink W}
  `{!StorageIter ParaId
       (CandidatePendingAvailability (CollatorId := CollatorId) (CollatorSignature := CollatorSignature))}
  (code_hash_of : ValidationCode → Hash) (encode_xcm : Xcm → list byte) (first_message_factor_percent : Weight).
#[local] Abbreviation World := (World (CollatorId := CollatorId) (CollatorSignature := CollatorSignature) (H := H)).
#[local] Abbreviation Backed := (BackedCandidate CollatorId CollatorSignature ValidatorSignature).
#[local] Abbreviation Pending :=
  (CandidatePendingAvailability (CollatorId := CollatorId) (CollatorSignature := CollatorSignature)).
Implicit Types (env : ParasPallet.Env ValidatorId) (w : World) (cm : CandidateCommitments).

(** The configuration of the session, and bounds on the upward queues at its
    start that leave room for the messages of a candidate. *)
Context (cfg : HostConfiguration) (count_bound size_bound : Z).

Record roomy_queues : Prop := {
  rq_num : 0 ≤ max_upward_message_num_per_candidate cfg;
  rq_msg : 0 ≤ max_upward_message_size cfg;
  rq_count : max_upward_queue_count cfg ≤ count_bound;
  rq_size : max_upward_queue_size cfg ≤ size_bound;
  rq_counts : count_bound + max_upward_message_num_per_candidate cfg ≤ u32_max;
  rq_sizes : size_bound + max_upward_message_num_per_candidate cfg * max_upward_message_size cfg ≤ u32_max;
}.

(** Values of the types the commitments have in a 32-bit runtime. *)
Record wire_ok cm : Prop := {
  wo_processed : is_u32 (processed_downward_messages cm);
  wo_upward : Z.of_nat (length (upward_messages cm)) ≤ u32_max;
  wo_upward_data : Forall (λ m, Z.of_nat (length m) ≤ u32_max) (upward_messages cm);
  wo_horizontal : Forall (λ m, Z.of_nat (length (Hrmp.out_data m)) ≤ u32_max) (horizontal_messages cm);
}.

(** What the enactment of a candidate relies on. *)
Record acceptable (now : BlockNumber) (p : ParaId) cm w : Prop := {
  ac_downward : 0 ≤ processed_downward_messages cm ≤ Z.of_nat (length (Dmp.dmq_contents p (dmp w)));
  ac_count : Z.of_nat (length (Ump.queue_of p (ump w) ++ upward_messages cm)) ≤ max_upward_queue_count cfg;
  ac_size : Ump.total_bytes (Ump.queue_of p (ump w) ++ upward_messages cm) ≤ max_upward_queue_size cfg;
  ac_watermark last : Hrmp.HrmpWatermarks (hrmp w) !! p = Some last → last < hrmp_watermark cm;
  ac_past : hrmp_watermark cm < now;
  ac_sendable : Forall (sendable p (hrmp w)) (horizontal_messages cm);
  ac_recipients : NoDup (Hrmp.out_recipient <$> horizontal_messages cm);
}.

(** The state of the queues. *)
Record queues_ok (now : BlockNumber) w : Prop := {
  qo_hrmp : HrmpMessages.all_ok now (hrmp w);
  qo_ump : Ump.ump_ok (ump w);
  qo_bound p : Z.of_nat (length (Ump.queue_of p (ump w))) ≤ count_bound ∧
    Ump.total_bytes (Ump.queue_of p (ump w)) ≤ size_bound;
}.

(** ** Backing establishes the criteria *)

Lemma upward_fits now p w msgs :
  roomy_queues → queues_ok now w → Z.of_nat (length msgs) ≤ u32_max →
  Forall (λ m, Z.of_nat (length m) ≤ u32_max) msgs →
  Ump.check_upward_messages cfg p msgs (ump w) = Ok tt → Ump.fits p msgs (ump w).
Proof.
  intros [R1 R2 R3 R4 R5 R6] Hq Hn Hl Hc. apply Ump.check_upward_messages_small in Hc as [Hnum Hsize].
  destruct (qo_bound _ _ Hq p) as [Q1 Q2].
  assert (len32 msgs = Z.of_nat (length msgs)) as E by (unfold len32; apply wrap32_small; unfold is_u32; lia).
  rewrite E in Hnum. clear E.
  assert (Ump.total_bytes msgs ≤ Z.of_nat (length msgs) * max_upward_message_size cfg) as Hb.
  { clear -Hl Hsize R2. induction msgs as [|m msgs IH]; [cbn; lia|].
    apply Forall_cons in Hl as [Hm Hl]. apply Forall_cons in Hsize as [Hs Hsize]. specialize (IH Hl Hsize).
    change (Ump.total_bytes (m :: msgs)) with (Z.of_nat (length m) + Ump.total_bytes msgs).
    unfold len32 in Hs. rewrite wrap32_small in Hs by (unfold is_u32; lia). cbn [length]. lia. }
  unfold Ump.fits. rewrite Ump.total_bytes_app, length_app, Nat2Z.inj_add. split; [lia|].
  assert (Z.of_nat (length msgs) * max_upward_message_size cfg ≤
    max_upward_message_num_per_candidate cfg * max_upward_message_size cfg) by nia. lia.
Qed.

Lemma outputs_acceptable now p cm w :
  roomy_queues → queues_ok now w → wire_ok cm → 1 ≤ now ≤ u32_max →
  check_validation_outputs cfg (u32_sub now 1) p cm w = Ok tt → acceptable now p cm w.
Proof.
  intros Hr Hq [W1 W2 W3 W4] Hnow Hc. unfold check_validation_outputs in Hc. checks Hc.
  match goal with Hd : Dmp.check_processed_downward_messages _ _ _ = Ok ?u |- _ => destruct u; rename Hd into Hdmp end.
  match goal with Hu : Ump.check_upward_messages _ _ _ _ = Ok ?u |- _ => destruct u; rename Hu into Hump end.
  match goal with Hw : Hrmp.check_hrmp_watermark _ _ _ _ = Ok ?u |- _ => destruct u; rename Hw into Hwm end.
  pose proof (upward_fits now p w _ Hr Hq W2 W3 Hump) as Hfits.
  apply (Ump.check_upward_ok cfg) in Hump; [|apply Hq|done].
  destruct Hump as (_ & _ & U1 & U2).
  destruct (qo_hrmp _ _ Hq) as [Hok _ _ Hlim].
  destruct (outbound_sendable cfg p (hrmp w) _ Hok Hlim W4 Hc) as [S1 S2].
  unfold u32_sub in Hwm. rewrite wrap32_small in Hwm by (unfold is_u32; lia).
  split; [|done|done| | |done|done].
  - unfold Dmp.check_processed_downward_messages in Hdmp. case_match; [done|]. case_decide as Hd; [done|].
    unfold Dmp.dmq_length in Hd. unfold is_u32 in W1. lia.
  - intros last Hl. unfold Hrmp.check_hrmp_watermark in Hwm. rewrite Hl in Hwm. case_decide; [done|]. lia.
  - unfold Hrmp.check_hrmp_watermark in Hwm. destruct (decide (now - 1 < hrmp_watermark cm)); [|lia].
    repeat case_match; done.
Qed.

(** ** What happens in between *)

(** Changes that take nothing from the queues of [p] but messages served, and
    leave its channels and its watermark. *)
Lemma acceptable_mono now p cm w w' :
  (∃ more, Dmp.dmq_contents p (dmp w') = Dmp.dmq_contents p (dmp w) ++ more) →
  (∃ served, Ump.queue_of p (ump w) = served ++ Ump.queue_of p (ump w')) →
  Hrmp.HrmpWatermarks (hrmp w') !! p = Hrmp.HrmpWatermarks (hrmp w) !! p →
  (∀ m, sendable p (hrmp w) m → sendable p (hrmp w') m) →
  acceptable now p cm w → acceptable now p cm w'.
Proof.
  intros [more Hd] [served Hu] Hwm Hs [A1 A2 A3 A4 A7 A5 A6].
  rewrite Hu, <-app_assoc in A2, A3. rewrite length_app in A2. rewrite Ump.total_bytes_app in A3.
  pose proof (Ump.total_bytes_nonneg served). split.
  - rewrite Hd, length_app. lia.
  - lia.
  - lia.
  - intros last. rewrite Hwm. apply A4.
  - done.
  - eapply Forall_impl; [exact A5|]. apply Hs.
  - done.
Qed.

(** What the messages of an included candidate have come to. *)
Record delivered (p : ParaId) cm (now : BlockNumber) w w' : Prop := {
  de_downward : (Z.to_nat (processed_downward_messages cm) ≤ length (Dmp.dmq_contents p (dmp w)))%nat ∧
    Dmp.dmq_contents p (dmp w') = drop (Z.to_nat (processed_downward_messages cm)) (Dmp.dmq_contents p (dmp w));
  de_upward : Ump.queue_of p (ump w') = Ump.queue_of p (ump w) ++ upward_messages cm;
  de_watermark : Hrmp.HrmpWatermarks (hrmp w') !! p = Some (hrmp_watermark cm) ∧
    ∀ last, Hrmp.HrmpWatermarks (hrmp w) !! p = Some last → last < hrmp_watermark cm;
  de_horizontal m : m ∈ horizontal_messages cm →
    ∃ before, Hrmp.contents (Hrmp.mkChannelId p (Hrmp.out_recipient m)) (hrmp w') =
      before ++ [Hrmp.mkInbound now (Hrmp.out_data m)];
}.

Lemma prune_watermarks r wm (s : Hrmp.State (H := H)) q :
  Hrmp.HrmpWatermarks (Hrmp.prune_hrmp r wm s) !! q =
    if decide (r = q) then Some wm else Hrmp.HrmpWatermarks s !! q.
Proof.
  unfold Hrmp.prune_hrmp. set (l := fmap _ _). set (s0 := Hrmp.set_contents _ _ s).
  assert (Hrmp.HrmpWatermarks (fold_left (Hrmp.prune_channel wm) l s0) = Hrmp.HrmpWatermarks s) as E.
  { change (Hrmp.HrmpWatermarks s) with (Hrmp.HrmpWatermarks s0). clearbody l s0. clear. revert s0.
    induction l as [|d l IH]; intros s0; [done|]. cbn [fold_left]. rewrite IH. apply (Hrmp.prune_channel_spec wm s0 d). }
  cbn. rewrite E, lookup_insert. done.
Qed.

Lemma queue_watermarks now p msgs (s : Hrmp.State (H := H)) :
  Hrmp.HrmpWatermarks (Hrmp.queue_outbound_hrmp now p msgs s) = Hrmp.HrmpWatermarks s.
Proof.
  unfold Hrmp.queue_outbound_hrmp. revert s. induction msgs as [|m msgs IH]; intros s; [done|].
  cbn [fold_left]. rewrite IH. unfold Hrmp.queue_message. by case_match.
Qed.

Lemma prune_dmq_contents p n (s : Dmp.State (H := H)) q :
  Dmp.dmq_contents q (Dmp.prune_dmq p n s) =
    if decide (p = q) then
      if decide (Z.of_nat (length (Dmp.dmq_contents p s)) < n) then [] else drop (Z.to_nat n) (Dmp.dmq_contents p s)
    else Dmp.dmq_contents q s.
Proof. unfold Dmp.dmq_contents at 1. cbn. rewrite value_query_insert. by case_decide. Qed.

Lemma queue_all_ok now p msgs (s : Hrmp.State (H := H)) :
  HrmpMessages.all_ok now s → Forall (sendable p s) msgs → NoDup (Hrmp.out_recipient <$> msgs) →
  HrmpMessages.all_ok now (Hrmp.queue_outbound_hrmp now p msgs s).
Proof.
  intros [O1 O2 O3 O4] Hs Hnd. split.
  - by apply Hrmp.channels_ok_queue.
  - by eapply HrmpRequests.requests_ok_same; [apply HrmpRequests.queue_requests|].
  - by apply HrmpMessages.queue_messages_ok.
  - by apply queue_sendable.
Qed.

Lemma prune_all_ok now r wm (s : Hrmp.State (H := H)) :
  HrmpMessages.all_ok now s → HrmpMessages.all_ok now (Hrmp.prune_hrmp r wm s).
Proof.
  intros [O1 O2 O3 O4]. split.
  - by apply Hrmp.channels_ok_prune.
  - by eapply HrmpRequests.requests_ok_same; [apply HrmpRequests.prune_requests|].
  - by apply HrmpMessages.prune_messages_ok.
  - by eapply HrmpMessages.prune_limits_ok.
Qed.

(** What the inclusion of a candidate of [p] leaves of another para [q]: its
    queues, its watermark, room in its channels, and what it has just sent. *)
Record apart (p : ParaId) (now : BlockNumber) w w' : Prop := {
  ap_downward q : q ≠ p → Dmp.dmq_contents q (dmp w') = Dmp.dmq_contents q (dmp w);
  ap_upward q : q ≠ p → Ump.queue_of q (ump w') = Ump.queue_of q (ump w);
  ap_watermark q : q ≠ p → Hrmp.HrmpWatermarks (hrmp w') !! q = Hrmp.HrmpWatermarks (hrmp w) !! q;
  ap_sendable q m : q ≠ p → sendable q (hrmp w) m → sendable q (hrmp w') m;
  ap_sent c x before : Hrmp.sender c ≠ p → Hrmp.sent_at x = now →
    Hrmp.contents c (hrmp w) = before ++ [x] → ∃ before', Hrmp.contents c (hrmp w') = before' ++ [x];
}.

Lemma apart_acceptable p now w w' q qm :
  apart p now w w' → q ≠ p → acceptable now q qm w → acceptable now q qm w'.
Proof.
  intros [A1 A2 A3 A4 _] Hne. apply acceptable_mono.
  - exists []. by rewrite app_nil_r, A1.
  - exists []. by rewrite A2.
  - by apply A3.
  - intros m. by apply A4.
Qed.

Lemma apart_delivered_after p q qm now w w1 w2 :
  apart p now w1 w2 → q ≠ p → delivered q qm now w w1 → delivered q qm now w w2.
Proof.
  intros [A1 A2 A3 _ A5] Hne [D1 D2 D3 D4]. split; rewrite ?A1, ?A2, ?A3 by done; [done..|].
  intros m Hm. destruct (D4 m Hm) as [before Hb]. by eapply A5.
Qed.

Lemma apart_delivered_before p q qm now w w1 w2 :
  apart p now w w1 → q ≠ p → delivered q qm now w1 w2 → delivered q qm now w w2.
Proof.
  intros [A1 A2 A3 _ _] Hne [D1 D2 D3 D4].
  rewrite A1 in D1 by done. rewrite A2 in D2 by done. rewrite A3 in D3 by done. by split.
Qed.

(** Inclusion delivers the messages of the candidate, and stays apart from
    other paras. *)
Lemma enact_delivers env rpn receipt bs vs i g w :
  let p := para_id (descriptor receipt) in
  let cm := commitments receipt in
  let now := ParasPallet.block_number env in
  let w' := enact_candidate code_hash_of env rpn receipt bs vs i g w in
  roomy_queues → queues_ok now w → acceptable now p cm w →
  queues_ok now w' ∧ delivered p cm now w w' ∧ apart p now w w'.
Proof.
  cbv zeta. intros Hr [Q1 Q2 Q3] [A1 A2 A3 A4 A7 A5 A6].
  set (p := para_id (descriptor receipt)) in *. set (cm := commitments receipt) in *.
  set (now := ParasPallet.block_number env) in *.
  set (w' := enact_candidate code_hash_of env rpn receipt bs vs i g w).
  assert (dmp w' = Dmp.prune_dmq p (processed_downward_messages cm) (dmp w) ∧
    ump w' = Ump.receive_upward_messages p (upward_messages cm) (ump w) ∧
    hrmp w' = Hrmp.queue_outbound_hrmp now p (horizontal_messages cm)
                (Hrmp.prune_hrmp p (hrmp_watermark cm) (hrmp w))) as (Ed & Eu & Eh).
  { unfold w', enact_candidate. fold cm. destruct (new_validation_code cm); done. }
  clearbody w'.
  pose proof (prune_all_ok now p (hrmp_watermark cm) _ Q1) as Q1'. pose proof Q1 as [_ _ Hmsg _].
  assert (∀ q m, sendable q (hrmp w) m → sendable q (Hrmp.prune_hrmp p (hrmp_watermark cm) (hrmp w)) m) as Hps
    by (intros; by eapply prune_sendable).
  assert (Forall (sendable p (Hrmp.prune_hrmp p (hrmp_watermark cm) (hrmp w))) (horizontal_messages cm)) as A5'
    by (eapply Forall_impl; [exact A5|apply Hps]).
  split_and!.
  - destruct Hr as [R1 R2 R3 R4 R5 R6]. split.
    + rewrite Eh. by apply queue_all_ok.
    + rewrite Eu. apply Ump.ump_ok_receive; [done|]. unfold Ump.fits.
      assert (0 ≤ max_upward_message_num_per_candidate cfg * max_upward_message_size cfg) by nia. lia.
    + intros q. rewrite Eu, Ump.receive_queue_of. case_decide; [lia|apply Q3].
  - split.
    + rewrite Ed, prune_dmq_contents, decide_True by done. rewrite decide_False by lia. split; [lia|done].
    + rewrite Eu, Ump.receive_queue_of. by rewrite decide_True.
    + rewrite Eh, queue_watermarks, prune_watermarks, decide_True by done. done.
    + intros m Hm. cbv zeta. rewrite Eh. destruct Q1' as [O1 _ _ O4].
      destruct (queue_sendable now p (horizontal_messages cm) _ A5' A6 O1 O4) as (_ & _ & Hq).
      rewrite (Hq m Hm). by eexists.
  - split.
    + intros q Hne. rewrite Ed, prune_dmq_contents, decide_False by done. done.
    + intros q Hne. rewrite Eu, Ump.receive_queue_of, decide_False by done. done.
    + intros q Hne. rewrite Eh, queue_watermarks, prune_watermarks, decide_False by done. done.
    + intros q m Hne Hm. rewrite Eh. apply queue_other; [done|]. by apply Hps.
    + intros c x before Hne Hx Hb. rewrite Eh. destruct Q1' as [O1 _ _ O4].
      destruct (queue_sendable now p (horizontal_messages cm) _ A5' A6 O1 O4) as (_ & Hc & _).
      rewrite Hc by (intros m _ ->; done). rewrite (HrmpMessages.prune_contents now p _ _ _ Hmsg), Hb.
      case_decide; [|by eexists]. rewrite filter_app. eexists. f_equal. apply list_filter_id.
      intros y ->%list_elem_of_singleton. lia.
Qed.

(** ** Calls of paras to the channel pallet *)

(** What such a call leaves: the channels, what they carry and the watermarks,
    and the messages that wait for a para. *)
Record calm (hw hw' : Hrmp.World (H := H) (B := B)) : Prop := {
  ca_channels : Hrmp.HrmpChannels (Hrmp.hrmp hw') = Hrmp.HrmpChannels (Hrmp.hrmp hw);
  ca_contents : Hrmp.HrmpChannelContents (Hrmp.hrmp hw') = Hrmp.HrmpChannelContents (Hrmp.hrmp hw);
  ca_watermarks : Hrmp.HrmpWatermarks (Hrmp.hrmp hw') = Hrmp.HrmpWatermarks (Hrmp.hrmp hw);
  ca_downward q : ∃ more, Dmp.dmq_contents q (Hrmp.dmp hw') = Dmp.dmq_contents q (Hrmp.dmp hw) ++ more;
}.

Lemma calm_same hw hw' :
  Hrmp.HrmpChannels (Hrmp.hrmp hw') = Hrmp.HrmpChannels (Hrmp.hrmp hw) →
  Hrmp.HrmpChannelContents (Hrmp.hrmp hw') = Hrmp.HrmpChannelContents (Hrmp.hrmp hw) →
  Hrmp.HrmpWatermarks (Hrmp.hrmp hw') = Hrmp.HrmpWatermarks (Hrmp.hrmp hw) →
  Hrmp.dmp hw' = Hrmp.dmp hw → calm hw hw'.
Proof. intros ? ? ? Hd. split; [done..|]. intros q. exists []. by rewrite app_nil_r, Hd. Qed.

Lemma calm_refl hw : calm hw hw.
Proof. by apply calm_same. Qed.

Lemma calm_trans hw1 hw2 hw3 : calm hw1 hw2 → calm hw2 hw3 → calm hw1 hw3.
Proof.
  intros [A1 A2 A3 A4] [B1 B2 B3 B4]. split; [congruence..|]. intros q.
  destruct (A4 q) as [m1 E1], (B4 q) as [m2 E2]. exists (m1 ++ m2). by rewrite E2, E1, app_assoc.
Qed.

Lemma calm_bind {E X Y} (m : M (Hrmp.World (H := H) (B := B)) E X) (f : X → M _ E Y) hw :
  (∀ hw, calm hw (m hw).1) → (∀ a hw, calm hw (f a hw).1) → calm hw ((m ≫= f) hw).1.
Proof.
  intros Hm Hf. unfold mbind, M_bind. specialize (Hm hw). destruct (m hw) as [hw1 [a|e]]; cbn in *; [|done].
  by eapply calm_trans.
Qed.

Lemma queue_downward_grows c p m now (s : Dmp.State (H := H)) q :
  ∃ more, Dmp.dmq_contents q (Dmp.queue_downward_message c p m now s).1 = Dmp.dmq_contents q s ++ more.
Proof.
  unfold Dmp.queue_downward_message, ensure, modify, mbind, M_bind. case_match; cbn; [|exists []; by rewrite app_nil_r].
  unfold Dmp.dmq_contents. cbn. rewrite value_query_insert. destruct (decide (p = q)); [subst; by eexists|].
  exists []. by rewrite app_nil_r.
Qed.

Lemma calm_notify c now p msg hw : calm hw (Hrmp.notify encode_xcm c now p msg hw).1.
Proof. split; [done..|]. intros q. cbn. apply queue_downward_grows. Qed.

Lemma calm_deposit p amount hw : calm hw (Hrmp.reserve_deposit p amount hw).1.
Proof. unfold Hrmp.reserve_deposit. destruct (reserve _ _ _); by apply calm_same. Qed.

Lemma calm_modify {E} (f : Hrmp.World (H := H) (B := B) → _) hw :
  (∀ hw, calm hw (f hw)) → calm hw (modify (E := E) f hw).1.
Proof. intros Hf. apply Hf. Qed.

Lemma calm_call c lives now p call hw :
  calm hw (Hrmp.dispatch encode_xcm c lives now (Hrmp.ParachainOrigin p) call hw).1.
Proof.
  destruct call; cbn [Hrmp.dispatch];
    unfold Hrmp.init_open_channel, Hrmp.accept_open_channel, Hrmp.close_channel, Hrmp.cancel_open_request;
    repeat first [ progress cbn [Hrmp.ensure_parachain Hrmp.ensure_root or_bad_origin]
                 | apply calm_refl | apply calm_notify | apply calm_deposit
                 | apply calm_modify; intros; by apply calm_same
                 | apply calm_bind; intros ].
Qed.

(** ** A session *)

(** What happens between two session changes, with [n] validators: blocks pass,
    candidates are backed, become available, time out or are disputed, messages
    are sent to paras and served, and paras call the channel pallet. *)
Inductive step (n : nat) : BlockNumber * World → BlockNumber * World → Prop :=
| step_block now now' w : now ≤ now' → step n (now, w) (now', w)
| step_backing env ph root (candidates : list Backed) scheduled gv w r w' :
    ParasPallet.config env = cfg → length (ParasPallet.active_validator_keys env) = n →
    1 ≤ ParasPallet.block_number env ≤ u32_max → Forall (λ b, wire_ok (commitments (candidate b))) candidates →
    process_candidates env ph root candidates scheduled gv w = Some (r, w') →
    step n (ParasPallet.block_number env, w) (ParasPallet.block_number env, w')
| step_availability env expected_bits (validators : list ValidatorId) bfs lookup paras_ w freed w' :
    length validators = n → mapM lookup (seq 0 expected_bits) = Some paras_ → NoDup (omap id paras_) →
    Forall (λ b, length (payload b) = expected_bits) (bfs : list (UncheckedSigned ValidatorSignature)) →
    update_pending_availability_and_get_freed_cores code_hash_of env expected_bits validators bfs lookup true w =
      Some (freed, w') →
    step n (ParasPallet.block_number env, w) (ParasPallet.block_number env, w')
| step_timeout now pred w : step n (now, w) (now, (collect_pending pred w).2)
| step_dispute now disputed w : step n (now, w) (now, (collect_disputed disputed w).2)
| step_downward now p m w :
    step n (now, w) (now, on_dmp (λ s, (Dmp.queue_downward_message cfg p m now s).1) w)
| step_upward now w (x : W) s' x' u :
    Ump.process_pending_upward_messages cfg first_message_factor_percent (ump w) x = Some (s', x', u) →
    step n (now, w) (now, on_ump (λ _, s') w)
| step_channel_call now policy lives p call (b : B) w :
    let hw := (run policy (Hrmp.dispatch encode_xcm cfg lives now (Hrmp.ParachainOrigin p) call)
                 (Hrmp.mkWorld (hrmp w) (dmp w) b)).1 in
    step n (now, w) (now, on_hrmp (λ _, Hrmp.hrmp hw) (on_dmp (λ _, Hrmp.dmp hw) w)).

(** The queues are in order, and every pending candidate is still acceptable. *)
Record session_state_ok (n : nat) (x : BlockNumber * World) : Prop := {
  ss_queues : queues_ok x.1 x.2;
  ss_pending : pending_ok n (inclusion x.2);
  ss_acceptable p cm :
    PendingAvailabilityCommitments (inclusion x.2) !! p = Some cm → acceptable x.1 p cm x.2;
}.

(** Steps that leave the queues alone and add no candidate. *)
Lemma quiet_step n now w w' :
  session_state_ok n (now, w) → dmp w' = dmp w → ump w' = ump w → hrmp w' = hrmp w →
  pending_ok n (inclusion w') →
  (∀ p cm, PendingAvailabilityCommitments (inclusion w') !! p = Some cm →
     PendingAvailabilityCommitments (inclusion w) !! p = Some cm ∨ acceptable now p cm w) →
  session_state_ok n (now, w').
Proof.
  intros [[Q1 Q2 Q3] Hp Ha] Ed Eu Eh Hp' Hc. cbn in *. split; cbn; [|done|].
  - split; rewrite ?Eh, ?Eu; done.
  - intros p cm Hcm. assert (acceptable now p cm w) as [] by (destruct (Hc p cm Hcm); [by apply Ha|done]).
    split; rewrite ?Ed, ?Eu, ?Eh; done.
Qed.

(** Steps that change the queues as [acceptable_mono] allows. *)
Lemma mono_step n now w w' :
  session_state_ok n (now, w) → inclusion w' = inclusion w → queues_ok now w' →
  (∀ p, (∃ more, Dmp.dmq_contents p (dmp w') = Dmp.dmq_contents p (dmp w) ++ more) ∧
        (∃ served, Ump.queue_of p (ump w) = served ++ Ump.queue_of p (ump w')) ∧
        Hrmp.HrmpWatermarks (hrmp w') !! p = Hrmp.HrmpWatermarks (hrmp w) !! p ∧
        ∀ m, sendable p (hrmp w) m → sendable p (hrmp w') m) →
  session_state_ok n (now, w').
Proof.
  intros [_ Hp Ha] Ei Hq Hm. cbn in *. split; cbn; rewrite ?Ei; [done|done|].
  intros p cm Hcm. destruct (Hm p) as (? & ? & ? & ?). by eapply acceptable_mono, Ha.
Qed.

Lemma backing_ok n env ph root (candidates : list Backed) scheduled gv w r w' :
  roomy_queues → ParasPallet.config env = cfg → length (ParasPallet.active_validator_keys env) = n →
  1 ≤ ParasPallet.block_number env ≤ u32_max → Forall (λ b, wire_ok (commitments (candidate b))) candidates →
  process_candidates env ph root candidates scheduled gv w = Some (r, w') →
  session_state_ok n (ParasPallet.block_number env, w) → session_state_ok n (ParasPallet.block_number env, w').
Proof.
  intros Hr Hcfg <- Hnow Hwire Hpr Hs. pose proof (ss_pending _ _ Hs) as Hp. cbn in Hp.
  pose proof (process_candidates_pending_ok env ph root candidates scheduled gv w r w' Hp Hpr) as Hp'.
  destruct (process_candidates_cases env ph root candidates scheduled gv w)
    as [[e E]|[E|(as_ & accs & E & _ & _ & Hall)]]; rewrite Hpr in E; simplify_eq; [done|done|].
  destruct (note_all_frame env (zip candidates accs) w) as (_ & Ed & Eu & Eh & _).
  eapply quiet_step; [exact Hs|done..|]. intros p cm [?|(b & x & Hin & <- & ->)]%note_all_commitments; [by left|].
  right. apply elem_of_zip_l in Hin as Hb. rewrite Forall_forall in Hwire.
  assert (verify_backed_candidate env ph root b w = Ok tt) as Hv.
  { clear -Hall Hb. induction Hall as [|b' a x ??? Ha _ IH]; [by apply elem_of_nil in Hb|].
    apply elem_of_cons in Hb as [->|Hb]; [apply Ha|by apply IH]. }
  apply verify_verified in Hv as (_ & _ & _ & _ & _ & Hout). rewrite Hcfg in Hout.
  apply outputs_acceptable; [done|apply Hs|by apply Hwire|done|exact Hout].
Qed.

Lemma conclude_queues env threshold freed w p c cm :
  roomy_queues → queues_ok (ParasPallet.block_number env) w → acceptable (ParasPallet.block_number env) p cm w →
  reached threshold c → PendingAvailabilityCommitments (inclusion w) !! p = Some cm →
  para_id (pending_descriptor c) = p →
  let w' := (conclude code_hash_of env true threshold (freed, w) (p, c)).2 in
  queues_ok (ParasPallet.block_number env) w' ∧ delivered p cm (ParasPallet.block_number env) w w' ∧
  apart p (ParasPallet.block_number env) w w'.
Proof.
  intros Hr [Q1 Q2 Q3] [A1 A2 A3 A4 A7 A5 A6] Hre Hcm <-. cbv zeta. unfold conclude.
  rewrite decide_True by done. cbn. rewrite Hcm. cbn [snd].
  set (w1 := on_inclusion (set_commitments _) _).
  destruct (enact_delivers env (relay_parent_number c) (mkCommitted (pending_descriptor c) cm) (backers c)
    (availability_votes c) (core c) (backing_group c) w1 Hr) as (E1 & [D1 D2 D3 D4] & [P1 P2 P3 P4 P5]).
  - by split.
  - by split.
  - split; [done|]. by split.
Qed.

Lemma conclude_all_ok env threshold xs freed w :
  let now := ParasPallet.block_number env in
  roomy_queues → concludable xs w → queues_ok now w →
  (∀ p cm, PendingAvailabilityCommitments (inclusion w) !! p = Some cm → acceptable now p cm w) →
  let w' := (foldl (conclude code_hash_of env true threshold) (freed, w) xs).2 in
  queues_ok now w' ∧
  (∀ p cm, PendingAvailabilityCommitments (inclusion w') !! p = Some cm → acceptable now p cm w') ∧
  (∀ p c cm, (p, c) ∈ xs → reached threshold c →
     PendingAvailabilityCommitments (inclusion w) !! p = Some cm → delivered p cm now w w') ∧
  ∀ p cm w0, p ∉ xs.*1 → delivered p cm now w0 w → delivered p cm now w0 w'.
Proof.
  cbv zeta. intros Hr. revert freed w. induction xs as [|[p c] xs IH]; intros freed w Hc Hq Ha.
  { split_and!; try done. by intros ??? ?%elem_of_nil. }
  cbn [foldl]. pose proof Hc as [Hnd Hx]. cbn in Hnd. apply NoDup_cons in Hnd as [Hp _].
  destruct (Hx p c) as [[cm Hcm] Hid]; [left|]. clear Hx.
  destruct (conclude_step code_hash_of env true threshold freed w p c xs Hc) as (w1 & E1 & Hc1 & Hq1 & _ & Hp1).
  assert (queues_ok (ParasPallet.block_number env) w1 ∧ apart p (ParasPallet.block_number env) w w1 ∧
    (reached threshold c → delivered p cm (ParasPallet.block_number env) w w1) ∧
    (∀ q qm, PendingAvailabilityCommitments (inclusion w1) !! q = Some qm →
       acceptable (ParasPallet.block_number env) q qm w1)) as (Hok1 & Hap & Hdel & Ha1).
  { destruct (decide (reached threshold c)) as [Hre|Hre].
    - destruct (conclude_queues env threshold freed w p c cm) as (Hok & Hdel & Hap); try done; [by apply Ha|].
      rewrite E1 in Hok, Hdel, Hap. split_and!; [done..|]. intros q qm Hqm.
      destruct (decide (q = p)) as [->|Hne]; [by destruct Hp1 as (_ & E & _); rewrite E in Hqm|].
      eapply apart_acceptable; [done|done|]. apply Ha. by destruct (Hq1 q Hne) as (_ & <- & _).
    - rewrite conclude_waits in E1 by done. simplify_eq. split_and!; [by destruct Hq; split|by split; eauto|done|].
      intros q qm Hqm. destruct (Ha q qm Hqm). by split. }
  rewrite E1.
  destruct (IH (freed ++ (if decide (reached threshold c) then [(core c, hash c)] else [])) w1 Hc1 Hok1 Ha1)
    as (I1 & I2 & I3 & I4).
  split_and!; [done|done| |].
  - intros q d dm [[= -> ->]|Hin]%elem_of_cons Hre Hdm.
    + rewrite Hcm in Hdm. simplify_eq. apply I4; [done|]. by apply Hdel.
    + assert (q ≠ p) as Hne. { intros ->. apply Hp, list_elem_of_fmap. by exists (p, d). }
      eapply apart_delivered_before; [exact Hap|done|]. eapply I3; [done|done|].
      by destruct (Hq1 q Hne) as (_ & -> & _).
  - intros q qm w0 Hqx Hd. cbn in Hqx. apply not_elem_of_cons in Hqx as [Hne Hqx].
    apply I4; [done|]. by eapply apart_delivered_after.
Qed.

Lemma availability_ok n env expected_bits (validators : list ValidatorId) bfs lookup paras_ w freed w' :
  roomy_queues → length validators = n → mapM lookup (seq 0 expected_bits) = Some paras_ →
  NoDup (omap id paras_) →
  Forall (λ b, length (payload b) = expected_bits) (bfs : list (UncheckedSigned ValidatorSignature)) →
  update_pending_availability_and_get_freed_cores code_hash_of env expected_bits validators bfs lookup true w =
    Some (freed, w') →
  session_state_ok n (ParasPallet.block_number env, w) →
  session_state_ok n (ParasPallet.block_number env, w') ∧
  ∀ i p c cm, paras_ !! i = Some (Some p) → PendingAvailability (inclusion w) !! p = Some c →
    PendingAvailabilityCommitments (inclusion w) !! p = Some cm →
    reached (availability_threshold n) (with_votes (tally bfs i (availability_votes c)) c) →
    delivered p cm (ParasPallet.block_number env) w w'.
Proof.
  intros Hr <- Hm Hnd Hlen Hup [Hq Hp Ha]. cbn in *.
  pose proof (update_pending_ok code_hash_of env expected_bits validators bfs lookup paras_ true w freed w'
    Hp Hm Hnd Hlen Hup) as Hp'.
  destruct (update_shape code_hash_of env expected_bits validators bfs lookup paras_ true w Hp Hm Hnd Hlen)
    as (xs & s & Hup' & Hcon & Hps & Hcs & Hin). rewrite Hup in Hup'. injection Hup' as Hfold.
  destruct (conclude_all_ok env (availability_threshold (length validators)) xs [] (on_inclusion (λ _, s) w) Hr Hcon)
    as (I1 & I2 & I3 & _).
  - destruct Hq. by split.
  - cbn. rewrite Hcs. intros p cm Hcm. destruct (Ha p cm Hcm). by split.
  - rewrite <-Hfold in I1, I2, I3. cbn in I1, I2, I3. split; [by split|].
    intros i p c cm Hi Hc Hcm Hre. destruct (I3 p (with_votes (tally bfs i (availability_votes c)) c) cm) as [];
      [apply Hin; eauto|done|by rewrite Hcs|]. by split.
Qed.

Lemma channel_call_ok n now policy lives p call b w :
  HrmpMessages.roomy cfg → session_state_ok n (now, w) →
  let hw := (run policy (Hrmp.dispatch encode_xcm cfg lives now (Hrmp.ParachainOrigin p) call)
               (Hrmp.mkWorld (hrmp w) (dmp w) b)).1 in
  session_state_ok n (now, on_hrmp (λ _, Hrmp.hrmp hw) (on_dmp (λ _, Hrmp.dmp hw) w)).
Proof.
  intros Hcfg Hs hw. pose proof (ss_queues _ _ Hs) as [[O1 O2 O3 O4] Q2 Q3]. cbn in *.
  set (hw0 := Hrmp.mkWorld (hrmp w) (dmp w) b) in *.
  assert (calm hw0 hw) as [C1 C2 C3 C4].
  { apply (run_preserves (calm hw0)); [apply calm_refl|apply calm_call]. }
  assert (HrmpMessages.all_ok now (Hrmp.hrmp hw)) as Hall.
  { apply (run_preserves (λ hw, HrmpMessages.all_ok now (Hrmp.hrmp hw))); [by split|].
    destruct (HrmpMessages.dispatch_all_ok encode_xcm cfg lives now (Hrmp.ParachainOrigin p) call hw0) as [F1 F2];
      [done|done|done|by split|].
    split; [by apply Hrmp.channels_ok_dispatch|by apply HrmpRequests.requests_ok_dispatch|done|done]. }
  eapply mono_step; [exact Hs|done|by split|]. intros q. split_and!; cbn.
  - apply C4.
  - by exists [].
  - by rewrite C3.
  - intros m (ch & Hch & Hrest). exists ch. rewrite C1. unfold Hrmp.contents in *. rewrite C2. done.
Qed.

Lemma session_step_ok n x y :
  roomy_queues → HrmpMessages.roomy cfg → step n x y → session_state_ok n x → session_state_ok n y.
Proof.
  intros Hr Hcfg Hst Hs. destruct Hst as [now now' w Hle|env ph root cands sched gv w r w' ? ? ? ? Hpr|
    env eb validators bfs lookup paras_ w freed w' ? ? ? ? Hup|now pred w|now disputed w|now p m w|
    now w x s' x' u Hpu|now policy lives p call b w].
  - destruct Hs as [[[O1 O2 O3 O4] Q2 Q3] Hp Ha]. cbn in *. split; cbn; [|done|].
    + split; [|done|done]. split; try done. by eapply HrmpMessages.messages_ok_later.
    + intros p cm Hcm. destruct (Ha p cm Hcm). split; try done. lia.
  - by eapply backing_ok.
  - by eapply availability_ok.
  - unfold collect_pending. cbn. destruct (drop_all_spec true
      (filter (λ x, pred (core x.2) (backed_in_number x.2) = true) (storage_iter (PendingAvailability (inclusion w)))).*1 w)
      as (_ & Hc & _ & Ed & Eu & Eh).
    eapply quiet_step; [exact Hs|done|done|done|apply drop_all_pending_ok, Hs|].
    intros p cm. rewrite Hc. case_decide; [done|by left].
  - unfold collect_disputed. cbn. destruct (drop_all_spec false
      (filter (λ x, hash x.2 ∈ disputed) (storage_iter (PendingAvailability (inclusion w)))).*1 w)
      as (_ & Hc & _ & Ed & Eu & Eh).
    eapply quiet_step; [exact Hs|done|done|done|apply drop_all_pending_ok, Hs|].
    intros p' cm. rewrite Hc. case_decide; [done|by left].
  - eapply mono_step; [exact Hs|done|destruct (ss_queues _ _ Hs); by split|]. intros q.
    split_and!; cbn; [apply queue_downward_grows|by exists []|done|done].
  - pose proof (ss_queues _ _ Hs) as [Q1 Q2 Q3]. cbn in *.
    assert (∀ q, ∃ served, Ump.queue_of q (ump w) = served ++ Ump.queue_of q s') as Hsuf
      by (intros q; by eapply Ump.process_suffix).
    eapply mono_step; [exact Hs|done| |].
    + split; cbn; [done|by eapply Ump.process_ok|]. intros q. destruct (Hsuf q) as [served E].
      specialize (Q3 q). rewrite E, length_app, Ump.total_bytes_app in Q3.
      pose proof (Ump.total_bytes_nonneg served). lia.
    + intros q. split_and!; cbn; [exists []; by rewrite app_nil_r|apply Hsuf|done|done].
  - by apply channel_call_ok.
Qed.

(** C3. The acceptance criteria checked at backing hold until inclusion, and no
    message is lost.  Take a session that starts with the queues in order and
    no candidate pending, and let candidates be backed, included, timed out and
    disputed, messages be sent down and served, and paras call the channel
    pallet, in any order.  When bitfields then make a candidate available, its
    inclusion removes from the downward queue exactly the messages it has
    processed, which are there; appends all its upward messages to its queue;
    advances its watermark; and puts each of its horizontal messages at the end
    of its channel. *)
Theorem included_messages_delivered n now0 w0 env w expected_bits (validators : list ValidatorId)
    (bfs : list (UncheckedSigned ValidatorSignature)) lookup paras_ freed w' :
  roomy_queues → HrmpMessages.roomy cfg →
  queues_ok now0 w0 → PendingAvailability (inclusion w0) = ∅ → PendingAvailabilityCommitments (inclusion w0) = ∅ →
  rtc (step n) (now0, w0) (ParasPallet.block_number env, w) →
  length validators = n → mapM lookup (seq 0 expected_bits) = Some paras_ → NoDup (omap id paras_) →
  Forall (λ b, length (payload b) = expected_bits) bfs →
  update_pending_availability_and_get_freed_cores code_hash_of env expected_bits validators bfs lookup true w =
    Some (freed, w') →
  ∀ i p c cm, paras_ !! i = Some (Some p) → PendingAvailability (inclusion w) !! p = Some c →
    PendingAvailabilityCommitments (inclusion w) !! p = Some cm →
    (availability_threshold n ≤ length (set_bits (tally bfs i (availability_votes c))))%nat →
    delivered p cm (ParasPallet.block_number env) w w'.
Proof.
  intros Hr Hcfg Hq Hp Hc Hrtc Hn Hm Hnd Hlen Hup.
  assert (session_state_ok n (now0, w0)) as Hs0.
  { split; cbn; [done|by apply pending_ok_empty|]. intros p cm. by rewrite Hc, lookup_empty. }
  assert (session_state_ok n (ParasPallet.block_number env, w)) as Hs.
  { clear -Hr Hcfg Hrtc Hs0. induction Hrtc; [done|]. by eauto using session_step_ok. }
  intros i p c cm Hi Hpc Hcm Hre. rewrite length_set_bits in Hre.
  eapply (proj2 (availability_ok n env expected_bits validators bfs lookup paras_ w freed w' Hr Hn Hm Hnd Hlen Hup Hs));
    done.
Qed.
End Relay.

(** ** Examples: para 2000 sends a message up and one to para 3000 *)

Section Examples.
#[local] Existing Instances Hrmp.example_hash Hrmp.example_currency Ump.byte_sink example_blake2 example_signatures.
#[local] Abbreviation ExamplePending := (CandidatePendingAvailability (CollatorId := Z) (CollatorSignature := unit)).
#[local] Instance example_iter : StorageIter ParaId ExamplePending :=
  {| storage_iter := map_to_list; storage_iter_perm _ := reflexivity _ |}.

Definition message_config : HostConfiguration :=
  fold_left (λ c call, Configuration.updater call c)
    [Configuration.set_max_upward_queue_count 8; Configuration.set_max_upward_queue_size 64;
     Configuration.set_max_upward_message_size 16; Configuration.set_max_upward_message_num_per_candidate 2]
    Hrmp.example_config.
Definition message_env (now : BlockNumber) : ParasPallet.Env Z :=
  ParasPallet.mkEnv now 1 [10; 11; 12] message_config.
Definition message_world0 : World (CollatorId := Z) (CollatorSignature := unit) (H := list byte) :=
  mkWorld empty_state example_para_state Dmp.empty_state Ump.empty_state (Hrmp.hrmp HrmpMessages.world5) [].
Definition message_commitments : CandidateCommitments :=
  mkCommitments [[Byte.x05]] [Hrmp.mkOutbound 3000 [Byte.x04; Byte.x06]] None [] 0 7.
Definition message_candidate : BackedCandidate Z unit Z :=
  mkBacked (mkCommitted (mkDescriptor 2000 9 3 7 0 0 tt 0 7) message_commitments) [Implicit 10; Explicit 11] [true; true].

Definition message_backed : option (result Error ProcessedCandidates * World) :=
  process_candidates (message_env 8) 9 1 [message_candidate] example_scheduled (λ _, Some [0; 1]%nat) message_world0.
Definition message_world1 : World := match message_backed with Some (_, w) => w | None => message_world0 end.
Definition message_included : option (list (Scheduler.CoreIndex * CandidateHash) * World) :=
  update_pending_availability_and_get_freed_cores (λ _, 0) (message_env 9) 1 [10; 11; 12]
    [example_bitfield 0 true; example_bitfield 2 true] (λ _, Some (Some 2000)) true message_world1.
Definition message_world2 : World := match message_included with Some (_, w) => w | None => message_world0 end.

Lemma message_queues_ok : queues_ok 8 64 7 message_world0.
Proof.
  split; [exact (HrmpMessages.reachable_all_ok _ _ _ _ _ _ HrmpMessages.world5_reachable)|apply Ump.empty_ok|].
  intros p. cbn. unfold Ump.queue_of, value_query. cbn. rewrite lookup_empty. vm_compute. split; discriminate.
Qed.

Lemma message_steps :
  rtc (step (ValidatorId := Z) (ValidatorSignature := Z) (B := gmap ParaId Z) (λ _, 0) (λ _, []) 100 message_config 3)
    (7, message_world0) (9, message_world1).
Proof.
  apply (rtc_l _ _ (8, message_world0)); [by apply step_block|].
  apply (rtc_l _ _ (8, message_world1)); [|apply rtc_once; by apply step_block].
  destruct message_backed as [[r w]|] eqn:E; [|vm_compute in E; discriminate].
  assert (message_world1 = w) as -> by (unfold message_world1; by rewrite E).
  refine (step_backing (λ _, 0) (λ _, []) 100 message_config 3 (message_env 8) 9 1 [message_candidate]
    example_scheduled (λ _, Some [0; 1]%nat) message_world0 r w eq_refl eq_refl _ _ E).
  - split; discriminate.
  - repeat constructor; cbn; unfold u32_max; lia.
Qed.

Lemma included_messages_delivered_witness :
  delivered 2000 message_commitments 9 message_world1 message_world2 ∧
  Ump.queue_of 2000 (ump message_world2) = [[Byte.x05]] ∧
  last (Hrmp.contents Hrmp.example_channel (hrmp message_world2)) = Some (Hrmp.mkInbound 9 [Byte.x04; Byte.x06]).
Proof.
  split; [|split; vm_compute; reflexivity].
  destruct message_included as [[freed w]|] eqn:E; [|vm_compute in E; discriminate].
  assert (message_world2 = w) as -> by (unfold message_world2; by rewrite E).
  destruct (PendingAvailability (inclusion message_world1) !! 2000) as [c|] eqn:Ec; [|vm_compute in Ec; discriminate].
  refine (included_messages_delivered (λ _, 0) (λ _, []) 100 message_config 8 64 3 7 message_world0 (message_env 9)
    message_world1 1 [10; 11; 12] [example_bitfield 0 true; example_bitfield 2 true] (λ _, Some (Some 2000))
    [Some 2000] freed w _ _ message_queues_ok eq_refl eq_refl message_steps eq_refl eq_refl (NoDup_singleton _) _ E
    0 2000 c message_commitments eq_refl Ec _ _).
  - split; vm_compute; discriminate.
  - split; vm_compute; repeat split; discriminate.
  - repeat constructor.
  - vm_compute. reflexivity.
  - vm_compute in Ec. injection Ec as <-. vm_compute. lia.
Defined.
End Examples.
End InclusionMessages.
