(* ===== verification/Disputes.v ===== *)
(** * Disputes about candidates

    [runtime/parachains/src/disputes.rs], with the dispute statements of
    [primitives/src/v2/mod.rs]: statement sets are filtered and then imported,
    a supermajority on one side concludes a dispute, and the chain is frozen
    when a candidate it has included turns out invalid.  The rewards and
    punishments the pallet asks for, its events and the logs it leaves for the
    consensus engine are kept as lists. *)

From S2P Require Import Prelude.
From S2P Require Import Vectors.
From S2P Require Import Codec.
From S2P Require Import Frame.
From S2P Require Import Configuration.
From S2P Require Import Hrmp.
From S2P Require Import Scheduler.
From S2P Require Import ParasPallet.
From S2P Require Import Candidates.
Import Candidates.

(** [IsSortedBy::is_sorted_by]: no element is greater than the next. *)
Fixpoint is_sorted_by {A} (cmp : A → A → comparison) (l : list A) : bool :=
  match l with
  | x :: (y :: _) as l' => match cmp x y with Gt => false | _ => is_sorted_by cmp l' end
  | _ => true
  end.

(** [Vec::dedup_by] after a retained element [prev]. *)
Fixpoint dedup_after {A} (same : A → A → bool) (prev : A) (l : list A) : list A :=
  match l with
  | [] => []
  | x :: l => if same x prev then dedup_after same prev l else x :: dedup_after same x l
  end.

Definition dedup_by {A} (same : A → A → bool) (l : list A) : list A :=
  match l with [] => [] | x :: l => x :: dedup_after same x l end.

(** [Vec::swap_remove]: the last element takes the place of the removed one;
    panics out of range. *)
Definition swap_remove {A} (l : list A) (i : nat) : option (list A) :=
  _ ← l !! i;
  z ← last l;
  Some (take (length l - 1) (<[i := z]> l)).

(** The bitwise operations on bit vectors, of one length wherever they are used. *)
Definition bits_or (a b : list bool) : list bool := zip_with orb a b.
Definition bits_and (a b : list bool) : list bool := zip_with andb a b.
Definition bits_not (a : list bool) : list bool := negb <$> a.

Module Disputes.

(** ** Statements *)

Inductive ValidDisputeStatementKind :=
| ValidExplicit
| BackingSeconded (inclusion_parent : Hash)
| BackingValid (inclusion_parent : Hash)
| ApprovalChecking.

Inductive InvalidDisputeStatementKind := InvalidExplicit.

Inductive DisputeStatement :=
| Valid (k : ValidDisputeStatementKind)
| Invalid (k : InvalidDisputeStatementKind).

Definition indicates_validity (st : DisputeStatement) : bool :=
  match st with Valid _ => true | Invalid _ => false end.

(** [ExplicitDisputeStatement::signing_payload]: ["DISP"], the verdict, the
    candidate and the session. *)
Definition explicit_payload (valid : bool) (h : CandidateHash) (session : SessionIndex) : list byte :=
  [Byte.x44; Byte.x49; Byte.x53; Byte.x50; if valid then Byte.x01 else Byte.x00] ++
  hash_bytes h ++ u32_to_le_bytes session.

(** [ApprovalVote::signing_payload]: ["APPR"], the candidate and the session. *)
Definition approval_payload (h : CandidateHash) (session : SessionIndex) : list byte :=
  [Byte.x41; Byte.x50; Byte.x50; Byte.x52] ++ hash_bytes h ++ u32_to_le_bytes session.

(** What a validator has signed for a statement. *)
Definition statement_payload (st : DisputeStatement) (h : CandidateHash) (session : SessionIndex) : list byte :=
  match st with
  | Valid ValidExplicit => explicit_payload true h session
  | Valid (BackingSeconded parent) => signed_payload (Implicit tt) h (mkContext session parent)
  | Valid (BackingValid parent) => signed_payload (Explicit tt) h (mkContext session parent)
  | Valid ApprovalChecking => approval_payload h session
  | Invalid InvalidExplicit => explicit_payload false h session
  end.

Section Sets.
Context {ValidatorSignature : Type}.
#[local] Abbreviation Vote := (DisputeStatement * ValidatorIndex * ValidatorSignature)%type.

Record DisputeStatementSet := mkSet {
  set_candidate_hash : CandidateHash;
  set_session : SessionIndex;
  statements : list Vote;
}.
End Sets.
Arguments DisputeStatementSet : clear implicits.

(** ** Dispute states *)

Record DisputeState := mkDispute {
  validators_for : list bool;
  validators_against : list bool;
  start : BlockNumber;
  concluded_at : option BlockNumber;
}.

(** The three bits of [DisputeStateFlags]. *)
Record DisputeStateFlags := mkFlags {
  CONFIRMED : bool;
  FOR_SUPERMAJORITY : bool;
  AGAINST_SUPERMAJORITY : bool;
}.

Definition participants (d : DisputeState) : list bool := bits_or (validators_for d) (validators_against d).

Definition from_state (d : DisputeState) : DisputeStateFlags :=
  let n := length (validators_for d) in
  let supermajority := ParasPallet.supermajority_threshold n in
  mkFlags (bool_decide (ParasPallet.byzantine_threshold n < ParasPallet.count_ones (participants d))%nat)
          (bool_decide (supermajority ≤ ParasPallet.count_ones (validators_for d))%nat)
          (bool_decide (supermajority ≤ ParasPallet.count_ones (validators_against d))%nat).

(** [post - pre] *)
Definition flags_sub (post pre : DisputeStateFlags) : DisputeStateFlags :=
  mkFlags (CONFIRMED post && negb (CONFIRMED pre))
          (FOR_SUPERMAJORITY post && negb (FOR_SUPERMAJORITY pre))
          (AGAINST_SUPERMAJORITY post && negb (AGAINST_SUPERMAJORITY pre)).

Inductive SpamSlotChange := Inc | Dec.

Record ImportSummary := mkSummary {
  sum_state : DisputeState;
  spam_slot_changes : list (ValidatorIndex * SpamSlotChange);
  slash_against : list ValidatorIndex;
  slash_for : list ValidatorIndex;
  sum_new_participants : list bool;
  new_flags : DisputeStateFlags;
}.

Inductive VoteImportError := ImportIndexOutOfBounds | ImportDuplicateStatement.

Record ImportUndo := mkUndo {
  undo_validator_index : ValidatorIndex;
  undo_valid : bool;
  new_participant : bool;
}.

Record DisputeStateImporter := mkImporter {
  imp_state : DisputeState;
  imp_now : BlockNumber;
  new_participants : list bool;
  pre_flags : DisputeStateFlags;
}.

Definition new_importer (d : DisputeState) (now : BlockNumber) : DisputeStateImporter :=
  mkImporter d now (replicate (length (validators_for d)) false) (from_state d).

(** The bits of one side, and the state with that side changed. *)
Definition side (valid : bool) (d : DisputeState) : list bool :=
  if valid then validators_for d else validators_against d.

Definition set_side (valid : bool) (f : list bool → list bool) (d : DisputeState) : DisputeState :=
  if valid then mkDispute (f (validators_for d)) (validators_against d) (start d) (concluded_at d)
  else mkDispute (validators_for d) (f (validators_against d)) (start d) (concluded_at d).

(** [DisputeStateImporter::import] *)
Definition import (i : DisputeStateImporter) (validator : ValidatorIndex) (valid : bool) :
    result VoteImportError (ImportUndo * DisputeStateImporter) :=
  match side valid (imp_state i) !! validator with
  | None => Err ImportIndexOutOfBounds
  | Some true => Err ImportDuplicateStatement
  | Some false =>
      if decide (length (new_participants i) ≤ validator)%nat then Err ImportIndexOutOfBounds
      else
        let fresh := match side (negb valid) (imp_state i) !! validator with
                     | Some b => negb b
                     | None => false
                     end in
        Ok (mkUndo validator valid fresh,
            mkImporter (set_side valid <[validator := true]> (imp_state i)) (imp_now i)
              (if fresh then <[validator := true]> (new_participants i) else new_participants i) (pre_flags i))
  end.

(** [DisputeStateImporter::undo], of an import just made, so that the index is
    in range. *)
Definition undo (i : DisputeStateImporter) (u : ImportUndo) : DisputeStateImporter :=
  mkImporter (set_side (undo_valid u) <[undo_validator_index u := false]> (imp_state i)) (imp_now i)
    (if new_participant u then <[undo_validator_index u := false]> (new_participants i) else new_participants i)
    (pre_flags i).

(** [DisputeStateImporter::finish] *)
Definition finish (i : DisputeStateImporter) : ImportSummary :=
  let pre := pre_flags i in
  let d := imp_state i in
  let post := from_state d in
  let changes :=
    match CONFIRMED pre, CONFIRMED post with
    | false, false => (λ v, (v, Inc)) <$> set_bits (new_participants i)
    | false, true => (λ v, (v, Dec)) <$> set_bits (bits_and (participants d) (bits_not (new_participants i)))
    | true, _ => []
    end in
  let conclude d :=
    match concluded_at d with
    | None => mkDispute (validators_for d) (validators_against d) (start d) (Some (imp_now i))
    | Some _ => d
    end in
  let for_ := negb (FOR_SUPERMAJORITY pre) && FOR_SUPERMAJORITY post in
  let against := negb (AGAINST_SUPERMAJORITY pre) && AGAINST_SUPERMAJORITY post in
  let d := if for_ then conclude d else d in
  let d := if against then conclude d else d in
  mkSummary d changes
    (if for_ then set_bits (validators_against d) else [])
    (if against then set_bits (validators_for d) else [])
    (new_participants i) (flags_sub post pre).

Definition has_supermajority_against (d : DisputeState) : bool :=
  bool_decide (ParasPallet.supermajority_threshold (length (validators_against d)) ≤
               ParasPallet.count_ones (validators_against d))%nat.

(** The loop of [decrement_spam]; it also returns the participants. *)
Definition decrement_spam (spam_slots : list Z) (d : DisputeState) : list bool * list Z :=
  let participating := participants d in
  (participating,
   if decide (ParasPallet.count_ones participating ≤ ParasPallet.byzantine_threshold (length spam_slots))%nat
   then foldl (λ slots v, alter (λ x, saturating_sub x 1) v slots) spam_slots (set_bits participating)
   else spam_slots).

(** ** The storage of the pallet *)

Inductive DisputeLocation := Local | Remote.
Inductive DisputeResult := ResultValid | ResultInvalid.

Inductive Event :=
| DisputeInitiated (h : CandidateHash) (l : DisputeLocation)
| DisputeConcluded (h : CandidateHash) (r : DisputeResult)
| DisputeTimedOut (h : CandidateHash)
| Revert (n : BlockNumber).

(** The calls of [RewardValidators] and [PunishValidators]. *)
Inductive Hook :=
| reward_dispute_statement (session : SessionIndex) (l : list ValidatorIndex)
| punish_for_invalid (session : SessionIndex) (l : list ValidatorIndex)
| punish_against_valid (session : SessionIndex) (l : list ValidatorIndex)
| punish_inconclusive (session : SessionIndex) (l : list ValidatorIndex).

Inductive Error :=
| DuplicateDisputeStatementSets
| AncientDisputeStatement
| ValidatorIndexOutOfBounds
| InvalidSignature
| DuplicateStatement
| PotentialSpam
| SingleSidedDispute.

Definition error_of_import (e : VoteImportError) : Error :=
  match e with
  | ImportIndexOutOfBounds => ValidatorIndexOutOfBounds
  | ImportDuplicateStatement => DuplicateStatement
  end.

Record State := mkState {
  LastPrunedSession : option SessionIndex;
  DisputesMap : gmap (SessionIndex * CandidateHash) DisputeState;
  Included : gmap (SessionIndex * CandidateHash) BlockNumber;
  SpamSlots : gmap SessionIndex (list Z);
  Frozen : option BlockNumber;
  Events : list Event;
  Hooks : list Hook;
  RevertLogs : list BlockNumber;
}.

Definition empty_state : State := mkState None ∅ ∅ ∅ None [] [] [].

Definition set_disputes f (s : State) : State :=
  mkState (LastPrunedSession s) (f (DisputesMap s)) (Included s) (SpamSlots s) (Frozen s) (Events s) (Hooks s)
    (RevertLogs s).
Definition set_included f (s : State) : State :=
  mkState (LastPrunedSession s) (DisputesMap s) (f (Included s)) (SpamSlots s) (Frozen s) (Events s) (Hooks s)
    (RevertLogs s).
Definition set_spam f (s : State) : State :=
  mkState (LastPrunedSession s) (DisputesMap s) (Included s) (f (SpamSlots s)) (Frozen s) (Events s) (Hooks s)
    (RevertLogs s).
Definition set_frozen x (s : State) : State :=
  mkState (LastPrunedSession s) (DisputesMap s) (Included s) (SpamSlots s) x (Events s) (Hooks s) (RevertLogs s).
Definition set_last_pruned x (s : State) : State :=
  mkState x (DisputesMap s) (Included s) (SpamSlots s) (Frozen s) (Events s) (Hooks s) (RevertLogs s).
Definition deposit_event e (s : State) : State :=
  mkState (LastPrunedSession s) (DisputesMap s) (Included s) (SpamSlots s) (Frozen s) (Events s ++ [e]) (Hooks s)
    (RevertLogs s).
Definition call_hook h (s : State) : State :=
  mkState (LastPrunedSession s) (DisputesMap s) (Included s) (SpamSlots s) (Frozen s) (Events s) (Hooks s ++ [h])
    (RevertLogs s).
Definition deposit_log n (s : State) : State :=
  mkState (LastPrunedSession s) (DisputesMap s) (Included s) (SpamSlots s) (Frozen s) (Events s) (Hooks s)
    (RevertLogs s ++ [n]).

(** ** Freezing *)

Definition is_frozen (s : State) : bool := bool_decide (is_Some (Frozen s)).

Definition revert_and_freeze (revert_to : BlockNumber) (s : State) : State :=
  if match Frozen s with Some last => bool_decide (revert_to < last) | None => true end then
    let s := set_frozen (Some revert_to) s in
    let revert := u32_add revert_to 1 in
    deposit_log revert (deposit_event (Revert revert) s)
  else s.

Definition included_state (session : SessionIndex) (h : CandidateHash) (s : State) : option BlockNumber :=
  Included s !! (session, h).

Definition concluded_invalid (session : SessionIndex) (h : CandidateHash) (s : State) : bool :=
  match DisputesMap s !! (session, h) with
  | Some d => has_supermajority_against d
  | None => false
  end.

Definition note_included (session : SessionIndex) (h : CandidateHash) (included_in : BlockNumber) (s : State) :
    State :=
  if decide (included_in = 0) then s
  else
    let revert_to := u32_sub included_in 1 in
    let s := set_included (insert (session, h) revert_to) s in
    match DisputesMap s !! (session, h) with
    | Some d =>
        let s := set_spam (alter (λ slots, (decrement_spam slots d).2) session) s in
        if has_supermajority_against d then revert_and_freeze revert_to s else s
    | None => s
    end.

(** The only call: governance lifts the freeze. *)
Definition force_unfreeze {O A : Type} `{!FrameOrigin O A} (origin : O) : Dispatch State Error :=
  or_bad_origin (ensure_root origin) ;;
  modify (set_frozen None).

(** ** Blocks and sessions *)

(** A dispute met by the loop of [initializer_initialize]. *)
Definition time_out (config : HostConfiguration) (now : BlockNumber) (s : State)
    (x : SessionIndex * CandidateHash * DisputeState) : State :=
  let '((session, h), d) := x in
  if decide (concluded_at d = None ∧ u32_add (start d) (dispute_conclusion_by_time_out_period config) < now) then
    let s := deposit_event (DisputeTimedOut h) s in
    let d := mkDispute (validators_for d) (validators_against d) (start d) (Some now) in
    let s := set_disputes (insert (session, h) d) s in
    if decide (is_Some (Included s !! (session, h))) then s
    else
      match SpamSlots s !! session with
      | None => s
      | Some slots =>
          let '(participating, slots) := decrement_spam slots d in
          call_hook (punish_inconclusive session (set_bits participating))
            (set_spam (insert session slots) s)
      end
  else s.

Definition initializer_initialize `{!StorageIter (SessionIndex * CandidateHash) DisputeState}
    (config : HostConfiguration) (now : BlockNumber) (s : State) : State :=
  foldl (time_out config now) s (storage_iter (DisputesMap s)).

Definition prune_session (s : State) (session : SessionIndex) : State :=
  let s := set_disputes (filter (λ x, x.1.1 ≠ session)) s in
  let s := set_included (filter (λ x, x.1.1 ≠ session)) s in
  set_spam (delete session) s.

(** The range [a..=b]. *)
Definition range_inclusive (a b : Z) : list Z := seqZ a (b - a + 1).

Definition initializer_on_new_session (config : HostConfiguration) (session : SessionIndex) (s : State) : State :=
  if decide (session ≤ u32_add (dispute_period config) 1) then s
  else
    let pruning_target := u32_sub (u32_sub session (dispute_period config)) 1 in
    let to_prune := match LastPrunedSession s with
                    | Some last_pruned => range_inclusive (u32_add last_pruned 1) pruning_target
                    | None => [pruning_target]
                    end in
    set_last_pruned (Some pruning_target) (foldl prune_session s to_prune).

(** ** Statement sets *)

Inductive VerifyDisputeSignatures := VerifyYes | VerifySkip.

(** [StatementSetFilter] *)
Inductive StatementSetFilter := RemoveAll | RemoveIndices (l : list nat).

Section Handling.
Context {CollatorId CollatorSignature ValidatorId ValidatorSignature : Type}
  `{!Signatures CollatorId CollatorSignature ValidatorId ValidatorSignature}.
#[local] Abbreviation Vote := (DisputeStatement * ValidatorIndex * ValidatorSignature)%type.
#[local] Abbreviation StatementSet := (DisputeStatementSet ValidatorSignature).
Implicit Types (set : StatementSet) (env : ParasPallet.Env ValidatorId).
(** [session_info::session_info], of which only the validators are read. *)
Implicit Types (session_info : SessionIndex → option (list ValidatorId)).

Definition check_signature (key : ValidatorId) (h : CandidateHash) (session : SessionIndex)
    (st : DisputeStatement) (sig : ValidatorSignature) : bool :=
  validator_verify sig (statement_payload st h session) key.

(** [StatementSetFilter::filter_statement_set] *)
Definition filter_statement_set (f : StatementSetFilter) set : option (option StatementSet) :=
  match f with
  | RemoveAll => Some None
  | RemoveIndices indices =>
      left_ ← try_fold swap_remove (rev (Hrmp.dedup (merge_sort le indices))) (statements set);
      Some (if decide (left_ = []) then None
            else Some (mkSet (set_candidate_hash set) (set_session set) left_))
  end.

(** The state of a dispute, or that of a dispute that starts now. *)
Definition dispute_or_new (n_validators : nat) (now : BlockNumber) (d : option DisputeState) : DisputeState :=
  match d with
  | Some d => d
  | None => mkDispute (replicate n_validators false) (replicate n_validators false) now None
  end.

(** One vote: imported, or put on the list of those to remove. *)
Definition filter_vote (validators : list ValidatorId) set (verify_sigs : VerifyDisputeSignatures)
    (acc : DisputeStateImporter * list nat) (x : nat * Vote) : DisputeStateImporter * list nat :=
  let '(importer, removed) := acc in
  let '(i, (st, v, sig)) := x in
  match validators !! v with
  | None => (importer, removed ++ [i])
  | Some key =>
      match import importer v (indicates_validity st) with
      | Err _ => (importer, removed ++ [i])
      | Ok (u, importer) =>
          match verify_sigs with
          | VerifySkip => (importer, removed)
          | VerifyYes =>
              if check_signature key (set_candidate_hash set) (set_session set) st sig then (importer, removed)
              else (undo importer u, removed ++ [i])
          end
      end
  end.

(** The position of the first vote of a validator. *)
Definition first_vote_of (v : ValidatorIndex) set : option nat :=
  fst <$> list_find (λ x : Vote, x.1.2 = v) (statements set).

(** One change of a spam slot; both look-ups panic when they find nothing. *)
Definition change_spam (max_spam_slots : Z) set (acc : list Z * list nat)
    (x : ValidatorIndex * SpamSlotChange) : option (list Z * list nat) :=
  let '(spam_slots, removed) := acc in
  let '(v, change) := x in
  slot ← spam_slots !! v;
  match change with
  | Inc =>
      removed ← (if decide (max_spam_slots ≤ slot) then
                   first_index ← first_vote_of v set; Some (removed ++ [first_index])
                 else Some removed);
      Some (<[v := u32_add slot 1]> spam_slots, removed)
  | Dec => Some (<[v := saturating_sub slot 1]> spam_slots, removed)
  end.

Definition is_ancient (oldest_accepted : BlockNumber) (d : option DisputeState) : bool :=
  match d with
  | Some d => match concluded_at d with Some c => bool_decide (c < oldest_accepted) | None => false end
  | None => false
  end.

(** [Pallet::filter_dispute_data]; it writes the spam slots. *)
Definition filter_votes env session_info set (acceptance_period : BlockNumber) (max_spam_slots : Z)
    (verify_sigs : VerifyDisputeSignatures) (s : State) : option (StatementSetFilter * State) :=
  let now := ParasPallet.block_number env in
  let oldest_accepted := saturating_sub now acceptance_period in
  let key := (set_session set, set_candidate_hash set) in
  match session_info (set_session set) with
  | None => Some (RemoveAll, s)
  | Some validators =>
      let n_validators := length validators in
      if is_ancient oldest_accepted (DisputesMap s !! key) then Some (RemoveAll, s)
      else
        let '(importer, removed) :=
          foldl (filter_vote validators set verify_sigs)
            (new_importer (dispute_or_new n_validators now (DisputesMap s !! key)) now, [])
            (imap (λ i x, (i, x)) (statements set)) in
        let summary := finish importer in
        if decide (ParasPallet.count_ones (validators_for (sum_state summary)) = 0%nat ∨
                   ParasPallet.count_ones (validators_against (sum_state summary)) = 0%nat)
        then Some (RemoveAll, s)
        else if decide (is_Some (Included s !! key)) then Some (RemoveIndices removed, s)
        else
          '(spam_slots, removed) ←
            try_fold (change_spam max_spam_slots set) (spam_slot_changes summary)
              (default (replicate n_validators 0) (SpamSlots s !! set_session set), removed);
          Some (RemoveIndices removed, set_spam (insert (set_session set) spam_slots) s)
  end.

(** [DisputesHandler::filter_dispute_data] *)
Definition filter_dispute_data env session_info set (max_spam_slots : Z) (acceptance_period : BlockNumber)
    (verify_sigs : VerifyDisputeSignatures) (s : State) : option (option StatementSet * State) :=
  '(f, s) ← filter_votes env session_info set acceptance_period max_spam_slots verify_sigs s;
  set' ← filter_statement_set f set;
  Some (set', s).

(** The votes of a set that passed the filter. *)
Fixpoint import_votes (importer : DisputeStateImporter) (l : list Vote) : result VoteImportError DisputeStateImporter :=
  match l with
  | [] => Ok importer
  | (st, v, _) :: l =>
      '(_, importer) ← import importer v (indicates_validity st);
      import_votes importer l
  end.

(** What [process_checked_dispute_data] does with the outcome of an import. *)
Definition conclude_import set (fresh : bool) (summary : ImportSummary) (s : State) : State :=
  let session := set_session set in
  let h := set_candidate_hash set in
  let s := if fresh
           then deposit_event (DisputeInitiated h (if decide (is_Some (Included s !! (session, h))) then Local else Remote)) s
           else s in
  let s := if FOR_SUPERMAJORITY (new_flags summary) then deposit_event (DisputeConcluded h ResultValid) s else s in
  let s := if AGAINST_SUPERMAJORITY (new_flags summary) then deposit_event (DisputeConcluded h ResultInvalid) s else s in
  let s := call_hook (reward_dispute_statement session (set_bits (sum_new_participants summary))) s in
  let s := call_hook (punish_against_valid session (slash_against summary)) s in
  let s := call_hook (punish_for_invalid session (slash_for summary)) s in
  let s := set_disputes (insert (session, h) (sum_state summary)) s in
  if AGAINST_SUPERMAJORITY (new_flags summary) then
    match Included s !! (session, h) with
    | Some revert_to => revert_and_freeze revert_to s
    | None => s
    end
  else s.

Definition process_checked_dispute_data env session_info set (acceptance_period : BlockNumber) (s : State) :
    State * result Error bool :=
  let now := ParasPallet.block_number env in
  let oldest_accepted := saturating_sub now acceptance_period in
  let key := (set_session set, set_candidate_hash set) in
  match session_info (set_session set) with
  | None => (s, Err AncientDisputeStatement)
  | Some validators =>
      let found := DisputesMap s !! key in
      if is_ancient oldest_accepted found then (s, Err AncientDisputeStatement)
      else
        let fresh := bool_decide (found = None) in
        match import_votes (new_importer (dispute_or_new (length validators) now found) now) (statements set) with
        | Err e => (s, Err (error_of_import e))
        | Ok importer =>
            let summary := finish importer in
            if decide (ParasPallet.count_ones (validators_for (sum_state summary)) = 0%nat ∨
                       ParasPallet.count_ones (validators_against (sum_state summary)) = 0%nat)
            then (s, Err SingleSidedDispute)
            else (conclude_import set fresh summary s, Ok fresh)
        end
  end.

(** The disputes before one that fails stay imported. *)
Fixpoint process_checked_multi_dispute_data env session_info (sets : list StatementSet) (s : State) :
    State * result Error (list (SessionIndex * CandidateHash)) :=
  match sets with
  | [] => (s, Ok [])
  | set :: sets =>
      match process_checked_dispute_data env session_info set
              (dispute_post_conclusion_acceptance_period (ParasPallet.config env)) s with
      | (s, Err e) => (s, Err e)
      | (s, Ok fresh) =>
          match process_checked_multi_dispute_data env session_info sets s with
          | (s, Ok l) => (s, Ok (if fresh then (set_session set, set_candidate_hash set) :: l else l))
          | (s, Err e) => (s, Err e)
          end
      end
  end.
End Handling.

(** ** Order of statement sets *)

Section Order.
Context {ValidatorSignature : Type}.
#[local] Abbreviation StatementSet := (DisputeStatementSet ValidatorSignature).
(** [DisputesHandler::included_state] *)
Context (included_state : SessionIndex → CandidateHash → option BlockNumber).
Implicit Types (a b : StatementSet).

(** Included candidates first, by the height of their inclusion; then the
    others by session; the hash decides between equals. *)
Definition dispute_ordering_compare a b : comparison :=
  match included_state (set_session a) (set_candidate_hash a),
        included_state (set_session b) (set_candidate_hash b) with
  | None, Some _ => Gt
  | Some _, None => Lt
  | Some a_height, Some b_height =>
      match a_height ?= b_height with
      | Eq => set_candidate_hash a ?= set_candidate_hash b
      | c => c
      end
  | None, None =>
      match set_session a ?= set_session b with
      | Eq => set_candidate_hash a ?= set_candidate_hash b
      | c => c
      end
  end.

Definition same_dispute a b : bool :=
  bool_decide (set_session a = set_session b ∧ set_candidate_hash a = set_candidate_hash b).

(** [contains_duplicates_in_sorted_iter] *)
Fixpoint contains_duplicates (l : list StatementSet) : bool :=
  match l with
  | a :: (b :: _) as l' => same_dispute b a || contains_duplicates l'
  | _ => false
  end.

Definition assure_deduplicated_and_sorted (sets : list StatementSet) : result unit unit :=
  if negb (is_sorted_by dispute_ordering_compare sets) then Err tt
  else if contains_duplicates sets then Err tt
  else Ok tt.

Definition not_greater a b : Prop := dispute_ordering_compare a b ≠ Gt.
#[global] Instance not_greater_dec a b : Decision (not_greater a b).
Proof. unfold not_greater. apply _. Defined.

(** [sort_by] is stable, as [merge_sort] is. *)
Definition deduplicate_and_sort_dispute_data (sets : list StatementSet) : list StatementSet * result unit unit :=
  let sorted_sets := dedup_by same_dispute (merge_sort not_greater sets) in
  (sorted_sets, if decide (length sets = length sorted_sets) then Ok tt else Err tt).
End Order.

(** ** The interface for the other pallets

    The operations of [DisputesHandler] over a storage [D]; the provided method
    [assure_deduplicated_and_sorted] is above. *)
Class DisputesHandler (ValidatorId ValidatorSignature D : Type) := {
  handler_is_frozen : D → bool;
  handler_included_state : SessionIndex → CandidateHash → D → option BlockNumber;
  handler_concluded_invalid : SessionIndex → CandidateHash → D → bool;
  handler_deduplicate_and_sort :
    D → list (DisputeStatementSet ValidatorSignature) → list (DisputeStatementSet ValidatorSignature);
  handler_filter : ParasPallet.Env ValidatorId → DisputeStatementSet ValidatorSignature → Z → BlockNumber →
    VerifyDisputeSignatures → D → option (option (DisputeStatementSet ValidatorSignature) * D);
  handler_process : ParasPallet.Env ValidatorId → list (DisputeStatementSet ValidatorSignature) → D →
    D * result Error (list (SessionIndex * CandidateHash));
  handler_note_included : SessionIndex → CandidateHash → BlockNumber → D → D;
}.

(** [impl DisputesHandler for pallet::Pallet<T>] *)
Definition pallet_handler {CollatorId CollatorSignature ValidatorId ValidatorSignature : Type}
    `{!Signatures CollatorId CollatorSignature ValidatorId ValidatorSignature}
    (session_info : SessionIndex → option (list ValidatorId)) :
    DisputesHandler ValidatorId ValidatorSignature State := {|
  handler_is_frozen := is_frozen;
  handler_included_state := included_state;
  handler_concluded_invalid := concluded_invalid;
  handler_deduplicate_and_sort s sets :=
    (deduplicate_and_sort_dispute_data (λ session h, included_state session h s) sets).1;
  handler_filter env set max_spam_slots acceptance_period verify_sigs s :=
    filter_dispute_data env session_info set max_spam_slots acceptance_period verify_sigs s;
  handler_process env sets s := process_checked_multi_dispute_data env session_info sets s;
  handler_note_included := note_included;
|}.

(** [impl DisputesHandler for ()]: a runtime without disputes. *)
Definition no_handler {ValidatorId ValidatorSignature : Type} : DisputesHandler ValidatorId ValidatorSignature unit := {|
  handler_is_frozen _ := false;
  handler_included_state _ _ _ := None;
  handler_concluded_invalid _ _ _ := false;
  handler_deduplicate_and_sort _ _ := [];
  handler_filter _ _ _ _ _ s := Some (None, s);
  handler_process _ _ s := (s, Ok []);
  handler_note_included _ _ _ s := s;
|}.
End Disputes.
