(* ===== verification/DisputesVotes.v ===== *)
(** * Votes in a dispute

    What the import of votes does to the two sides of a dispute, and how the
    filter of [Disputes] relates to the import that follows it: the votes the
    filter keeps are exactly votes that can be imported. *)

From S2P Require Import Prelude.
From S2P Require Import Vectors.
From S2P Require Import Codec.
From S2P Require Import Frame.
From S2P Require Import Configuration.
From S2P Require Import Hrmp.
From S2P Require Import Scheduler.
From S2P Require Import ParasPallet.
From S2P Require Import Candidates.
From S2P Require Import Disputes.
Import Candidates Disputes.

Module DisputesVotes.

(** ** Removing positions *)

(** The elements whose positions, counted from [k], are not in [removed]. *)
Fixpoint kept {A} (removed : list nat) (k : nat) (l : list A) : list A :=
  match l with
  | [] => []
  | x :: l => if decide (k ∈ removed) then kept removed (S k) l else x :: kept removed (S k) l
  end.

Lemma dedup_sorted (l : list nat) : StronglySorted le l → StronglySorted lt (Hrmp.dedup l).
Proof.
  induction l as [|a [|b l] IH]; intros Hs; [constructor|cbn; repeat constructor|].
  apply StronglySorted_inv in Hs as [Hs Ha]. specialize (IH Hs).
  change (Hrmp.dedup (a :: b :: l)) with (if decide (a = b) then Hrmp.dedup (b :: l) else a :: Hrmp.dedup (b :: l)).
  case_decide; [done|]. constructor; [done|]. apply Forall_forall. intros x Hx. rewrite Hrmp.elem_of_dedup in Hx.
  apply StronglySorted_inv in Hs as [_ Hb]. rewrite Forall_forall in Ha. rewrite Forall_forall in Hb.
  pose proof (Ha b (list_elem_of_here _ _)).
  apply elem_of_cons in Hx as [->|Hx%Hb]; lia.
Qed.

Lemma StronglySorted_rev (l : list nat) : StronglySorted lt l → StronglySorted gt (rev l).
Proof.
  induction 1 as [|a l Hs IH Ha]; cbn; [constructor|].
  assert (Forall (λ x, a < x)%nat (rev l)) as Hr.
  { apply Forall_forall. intros x. rewrite list_elem_of_In, <-in_rev, <-list_elem_of_In. by apply Forall_forall. }
  revert IH Hr. generalize (rev l) as k. induction 1 as [|b k Hk IH Hb]; intros Hr; cbn; [repeat constructor|].
  inversion_clear Hr. constructor; [by apply IH|]. apply Forall_app. split; [done|]. repeat constructor. lia.
Qed.

Lemma elem_of_positions (l : list nat) i : i ∈ rev (Hrmp.dedup (merge_sort le l)) ↔ i ∈ l.
Proof. by rewrite list_elem_of_In, <-in_rev, <-list_elem_of_In, Hrmp.elem_of_dedup, merge_sort_Permutation. Qed.

Section Removing.
Context {A : Type}.
Implicit Types (l : list A) (js : list nat).

Lemma kept_app js k l1 l2 : kept js k (l1 ++ l2) = kept js k l1 ++ kept js (k + length l1) l2.
Proof.
  revert k. induction l1 as [|x l1 IH]; intros k; cbn; [by rewrite Nat.add_0_r|].
  rewrite IH, <-Nat.add_succ_comm. by case_decide.
Qed.

Lemma kept_ext js js' k l :
  (∀ i, (k ≤ i < k + length l)%nat → i ∈ js ↔ i ∈ js') → kept js k l = kept js' k l.
Proof.
  revert k. induction l as [|x l IH]; intros k Hi; cbn; [done|].
  rewrite IH by (intros i ?; apply Hi; cbn; lia).
  destruct (decide (k ∈ js)) as [H1|H1], (decide (k ∈ js')) as [H2|H2]; try done;
    exfalso; apply (Hi k) in H1 || (apply H1, Hi, H2; cbn; lia); [done|cbn; lia].
Qed.

Lemma kept_all js k l : (∀ i, (k ≤ i < k + length l)%nat → i ∉ js) → kept js k l = l.
Proof.
  revert k. induction l as [|x l IH]; intros k Hi; cbn; [done|].
  rewrite decide_False, IH; [done| |]; [intros i ?|]; apply Hi; cbn; lia.
Qed.

Lemma kept_submseteq js k l : kept js k l `sublist_of` l.
Proof. revert k. induction l as [|x l IH]; intros k; cbn; [constructor|]. case_decide; by constructor. Qed.

Lemma kept_more js js' k l : kept (js ++ js') k l `sublist_of` kept js k l.
Proof.
  revert k. induction l as [|x l IH]; intros k; cbn; [constructor|].
  destruct (decide (k ∈ js)) as [Hin|Hnin]; [by rewrite decide_True by (apply elem_of_app; by left)|].
  case_decide; by constructor.
Qed.

Lemma kept_elem js k l1 x l2 : (k + length l1)%nat ∉ js → x ∈ kept js k (l1 ++ x :: l2).
Proof. intros Hn. rewrite kept_app. cbn. rewrite decide_False by done. apply elem_of_app. right. by left. Qed.

(** [swap_remove] keeps what is before the position, and the other elements. *)
Lemma swap_remove_spec l j x l1 l2 :
  l = l1 ++ x :: l2 → length l1 = j → ∃ r, swap_remove l j = Some (l1 ++ r) ∧ r ≡ₚ l2.
Proof.
  intros -> <-. unfold swap_remove. rewrite list_lookup_middle by done. cbn.
  destruct l2 as [|y l2 _] using rev_ind.
  - exists []. rewrite last_snoc. cbn. split; [|done]. f_equal.
    rewrite length_app, insert_app_r_alt, Nat.sub_diag by lia. cbn.
    rewrite Nat.add_sub, take_app_length. by rewrite app_nil_r.
  - exists (y :: l2). rewrite app_comm_cons, app_assoc, last_snoc. cbn. split; [|by rewrite Permutation_cons_append].
    f_equal. rewrite <-app_assoc, insert_app_r_alt, Nat.sub_diag by lia. cbn.
    rewrite !length_app. cbn. rewrite length_app. cbn.
    replace (length l1 + S (length l2 + 1) - 1)%nat with (length (l1 ++ y :: l2)) by (rewrite length_app; cbn; lia).
    rewrite app_comm_cons, app_assoc. apply take_app_length.
Qed.

Lemma swap_remove_all js l :
  StronglySorted gt js → Forall (λ j, j < length l)%nat js →
  ∃ l', try_fold swap_remove js l = Some l' ∧ l' ≡ₚ kept js 0 l.
Proof.
  revert l. induction js as [|j js IH]; intros l Hs Hl; cbn.
  { exists l. split; [done|]. by rewrite kept_all by (intros ?? []%elem_of_nil). }
  inversion_clear Hs as [|?? Hs' Hj]. inversion_clear Hl as [|?? Hlt Hl'].
  destruct (lookup_lt_is_Some_2 l j Hlt) as [x Hx]. apply list_elem_of_split_length in Hx as (l1 & l2 & -> & Hlen).
  destruct (swap_remove_spec _ j x l1 l2 eq_refl (eq_sym Hlen)) as (r & -> & Hr). cbn.
  rewrite Forall_forall in Hj.
  destruct (IH (l1 ++ r)) as (l' & Hf & Hp); [done| |].
  { apply Forall_forall. intros i Hi%Hj. rewrite length_app. lia. }
  exists l'. split; [done|]. rewrite Hp, !kept_app, Nat.add_0_l. cbn [kept].
  rewrite decide_True by (rewrite <-Hlen; left).
  rewrite (kept_ext (j :: js) js 0 l1), (kept_all js _ r), (kept_all (j :: js) _ l2).
  - by rewrite Hr.
  - intros i Hi [->|Hin%Hj]%elem_of_cons; lia.
  - intros i Hi Hin%Hj. lia.
  - intros i Hi. rewrite elem_of_cons. split; [|tauto]. intros [->|?]; [lia|done].
Qed.
End Removing.

(** ** Importing votes *)

Definition voted (valid : bool) (v : ValidatorIndex) (d : DisputeState) : Prop := side valid d !! v = Some true.
#[export] Instance voted_dec valid v d : Decision (voted valid v d).
Proof. unfold voted. apply _. Defined.
Definition participates (v : ValidatorIndex) (d : DisputeState) : Prop := voted true v d ∨ voted false v d.

(** Both sides of a dispute have a bit per validator. *)
Definition dispute_ok (n : nat) (d : DisputeState) : Prop := ∀ valid, length (side valid d) = n.

Record importer_ok (n : nat) (i : DisputeStateImporter) : Prop := {
  io_state : dispute_ok n (imp_state i);
  io_new : length (new_participants i) = n;
  io_voted v : new_participants i !! v = Some true → participates v (imp_state i);
}.

(** The importer after the votes [l], whatever their order. *)
Record grown (n : nat) (l : list (ValidatorIndex * bool)) (i i' : DisputeStateImporter) : Prop := {
  gr_ok : importer_ok n i';
  gr_voted valid v : voted valid v (imp_state i') ↔ voted valid v (imp_state i) ∨ (v, valid) ∈ l;
  gr_new v : new_participants i' !! v = Some true ↔
    new_participants i !! v = Some true ∨ (∃ valid, (v, valid) ∈ l) ∧ ¬ participates v (imp_state i);
  gr_start : start (imp_state i') = start (imp_state i);
  gr_concluded : concluded_at (imp_state i') = concluded_at (imp_state i);
  gr_now : imp_now i' = imp_now i;
  gr_flags : pre_flags i' = pre_flags i;
}.

(** Votes that can be imported: in range, not cast before, and no two alike. *)
Definition importable (n : nat) (l : list (ValidatorIndex * bool)) (d : DisputeState) : Prop :=
  NoDup l ∧ ∀ v valid, (v, valid) ∈ l → (v < n)%nat ∧ ¬ voted valid v d.

Lemma side_set_side b b' f d : side b (set_side b' f d) = if decide (b = b') then f (side b d) else side b d.
Proof. by destruct b, b'. Qed.

Lemma bits_ext (l k : list bool) :
  length l = length k → (∀ v, l !! v = Some true ↔ k !! v = Some true) → l = k.
Proof.
  intros Hl Hv. apply list_eq. intros v. destruct (l !! v) as [[]|] eqn:E1.
  - by apply Hv in E1.
  - destruct (k !! v) as [[]|] eqn:E2; [by apply Hv in E2; congruence|done|].
    apply lookup_lt_Some in E1. apply lookup_ge_None in E2. lia.
  - symmetry. apply lookup_ge_None. apply lookup_ge_None in E1. lia.
Qed.

Lemma lookup_set_bit (l : list bool) v w :
  (v < length l)%nat → (<[v := true]> l) !! w = Some true ↔ l !! w = Some true ∨ w = v.
Proof.
  intros Hv. destruct (decide (w = v)) as [->|Hne].
  - rewrite list_lookup_insert_eq by done. tauto.
  - rewrite list_lookup_insert_ne by done. tauto.
Qed.

Lemma dispute_ext n d d' :
  dispute_ok n d → dispute_ok n d' → (∀ valid v, voted valid v d ↔ voted valid v d') →
  start d = start d' → concluded_at d = concluded_at d' → d = d'.
Proof.
  intros H1 H2 Hv Hs Hc.
  assert (∀ valid, side valid d = side valid d') as Hside.
  { intros valid. apply bits_ext; [by rewrite H1, H2|apply Hv]. }
  pose proof (Hside true). pose proof (Hside false). destruct d, d'. cbn in *. congruence.
Qed.

Lemma grown_unique n l l' i j j' : grown n l i j → grown n l' i j' → (∀ x, x ∈ l ↔ x ∈ l') → j = j'.
Proof.
  intros G G' Hl.
  assert (imp_state j = imp_state j') as E1.
  { apply (dispute_ext n); [apply (io_state _ _ (gr_ok _ _ _ _ G))|apply (io_state _ _ (gr_ok _ _ _ _ G'))|..].
    - intros valid v. by rewrite (gr_voted _ _ _ _ G), (gr_voted _ _ _ _ G'), Hl.
    - by rewrite (gr_start _ _ _ _ G), (gr_start _ _ _ _ G').
    - by rewrite (gr_concluded _ _ _ _ G), (gr_concluded _ _ _ _ G'). }
  assert (new_participants j = new_participants j') as E2.
  { apply bits_ext.
    - by rewrite (io_new _ _ (gr_ok _ _ _ _ G)), (io_new _ _ (gr_ok _ _ _ _ G')).
    - intros v. rewrite (gr_new _ _ _ _ G), (gr_new _ _ _ _ G'). by setoid_rewrite Hl. }
  pose proof (gr_now _ _ _ _ G). pose proof (gr_now _ _ _ _ G').
  pose proof (gr_flags _ _ _ _ G). pose proof (gr_flags _ _ _ _ G').
  destruct j, j'. cbn in *. congruence.
Qed.

Lemma grown_nil n i : importer_ok n i → grown n [] i i.
Proof.
  intros Hok. split; try done.
  - intros. split; [by left|by intros [?|[]%elem_of_nil]].
  - intros. split; [by left|]. intros [?|[[? []%elem_of_nil] _]]; done.
Qed.

Lemma grown_trans n l l' i j k : grown n l i j → grown n l' j k → grown n (l ++ l') i k.
Proof.
  intros G G'. split.
  - apply G'.
  - intros. rewrite (gr_voted _ _ _ _ G'), (gr_voted _ _ _ _ G), elem_of_app. tauto.
  - intros v. rewrite (gr_new _ _ _ _ G'), (gr_new _ _ _ _ G).
    setoid_rewrite elem_of_app. unfold participates. rewrite !(gr_voted _ _ _ _ G).
    destruct (decide (voted true v (imp_state i))) as [|Hn], (decide (voted false v (imp_state i)));
      [naive_solver..|].
    destruct (decide ((v, true) ∈ l)), (decide ((v, false) ∈ l)); [naive_solver..|].
    split.
    + intros [[?|[[[] ?] _]]|[[[] ?] _]]; naive_solver.
    + intros [?|[[[] [?|?]] _]]; naive_solver.
  - by rewrite (gr_start _ _ _ _ G'), (gr_start _ _ _ _ G).
  - by rewrite (gr_concluded _ _ _ _ G'), (gr_concluded _ _ _ _ G).
  - by rewrite (gr_now _ _ _ _ G'), (gr_now _ _ _ _ G).
  - by rewrite (gr_flags _ _ _ _ G'), (gr_flags _ _ _ _ G).
Qed.

Lemma new_importer_ok n d now : dispute_ok n d → importer_ok n (new_importer d now).
Proof.
  intros Hd. split; cbn; [done|rewrite length_replicate; apply (Hd true)|].
  intros v Hv%lookup_replicate. naive_solver.
Qed.

(** An import succeeds exactly for a vote that is new on its side, and can be
    taken back. *)
Lemma import_spec n i v valid :
  importer_ok n i →
  match import i v valid with
  | Ok (u, i') => importable n [(v, valid)] (imp_state i) ∧ grown n [(v, valid)] i i' ∧ undo i' u = i
  | Err _ => ¬ importable n [(v, valid)] (imp_state i)
  end.
Proof.
  intros [Hd Hn Hv]. unfold import. pose proof (Hd valid) as Hside.
  destruct (side valid (imp_state i) !! v) as [[]|] eqn:Ev.
  - intros [_ Hi]. destruct (Hi v valid) as [_ []]; [by left|done].
  - pose proof (lookup_lt_Some _ _ _ Ev) as Hlt. rewrite Hside in Hlt.
    rewrite decide_False by lia.
    assert (is_Some (side (negb valid) (imp_state i) !! v)) as [o Ho].
    { apply lookup_lt_is_Some. by rewrite Hd. }
    rewrite Ho. split; [|split].
    + split; [apply NoDup_singleton|]. intros ?? [= -> ->]%list_elem_of_singleton.
      split; [done|]. unfold voted. congruence.
    + assert (∀ valid' v', voted valid' v' (set_side valid <[v := true]> (imp_state i)) ↔
        voted valid' v' (imp_state i) ∨ (v', valid') ∈ [(v, valid)]) as Hvote.
      { intros valid' v'. unfold voted. rewrite side_set_side, list_elem_of_singleton. case_decide as Hb.
        - subst. rewrite lookup_set_bit by (by rewrite Hd). naive_solver.
        - naive_solver. }
      split; cbn; [|done| |by destruct valid|by destruct valid|done..].
      * split; cbn; [|by destruct (negb o); rewrite ?length_insert|].
        { intros b. rewrite side_set_side. case_decide; by rewrite ?length_insert, Hd. }
        intros w Hw. unfold participates. rewrite !Hvote.
        destruct (decide (w = v)) as [->|Hne]; [destruct valid; set_solver|].
        apply or_comm. destruct o; cbn in Hw; [|rewrite list_lookup_insert_ne in Hw by done]; apply Hv in Hw as [?|?]; tauto.
      * intros w. destruct (decide (w = v)) as [->|Hne].
        { destruct o; cbn; [|rewrite list_lookup_insert_eq by lia].
          - split; [by left|]. intros [?|[_ []]]; [done|]. destruct valid; [by right|by left].
          - split; [|done]. intros _. right. split; [exists valid; by left|].
            intros [Hp|Hp]; unfold voted in Hp; destruct valid; cbn in *; congruence. }
        assert (¬ ∃ b, (w, b) ∈ [(v, valid)]) by (by intros [b [= -> _]%list_elem_of_singleton]).
        destruct o; cbn; [|rewrite list_lookup_insert_ne by done]; tauto.
    + unfold undo. cbn. destruct i as [d now np pf]. cbn in *. f_equal.
      * destruct valid, d; cbn in *; by rewrite list_insert_insert_eq, list_insert_id.
      * destruct o; cbn; [done|]. rewrite list_insert_insert_eq. apply list_insert_id.
        destruct (np !! v) as [[]|] eqn:En; [|done|apply lookup_ge_None in En; lia].
        apply Hv in En as [En|En]; unfold voted in En; destruct valid; cbn in *; congruence.
  - intros [_ Hi]. destruct (Hi v valid) as [Hlt _]; [by left|]. apply lookup_ge_None in Ev. lia.
Qed.

Section Votes.
Context {CollatorId CollatorSignature ValidatorId ValidatorSignature : Type}
  `{!Signatures CollatorId CollatorSignature ValidatorId ValidatorSignature}.
#[local] Abbreviation Vote := (DisputeStatement * ValidatorIndex * ValidatorSignature)%type.
#[local] Abbreviation StatementSet := (DisputeStatementSet ValidatorSignature).
Implicit Types (l : list Vote) (set : StatementSet).

(** Who votes, and on which side. *)
Definition ballot (x : Vote) : (ValidatorIndex * bool) := (x.1.2, indicates_validity x.1.1).

Lemma importable_cons n x y d :
  importable n (x :: y) d ↔
  importable n [x] d ∧ (x ∉ y) ∧ importable n y d.
Proof.
  unfold importable. rewrite NoDup_cons. split.
  - intros [[Hx Hy] Hi]. split_and!; [apply NoDup_singleton| |done|done|].
    + intros v b Hv%list_elem_of_singleton. apply Hi. rewrite Hv. by left.
    + intros v b Hv. apply Hi. by right.
  - intros ([_ Hx] & Hnin & Hy & Hi). split; [done|]. intros v b [Hv|Hv]%elem_of_cons; [|by apply Hi].
    apply Hx. rewrite Hv. by left.
Qed.

Lemma grown_importable n x i i' y :
  grown n [x] i i' → importable n y (imp_state i') ↔ (x ∉ y) ∧ importable n y (imp_state i).
Proof.
  intros G. unfold importable. setoid_rewrite (gr_voted _ _ _ _ G). setoid_rewrite list_elem_of_singleton.
  split.
  - intros [Hnd Hi]. split_and!; [|done|naive_solver]. intros Hx. destruct x as [v b].
    destruct (Hi v b Hx) as [_ []]. by right.
  - intros (Hx & Hnd & Hi). split; [done|]. intros v b Hvb. destruct (Hi v b Hvb). split; [done|].
    intros [?|<-]; done.
Qed.

(** Importing a list of votes, all or none. *)
Lemma import_votes_spec n l i :
  importer_ok n i →
  match import_votes i l with
  | Ok i' => importable n (ballot <$> l) (imp_state i) ∧ grown n (ballot <$> l) i i'
  | Err _ => ¬ importable n (ballot <$> l) (imp_state i)
  end.
Proof.
  revert i. induction l as [|[[st v] sig] l IH]; intros i Hi; cbn.
  { split; [|by apply grown_nil]. split; [constructor|]. by intros ?? ?%elem_of_nil. }
  pose proof (import_spec n i v (indicates_validity st) Hi) as Hs.
  destruct (import i v _) as [[u i']|e]; cbn; [|by intros [? _]%importable_cons].
  destruct Hs as (H1 & G & _). specialize (IH i' (gr_ok _ _ _ _ G)).
  destruct (import_votes i' l) as [i''|e]; rewrite (grown_importable _ _ _ _ _ G) in IH.
  - destruct IH as [H2 G2]. split; [by apply importable_cons|]. exact (grown_trans _ _ _ _ _ _ G G2).
  - by intros [_ ?]%importable_cons.
Qed.

Lemma importable_perm n x y d : x ≡ₚ y → importable n x d → importable n y d.
Proof. unfold importable. intros Hp [Hnd Hi]. split; [by rewrite <-Hp|]. intros v b. rewrite <-Hp. apply Hi. Qed.

(** The order of the votes does not matter. *)
Lemma import_votes_perm n l l' i i' :
  importer_ok n i → l ≡ₚ l' → import_votes i l = Ok i' → import_votes i l' = Ok i'.
Proof.
  intros Hi Hp E. pose proof (import_votes_spec n l i Hi) as H1. pose proof (import_votes_spec n l' i Hi) as H2.
  rewrite E in H1. destruct H1 as [H1 G1].
  assert (importable n (ballot <$> l') (imp_state i)) by (eapply importable_perm; [|done]; by rewrite Hp).
  destruct (import_votes i l') as [j|]; [|done]. destruct H2 as [_ G2]. f_equal.
  eapply (grown_unique n); [done..|]. intros x. by rewrite Hp.
Qed.

Lemma import_votes_app i l l' :
  import_votes i (l ++ l') = (i' ← import_votes i l; import_votes i' l').
Proof.
  revert i. induction l as [|[[st v] sig] l IH]; intros i; cbn; [done|].
  destruct (import i v _) as [[u i']|]; cbn; [|done]. apply IH.
Qed.

(** Fewer votes can be imported when more can. *)
Lemma importable_sublist n x y d : y `sublist_of` x → importable n x d → importable n y d.
Proof.
  intros Hs [Hnd Hi]. split; [by eapply sublist_NoDup|]. intros v b Hv. apply Hi. by eapply elem_of_submseteq, sublist_submseteq.
Qed.

(** ** Filtering votes *)

(** A vote of a validator of the session, with a signature that was checked. *)
Definition vote_ok (validators : list ValidatorId) set (verify_sigs : VerifyDisputeSignatures) (x : Vote) : Prop :=
  ∃ key, validators !! x.1.2 = Some key ∧
    (verify_sigs = VerifyYes → check_signature key (set_candidate_hash set) (set_session set) x.1.1 x.2 = true).

(** One step of the filter: the vote is imported, or removed for good. *)
Lemma filter_vote_cases n validators set verify_sigs i r k (x : Vote) :
  importer_ok n i → length validators = n →
  filter_vote validators set verify_sigs (i, r) (k, x) = (i, r ++ [k]) ∨
  ∃ i', filter_vote validators set verify_sigs (i, r) (k, x) = (i', r) ∧ importer_ok n i' ∧
    import_votes i [x] = Ok i' ∧ vote_ok validators set verify_sigs x.
Proof.
  intros Hi Hn. destruct x as [[st v] sig]. unfold filter_vote, vote_ok. cbn [fst snd].
  destruct (validators !! v) as [key|] eqn:Ek; [|by left].
  pose proof (import_spec n i v (indicates_validity st) Hi) as Hs. cbn [import_votes].
  destruct (import i v _) as [[u i']|e] eqn:Ei; [|by left]. destruct Hs as (_ & G & Hu).
  destruct verify_sigs; [destruct (check_signature _ _ _ _ _) eqn:Ec; [|left; by rewrite Hu]|];
    right; exists i'; (split_and!; [done|apply G|done|]); exists key; done.
Qed.

Lemma filter_loop n validators set verify_sigs l k i r0 :
  importer_ok n i → length validators = n →
  ∃ i' r, foldl (filter_vote validators set verify_sigs) (i, r0) (imap (λ j x, ((k + j)%nat, x)) l) = (i', r0 ++ r) ∧
    Forall (λ j, k ≤ j < k + length l)%nat r ∧ import_votes i (kept r k l) = Ok i' ∧
    Forall (vote_ok validators set verify_sigs) (kept r k l).
Proof.
  intros Hi Hn. revert k i r0 Hi. induction l as [|x l IH]; intros k i r0 Hi.
  { exists i, []. cbn. rewrite app_nil_r. by split_and!. }
  rewrite imap_cons, Nat.add_0_r.
  rewrite (imap_ext _ (λ j x, ((S k + j)%nat, x)) l) by (intros; cbn; f_equal; lia).
  destruct (filter_vote_cases n validators set verify_sigs i r0 k x Hi Hn) as [E|(i1 & E & Hi1 & Him & Hx)];
    cbn [foldl]; rewrite E.
  - destruct (IH (S k) i (r0 ++ [k]) Hi) as (i' & r & -> & Hr & Hk & Hok). exists i', (k :: r).
    rewrite <-app_assoc. cbn. rewrite decide_True by left.
    rewrite (kept_ext _ r) by (intros j ?; rewrite elem_of_cons; split; [intros [->|?]; [lia|done]|tauto]).
    split_and!; [done| |done|done]. constructor; [lia|]. eapply Forall_impl; [done|]. cbn. lia.
  - destruct (IH (S k) i1 r0 Hi1) as (i' & r & -> & Hr & Hk & Hok). exists i', r. cbn [kept length].
    rewrite decide_False by (intros Hin; rewrite Forall_forall in Hr; apply Hr in Hin; lia).
    split_and!; [done| | |by constructor].
    + eapply Forall_impl; [done|]. cbn. lia.
    + change (x :: kept r (S k) l) with ([x] ++ kept r (S k) l). by rewrite import_votes_app, Him.
Qed.

(** Votes that can be imported and are in order are all let through. *)
Lemma filter_loop_all n validators set verify_sigs l k i r0 :
  importer_ok n i → length validators = n → importable n (ballot <$> l) (imp_state i) →
  Forall (vote_ok validators set verify_sigs) l →
  (foldl (filter_vote validators set verify_sigs) (i, r0) (imap (λ j x, ((k + j)%nat, x)) l)).2 = r0.
Proof.
  intros Hi Hn. revert k i Hi. induction l as [|[[st v] sig] l IH]; intros k i Hi Him Hok; [done|].
  apply importable_cons in Him as (Hx & Hnin & Him). inversion_clear Hok as [|?? (key & Ek & Hsig) Hok'].
  rewrite imap_cons, (imap_ext _ (λ j x, ((S k + j)%nat, x)) l) by (intros; cbn; f_equal; lia).
  pose proof (import_spec n i v (indicates_validity st) Hi) as Hs. cbn [foldl filter_vote]. cbn in Ek, Hsig. rewrite Ek.
  destruct (import i v _) as [[u i']|e]; [|done]. destruct Hs as (_ & G & _).
  assert (importable n (ballot <$> l) (imp_state i')) by (by apply (grown_importable _ _ _ _ _ G)).
  destruct verify_sigs; [rewrite Hsig by done|]; (apply IH; [apply G|done..]).
Qed.

(** The filter applied: the votes at the other positions, in some order. *)
Lemma filter_statement_set_ok r set :
  Forall (λ j, j < length (statements set))%nat r →
  ∃ left_, filter_statement_set (RemoveIndices r) set =
      Some (if decide (left_ = []) then None else Some (mkSet (set_candidate_hash set) (set_session set) left_)) ∧
    left_ ≡ₚ kept r 0 (statements set).
Proof.
  intros Hr. unfold filter_statement_set.
  destruct (swap_remove_all (rev (Hrmp.dedup (merge_sort le r))) (statements set)) as (l' & -> & Hp).
  - apply StronglySorted_rev, dedup_sorted. apply (StronglySorted_merge_sort le).
  - apply Forall_forall. intros j Hj. rewrite elem_of_positions in Hj. rewrite Forall_forall in Hr. by apply Hr.
  - exists l'. split; [done|]. rewrite Hp. erewrite (kept_ext _ r); [done|]. intros. apply elem_of_positions.
Qed.
End Votes.
End DisputesVotes.
