(* ===== verification/DisputesTheorems.v ===== *)
(** * The disputes pallet: filter, import, conclusion, freeze

    Statement sets that pass the filter can be imported unless the spam limit
    left them one-sided; the import records exactly the votes, and concludes,
    rewards and punishes by the majorities they make; and the chain is frozen
    as long as a candidate it included is found invalid. *)

From S2P Require Import Prelude.
From S2P Require Import Vectors.
From S2P Require Import Codec.
From S2P Require Import Frame.
From S2P Require Import Configuration.
From S2P Require Import Hrmp.
From S2P Require Import Scheduler.
From S2P Require Import ParasPallet.
From S2P Require Import Candidates.
From S2P Require Import Disputes.
From S2P Require Import DisputesVotes.
Import Candidates Disputes DisputesVotes.

Module DisputesTheorems.

(** ** Outcome of an import *)

Lemma finish_side i valid : side valid (sum_state (finish i)) = side valid (imp_state i).
Proof. unfold finish. cbn. destruct (imp_state i) as [f a st []]; repeat case_match; by destruct valid. Qed.

Lemma finish_voted i valid v : voted valid v (sum_state (finish i)) ↔ voted valid v (imp_state i).
Proof. unfold voted. by rewrite finish_side. Qed.

Lemma lookup_bits_or a b v :
  length a = length b → bits_or a b !! v = Some true ↔ a !! v = Some true ∨ b !! v = Some true.
Proof.
  intros Hl. unfold bits_or. rewrite lookup_zip_with_Some. split.
  - intros (x & y & Hxy & Hx & Hy). symmetry in Hxy. apply orb_true_iff in Hxy as [->| ->]; auto.
  - intros [Hv|Hv].
    + destruct (lookup_lt_is_Some_2 b v) as [y Hy]; [rewrite <-Hl; by eapply lookup_lt_Some|]. by exists true, y.
    + destruct (lookup_lt_is_Some_2 a v) as [y Hy]; [rewrite Hl; by eapply lookup_lt_Some|].
      exists y, true. by rewrite orb_true_r.
Qed.

Lemma lookup_participants n d v : dispute_ok n d → participants d !! v = Some true ↔ participates v d.
Proof. intros Hd. apply lookup_bits_or. exact (eq_trans (Hd true) (eq_sym (Hd false))). Qed.

Lemma participates_lt n v d : dispute_ok n d → participates v d → (v < n)%nat.
Proof. intros Hd [Hv|Hv]; apply lookup_lt_Some in Hv; by rewrite Hd in Hv. Qed.

(** A change of spam slots is for a validator of the session, one at most, and
    a slot is taken for new participants only. *)
Lemma spam_changes n i :
  importer_ok n i →
  NoDup (spam_slot_changes (finish i)).*1 ∧
  ∀ v c, (v, c) ∈ spam_slot_changes (finish i) →
    (v < n)%nat ∧ (c = Inc → new_participants i !! v = Some true).
Proof.
  intros Hi. unfold finish. cbn.
  assert (∀ l (c : SpamSlotChange), ((λ v : nat, (v, c)) <$> l).*1 = l) as Hfst.
  { intros l c. rewrite <-list_fmap_compose. apply list_fmap_id. }
  destruct (CONFIRMED (pre_flags i)); cbn; [split; [constructor|by intros ?? ?%elem_of_nil]|].
  case_bool_decide.
  - rewrite Hfst. split; [apply NoDup_set_bits|].
    intros v c (w & [= -> ->] & Hw%elem_of_set_bits)%list_elem_of_fmap. split; [|done].
    unfold bits_and in Hw. apply lookup_zip_with_Some in Hw as (x & y & Hxy & Hx & _).
    destruct x; [|done]. apply (participates_lt n _ (imp_state i)); [apply Hi|].
    apply (lookup_participants n); [apply Hi|done].
  - rewrite Hfst. split; [apply NoDup_set_bits|].
    intros v c (w & [= -> ->] & Hw%elem_of_set_bits)%list_elem_of_fmap. split; [|done].
    apply (participates_lt n _ (imp_state i)); [apply Hi|]. by apply (io_voted _ _ Hi).
Qed.

Section Filter.
Context {CollatorId CollatorSignature ValidatorId ValidatorSignature : Type}
  `{!Signatures CollatorId CollatorSignature ValidatorId ValidatorSignature}.
#[local] Abbreviation Vote := (DisputeStatement * ValidatorIndex * ValidatorSignature)%type.
#[local] Abbreviation StatementSet := (DisputeStatementSet ValidatorSignature).
Implicit Types (set : StatementSet) (env : ParasPallet.Env ValidatorId) (s : State).
Implicit Types (session_info info : SessionIndex → option (list ValidatorId)).

(** The bit vectors and the spam slots of a session have an entry for each of
    its validators. *)
Record state_ok session_info s : Prop := {
  so_disputes session h d validators :
    DisputesMap s !! (session, h) = Some d → session_info session = Some validators → dispute_ok (length validators) d;
  so_spam session slots validators :
    SpamSlots s !! session = Some slots → session_info session = Some validators → length slots = length validators;
}.

(** The spam slots of a session. *)
Definition slots_of (n : nat) (session : SessionIndex) s : list Z :=
  default (replicate n 0) (SpamSlots s !! session).

(** A new participant that has no spam slot left. *)
Definition over_limit (max_spam_slots : Z) (slots : list Z) (changes : list (ValidatorIndex * SpamSlotChange))
    (v : ValidatorIndex) : Prop :=
  (v, Inc) ∈ changes ∧ ∃ x, slots !! v = Some x ∧ max_spam_slots ≤ x.

Lemma first_vote_of_Some v set (x : Vote) :
  x ∈ statements set → x.1.2 = v → ∃ j, first_vote_of v set = Some j ∧ (j < length (statements set))%nat.
Proof.
  intros Hx Hv. unfold first_vote_of.
  destruct (list_find_elem_of (λ y : Vote, y.1.2 = v) (statements set) x Hx Hv) as [[j y] Hj].
  rewrite Hj. exists j. split; [done|]. apply list_find_Some in Hj as (Hj & _). by eapply lookup_lt_Some.
Qed.

Lemma change_spam_loop max_spam_slots set changes slots r0 :
  NoDup changes.*1 →
  (∀ v c, (v, c) ∈ changes → (v < length slots)%nat ∧ (c = Inc → ∃ x, x ∈ statements set ∧ x.1.2 = v)) →
  ∃ slots' r, try_fold (change_spam max_spam_slots set) changes (slots, r0) = Some (slots', r0 ++ r) ∧
    length slots' = length slots ∧
    ∀ j, j ∈ r ↔ ∃ v, over_limit max_spam_slots slots changes v ∧ first_vote_of v set = Some j.
Proof.
  revert slots r0. induction changes as [|[v c] changes IH]; intros slots r0 Hnd Hc; cbn.
  { exists slots, []. rewrite app_nil_r. split_and!; [done..|]. intros j. split; [by intros ?%elem_of_nil|].
    by intros (v & [?%elem_of_nil _] & _). }
  cbn in Hnd. apply NoDup_cons in Hnd as [Hv Hnd].
  destruct (Hc v c (list_elem_of_here _ _)) as [Hlt Hx]. destruct (lookup_lt_is_Some_2 _ _ Hlt) as [x Ex].
  rewrite Ex. cbn.
  assert (∀ y w, over_limit max_spam_slots (<[v := y]> slots) changes w ↔ over_limit max_spam_slots slots changes w) as Hover.
  { intros y w. unfold over_limit. destruct (decide (w = v)) as [->|Hne]; [|by rewrite list_lookup_insert_ne].
    split; intros [Hin _]; destruct Hv; apply list_elem_of_fmap; by exists (v, Inc). }
  assert (∀ w d, (w, d) ∈ changes → (w < length slots)%nat ∧ (d = Inc → ∃ x, x ∈ statements set ∧ x.1.2 = w)) as Hc'.
  { intros w d Hw. apply Hc. by right. }
  destruct c; cbn.
  - destruct (Hx eq_refl) as (a & Ha & Hav). destruct (first_vote_of_Some v set a Ha Hav) as (j & Hj & _).
    set (slots1 := <[v := u32_add x 1]> slots).
    assert (∀ w, over_limit max_spam_slots slots ((v, Inc) :: changes) w ↔
      (w = v ∧ max_spam_slots ≤ x) ∨ over_limit max_spam_slots slots1 changes w) as Hcons.
    { intros w. unfold slots1. rewrite Hover. unfold over_limit. rewrite elem_of_cons. naive_solver. }
    case_decide; [rewrite Hj; cbn|cbn].
    + destruct (IH slots1 (r0 ++ [j]) Hnd) as (slots' & r & -> & Hl & Hr); [by unfold slots1; rewrite length_insert|].
      exists slots', (j :: r). rewrite <-app_assoc. unfold slots1 in Hl. rewrite length_insert in Hl. split_and!; [done..|].
      intros k. rewrite elem_of_cons, Hr. setoid_rewrite Hcons. naive_solver.
    + destruct (IH slots1 r0 Hnd) as (slots' & r & -> & Hl & Hr); [by unfold slots1; rewrite length_insert|].
      exists slots', r. unfold slots1 in Hl. rewrite length_insert in Hl. split_and!; [done..|].
      intros k. rewrite Hr. setoid_rewrite Hcons. naive_solver.
  - destruct (IH (<[v := saturating_sub x 1]> slots) r0 Hnd) as (slots' & r & -> & Hl & Hr); [by rewrite length_insert|].
    exists slots', r. rewrite length_insert in Hl. split_and!; [done..|].
    intros k. rewrite Hr. setoid_rewrite Hover. unfold over_limit. setoid_rewrite elem_of_cons. naive_solver.
Qed.

Definition set_key set : SessionIndex * CandidateHash := (set_session set, set_candidate_hash set).

Definition one_sided (d : DisputeState) : Prop :=
  ParasPallet.count_ones (validators_for d) = 0%nat ∨ ParasPallet.count_ones (validators_against d) = 0%nat.

#[export] Instance one_sided_dec d : Decision (one_sided d).
Proof. unfold one_sided. apply _. Defined.

(** The importer a set starts from. *)
Definition first_importer env (validators : list ValidatorId) (found : option DisputeState) : DisputeStateImporter :=
  new_importer (dispute_or_new (length validators) (ParasPallet.block_number env) found) (ParasPallet.block_number env).

Lemma dispute_or_new_ok n now found :
  (∀ d, found = Some d → dispute_ok n d) → dispute_ok n (dispute_or_new n now found).
Proof. destruct found as [d|]; cbn; [auto|]. intros _ []; cbn; apply length_replicate. Qed.

Lemma first_importer_ok env session_info s set validators :
  state_ok session_info s → session_info (set_session set) = Some validators →
  importer_ok (length validators) (first_importer env validators (DisputesMap s !! set_key set)).
Proof. intros Hs Hv. apply new_importer_ok, dispute_or_new_ok. intros d Hd. by eapply so_disputes. Qed.

(** The votes imported by the filter, and the positions of the others. *)
Definition sift env (validators : list ValidatorId) set verify_sigs s : DisputeStateImporter * list nat :=
  foldl (filter_vote validators set verify_sigs)
    (first_importer env validators (DisputesMap s !! set_key set), []) (imap (λ j x, (j, x)) (statements set)).

(** What a filter that removes single votes has found out: [r] are the votes
    that cannot be imported, [r'] the first votes of validators over their
    limit. *)
Record filtered env session_info set acceptance_period max_spam_slots verify_sigs s
    (validators : list ValidatorId) (i : DisputeStateImporter) (r r' : list nat) : Prop := {
  fi_session : session_info (set_session set) = Some validators;
  fi_recent : is_ancient (saturating_sub (ParasPallet.block_number env) acceptance_period)
                (DisputesMap s !! set_key set) = false;
  fi_sift : sift env validators set verify_sigs s = (i, r);
  fi_range : Forall (λ j, j < length (statements set))%nat (r ++ r');
  fi_import : import_votes (first_importer env validators (DisputesMap s !! set_key set))
                (kept r 0 (statements set)) = Ok i;
  fi_votes : Forall (vote_ok validators set verify_sigs) (kept r 0 (statements set));
  fi_sides : ¬ one_sided (sum_state (finish i));
  fi_spam j : j ∈ r' ↔ Included s !! set_key set = None ∧
    ∃ v, over_limit max_spam_slots (slots_of (length validators) (set_session set) s)
           (spam_slot_changes (finish i)) v ∧ first_vote_of v set = Some j;
}.

Lemma filter_votes_spec env session_info set acceptance_period max_spam_slots verify_sigs s :
  state_ok session_info s →
  ∃ f slots, filter_votes env session_info set acceptance_period max_spam_slots verify_sigs s =
      Some (f, set_spam (λ m, if slots is Some x then <[set_session set := x]> m else m) s) ∧
    (∀ x validators, slots = Some x → session_info (set_session set) = Some validators → length x = length validators) ∧
    (f = RemoveAll ∧ (session_info (set_session set) = None ∨
       is_ancient (saturating_sub (ParasPallet.block_number env) acceptance_period)
         (DisputesMap s !! set_key set) = true ∨
       ∃ validators, session_info (set_session set) = Some validators ∧
         one_sided (sum_state (finish (sift env validators set verify_sigs s).1))) ∨
     ∃ validators i r r', f = RemoveIndices (r ++ r') ∧
      filtered env session_info set acceptance_period max_spam_slots verify_sigs s validators i r r').
Proof.
  intros Hs. unfold filter_votes. fold (set_key set).
  assert (s = set_spam (λ m, m) s) as Hid by (by destruct s).
  destruct (session_info (set_session set)) as [validators|] eqn:Hv; [|exists RemoveAll, None; rewrite <-Hid; by naive_solver].
  destruct (is_ancient _ _) eqn:Ha; [exists RemoveAll, None; rewrite <-Hid; by naive_solver|].
  fold (first_importer env validators (DisputesMap s !! set_key set)).
  pose proof (first_importer_ok env session_info s set validators Hs Hv) as Hi.
  destruct (filter_loop (length validators) validators set verify_sigs (statements set) 0 _ [] Hi eq_refl)
    as (i & r & Hloop & Hr & Him & Hok). cbn in Hloop.
  fold (sift env validators set verify_sigs s) in Hloop |- *. rewrite Hloop.
  pose proof (import_votes_spec (length validators) (kept r 0 (statements set)) _ Hi) as Hg. rewrite Him in Hg.
  destruct Hg as [_ Hg].
  case_decide as Hone.
  { exists RemoveAll, None. rewrite <-Hid. split_and!; [done..|]. left. split; [done|]. right. right.
    exists validators. by rewrite Hloop. }
  case_decide as Hinc.
  { exists (RemoveIndices r), None. rewrite <-Hid. split_and!; [done..|]. right. exists validators, i, r, [].
    rewrite app_nil_r. split; [done|]. split; rewrite ?app_nil_r; try done.
    - eapply Forall_impl; [done|]. cbn. lia.
    - intros j. split; [by intros ?%elem_of_nil|]. intros [E _]. rewrite E in Hinc. by destruct Hinc. }
  fold (slots_of (length validators) (set_session set) s).
  assert (length (slots_of (length validators) (set_session set) s) = length validators) as Hl.
  { unfold slots_of. destruct (SpamSlots s !! set_session set) eqn:E; cbn; [by eapply so_spam|apply length_replicate]. }
  destruct (spam_changes (length validators) i (gr_ok _ _ _ _ Hg)) as [Hnd Hch].
  destruct (change_spam_loop max_spam_slots set (spam_slot_changes (finish i))
    (slots_of (length validators) (set_session set) s) r Hnd) as (slots' & r' & -> & Hl' & Hr').
  { intros v c Hvc. destruct (Hch v c Hvc) as [Hlt Hinc']. rewrite Hl. split; [done|]. intros ->.
    specialize (Hinc' eq_refl). apply (gr_new _ _ _ _ Hg) in Hinc' as [Hnew|[[valid Hb] _]].
    - cbn in Hnew. apply lookup_replicate in Hnew as [? _]. done.
    - apply list_elem_of_fmap in Hb as (x & [= -> _] & Hx). exists x. split; [|done].
      eapply elem_of_submseteq; [done|]. apply sublist_submseteq, kept_submseteq. }
  cbn. exists (RemoveIndices (r ++ r')), (Some slots'). split; [done|]. split; [naive_solver lia|].
  right. exists validators, i, r, r'. split; [done|]. apply eq_None_not_Some in Hinc. split; try done.
  - apply Forall_app. split; [eapply Forall_impl; [done|]; cbn; lia|]. apply Forall_forall. intros j (v & _ & Hj)%Hr'.
    unfold first_vote_of in Hj. apply fmap_Some in Hj as ([k y] & Hk & ->).
    apply list_find_Some in Hk as (Hk & _). by eapply lookup_lt_Some.
  - intros j. rewrite Hr'. tauto.
Qed.

(** The import of what a filter has left. *)
Lemma filtered_process env session_info set acceptance_period max_spam_slots verify_sigs s validators i r r' left_ s2 :
  state_ok session_info s →
  filtered env session_info set acceptance_period max_spam_slots verify_sigs s validators i r r' →
  left_ ≡ₚ kept (r ++ r') 0 (statements set) →
  DisputesMap s2 !! set_key set = DisputesMap s !! set_key set →
  let set' := mkSet (set_candidate_hash set) (set_session set) left_ in
  ∃ i', importable (length validators) (ballot <$> left_) (imp_state (first_importer env validators (DisputesMap s !! set_key set))) ∧
    grown (length validators) (ballot <$> left_) (first_importer env validators (DisputesMap s !! set_key set)) i' ∧
    process_checked_dispute_data env session_info set' acceptance_period s2 =
      (if decide (one_sided (sum_state (finish i'))) then (s2, Err SingleSidedDispute)
       else (conclude_import set' (bool_decide (DisputesMap s !! set_key set = None)) (finish i') s2,
             Ok (bool_decide (DisputesMap s !! set_key set = None)))) ∧
    (r' = [] → ¬ one_sided (sum_state (finish i'))).
Proof.
  intros Hs Hf Hp Hsame set'. pose proof (fi_session _ _ _ _ _ _ _ _ _ _ _ Hf) as Hv.
  pose proof (first_importer_ok env session_info s set validators Hs Hv) as Hi.
  pose proof (fi_import _ _ _ _ _ _ _ _ _ _ _ Hf) as Him.
  pose proof (import_votes_spec _ (kept r 0 (statements set)) _ Hi) as Hk. rewrite Him in Hk. destruct Hk as [Hk _].
  pose proof (import_votes_spec _ left_ _ Hi) as Hl.
  assert (importable (length validators) (ballot <$> left_) (imp_state (first_importer env validators (DisputesMap s !! set_key set)))) as Hil.
  { eapply importable_perm; [by rewrite Hp|]. eapply importable_sublist; [|exact Hk]. apply fmap_sublist, kept_more. }
  destruct (import_votes _ left_) as [i'|] eqn:E; [|done]. destruct Hl as [_ G].
  exists i'. split_and!; [done|done| |].
  - unfold process_checked_dispute_data. cbn [set_session set_candidate_hash statements set'].
    fold (set_key set). rewrite Hv, Hsame, (fi_recent _ _ _ _ _ _ _ _ _ _ _ Hf).
    fold (first_importer env validators (DisputesMap s !! set_key set)). rewrite E.
    repeat case_decide; done.
  - intros ->. rewrite app_nil_r in Hp.
    assert (import_votes (first_importer env validators (DisputesMap s !! set_key set)) left_ = Ok i) as E'.
    { eapply import_votes_perm; [done|by symmetry|done]. }
    rewrite E in E'. injection E' as <-. apply (fi_sides _ _ _ _ _ _ _ _ _ _ _ Hf).
Qed.

Lemma set_spam_ok session_info session slots s :
  state_ok session_info s →
  (∀ x validators, slots = Some x → session_info session = Some validators → length x = length validators) →
  state_ok session_info (set_spam (λ m, if slots is Some x then <[session := x]> m else m) s).
Proof.
  intros Hs Hl. split; [apply Hs|]. cbn. destruct slots as [x|]; [|apply Hs].
  intros k slots validators. rewrite lookup_insert_Some. intros [[<- <-]|[_ Hk]] Hv; [by eapply Hl|by eapply so_spam].
Qed.

(** C9. What passes the filter can be imported: filtering a statement set does
    not panic, and a set that is left over consists of votes of the set, by
    validators of its session, with valid signatures when they are checked.
    Importing it in any state with the same dispute succeeds, unless it is
    refused as one-sided; that happens only to a dispute that is not about an
    included candidate, after a vote was taken out because its validator has
    used up the spam slots. *)
Theorem filtered_sets_import env session_info set max_spam_slots acceptance_period verify_sigs s :
  state_ok session_info s →
  ∃ out s', filter_dispute_data env session_info set max_spam_slots acceptance_period verify_sigs s = Some (out, s') ∧
    state_ok session_info s' ∧ DisputesMap s' = DisputesMap s ∧ Included s' = Included s ∧
    ∀ set', out = Some set' →
      set_key set' = set_key set ∧ statements set' ⊆+ statements set ∧
      ∃ validators, session_info (set_session set) = Some validators ∧
        Forall (vote_ok validators set verify_sigs) (statements set') ∧
        ∀ s2, DisputesMap s2 !! set_key set = DisputesMap s !! set_key set →
          let r := (process_checked_dispute_data env session_info set' acceptance_period s2).2 in
          r = Ok (bool_decide (DisputesMap s !! set_key set = None)) ∨
          r = Err SingleSidedDispute ∧ Included s !! set_key set = None ∧
          ∃ v x, v ∈ (ballot <$> statements set).*1 ∧ max_spam_slots ≤ x ∧
            slots_of (length validators) (set_session set) s !! v = Some x.
Proof.
  intros Hs. unfold filter_dispute_data.
  destruct (filter_votes_spec env session_info set acceptance_period max_spam_slots verify_sigs s Hs)
    as (f & slots & -> & Hl & Hf). cbn [mbind option_bind].
  set (s' := set_spam _ s). assert (state_ok session_info s') as Hs' by (by apply set_spam_ok).
  destruct Hf as [[-> _]|(validators & i & r & r' & -> & Hf)].
  { exists None, s'. by split_and!. }
  destruct (filter_statement_set_ok (r ++ r') set) as (left_ & -> & Hp); [apply Hf|].
  eexists _, s'. split_and!; [done..|]. intros set' Hset. case_decide as Hne; [done|]. injection Hset as <-.
  assert (kept (r ++ r') 0 (statements set) `sublist_of` statements set) as Hsub by apply kept_submseteq.
  split_and!; [done|cbn; rewrite Hp; by apply sublist_submseteq|].
  exists validators. split_and!; [apply Hf| |].
  { cbn. rewrite Hp. apply Forall_forall. intros x Hx. pose proof (fi_votes _ _ _ _ _ _ _ _ _ _ _ Hf) as Hok.
    rewrite Forall_forall in Hok. apply Hok. eapply elem_of_submseteq; [exact Hx|]. apply sublist_submseteq, kept_more. }
  intros s2 Hsame. destruct (filtered_process _ _ _ _ _ _ _ _ _ _ _ left_ s2 Hs Hf Hp Hsame) as (i' & _ & _ & E & Hone).
  cbn zeta in E. rewrite E. case_decide as Hside; [right|by left].
  destruct r' as [|j r']; [by destruct (Hone eq_refl)|]. split; [done|].
  destruct (proj1 (fi_spam _ _ _ _ _ _ _ _ _ _ _ Hf j) (list_elem_of_here _ _)) as (Hinc & v & [_ (x & Hx & Hm)] & Hj).
  split; [done|]. exists v, x. split_and!; [|done|done]. unfold first_vote_of in Hj.
  apply fmap_Some in Hj as ([k y] & (Hk & <- & _)%list_find_Some & _).
  rewrite <-list_fmap_compose. apply list_elem_of_fmap. exists y. split; [done|]. by eapply list_elem_of_lookup_2.
Qed.

(** ** Import *)

(** Two thirds of the validators voted on this side. *)
Definition majority (valid : bool) (d : DisputeState) : bool :=
  bool_decide (ParasPallet.supermajority_threshold (length (side valid d)) ≤ ParasPallet.count_ones (side valid d))%nat.

(** The votes [d] become [d'] with make a majority on this side. *)
Definition newly (valid : bool) (d d' : DisputeState) : bool := negb (majority valid d) && majority valid d'.

Lemma flags_majority n d :
  dispute_ok n d →
  FOR_SUPERMAJORITY (from_state d) = majority true d ∧ AGAINST_SUPERMAJORITY (from_state d) = majority false d.
Proof.
  intros Hd. unfold from_state, majority. cbn. split; [done|].
  by rewrite (Hd true : length (validators_for d) = n), (Hd false : length (validators_against d) = n).
Qed.

Lemma majority_side valid d d' : side valid d = side valid d' → majority valid d = majority valid d'.
Proof. unfold majority. by intros ->. Qed.

(** The summary of votes imported into [d]. *)
Lemma finish_decides n l d now i :
  dispute_ok n d → grown n l (new_importer d now) i →
  let sum := finish i in let d' := sum_state sum in
  (dispute_ok n d' ∧ start d' = start d ∧ (∀ valid v, voted valid v d' ↔ voted valid v d ∨ (v, valid) ∈ l)) ∧
  concluded_at d' = match concluded_at d with
                    | Some c => Some c
                    | None => if newly true d d' || newly false d d' then Some now else None
                    end ∧
  slash_against sum = (if newly true d d' then set_bits (validators_against d') else []) ∧
  slash_for sum = (if newly false d d' then set_bits (validators_for d') else []) ∧
  FOR_SUPERMAJORITY (new_flags sum) = newly true d d' ∧ AGAINST_SUPERMAJORITY (new_flags sum) = newly false d d' ∧
  (∀ v, v ∈ set_bits (sum_new_participants sum) ↔ (∃ valid, (v, valid) ∈ l) ∧ ¬ participates v d).
Proof.
  intros Hd G. cbn zeta.
  assert (∀ valid, newly valid d (sum_state (finish i)) = newly valid d (imp_state i)) as Hnew.
  { intros valid. unfold newly. by rewrite (majority_side _ (sum_state (finish i)) (imp_state i)) by apply finish_side. }
  rewrite !Hnew. destruct (flags_majority n d Hd) as [F1 F2].
  pose proof (io_state _ _ (gr_ok _ _ _ _ G)) as Hi. destruct (flags_majority n (imp_state i) Hi) as [F3 F4].
  pose proof (gr_concluded _ _ _ _ G) as Hc. pose proof (gr_start _ _ _ _ G) as Hst.
  pose proof (gr_now _ _ _ _ G) as Hn. pose proof (gr_flags _ _ _ _ G) as Hp. cbn in Hc, Hst, Hn, Hp.
  split.
  { split_and!.
    - intros valid. by rewrite finish_side.
    - rewrite <-Hst. unfold finish. cbn. destruct (imp_state i) as [f a st []]; by repeat case_match.
    - intros valid v. rewrite finish_voted. apply (gr_voted _ _ _ _ G). }
  unfold finish, newly. cbn -[from_state majority set_bits]. rewrite Hp, F1, F2, F3, F4.
  split_and!.
  - destruct (imp_state i) as [f a st c]. cbn -[majority] in Hc, Hst |- *. subst c. rewrite Hn.
    destruct (concluded_at d); repeat case_match; done.
  - destruct (imp_state i) as [f a st []]; cbn -[majority set_bits]; repeat case_match; done.
  - destruct (imp_state i) as [f a st []]; cbn -[majority set_bits]; repeat case_match; done.
  - apply andb_comm.
  - apply andb_comm.
  - intros v. rewrite elem_of_set_bits, (gr_new _ _ _ _ G). cbn. split; [|tauto].
    intros [Hr|?]; [|done]. by apply lookup_replicate in Hr as [? _].
Qed.

Lemma not_one_sided d : ¬ one_sided d ↔ ∀ valid, ∃ v, voted valid v d.
Proof.
  assert (∀ valid, ParasPallet.count_ones (side valid d) ≠ 0%nat ↔ ∃ v, voted valid v d) as Hv.
  { intros valid. rewrite <-length_set_bits. unfold voted. setoid_rewrite <-elem_of_set_bits.
    destruct (set_bits (side valid d)) as [|v l]; cbn; [|split; [exists v; by left|done]].
    split; [done|]. by intros [v ?%elem_of_nil]. }
  pose proof (Hv true) as Ht. pose proof (Hv false) as Hf. cbn in Ht, Hf. unfold one_sided. split.
  - intros Hn []; [apply Ht|apply Hf]; tauto.
  - intros Hall [E|E]; [by destruct (proj2 Ht (Hall true))|by destruct (proj2 Hf (Hall false))].
Qed.

Lemma freeze_frame r s :
  let s' := revert_and_freeze r s in
  (DisputesMap s' = DisputesMap s ∧ Included s' = Included s ∧ SpamSlots s' = SpamSlots s ∧ Hooks s' = Hooks s) ∧
  Frozen s' = Some (match Frozen s with Some last => Z.min last r | None => r end).
Proof.
  unfold revert_and_freeze. destruct (Frozen s) as [last|] eqn:E; cbn.
  - case_bool_decide; cbn; (split; [done|]); [|rewrite E]; f_equal; lia.
  - done.
Qed.

Lemma conclude_import_frame set fresh sum s :
  let s' := conclude_import set fresh sum s in
  (DisputesMap s' = <[set_key set := sum_state sum]> (DisputesMap s) ∧ Included s' = Included s ∧
   SpamSlots s' = SpamSlots s ∧
   Hooks s' = Hooks s ++ [reward_dispute_statement (set_session set) (set_bits (sum_new_participants sum));
                          punish_against_valid (set_session set) (slash_against sum);
                          punish_for_invalid (set_session set) (slash_for sum)]) ∧
  Frozen s' = match Included s !! set_key set with
              | Some r => if AGAINST_SUPERMAJORITY (new_flags sum)
                          then Some (match Frozen s with Some last => Z.min last r | None => r end) else Frozen s
              | None => Frozen s
              end.
Proof.
  unfold conclude_import. fold (set_key set).
  set (s1 := if fresh then _ else s). set (s2 := if FOR_SUPERMAJORITY _ then _ else s1).
  set (s3 := if AGAINST_SUPERMAJORITY _ then _ else s2).
  set (s4 := set_disputes _ _). cbn zeta.
  assert (DisputesMap s4 = <[set_key set := sum_state sum]> (DisputesMap s) ∧ Included s4 = Included s ∧
    SpamSlots s4 = SpamSlots s ∧ Frozen s4 = Frozen s ∧
    Hooks s4 = Hooks s ++ [reward_dispute_statement (set_session set) (set_bits (sum_new_participants sum));
                          punish_against_valid (set_session set) (slash_against sum);
                          punish_for_invalid (set_session set) (slash_for sum)]) as (E1 & E2 & E3 & E4 & E5).
  { unfold s4, s3, s2, s1. clear. cbn. repeat case_match; cbn; by rewrite <-!app_assoc. }
  clearbody s4. rewrite E2. destruct (AGAINST_SUPERMAJORITY (new_flags sum)), (Included s !! set_key set) as [r|];
    cbn; [|by split..].
  destruct (freeze_frame r s4) as ((F1 & F2 & F3 & F4) & F5). by rewrite F1, F2, F3, F4, F5, E1, E2, E3, E4, E5.
Qed.

(** What a successful import does. *)
Record imported env set (validators : list ValidatorId) s s' (d d' : DisputeState) : Prop := {
  im_votes : importable (length validators) (ballot <$> statements set) d;
  im_stored : DisputesMap s' = <[set_key set := d']> (DisputesMap s);
  im_voted valid v : voted valid v d' ↔ voted valid v d ∨ (v, valid) ∈ ballot <$> statements set;
  im_sides valid : ∃ v, voted valid v d';
  im_concluded : concluded_at d' = match concluded_at d with
    | Some c => Some c
    | None => if newly true d d' || newly false d d' then Some (ParasPallet.block_number env) else None
    end;
  im_hooks : ∃ rewarded, Hooks s' = Hooks s ++
    [reward_dispute_statement (set_session set) rewarded;
     punish_against_valid (set_session set) (if newly true d d' then set_bits (validators_against d') else []);
     punish_for_invalid (set_session set) (if newly false d d' then set_bits (validators_for d') else [])] ∧
    ∀ v, v ∈ rewarded ↔ (∃ valid, (v, valid) ∈ ballot <$> statements set) ∧ ¬ participates v d;
  im_frozen : Frozen s' = match Included s !! set_key set with
    | Some r => if newly false d d' then Some (match Frozen s with Some last => Z.min last r | None => r end)
                else Frozen s
    | None => Frozen s
    end;
  im_frame : Included s' = Included s ∧ SpamSlots s' = SpamSlots s;
  im_ok : dispute_ok (length validators) d';
}.

(** The dispute a set is about, before its votes. *)
Definition dispute_of env (validators : list ValidatorId) set s : DisputeState :=
  dispute_or_new (length validators) (ParasPallet.block_number env) (DisputesMap s !! set_key set).

(** A set that can be imported. *)
Definition acceptable env session_info set acceptance_period s (validators : list ValidatorId) : Prop :=
  session_info (set_session set) = Some validators ∧
  is_ancient (saturating_sub (ParasPallet.block_number env) acceptance_period) (DisputesMap s !! set_key set) = false ∧
  importable (length validators) (ballot <$> statements set) (dispute_of env validators set s) ∧
  ∀ valid, ∃ v, voted valid v (dispute_of env validators set s) ∨ (v, valid) ∈ ballot <$> statements set.

Lemma process_cases env session_info set acceptance_period s :
  state_ok session_info s →
  match process_checked_dispute_data env session_info set acceptance_period s with
  | (s', Ok fresh) => ∃ validators d', acceptable env session_info set acceptance_period s validators ∧
      fresh = bool_decide (DisputesMap s !! set_key set = None) ∧
      imported env set validators s s' (dispute_of env validators set s) d'
  | (s', Err e) => s' = s ∧ ∀ validators, ¬ acceptable env session_info set acceptance_period s validators
  end.
Proof.
  intros Hs. unfold process_checked_dispute_data, acceptable. fold (set_key set).
  destruct (session_info (set_session set)) as [validators|] eqn:Hv; [|naive_solver].
  destruct (is_ancient _ _) eqn:Ha; [naive_solver|].
  fold (dispute_of env validators set s). set (d := dispute_of env validators set s).
  assert (dispute_ok (length validators) d) as Hd.
  { apply dispute_or_new_ok. intros d0 Hd0. by eapply so_disputes. }
  pose proof (import_votes_spec _ (statements set) _ (new_importer_ok _ d (ParasPallet.block_number env) Hd)) as Hi.
  destruct (import_votes _ (statements set)) as [i|e]; [|split; [done|]; intros ? ([= <-] & _ & Him & _); by apply Hi].
  destruct Hi as [Him G]. cbn in Him.
  destruct (finish_decides _ _ d _ i Hd G) as ((D1 & D2 & D3) & C1 & C2 & C3 & C4 & C5 & C6).
  case_decide as Hone.
  { split; [done|]. intros ? ([= <-] & _ & _ & Hsides). revert Hone. apply not_one_sided. intros valid.
    destruct (Hsides valid) as [v Hv']. exists v. by apply D3. }
  pose proof (proj1 (not_one_sided _) Hone) as Hsides.
  exists validators, (sum_state (finish i)). split_and!; [done..| |done|].
  { intros valid. destruct (Hsides valid) as [v Hv']. exists v. by apply D3. }
  set (fresh := bool_decide _).
  destruct (conclude_import_frame set fresh (finish i) s) as ((F1 & F2 & F3 & F4) & F5).
  fold d. split; try done.
  - rewrite F4, C2, C3. eexists. split; [done|]. exact C6.
  - by rewrite F5, C5.
Qed.

(** C7. An import is decided by the votes.  A set is imported exactly when its
    session is known, the dispute is not concluded for too long, no vote is out
    of range or cast before, and with the votes there are some on both sides;
    otherwise nothing changes.  An import adds exactly the votes of the set.
    The votes that make two thirds on one side conclude the dispute, if it was
    not before; whoever is on the other side by then is punished, and nobody
    else; the validators that had not taken part are rewarded; and when the
    verdict is against an included candidate, the chain is frozen at its parent
    at the latest. *)
Theorem votes_decide env session_info set acceptance_period s :
  state_ok session_info s →
  ((∃ fresh, (process_checked_dispute_data env session_info set acceptance_period s).2 = Ok fresh) ↔
   ∃ validators, acceptable env session_info set acceptance_period s validators) ∧
  match process_checked_dispute_data env session_info set acceptance_period s with
  | (s', Ok fresh) => ∃ validators d', session_info (set_session set) = Some validators ∧
      imported env set validators s s' (dispute_of env validators set s) d'
  | (s', Err _) => s' = s
  end.
Proof.
  intros Hs. pose proof (process_cases env session_info set acceptance_period s Hs) as Hc.
  destruct (process_checked_dispute_data _ _ _ _ _) as [s' [fresh|e]]; cbn.
  - destruct Hc as (validators & d' & Ha & _ & Him). split; [|exists validators, d'; split; [apply Ha|done]].
    split; [intros _; by exists validators|intros _; by exists fresh].
  - destruct Hc as [-> Hn]. split; [|done]. split; [by intros [? [=]]|]. intros [validators Ha]. by destruct (Hn validators).
Qed.

(** No side of a dispute without votes has a majority. *)
Lemma no_majority n now valid : (0 < n)%nat → majority valid (dispute_or_new n now None) = false.
Proof.
  intros Hn. apply bool_decide_eq_false. destruct valid; cbn [side dispute_or_new validators_for validators_against]; rewrite length_replicate, <-length_set_bits;
    (destruct (set_bits (replicate n false)) as [|v l] eqn:E;
      [cbn; unfold ParasPallet.supermajority_threshold, ParasPallet.byzantine_threshold; 
       pose proof (Nat.Div0.div_le_upper_bound (n - 1) 3 (n - 1)); lia|]);
    assert (v ∈ set_bits (replicate n false)) as [? _]%elem_of_set_bits%lookup_replicate by (rewrite E; left); done.
Qed.

(** C36. The spam limit can be got around: whatever the limit and however many
    slots a validator has used, in a set that can be imported and whose votes
    are all properly signed, a vote of a validator that has voted earlier in the
    set passes the filter. *)
Theorem spam_limit_bypassed env session_info set max_spam_slots acceptance_period s validators l1 x l2 y l3 :
  state_ok session_info s → statements set = l1 ++ x :: l2 ++ y :: l3 → x.1.2 = y.1.2 →
  acceptable env session_info set acceptance_period s validators →
  Forall (vote_ok validators set VerifyYes) (statements set) →
  ∃ set' s', filter_dispute_data env session_info set max_spam_slots acceptance_period VerifyYes s = Some (Some set', s') ∧
    y ∈ statements set'.
Proof.
  intros Hs Hst Hxy (Hv & Ha & Him & Hsides) Hok. unfold filter_dispute_data.
  destruct (filter_votes_spec env session_info set acceptance_period max_spam_slots VerifyYes s Hs)
    as (f & slots & E & _ & Hf). rewrite E. cbn [mbind option_bind].
  pose proof (first_importer_ok env session_info s set validators Hs Hv) as Hi.
  pose proof (filter_loop_all _ _ set VerifyYes (statements set) 0 _ [] Hi eq_refl Him Hok) as Hnone.
  destruct (filter_loop _ validators set VerifyYes (statements set) 0 _ [] Hi eq_refl) as (i & r & Hloop & _ & Himp & _).
  cbn in Hloop, Hnone. fold (sift env validators set VerifyYes s) in Hloop, Hnone. rewrite Hloop in Hnone. cbn in Hnone. subst r.
  rewrite kept_all in Himp by (intros ?? []%elem_of_nil).
  pose proof (import_votes_spec _ (statements set) _ Hi) as Hg. rewrite Himp in Hg. destruct Hg as [_ Hg].
  destruct Hf as [[_ [?|[?|(vs & Hvs & Hone)]]]|(vs & i' & r & r' & -> & Hf)]; [congruence..| |].
  { rewrite Hv in Hvs. injection Hvs as <-. rewrite Hloop in Hone. exfalso. revert Hone. apply not_one_sided.
    intros valid. destruct (Hsides valid) as [w Hw]. exists w. apply finish_voted, (gr_voted _ _ _ _ Hg), Hw. }
  pose proof (fi_session _ _ _ _ _ _ _ _ _ _ _ Hf) as Hvs. rewrite Hv in Hvs. injection Hvs as <-.
  pose proof (fi_sift _ _ _ _ _ _ _ _ _ _ _ Hf) as Hsift. rewrite Hloop in Hsift. injection Hsift as <- <-.
  destruct (filter_statement_set_ok ([] ++ r') set) as (left_ & -> & Hp); [apply Hf|].
  assert (y ∈ left_) as Hy.
  { assert (statements set = (l1 ++ x :: l2) ++ y :: l3) as Hst' by (by rewrite Hst, <-app_assoc).
    rewrite Hp, Hst'. apply kept_elem. cbn.
    rewrite (fi_spam _ _ _ _ _ _ _ _ _ _ _ Hf). intros (_ & v & _ & Hj). unfold first_vote_of in Hj.
    apply fmap_Some in Hj as ([j z] & (Hz & Hzv & Hmin)%list_find_Some & Ej). cbn in Ej, Hzv. subst j.
    rewrite Hst', list_lookup_middle in Hz by done. injection Hz as <-.
    apply (Hmin (length l1) x); [by rewrite Hst, list_lookup_middle|rewrite length_app; cbn; lia|congruence]. }
  cbn [mbind option_bind]. rewrite decide_False by (intros ->; by apply elem_of_nil in Hy).
  eexists _, _. split; [done|]. exact Hy.
Qed.

(** ** Freezing *)

(** Every included candidate that was found invalid, apart from those of
    [old], has frozen the chain, at its parent or before, and the last log says
    which block to revert. *)
Record frozen_ok (old : SessionIndex * CandidateHash → Prop) s : Prop := {
  fr_frozen k r d : ¬ old k → Included s !! k = Some r → DisputesMap s !! k = Some d → majority false d = true →
    ∃ f, Frozen s = Some f ∧ f ≤ r;
  fr_log f : Frozen s = Some f → last (RevertLogs s) = Some (u32_add f 1);
}.

(** Nothing is added to [s] but spam slots, and votes are not touched. *)
Record calmer session_info s s' : Prop := {
  ca_included k r : Included s' !! k = Some r → Included s !! k = Some r;
  ca_disputes k d' : DisputesMap s' !! k = Some d' →
    ∃ d, DisputesMap s !! k = Some d ∧ ∀ valid, side valid d' = side valid d;
  ca_spam session slots validators : SpamSlots s' !! session = Some slots → session_info session = Some validators →
    length slots = length validators;
  ca_frozen : Frozen s' = Frozen s;
  ca_logs : RevertLogs s' = RevertLogs s;
}.

Lemma calmer_ok old session_info s s' :
  calmer session_info s s' → state_ok session_info s → frozen_ok old s → state_ok session_info s' ∧ frozen_ok old s'.
Proof.
  intros [C1 C2 C3 C4 C5] Hs Hf. split; split.
  - intros session h d validators (d0 & Hd0 & Hd)%C2 Hv valid. rewrite Hd. by eapply so_disputes.
  - done.
  - intros k r d Hold Hk%C1 (d0 & Hd0 & Hd)%C2 Hm. rewrite C4. eapply fr_frozen; [done..|].
    by rewrite <-(majority_side false d d0).
  - intros f. rewrite C4, C5. apply (fr_log _ _ Hf).
Qed.

Lemma calmer_trans session_info s1 s2 s3 :
  calmer session_info s1 s2 → calmer session_info s2 s3 → calmer session_info s1 s3.
Proof.
  intros [A1 A2 A3 A4 A5] [B1 B2 B3 B4 B5]. split; [by eauto| |done|congruence..].
  intros k d3 (d2 & (d1 & ? & Hd1)%A2 & Hd2)%B2. exists d1. split; [done|]. intros. by rewrite Hd2.
Qed.

Lemma calmer_refl session_info s : state_ok session_info s → calmer session_info s s.
Proof. intros Hs. split; try done; [by eauto|apply Hs]. Qed.

Lemma length_decrement_spam slots d : length (decrement_spam slots d).2 = length slots.
Proof.
  unfold decrement_spam. cbn. case_decide as Hc; [|done]. clear Hc.
  generalize (set_bits (participants d)) as l. intros l. revert slots.
  induction l as [|v l IH]; intros slots; cbn; [done|]. by rewrite IH, length_alter.
Qed.

Lemma filter_calmer env session_info set max_spam_slots acceptance_period verify_sigs s out s' :
  state_ok session_info s →
  filter_dispute_data env session_info set max_spam_slots acceptance_period verify_sigs s = Some (out, s') →
  calmer session_info s s'.
Proof.
  intros Hs. unfold filter_dispute_data.
  destruct (filter_votes_spec env session_info set acceptance_period max_spam_slots verify_sigs s Hs)
    as (f & slots & -> & Hl & _). cbn [mbind option_bind].
  destruct (filter_statement_set f set); cbn; [|done]. intros [= _ <-].
  pose proof (set_spam_ok session_info (set_session set) slots s Hs Hl) as Hs'.
  split; try done; [by eauto|apply Hs'].
Qed.

Lemma time_out_calmer session_info config now s k d :
  state_ok session_info s → DisputesMap s !! k = Some d →
  calmer session_info s (time_out config now s (k, d)) ∧
  ∀ k', k' ≠ k → DisputesMap (time_out config now s (k, d)) !! k' = DisputesMap s !! k'.
Proof.
  intros Hs Hk. destruct k as [session h]. unfold time_out. case_decide; [|split; [by apply calmer_refl|done]].
  set (s1 := set_disputes _ _).
  assert (calmer session_info s s1) as C1.
  { split; cbn; try done; [|apply Hs]. intros k d'. rewrite lookup_insert_Some.
    intros [[<- <-]|[_ ?]]; [|by eauto]. exists d. split; [done|]. by intros []. }
  assert (∀ k', k' ≠ (session, h) → DisputesMap s1 !! k' = DisputesMap s !! k') as D1.
  { intros k' ?. cbn. by rewrite lookup_insert_ne. }
  case_decide; [done|]. destruct (SpamSlots s1 !! session) as [slots|] eqn:Es; [|done].
  destruct (decrement_spam slots _) as [p slots'] eqn:Ed. split; [|done].
  eapply calmer_trans; [exact C1|]. split; cbn; try done; [by eauto|].
  intros k slots2 validators. rewrite lookup_insert_Some. intros [[<- <-]|[_ ?]] ?; [|by eapply (ca_spam _ _ _ C1)].
  pose proof (length_decrement_spam slots (mkDispute (validators_for d) (validators_against d) (start d) (Some now))) as Hl.
  rewrite Ed in Hl. cbn in Hl. rewrite Hl. by eapply (ca_spam _ _ _ C1).
Qed.

Lemma time_outs_calmer session_info config now l s :
  state_ok session_info s → NoDup l.*1 → (∀ k d, (k, d) ∈ l → DisputesMap s !! k = Some d) →
  calmer session_info s (foldl (time_out config now) s l).
Proof.
  revert s. induction l as [|[k d] l IH]; intros s Hs Hnd Hl; cbn [foldl]; [by apply calmer_refl|].
  cbn in Hnd. apply NoDup_cons in Hnd as [Hk Hnd].
  destruct (time_out_calmer session_info config now s k d Hs) as [C D]; [apply Hl; by left|].
  eapply calmer_trans; [exact C|]. apply IH; [|done|].
  - split; [|apply C]. intros session h d' validators (d0 & Hd0 & Hd)%(ca_disputes _ _ _ C) Hv valid.
    rewrite Hd. by eapply so_disputes.
  - intros k' d' Hin. rewrite D; [apply Hl; by right|]. intros ->. apply Hk, list_elem_of_fmap. by exists (k, d').
Qed.

Lemma initialize_calmer `{!StorageIter (SessionIndex * CandidateHash) DisputeState} session_info config now s :
  state_ok session_info s → calmer session_info s (initializer_initialize config now s).
Proof.
  intros Hs. apply time_outs_calmer; [done| |].
  - rewrite storage_iter_perm. apply NoDup_fst_map_to_list.
  - intros k d. rewrite storage_iter_perm. apply elem_of_map_to_list.
Qed.

Lemma prune_calmer session_info config session s :
  state_ok session_info s → calmer session_info s (initializer_on_new_session config session s).
Proof.
  intros Hs. unfold initializer_on_new_session. case_decide; [by apply calmer_refl|].
  set (l := match LastPrunedSession s with Some _ => _ | None => _ end). clearbody l.
  assert (calmer session_info s (foldl prune_session s l)) as C; [|by split; try apply C].
  revert s Hs. induction l as [|x l IH]; intros s Hs; cbn [foldl]; [by apply calmer_refl|].
  assert (calmer session_info s (prune_session s x)) as C.
  { split; cbn; try done.
    - intros k r [? _]%map_lookup_filter_Some. done.
    - intros k d [? _]%map_lookup_filter_Some. by eauto.
    - intros k slots validators [_ ?]%lookup_delete_Some. by apply Hs. }
  eapply calmer_trans; [exact C|]. apply IH. split; [|apply C].
  intros k h d validators [Hd _]%map_lookup_filter_Some. by eapply so_disputes.
Qed.

Lemma majority_grows valid n d d' :
  dispute_ok n d → dispute_ok n d' → (∀ v, voted valid v d → voted valid v d') →
  majority valid d = true → majority valid d' = true.
Proof.
  unfold majority. intros Hd Hd' Hv. rewrite !bool_decide_eq_true, Hd, Hd', <-!length_set_bits. intros Hm.
  etrans; [exact Hm|]. apply submseteq_length, NoDup_submseteq; [apply NoDup_set_bits|].
  intros v. rewrite !elem_of_set_bits. apply Hv.
Qed.

Lemma freeze_log r s : (∀ f, Frozen s = Some f → last (RevertLogs s) = Some (u32_add f 1)) →
  ∀ f, Frozen (revert_and_freeze r s) = Some f → last (RevertLogs (revert_and_freeze r s)) = Some (u32_add f 1).
Proof. intros Hl f. unfold revert_and_freeze. case_match; [|apply Hl]. intros [= <-]. cbn. apply last_snoc. Qed.

Lemma conclude_import_log set fresh sum s :
  (∀ f, Frozen s = Some f → last (RevertLogs s) = Some (u32_add f 1)) →
  ∀ f, Frozen (conclude_import set fresh sum s) = Some f →
    last (RevertLogs (conclude_import set fresh sum s)) = Some (u32_add f 1).
Proof.
  intros Hl. unfold conclude_import. set (s4 := set_disputes _ _).
  assert (Frozen s4 = Frozen s ∧ RevertLogs s4 = RevertLogs s) as [E1 E2] by (unfold s4; clear; cbn; by repeat case_match).
  clearbody s4. cbn zeta. destruct (AGAINST_SUPERMAJORITY (new_flags sum)), (Included s4 !! (set_session set, set_candidate_hash set)) as [r|];
    try (rewrite E1, E2; exact Hl). apply freeze_log. by rewrite E1, E2.
Qed.

Lemma process_import_ok old env session_info set acceptance_period s :
  state_ok session_info s → frozen_ok old s →
  let s' := (process_checked_dispute_data env session_info set acceptance_period s).1 in
  state_ok session_info s' ∧ frozen_ok old s'.
Proof.
  intros Hs Hf. pose proof (process_cases env session_info set acceptance_period s Hs) as Hc.
  assert (∀ f, Frozen (process_checked_dispute_data env session_info set acceptance_period s).1 = Some f →
    last (RevertLogs (process_checked_dispute_data env session_info set acceptance_period s).1) = Some (u32_add f 1)) as Hlog.
  { pose proof (fr_log _ _ Hf) as Hl. unfold process_checked_dispute_data.
    repeat case_match; cbn; solve [exact Hl|by apply conclude_import_log]. }
  destruct (process_checked_dispute_data _ _ _ _ _) as [s' [fresh|e]]; cbn in *; [|by destruct Hc as [-> _]].
  destruct Hc as (validators & d' & (Hv & _) & _ & [I1 I2 I3 I4 I5 I6 I7 [I8 I9] I10]).
  split; split; [| |intros k r x Hold|done].
  - intros session h x vs. rewrite I2, lookup_insert_Some. unfold set_key. intros [[[= <- <-] <-]|[_ Hx]] Hvs.
    + rewrite Hv in Hvs. by injection Hvs as <-.
    + by eapply so_disputes.
  - rewrite I9. apply Hs.
  - rewrite I8, I2, lookup_insert_Some. intros Hr [[<- <-]|[_ Hx]] Hm; rewrite I7.
    + rewrite Hr. unfold newly. rewrite Hm, andb_true_r.
      destruct (majority false (dispute_of env validators set s)) eqn:Em; cbn.
      * unfold dispute_of, dispute_or_new in Em. destruct (DisputesMap s !! set_key set) as [d|] eqn:Ed.
        { by eapply fr_frozen. }
        destruct (I4 true) as [v Hvt]. pose proof (participates_lt _ v d' I10 (or_introl Hvt)).
        change (majority false (dispute_or_new (length validators) (ParasPallet.block_number env) None) = true) in Em.
        by rewrite no_majority in Em by lia.
      * eexists. split; [done|]. destruct (Frozen s); lia.
    + destruct (fr_frozen _ _ Hf k r x Hold Hr Hx Hm) as (f & -> & Hle).
      destruct (Included s !! set_key set); [case_match|]; (eexists; split; [done|]); lia.
Qed.

Lemma process_multi_ok old env session_info (sets : list StatementSet) s :
  state_ok session_info s → frozen_ok old s →
  let s' := (process_checked_multi_dispute_data env session_info sets s).1 in
  state_ok session_info s' ∧ frozen_ok old s'.
Proof.
  cbn zeta. revert s. induction sets as [|set sets IH]; intros s Hs Hf; cbn; [done|].
  destruct (process_import_ok old env session_info set
    (dispute_post_conclusion_acceptance_period (ParasPallet.config env)) s Hs Hf) as [Hs' Hf'].
  destruct (process_checked_dispute_data _ _ _ _ _) as [s' [fresh|e]]; cbn in *; [|done].
  specialize (IH s' Hs' Hf'). by destruct (process_checked_multi_dispute_data _ _ _ _) as [s'' [|]].
Qed.

Lemma note_included_ok old session_info session h included_in s :
  state_ok session_info s → frozen_ok old s →
  state_ok session_info (note_included session h included_in s) ∧ frozen_ok old (note_included session h included_in s).
Proof.
  intros Hs Hf. unfold note_included. case_decide; [done|]. cbn zeta.
  set (revert_to := u32_sub included_in 1). set (s1 := set_included _ s).
  assert (state_ok session_info s1) as Hs1 by (split; apply Hs).
  change (DisputesMap s1) with (DisputesMap s).
  assert (∀ k r d, ¬ old k → Included s1 !! k = Some r → DisputesMap s !! k = Some d → majority false d = true →
    k = (session, h) ∧ r = revert_to ∨ ∃ f, Frozen s = Some f ∧ f ≤ r) as Hk.
  { intros k r d Hold. cbn. rewrite lookup_insert_Some. intros [[<- <-]|[_ Hr]] Hd Hm; [by left|].
    right. by eapply fr_frozen. }
  destruct (DisputesMap s !! (session, h)) as [d|] eqn:Ed.
  - set (s2 := set_spam _ s1).
    assert (state_ok session_info s2) as Hs2.
    { split; cbn -[decrement_spam]; [apply Hs|]. intros k slots validators. rewrite lookup_alter_Some.
      intros [(<- & x & Hx & ->)|[_ ?]] Hv; [cbv beta; rewrite length_decrement_spam|]; by eapply so_spam. }
    change (has_supermajority_against d) with (majority false d). destruct (majority false d) eqn:Em.
    + destruct (freeze_frame revert_to s2) as ((F1 & F2 & F3 & _) & F4). cbn in F1, F2, F3, F4. split; split.
      * intros x y z validators. rewrite F1. apply Hs2.
      * intros x slots validators. rewrite F3. apply Hs2.
      * intros k r x Hold. rewrite F1, F2, F4. intros Hr Hx Hm. eexists. split; [done|].
        destruct (Hk k r x Hold Hr Hx Hm) as [[_ ->]|(f & -> & ?)]; [destruct (Frozen s)|]; lia.
      * apply freeze_log. apply (fr_log _ _ Hf).
    + split; [done|]. split; [|apply Hf]. intros k r x Hold Hr Hx Hm.
      destruct (Hk k r x Hold Hr Hx Hm) as [[-> _]|?]; [|done]. cbn in Hx. congruence.
  - split; [done|]. split; [|apply Hf]. intros k r x Hold Hr Hx Hm.
    destruct (Hk k r x Hold Hr Hx Hm) as [[-> _]|?]; [|done]. cbn in Hx. congruence.
Qed.

Context `{!StorageIter (SessionIndex * CandidateHash) DisputeState}.

(** The steps of the pallet.  A new session makes its validators known and
    forgets old sessions. *)
Inductive step {O A : Type} `{!FrameOrigin O A} : (SessionIndex → option (list ValidatorId)) * State →
    (SessionIndex → option (list ValidatorId)) * State → Prop :=
| step_filter env info set max_spam_slots acceptance_period verify_sigs s out s' :
    filter_dispute_data env info set max_spam_slots acceptance_period verify_sigs s = Some (out, s') →
    step (info, s) (info, s')
| step_import env info (sets : list StatementSet) s :
    step (info, s) (info, (process_checked_multi_dispute_data env info sets s).1)
| step_included info session h included_in s : step (info, s) (info, note_included session h included_in s)
| step_block info config now s : step (info, s) (info, initializer_initialize config now s)
| step_session info info' config session s :
    (∀ k validators, info' k = Some validators → info k = Some validators ∨
       (∀ h, DisputesMap s !! (k, h) = None) ∧ SpamSlots s !! k = None) →
    step (info, s) (info', initializer_on_new_session config session s)
| step_unfreeze info (origin : O) s : step (info, s) (info, (force_unfreeze origin s).1).

Section Steps.
Context {O A : Type} `{!FrameOrigin O A}.

(** Steps that do not lift a freeze. *)
Definition step_frozen (x y : (SessionIndex → option (list ValidatorId)) * State) : Prop :=
  step x y ∧ (is_frozen x.2 = true → is_frozen y.2 = true).

Lemma unfreeze_ok old session_info (origin : O) s :
  (∀ k, old k) ∨ (is_frozen s = true → is_frozen (force_unfreeze origin s).1 = true) →
  state_ok session_info s → frozen_ok old s →
  state_ok session_info (force_unfreeze origin s).1 ∧ frozen_ok old (force_unfreeze origin s).1.
Proof.
  intros Hold Hs Hf. unfold force_unfreeze, is_frozen in *. unfold_dispatch.
  destruct (ensure_root origin); cbn in *; [|done]. split; [split; apply Hs|]. split; [|done].
  intros k r d Hk Hr Hd Hm. cbn in *. destruct Hold as [Hold|Hold]; [by destruct Hk|].
  destruct (fr_frozen _ _ Hf k r d Hk Hr Hd Hm) as (f & E & _). rewrite E in Hold.
  rewrite bool_decide_eq_true_2 in Hold by done. by specialize (Hold eq_refl).
Qed.

Lemma step_invariant old x y :
  step x y → (∀ k, old k) ∨ (is_frozen x.2 = true → is_frozen y.2 = true) →
  state_ok x.1 x.2 ∧ frozen_ok old x.2 → state_ok y.1 y.2 ∧ frozen_ok old y.2.
Proof.
  intros Hstep Hold [Hs Hf]. destruct Hstep as [env info set m a v s out s' Hx|env info sets s|info session h n s|info config now s|info info' config session s Hi|info origin s]; cbn in *.
  - eapply calmer_ok; [|done..]. by eapply filter_calmer.
  - by apply process_multi_ok.
  - by apply note_included_ok.
  - eapply calmer_ok; [|done..]. by apply initialize_calmer.
  - assert (state_ok info' s) as Hs'.
    { split.
      - intros k h d validators Hd Hk. destruct (Hi k validators Hk) as [?|[Hn _]]; [by eapply so_disputes|].
        by rewrite Hn in Hd.
      - intros k slots validators Hk Hv. destruct (Hi k validators Hv) as [?|[_ Hn]]; [by eapply so_spam|congruence]. }
    eapply calmer_ok; [|done..]. by apply prune_calmer.
  - by apply unfreeze_ok.
Qed.

Lemma steps_invariant info0 x :
  rtc step (info0, empty_state) x → state_ok x.1 x.2 ∧ frozen_ok (λ _, True) x.2.
Proof.
  intros Hrtc. cut (∀ x y, rtc step x y → state_ok x.1 x.2 ∧ frozen_ok (λ _, True) x.2 → state_ok y.1 y.2 ∧ frozen_ok (λ _, True) y.2).
  { intros Hcut. apply (Hcut _ _ Hrtc). cbn. split; split; cbn; intros *; by rewrite ?lookup_empty. }
  clear. intros x y. induction 1 as [|x y z Hxy _ IH]; [done|]. intros Hx. apply IH, (step_invariant _ x); [done|by left|done].
Qed.

Lemma steps_frozen_invariant old x y :
  rtc step_frozen x y → state_ok x.1 x.2 ∧ frozen_ok old x.2 → state_ok y.1 y.2 ∧ frozen_ok old y.2.
Proof.
  induction 1 as [|x y z [Hxy Hz] _ IH]; [done|]. intros Hx. apply IH, (step_invariant _ x); [done|by right|done].
Qed.

(** C11. The chain stops on an invalid candidate.  Take a chain that started
    without disputes, after any steps of the pallet, and let it go on, in
    whatever order statements are filtered and imported, candidates are
    included, disputes time out and sessions change, without root lifting a
    freeze.  Whenever a dispute has found an included candidate invalid, and
    this was not so already at the beginning of the period, the chain is frozen.
    It is frozen at the block before the inclusion or at an earlier one, and the
    last log for the consensus engine asks to revert to there. *)
Theorem invalid_inclusion_freezes info0 info1 s1 info s session h r :
  rtc step (info0, empty_state) (info1, s1) → rtc step_frozen (info1, s1) (info, s) →
  included_state session h s = Some r → concluded_invalid session h s = true →
  included_state session h s1 = None ∨ concluded_invalid session h s1 = false →
  is_frozen s = true ∧ ∃ f, Frozen s = Some f ∧ f ≤ r ∧ last (RevertLogs s) = Some (u32_add f 1).
Proof.
  intros Hrtc Hrtc' Hr Hc Hnew. destruct (steps_invariant _ _ Hrtc) as [Hs1 Hf1]. cbn in Hs1, Hf1.
  set (old := λ k : SessionIndex * CandidateHash, is_Some (Included s1 !! k) ∧ concluded_invalid k.1 k.2 s1 = true).
  assert (state_ok info s ∧ frozen_ok old s) as [_ Hf].
  { apply (steps_frozen_invariant old _ _ Hrtc'). split; [exact Hs1|]. split; [|apply (fr_log _ _ Hf1)].
    cbn. intros [k1 k2] r1 d1 Hn Hr1 Hd1 Hm. destruct Hn. split; [by exists r1|]. unfold concluded_invalid. cbn. rewrite Hd1. exact Hm. }
  assert (¬ old (session, h)) as Hold.
  { intros [Hi Hb]. cbn in Hi, Hb. unfold included_state in Hnew. destruct Hnew as [E|E]; [|congruence].
    rewrite E in Hi. by destruct Hi. }
  unfold concluded_invalid in Hc. destruct (DisputesMap s !! (session, h)) as [d|] eqn:Ed; [|done].
  destruct (fr_frozen _ _ Hf _ r d Hold Hr Ed Hc) as (f & E & Hle).
  split; [unfold is_frozen; rewrite E; by apply bool_decide_eq_true|]. exists f. split_and!; [done..|]. by apply (fr_log _ _ Hf).
Qed.
End Steps.
End Filter.

(** ** Order of statement sets *)

Section Order.
Context {ValidatorSignature : Type}.
#[local] Abbreviation StatementSet := (DisputeStatementSet ValidatorSignature).
Context (included : SessionIndex → CandidateHash → option BlockNumber).
Implicit Types (a b : StatementSet) (l : list StatementSet).
#[local] Abbreviation compare := (dispute_ordering_compare (ValidatorSignature := ValidatorSignature) included).
#[local] Abbreviation not_greater := (not_greater (ValidatorSignature := ValidatorSignature) included).

(** The place of a set: included candidates first, then height or session. *)
Definition place a : Z * Z :=
  match included (set_session a) (set_candidate_hash a) with Some height => (0, height) | None => (1, set_session a) end.

Lemma compare_lex a b :
  compare a b = match (place a).1 ?= (place b).1 with
                | Eq => match (place a).2 ?= (place b).2 with
                        | Eq => set_candidate_hash a ?= set_candidate_hash b
                        | c => c
                        end
                | c => c
                end.
Proof.
  unfold dispute_ordering_compare, place.
  by destruct (included (set_session a) _), (included (set_session b) _).
Qed.

(** The three parts of the order. *)
Definition before (strict : Prop) a b : Prop :=
  (place a).1 < (place b).1 ∨ (place a).1 = (place b).1 ∧
  ((place a).2 < (place b).2 ∨ (place a).2 = (place b).2 ∧
   (set_candidate_hash a < set_candidate_hash b ∨ ¬ strict ∧ set_candidate_hash a = set_candidate_hash b)).

Lemma compare_before a b :
  (compare a b = Lt ↔ before True a b) ∧ (not_greater a b ↔ before False a b).
Proof.
  unfold Disputes.not_greater, before. rewrite compare_lex.
  destruct (Z.compare_spec (place a).1 (place b).1), (Z.compare_spec (place a).2 (place b).2),
    (Z.compare_spec (set_candidate_hash a) (set_candidate_hash b)); intuition (congruence || lia).
Qed.

#[local] Instance not_greater_trans : Transitive not_greater.
Proof. intros a b c. rewrite !(proj2 (compare_before _ _)). unfold before. intuition lia. Qed.
#[local] Instance not_greater_total : Total not_greater.
Proof. intros a b. rewrite !(proj2 (compare_before _ _)). unfold before. lia. Qed.

Lemma is_sorted_by_sorted l : is_sorted_by compare l = true ↔ Sorted not_greater l.
Proof.
  induction l as [|a [|b l] IH]; [split; [constructor|done]|split; [repeat constructor|done]|].
  change (is_sorted_by compare (a :: b :: l)) with (match compare a b with Gt => false | _ => is_sorted_by compare (b :: l) end).
  unfold Disputes.not_greater in IH |- *. split.
  - intros H. assert (is_sorted_by compare (b :: l) = true ∧ compare a b ≠ Gt) as [H1 H2] by (by destruct (compare a b)).
    constructor; [by apply IH|by constructor].
  - inversion_clear 1 as [|?? Hs Hh]. inversion_clear Hh. destruct (compare a b); [by apply IH..|done].
Qed.

Lemma dedup_after_spec prev l :
  dedup_after same_dispute prev l `sublist_of` l ∧ contains_duplicates (prev :: dedup_after same_dispute prev l) = false ∧
  ∀ a, a ∈ l → ∃ b, b ∈ prev :: dedup_after same_dispute prev l ∧ same_dispute a b = true.
Proof.
  revert prev. induction l as [|x l IH]; intros prev; cbn [dedup_after].
  { split_and!; [constructor|done|]. by intros a ?%elem_of_nil. }
  destruct (same_dispute x prev) eqn:E.
  - destruct (IH prev) as (H1 & H2 & H3). split_and!; [by constructor|done|].
    intros a [->|Ha]%elem_of_cons; [exists prev; split; [by left|done]|by apply H3].
  - destruct (IH x) as (H1 & H2 & H3). split_and!; [by constructor| |].
    + change (contains_duplicates (prev :: x :: dedup_after same_dispute x l))
        with (same_dispute x prev || contains_duplicates (x :: dedup_after same_dispute x l)). by rewrite E, H2.
    + intros a [->|Ha]%elem_of_cons.
      * exists x. split; [right; by left|]. by apply bool_decide_eq_true.
      * destruct (H3 a Ha) as (b & Hb & ?). exists b. split; [by right|done].
Qed.

Lemma dedup_by_spec l :
  dedup_by same_dispute l `sublist_of` l ∧ contains_duplicates (dedup_by same_dispute l) = false ∧
  ∀ a, a ∈ l → ∃ b, b ∈ dedup_by same_dispute l ∧ same_dispute a b = true.
Proof.
  destruct l as [|x l]; cbn [dedup_by]; [split_and!; [constructor|done|by intros a ?%elem_of_nil]|].
  destruct (dedup_after_spec x l) as (H1 & H2 & H3). split_and!; [by constructor|done|].
  intros a [->|Ha]%elem_of_cons; [|by apply H3]. exists x. split; [by left|by apply bool_decide_eq_true].
Qed.

(** An inclusion height belongs to one session. *)
Definition heights_apart : Prop :=
  ∀ session session' h r, included session h = Some r → included session' h = Some r → session = session'.

Lemma same_of_eq a b : heights_apart → compare a b = Eq → same_dispute b a = true.
Proof.
  intros Hc. rewrite compare_lex. unfold place, same_dispute.
  destruct (included (set_session a) _) as [r|] eqn:Ea, (included (set_session b) _) as [r'|] eqn:Eb; cbn; try done;
    case_match eqn:E1; try done; apply Z.compare_eq_iff in E1; intros E2%Z.compare_eq_iff;
    apply bool_decide_eq_true; (split; [|done]); [|done].
  subst. rewrite E2 in Ea. by eapply Hc.
Qed.

Lemma assured_distinct l :
  heights_apart → assure_deduplicated_and_sorted included l = Ok tt → StronglySorted (before True) l.
Proof.
  intros Hc. unfold assure_deduplicated_and_sorted.
  destruct (is_sorted_by compare l) eqn:Es, (contains_duplicates l) eqn:Ed; try done. intros _.
  apply Sorted_StronglySorted; [intros a b c; unfold before; intuition lia|].
  induction l as [|a [|b l] IH]; [repeat constructor..|].
  change (same_dispute b a || contains_duplicates (b :: l) = false) in Ed. apply orb_false_iff in Ed as [Eb Ed].
  change (match compare a b with Gt => false | _ => is_sorted_by compare (b :: l) end = true) in Es.
  constructor; [apply IH; [by destruct (compare a b)|done]|]. constructor. apply compare_before.
  destruct (compare a b) eqn:E; [|done..]. by rewrite (same_of_eq a b Hc E) in Eb.
Qed.

Lemma dedup_sort_elem l a : a ∈ (deduplicate_and_sort_dispute_data included l).1 → a ∈ l.
Proof.
  cbn. intros Ha. destruct (dedup_by_spec (merge_sort not_greater l)) as (H1 & _).
  eapply elem_of_submseteq in Ha; [|by apply sublist_submseteq]. by rewrite merge_sort_Permutation in Ha.
Qed.

(** Sorted statement sets are accepted: what the block author sorts and
    deduplicates passes the check that importing nodes make, and holds a set for
    every dispute there was one for.  A list that passes the check names no
    dispute twice, as long as candidates with one hash are not included at one
    height in two sessions. *)
Theorem sorted_sets_accepted l :
  let out := (deduplicate_and_sort_dispute_data included l).1 in
  assure_deduplicated_and_sorted included out = Ok tt ∧
  (∀ a, a ∈ out → a ∈ l) ∧ (∀ a, a ∈ l → ∃ b, b ∈ out ∧ same_dispute a b = true) ∧
  (heights_apart → ∀ k : list StatementSet, assure_deduplicated_and_sorted included k = Ok tt → NoDup (set_key <$> k)).
Proof.
  cbn zeta. unfold deduplicate_and_sort_dispute_data. cbn [fst].
  destruct (dedup_by_spec (merge_sort not_greater l)) as (H1 & H2 & H3). split_and!.
  - unfold assure_deduplicated_and_sorted. rewrite H2.
    rewrite (proj2 (is_sorted_by_sorted _)); [done|]. apply StronglySorted_Sorted.
    eapply StronglySorted_sublist; [exact H1|]. apply (StronglySorted_merge_sort _).
  - apply dedup_sort_elem.
  - intros a Ha. apply H3. by rewrite merge_sort_Permutation.
  - intros Hc k Hk%assured_distinct; [|done]. induction Hk as [|a k Hk IH Ha]; cbn; constructor; [|done].
    intros (b & Hab & Hb)%list_elem_of_fmap. rewrite Forall_forall in Ha. specialize (Ha b Hb).
    unfold set_key in Hab. injection Hab as E1 E2. unfold before, place in Ha. rewrite E1, E2 in Ha. case_match; cbn in Ha; intuition lia.
Qed.
End Order.

(** ** Examples: seven validators in session 1 *)

Section Examples.
#[local] Instance example_signatures : Signatures unit unit Z Z := {|
  collator_verify _ _ _ := true;
  validator_verify sig _ key := sig =? key;
  encode_bits _ := [];
|}.
#[local] Instance example_iter : StorageIter (SessionIndex * CandidateHash) DisputeState :=
  {| storage_iter := map_to_list; storage_iter_perm _ := reflexivity _ |}.

Definition example_keys : list Z := [10; 11; 12; 13; 14; 15; 16].
Definition example_info (session : SessionIndex) : option (list Z) :=
  if decide (session = 1) then Some example_keys else None.
Definition example_env : ParasPallet.Env Z := ParasPallet.mkEnv 5 1 example_keys HostConfiguration.default.
Definition for_ (v : nat) : DisputeStatement * ValidatorIndex * Z := (Valid ApprovalChecking, v, 10 + Z.of_nat v).
Definition against (v : nat) : DisputeStatement * ValidatorIndex * Z := (Invalid InvalidExplicit, v, 10 + Z.of_nat v).

(** Five of seven are against the candidate, which was included at block 4. *)
Definition example_set : DisputeStatementSet Z :=
  mkSet 42 1 [for_ 0; against 1; against 2; against 3; against 4; against 5].
Definition example_state : State := note_included 1 42 4 empty_state.
Definition example_frozen : State := (process_checked_multi_dispute_data example_env example_info [example_set] example_state).1.

Lemma example_disputes_ok : state_ok example_info example_state.
Proof.
  assert (DisputesMap example_state = ∅ ∧ SpamSlots example_state = ∅) as [E1 E2] by done.
  split; intros *; [rewrite E1|rewrite E2]; by rewrite lookup_empty.
Qed.

Lemma filtered_sets_import_witness :
  ∃ out s', filter_dispute_data example_env example_info example_set 2 100 VerifyYes example_state = Some (out, s') ∧
    out = Some example_set ∧
    ∀ s2, DisputesMap s2 !! set_key example_set = None →
      (process_checked_dispute_data example_env example_info example_set 100 s2).2 = Ok true.
Proof.
  destruct (filtered_sets_import example_env example_info example_set 2 100 VerifyYes example_state example_disputes_ok)
    as (out & s' & E & _ & _ & _ & Hset).
  exists out, s'. split; [done|].
  assert (out = Some example_set) as ->. { vm_compute in E. injection E as <- _. reflexivity. }
  split; [done|]. destruct (Hset _ eq_refl) as (_ & _ & validators & _ & _ & Hp).
  intros s2 Hs2. destruct (Hp s2 Hs2) as [Hr|(_ & Hn & _)]; [exact Hr|].
  vm_compute in Hn. discriminate.
Defined.

Lemma votes_decide_witness :
  ∃ d', DisputesMap example_frozen = {[(1, 42) := d']} ∧ concluded_at d' = Some 5 ∧ Frozen example_frozen = Some 3.
Proof.
  destruct (votes_decide example_env example_info example_set 100 example_state example_disputes_ok) as [_ Hp].
  destruct (process_checked_dispute_data example_env example_info example_set 100 example_state) as [s' [fresh|e]] eqn:E;
    [|vm_compute in E; discriminate].
  assert (example_frozen = s') as ->. { vm_compute in E. injection E as <- _. vm_compute. reflexivity. }
  destruct Hp as (validators & d' & _ & Him). exists d'. split; [exact (im_stored _ _ _ _ _ _ _ Him)|].
  pose proof (im_stored _ _ _ _ _ _ _ Him) as Hst. vm_compute in E. injection E as <- _.
  apply (f_equal (λ m, m !! (1, 42))) in Hst. vm_compute in Hst. injection Hst as <-. split; reflexivity.
Defined.

(** Validator 0 has no slot left, and takes part nevertheless. *)
Lemma spam_limit_bypassed_witness :
  ∃ set' s', filter_dispute_data example_env example_info (mkSet 43 1 [for_ 0; against 0; for_ 1]) 2 100 VerifyYes
      (set_spam (insert 1 [3; 0; 0; 0; 0; 0; 0]) example_state) = Some (Some set', s') ∧ against 0 ∈ statements set' ∧
    (process_checked_dispute_data example_env example_info set' 100 s').2 = Ok true.
Proof.
  set (s := set_spam _ _). set (set0 := mkSet 43 1 _).
  destruct (spam_limit_bypassed example_env example_info set0 2 100 s example_keys [] (for_ 0) [] (against 0) [for_ 1])
    as (set' & s' & E & Hy); [| | | | |].
  - split; [apply example_disputes_ok|]. intros session slots validators.
    change (SpamSlots s) with (<[1 := [3; 0; 0; 0; 0; 0; 0]]> (∅ : gmap SessionIndex (list Z))).
    rewrite lookup_insert_Some, lookup_empty. intros [[<- <-]|[_ [=]]]. unfold example_info. cbn. by intros [= <-].
  - reflexivity.
  - reflexivity.
  - split_and!; [reflexivity|vm_compute; reflexivity| |].
    + split; [vm_compute; repeat constructor; set_solver|]. intros v valid Hv.
      repeat (apply elem_of_cons in Hv as [[= -> ->]|Hv]; [vm_compute; split; [lia|discriminate]|]).
      by apply elem_of_nil in Hv.
    + intros []; exists 0%nat; right; vm_compute; set_solver.
  - repeat constructor; eexists; (split; [reflexivity|]); intros _; vm_compute; reflexivity.
  - exists set', s'. split; [exact E|]. split; [exact Hy|].
    vm_compute in E. injection E as <- <-. vm_compute. reflexivity.
Defined.

Lemma invalid_inclusion_freezes_witness :
  is_frozen example_frozen = true ∧ last (RevertLogs example_frozen) = Some 4.
Proof.
  assert (rtc (step_frozen (ValidatorSignature := Z) (O := RuntimeOrigin Z)) (example_info, empty_state) (example_info, example_frozen)) as Hrtc.
  { eapply rtc_l; [split; [apply step_included with (session := 1) (h := 42) (included_in := 4)|done]|].
    apply rtc_once. split; [apply (step_import example_env)|done]. }
  destruct (invalid_inclusion_freezes example_info example_info empty_state example_info example_frozen 1 42 3 (rtc_refl _ _) Hrtc)
    as (Hz & f & Hf & _ & Hl); [vm_compute; reflexivity..|left; vm_compute; reflexivity|].
  split; [exact Hz|]. rewrite Hl. vm_compute in Hf. injection Hf as <-. reflexivity.
Defined.
End Examples.
End DisputesTheorems.
