(* ===== verification/InherentData.v ===== *)
(** * Choosing what goes into the paras inherent

    The parts of [runtime/parachains/src/paras_inherent] that select data:
    [weights.rs], [misc.rs], and the functions of [mod.rs] that drop invalid
    bitfields and candidates and keep the rest within the weight of a block.
    The generator of random numbers is an interface of which only the shuffle
    is used. *)

From S2P Require Import Prelude.
From S2P Require Import Vectors.
From S2P Require Import Codec.
From S2P Require Import Frame.
From S2P Require Import Configuration.
From S2P Require Import Hrmp.
From S2P Require Import Scheduler.
From S2P Require Import ParasPallet.
From S2P Require Import Candidates.
From S2P Require Import Disputes.
From S2P Require Import Inclusion.
Import Candidates.

(** [rand_chacha::ChaChaRng] with [SliceRandom::shuffle]: some permutation. *)
Class Rng (R : Type) := {
  from_seed : Hash → R;
  shuffle : R → list nat → R * list nat;
  shuffle_perm r l : (shuffle r l).2 ≡ₚ l;
}.

(** [WeightInfo], the measured weights. *)
Class WeightInfo := {
  enter_variable_disputes : Z → Weight;
  enter_bitfields : Weight;
  enter_backed_candidates_variable : Z → Weight;
  enter_backed_candidate_code_upgrade : Weight;
}.

Definition u64_saturating_mul (a b : Z) : Z := Z.min u64_max (a * b).
Definition u64_checked_sub (a b : Z) : option Z := if decide (b ≤ a) then Some (a - b) else None.

(** [IndexedRetain::indexed_retain] *)
Definition indexed_retain {A} (f : nat → A → bool) (l : list A) : list A :=
  snd <$> filter (λ x, f x.1 x.2 = true) (imap (λ i x, (i, x)) l).

Module InherentData.

Section Weights.
Context {CollatorId CollatorSignature ValidatorSignature : Type} `{!WeightInfo}.
#[local] Abbreviation Backed := (BackedCandidate CollatorId CollatorSignature ValidatorSignature).
#[local] Abbreviation StatementSet := (Disputes.DisputeStatementSet ValidatorSignature).

Definition dispute_statement_set_weight (set : StatementSet) : Weight :=
  enter_variable_disputes (len32 (Disputes.statements set)).

Definition multi_dispute_statement_sets_weight (sets : list StatementSet) : Weight :=
  foldl u64_saturating_add 0 (dispute_statement_set_weight <$> sets).

Definition signed_bitfields_weight (bitfields_len : nat) : Weight :=
  u64_saturating_mul enter_bitfields (Z.of_nat bitfields_len).

Definition backed_candidate_weight (c : Backed) : Weight :=
  match new_validation_code (commitments (candidate c)) with
  | Some _ => enter_backed_candidate_code_upgrade
  | None => enter_backed_candidates_variable (len32 (validity_votes c))
  end.

Definition backed_candidates_weight (l : list Backed) : Weight :=
  foldl u64_saturating_add 0 (backed_candidate_weight <$> l).

Definition paras_inherent_total_weight (candidates : list Backed)
    (bitfields : list (UncheckedSigned ValidatorSignature)) (disputes : list StatementSet) : Weight :=
  u64_saturating_add (u64_saturating_add (backed_candidates_weight candidates)
                        (signed_bitfields_weight (length bitfields)))
    (multi_dispute_statement_sets_weight disputes).
End Weights.

(** ** Random selection *)

Section Selection.
Context {R X : Type} `{!Rng R} (weight_fn : X → Weight) (weight_limit : Weight).

(** One index is tried; the indices not preferred are all in range. *)
Definition pick (selectables : list X) (acc : Weight * list nat) (idx : nat) : Weight * list nat :=
  match selectables !! idx with
  | Some item =>
      let updated := u64_saturating_add acc.1 (weight_fn item) in
      if decide (weight_limit < updated) then acc else (updated, acc.2 ++ [idx])
  | None => acc
  end.

Definition random_sel (rng : R) (selectables : list X) (preferred_indices : list nat) :
    R * (Weight * list nat) :=
  match selectables with
  | [] => (rng, (0, []))
  | _ =>
      let indices := filter (λ idx, idx ∉ preferred_indices) (seq 0 (length selectables)) in
      let '(rng, preferred_indices) := shuffle rng preferred_indices in
      let acc := foldl (pick selectables) (0, []) preferred_indices in
      let '(rng, indices) := shuffle rng indices in
      let '(weight_acc, picked_indices) := foldl (pick selectables) acc indices in
      (rng, (weight_acc, merge_sort le picked_indices))
  end.
End Selection.

Section Pallet.
Context {CollatorId CollatorSignature ValidatorId ValidatorSignature R : Type}
  `{!EqDecision CollatorId}
  `{!Blake2 CollatorId CollatorSignature}
  `{!Signatures CollatorId CollatorSignature ValidatorId ValidatorSignature}
  `{!WeightInfo} `{!Rng R}.
#[local] Abbreviation Backed := (BackedCandidate CollatorId CollatorSignature ValidatorSignature).
#[local] Abbreviation Bitfield := (UncheckedSigned ValidatorSignature).
#[local] Abbreviation Assignment := (Scheduler.CoreAssignment (CollatorId := CollatorId)).

(** The positions of the candidates with new code. *)
Definition with_code (candidates : list Backed) : list nat :=
  fst <$> filter (λ x, is_Some (new_validation_code (commitments (candidate x.2)))) (imap (λ i x, (i, x)) candidates).

(** The indices are sorted, so that [binary_search] finds exactly the members. *)
Definition retain_indices {A} (indices : list nat) (l : list A) : list A :=
  indexed_retain (λ idx _, bool_decide (idx ∈ indices)) l.

Definition apply_weight_limit (candidates : list Backed) (bitfields : list Bitfield)
    (max_consumable_weight : Weight) (rng : R) : R * (Weight * list Backed * list Bitfield) :=
  let total_candidates_weight := backed_candidates_weight candidates in
  let total_bitfields_weight := signed_bitfields_weight (length bitfields) in
  let total := u64_saturating_add total_bitfields_weight total_candidates_weight in
  if decide (total ≤ max_consumable_weight) then (rng, (total, candidates, bitfields))
  else
    match u64_checked_sub max_consumable_weight total_bitfields_weight with
    | Some max_consumable_by_candidates =>
        let '(rng, (acc_candidate_weight, indices)) :=
          random_sel backed_candidate_weight max_consumable_by_candidates rng candidates (with_code candidates) in
        (rng, (u64_saturating_add acc_candidate_weight total_bitfields_weight,
               retain_indices indices candidates, bitfields))
    | None =>
        let '(rng, (total_consumed, indices)) :=
          random_sel (λ _, enter_bitfields) max_consumable_weight rng bitfields [] in
        (rng, (total_consumed, [], retain_indices indices bitfields))
    end.

(** ** Bitfields *)

Definition create_disputed_bitfield (expected_bits : nat) (freed_cores : list Scheduler.CoreIndex) : list bool :=
  foldl (λ bits core_idx, if decide (core_idx < expected_bits)%nat then <[core_idx := true]> bits else bits)
    (replicate expected_bits false) freed_cores.

(** The loop of [sanitize_bitfields]: the index of a bitfield counts as seen
    also when its signature turns out invalid. *)
Fixpoint sanitize_loop (disputed_bitfield : list bool) (expected_bits : nat) (ctx : SigningContext)
    (validators : list ValidatorId) (full_check : Inclusion.FullCheck) (last_index : option ValidatorIndex)
    (l : list Bitfield) : list Bitfield :=
  match l with
  | [] => []
  | b :: l =>
      let v := validator_index b in
      let skip := sanitize_loop disputed_bitfield expected_bits ctx validators full_check last_index l in
      let rest := sanitize_loop disputed_bitfield expected_bits ctx validators full_check (Some v) l in
      if negb (bool_decide (length (payload b) = expected_bits)) then skip
      else if negb (bool_decide (bits_and (payload b) disputed_bitfield = replicate expected_bits false)) then skip
      else if negb match last_index with Some last => bool_decide (last < v)%nat | None => true end then skip
      else
        match validators !! v with
        | None => skip
        | Some key =>
            match full_check with
            | Inclusion.CheckYes => if check_signature b ctx key then b :: rest else rest
            | Inclusion.CheckSkip => b :: rest
            end
        end
  end.

Definition sanitize_bitfields (unchecked_bitfields : list Bitfield) (disputed_bitfield : list bool)
    (expected_bits : nat) (parent_hash : Hash) (session_index : SessionIndex) (validators : list ValidatorId)
    (full_check : Inclusion.FullCheck) : list Bitfield :=
  if negb (bool_decide (length disputed_bitfield = expected_bits)) then []
  else sanitize_loop disputed_bitfield expected_bits (mkContext session_index parent_hash) validators full_check
         None unchecked_bitfields.

(** ** Candidates *)

(** [scheduled_paras_to_core_idx]: a later assignment of a para counts. *)
Definition para_cores (scheduled : list Assignment) : gmap ParaId Scheduler.CoreIndex :=
  foldl (λ m a, <[Scheduler.para_id a := Scheduler.core a]> m) ∅ scheduled.

Definition candidate_core (scheduled : list Assignment) (b : Backed) : option Scheduler.CoreIndex :=
  para_cores scheduled !! para_id (descriptor (candidate b)).

(** Both have a core wherever they are compared. *)
Definition core_le (scheduled : list Assignment) (a b : Backed) : Prop :=
  (default 0 (candidate_core scheduled a) ≤ default 0 (candidate_core scheduled b))%nat.
#[global] Instance core_le_dec scheduled a b : Decision (core_le scheduled a b).
Proof. unfold core_le. apply _. Defined.

Definition sanitize_backed_candidates (relay_parent_ : Hash) (backed_candidates : list Backed)
    (is_invalid : nat → Backed → bool) (scheduled : list Assignment) : list Backed :=
  let l := indexed_retain (λ i b, negb (is_invalid i b)) backed_candidates in
  let l := filter (λ b, relay_parent (descriptor (candidate b)) = relay_parent_ ∧
                        is_Some (candidate_core scheduled b)) l in
  merge_sort (core_le scheduled) l.

(** The comparison indexes the map, which panics for a para that is not
    scheduled; it is only made from the second candidate on. *)
Fixpoint sorted_by_core (scheduled : list Assignment) (l : list Backed) : option bool :=
  match l with
  | a :: (b :: _) as l' =>
      x ← candidate_core scheduled a;
      y ← candidate_core scheduled b;
      if decide (y < x)%nat then Some false else sorted_by_core scheduled l'
  | _ => Some true
  end.

Fixpoint assure_each (relay_parent_ : Hash) (is_invalid : Backed → bool) (l : list Backed) : result Inclusion.Error unit :=
  match l with
  | [] => Ok tt
  | b :: l =>
      if is_invalid b then Err Inclusion.UnsortedOrDuplicateBackedCandidates
      else if negb (bool_decide (relay_parent (descriptor (candidate b)) = relay_parent_))
      then Err Inclusion.UnexpectedRelayParent
      else assure_each relay_parent_ is_invalid l
  end.

Definition assure_sanity_backed_candidates (relay_parent_ : Hash) (backed_candidates : list Backed)
    (is_invalid : Backed → bool) (scheduled : list Assignment) : option (result Inclusion.Error unit) :=
  match assure_each relay_parent_ is_invalid backed_candidates with
  | Err e => Some (Err e)
  | Ok _ =>
      match sorted_by_core scheduled backed_candidates with
      | Some true => Some (Ok tt)
      | Some false => Some (Err Inclusion.UnsortedOrDuplicateBackedCandidates)
      | None => None
      end
  end.
End Pallet.
End InherentData.
