(* ===== verification/ParasInherent.v ===== *)
(** * The paras inherent

    [runtime/parachains/src/paras_inherent/mod.rs]: what a relay chain block does
    with the data its author puts in, and how the author prepares it.  The
    storages of the pallets are joined in a [World]; the disputes pallet is
    reached through its interface, and the sink of upward messages has its own
    storage.  The header type and its hash, the weights and the random numbers
    are parameters. *)

From S2P Require Import Prelude.
From S2P Require Import Vectors.
From S2P Require Import Codec.
From S2P Require Import Frame.
From S2P Require Import Configuration.
From S2P Require Import Dmp.
From S2P Require Import Ump.
From S2P Require Import Hrmp.
From S2P Require Import Scheduler.
From S2P Require Import ParasPallet.
From S2P Require Import Candidates.
From S2P Require Import Disputes.
From S2P Require Import Inclusion.
From S2P Require Import InherentData.
Import Candidates.
Import (hints) Inclusion.

(** A computation that may panic: [None] is a panic, which undoes the block. *)
Definition PM (S E A : Type) : Type := S → option (S * result E A).
#[export] Instance PM_ret S E : MRet (PM S E) := λ A a s, Some (s, Ok a).
#[export] Instance PM_bind S E : MBind (PM S E) := λ A B f m s,
  match m s with
  | Some (s, Ok a) => f a s
  | Some (s, Err e) => Some (s, Err e)
  | None => None
  end.

Definition expect {S E A} (o : option A) : PM S E A := λ s,
  match o with Some a => Some (s, Ok a) | None => None end.
Definition attempt {S E F A} (wrap : F → E) (r : result F A) : PM S E A := λ s,
  Some (s, match r with Ok a => Ok a | Err e => Err (wrap e) end).
Definition require {S E} (b : bool) (e : E) : PM S E unit := λ s, Some (s, if b then Ok tt else Err e).
Definition reads {S E A} (f : S → A) : PM S E A := λ s, Some (s, Ok (f s)).
Definition writes {S E} (f : S → S) : PM S E unit := λ s, Some (f s, Ok tt).

Lemma PM_bind_ok {S E A B} (f : A → PM S E B) (m : PM S E A) s s' b :
  (m ≫= f) s = Some (s', Ok b) ↔ ∃ s1 a, m s = Some (s1, Ok a) ∧ f a s1 = Some (s', Ok b).
Proof. unfold mbind, PM_bind. destruct (m s) as [[s1 [a|e]]|]; naive_solver. Qed.

Lemma PM_bind_run {S E A B} (f : A → PM S E B) (m : PM S E A) s s1 a :
  m s = Some (s1, Ok a) → (m ≫= f) s = f a s1.
Proof. intros E1. unfold mbind, PM_bind. by rewrite E1. Qed.

Lemma expect_ok {S E A} (o : option A) (s s' : S) a :
  expect (E := E) o s = Some (s', Ok a) ↔ o = Some a ∧ s' = s.
Proof. unfold expect. destruct o; naive_solver. Qed.

(** Taking a successful computation apart. *)
Ltac pm_inv E :=
  repeat match type of E with
  | (_ ≫= _) _ = Some (_, Ok _) => apply PM_bind_ok in E as (? & ? & ? & E)
  | (match ?x with _ => _ end) _ = Some (_, Ok _) => destruct x
  | (let x := _ in _) _ = _ => cbv zeta in E
  end.

Module ParasInherent.

Inductive Error :=
| TooManyInclusionInherents
| InvalidParentHeader
| CandidateConcludedInvalid
| InherentOverweight
| DisputeStatementsUnsortedOrDuplicates
| DisputeInvalid.

(** The errors of the pallets the inherent calls pass through. *)
Inductive EnterError :=
| BadOrigin
| OfInherent (e : Error)
| OfInclusion (e : Inclusion.Error)
| OfDisputes (e : Disputes.Error).

Section Pallet.
Context {CollatorId CollatorSignature ValidatorId ValidatorSignature H R D W Header : Type}
  `{!EqDecision CollatorId}
  `{!Blake2 CollatorId CollatorSignature}
  `{!Signatures CollatorId CollatorSignature ValidatorId ValidatorSignature}
  `{!MessageHash H} `{!Ump.UmpSink W} `{!WeightInfo} `{!Rng R}
  `{disputes_handler : !Disputes.DisputesHandler ValidatorId ValidatorSignature D}
  `{!StorageIter ParaId (Inclusion.CandidatePendingAvailability (CollatorId := CollatorId) (CollatorSignature := CollatorSignature))}
  (code_hash_of : ValidationCode → Hash) (first_message_factor_percent : Weight)
  (header_hash header_state_root : Header → Hash) (max_block : Weight).
#[local] Abbreviation Receipt := (CandidateReceipt CollatorId CollatorSignature).
#[local] Abbreviation Backed := (BackedCandidate CollatorId CollatorSignature ValidatorSignature).
#[local] Abbreviation Bitfield := (UncheckedSigned ValidatorSignature).
#[local] Abbreviation Attestation := (ValidityAttestation ValidatorSignature).
#[local] Abbreviation StatementSet := (Disputes.DisputeStatementSet ValidatorSignature).
Implicit Types (env : ParasPallet.Env ValidatorId).

(** ** Storage *)

(** [ScrapedOnChainVotes] *)
Record ScrapedOnChainVotes := mkVotes {
  votes_session : SessionIndex;
  backing_validators_per_candidate : list (Receipt * list (ValidatorIndex * Attestation));
  votes_disputes : list StatementSet;
}.

Record World := mkWorld {
  relay : Inclusion.World (CollatorId := CollatorId) (CollatorSignature := CollatorSignature) (H := H);
  scheduler : Scheduler.State (CollatorId := CollatorId);
  disputes : D;
  chain : W;
  Included : bool;
  OnChainVotes : option ScrapedOnChainVotes;
}.

Definition set_relay x (w : World) : World :=
  mkWorld x (scheduler w) (disputes w) (chain w) (Included w) (OnChainVotes w).
Definition set_scheduler x (w : World) : World :=
  mkWorld (relay w) x (disputes w) (chain w) (Included w) (OnChainVotes w).
Definition set_disputes x (w : World) : World :=
  mkWorld (relay w) (scheduler w) x (chain w) (Included w) (OnChainVotes w).
Definition set_chain x (w : World) : World :=
  mkWorld (relay w) (scheduler w) (disputes w) x (Included w) (OnChainVotes w).
Definition set_included x (w : World) : World :=
  mkWorld (relay w) (scheduler w) (disputes w) (chain w) x (OnChainVotes w).
Definition set_votes x (w : World) : World :=
  mkWorld (relay w) (scheduler w) (disputes w) (chain w) (Included w) x.

(** [primitives::v2::InherentData] *)
Record ParachainsInherentData := mkData {
  bitfields : list Bitfield;
  backed_candidates : list Backed;
  data_disputes : list StatementSet;
  parent_header : Header;
}.

#[local] Abbreviation Enter := (PM World EnterError).

Definition set_scrapable_on_chain_disputes (session : SessionIndex) (checked_disputes : list StatementSet)
    (w : World) : World :=
  set_votes (Some (mkVotes session
    match OnChainVotes w with Some v => backing_validators_per_candidate v | None => [] end checked_disputes)) w.

Definition set_scrapable_on_chain_backings (session : SessionIndex)
    (backings : list (Receipt * list (ValidatorIndex * Attestation))) (w : World) : World :=
  set_votes (Some (mkVotes session backings
    match OnChainVotes w with Some v => votes_disputes v | None => [] end)) w.

(** ** Disputes *)

(** [compute_entropy]: the randomness of the parent block, or its hash. *)
Definition compute_entropy (vrf_random : option Hash) (parent_hash : Hash) : Hash := default parent_hash vrf_random.

#[local] Abbreviation Filter := (StatementSet → D → option (option StatementSet * D)).

(** A local dispute is taken when it still fits. *)
Definition take_local (valid : Filter) (max_consumable_weight : Weight)
    (acc : list StatementSet * Weight * D) (dss : StatementSet) : option (list StatementSet * Weight * D) :=
  let '(checked, weight_acc, d) := acc in
  let updated := u64_saturating_add weight_acc (InherentData.dispute_statement_set_weight dss) in
  if decide (updated ≤ max_consumable_weight) then
    '(r, d) ← valid dss d;
    Some match r with Some c => (checked ++ [c], updated, d) | None => (checked, weight_acc, d) end
  else Some acc.

(** A remote dispute that was picked; its weight is that of what is left. *)
Definition take_remote (valid : Filter) (remote : list StatementSet)
    (acc : list StatementSet * Weight * D) (idx : nat) : option (list StatementSet * Weight * D) :=
  let '(checked, weight_acc, d) := acc in
  dss ← remote !! idx;
  '(r, d) ← valid dss d;
  Some match r with
       | Some c => (checked ++ [c], u64_saturating_add weight_acc (InherentData.dispute_statement_set_weight c), d)
       | None => (checked, weight_acc, d)
       end.

Definition filter_all (valid : Filter) (acc : list StatementSet * D) (dss : StatementSet) :
    option (list StatementSet * D) :=
  '(r, d) ← valid dss acc.2;
  Some (match r with Some c => acc.1 ++ [c] | None => acc.1 end, d).

(** Where the sets about candidates that are not included begin.  The predicate
    of the search never answers [Equal]: included candidates are less, others
    greater, so there is an insertion point. *)
Definition count_local (d : D) (sets : list StatementSet) : nat :=
  let side dss :=
    match Disputes.handler_included_state (Disputes.set_session dss) (Disputes.set_candidate_hash dss) d with
    | Some _ => -1
    | None => 1
    end in
  match binary_search_by_key side sets 0 with Err idx | Ok idx => idx end.

Definition limit_and_sanitize_disputes (sets : list StatementSet) (valid : Filter)
    (max_consumable_weight : Weight) (rng : R) (d : D) : option (R * (list StatementSet * Weight * D)) :=
  if decide (max_consumable_weight < InherentData.multi_dispute_statement_sets_weight sets) then
    let idx := count_local d sets in
    let remote_disputes := drop idx sets in
    '(checked, weight_acc, d) ← try_fold (take_local valid max_consumable_weight) (take idx sets) ([], 0, d);
    let lens := (λ dss, len32 (Disputes.statements dss)) <$> remote_disputes in
    let '(rng, (_, indices)) :=
      InherentData.random_sel enter_variable_disputes (saturating_sub max_consumable_weight weight_acc) rng lens [] in
    acc ← try_fold (take_remote valid remote_disputes) (merge_sort le indices) (checked, weight_acc, d);
    Some (rng, acc)
  else
    '(checked, d) ← try_fold (filter_all valid) sets ([], d);
    Some (rng, (checked, InherentData.multi_dispute_statement_sets_weight checked, d)).

(** ** Freed cores *)

(** Insertion in a [BTreeMap] of cores. *)
Fixpoint core_insert (c : Scheduler.CoreIndex) (r : Scheduler.FreedReason)
    (m : list (Scheduler.CoreIndex * Scheduler.FreedReason)) : list (Scheduler.CoreIndex * Scheduler.FreedReason) :=
  match m with
  | [] => [(c, r)]
  | (c', r') :: m' =>
      if decide (c < c')%nat then (c, r) :: m
      else if decide (c = c') then (c, r) :: m'
      else (c', r') :: core_insert c r m'
  end.

Definition collect_cores (l : list (Scheduler.CoreIndex * Scheduler.FreedReason)) :
    list (Scheduler.CoreIndex * Scheduler.FreedReason) :=
  foldl (λ m x, core_insert x.1 x.2 m) [] l.

Definition collect_all_freed_cores env (freed_concluded : list (Scheduler.CoreIndex * CandidateHash)) :
    Enter (list (Scheduler.CoreIndex * Scheduler.FreedReason)) :=
  s ← reads scheduler;
  pred ← expect (Scheduler.availability_timeout_predicate (ParasPallet.config env) (ParasPallet.block_number env) s);
  r ← reads relay;
  let '(freed_timeout, r) := match pred with Some p => Inclusion.collect_pending p r | None => ([], r) end in
  writes (set_relay r) ;;
  mret (collect_cores (((λ x, (x.1, Scheduler.Concluded)) <$> freed_concluded) ++
                       ((λ c, (c, Scheduler.TimedOut)) <$> freed_timeout))).

(** Sorting by core index, which has no duplicates here. *)
Definition by_core_le (x y : Scheduler.CoreIndex * Scheduler.FreedReason) : Prop := (x.1 ≤ y.1)%nat.
#[global] Instance by_core_le_dec x y : Decision (by_core_le x y).
Proof. unfold by_core_le. apply _. Defined.

(** The cores of candidates found invalid are freed. *)
Definition free_disputed env (disputed : gset CandidateHash) (expected_bits : nat) : Enter (list bool) :=
  r ← reads relay;
  let '(cores, r) := Inclusion.collect_disputed disputed r in
  writes (set_relay r) ;;
  let freed_disputed := (λ c, (c, Scheduler.Concluded)) <$> cores in
  match freed_disputed with
  | [] => mret tt
  | _ =>
      s ← reads scheduler;
      s ← expect (Scheduler.free_cores (ParasPallet.config env) (merge_sort by_core_le freed_disputed) s);
      writes (set_scheduler s)
  end ;;
  mret (InherentData.create_disputed_bitfield expected_bits cores).

(** [scheduler::clear] and [scheduler::schedule] *)
Definition reschedule env (freed : list (Scheduler.CoreIndex * Scheduler.FreedReason)) : Enter unit :=
  w ← reads id;
  s ← expect (Scheduler.clear (ParasPallet.config env) (ParasPallet.ParaLifecycles (Inclusion.paras (relay w)))
                (scheduler w));
  s ← expect (Scheduler.schedule (ParasPallet.config env) (ParasPallet.Parachains (Inclusion.paras (relay w))) freed
                (ParasPallet.block_number env) s);
  writes (set_scheduler s).

(** ** [enter] *)

Definition verify_sigs_of (full_check : Inclusion.FullCheck) : Disputes.VerifyDisputeSignatures :=
  match full_check with Inclusion.CheckYes => Disputes.VerifyYes | Inclusion.CheckSkip => Disputes.VerifySkip end.

(** [filter_dispute_data] with the parameters of the configuration. *)
Definition dispute_filter env (verify_sigs : Disputes.VerifyDisputeSignatures) : Filter := λ set d,
  Disputes.handler_filter env set (dispute_max_spam_slots (ParasPallet.config env))
    (dispute_post_conclusion_acceptance_period (ParasPallet.config env)) verify_sigs d.

(** Limiting, checking and importing the disputes; returns the checked sets
    with the weight of the inherent. *)
Definition import_disputes env (parent_hash : Hash) (vrf_random : option Hash) (full_check : Inclusion.FullCheck)
    (sets : list StatementSet) : Enter (list StatementSet * Weight) :=
  d ← reads disputes;
  '(_, (checked, weight, d)) ← expect (limit_and_sanitize_disputes sets (dispute_filter env (verify_sigs_of full_check))
     max_block (from_seed (compute_entropy vrf_random parent_hash)) d);
  writes (set_disputes d) ;;
  d ← reads disputes;
  let '(d, r) := Disputes.handler_process env checked d in
  writes (set_disputes d) ;;
  _ ← attempt OfDisputes r;
  mret (checked, weight).

(** The candidates of the current session that the checked sets found invalid. *)
Definition newly_invalid env (checked : list StatementSet) (d : D) : gset CandidateHash :=
  list_to_set (Disputes.set_candidate_hash <$>
    filter (λ set, Disputes.set_session set = ParasPallet.session_index env ∧
                   Disputes.handler_concluded_invalid (Disputes.set_session set) (Disputes.set_candidate_hash set) d = true)
      checked).

(** From the bitfields to the end: inclusion, scheduling, backing and the
    service of upward messages. *)
Definition process_paras env (parent_hash : Hash) (full_check : Inclusion.FullCheck) (data : ParachainsInherentData)
    (expected_bits : nat) (checked : list StatementSet) (disputed_bitfield : list bool) : Enter unit :=
  let session := ParasPallet.session_index env in
  w ← reads id;
  '(r, rl) ← expect (Inclusion.process_bitfields code_hash_of env parent_hash expected_bits (bitfields data)
     disputed_bitfield
     (λ c, Scheduler.core_para (ParasPallet.Parachains (Inclusion.paras (relay w))) c (scheduler w)) full_check (relay w));
  writes (set_relay rl) ;;
  freed_concluded ← attempt OfInclusion r;
  writes (set_scrapable_on_chain_disputes session checked) ;;
  writes (λ w, set_disputes (foldl (λ d x, Disputes.handler_note_included session x.2 (ParasPallet.block_number env) d)
                               (disputes w) freed_concluded) w) ;;
  freed ← collect_all_freed_cores env freed_concluded;
  reschedule env freed ;;
  w ← reads id;
  let scheduled := Scheduler.Scheduled (scheduler w) in
  r ← expect (InherentData.assure_sanity_backed_candidates parent_hash (backed_candidates data)
     (λ b, Disputes.handler_concluded_invalid session (candidate_hash (candidate b)) (disputes w)) scheduled);
  _ ← attempt OfInclusion r;
  '(r, rl) ← expect (Inclusion.process_candidates env parent_hash (header_state_root (parent_header data))
     (backed_candidates data) scheduled (λ g, Scheduler.group_validators g (scheduler w)) (relay w));
  writes (set_relay rl) ;;
  processed ← attempt OfInclusion r;
  writes (set_scrapable_on_chain_backings session (Inclusion.candidate_receipt_with_backing_validator_indices processed)) ;;
  s ← expect (Scheduler.occupied (Inclusion.core_indices processed) (scheduler w));
  writes (set_scheduler s) ;;
  w ← reads id;
  '(u, ch, _) ← expect (Ump.process_pending_upward_messages (ParasPallet.config env) first_message_factor_percent
     (Inclusion.ump (relay w)) (chain w));
  writes (λ w, set_chain ch (set_relay (Inclusion.on_ump (λ _, u) (relay w)) w)).

Definition enter_inner env (parent_hash : Hash) (vrf_random : option Hash) (data : ParachainsInherentData)
    (full_check : Inclusion.FullCheck) : Enter Weight :=
  require (bool_decide (header_hash (parent_header data) = parent_hash)) (OfInherent InvalidParentHeader) ;;
  let candidates_weight := InherentData.backed_candidates_weight (backed_candidates data) in
  let bitfields_weight := InherentData.signed_bitfields_weight (length (bitfields data)) in
  let disputes_weight := InherentData.multi_dispute_statement_sets_weight (data_disputes data) in
  d ← reads disputes;
  _ ← attempt (λ _, OfInherent DisputeStatementsUnsortedOrDuplicates)
        (Disputes.assure_deduplicated_and_sorted (λ session h, Disputes.handler_included_state session h d)
           (data_disputes data));
  let overweight := bool_decide (max_block <
    u64_saturating_add (u64_saturating_add candidates_weight bitfields_weight) disputes_weight) in
  let data := if overweight then mkData [] [] (data_disputes data) (parent_header data) else data in
  let candidates_weight := if overweight then 0 else candidates_weight in
  let bitfields_weight := if overweight then 0 else bitfields_weight in
  '(checked, checked_weight) ← import_disputes env parent_hash vrf_random full_check (data_disputes data);
  let total_consumed_weight :=
    u64_saturating_add (u64_saturating_add checked_weight candidates_weight) bitfields_weight in
  w ← reads id;
  if Disputes.handler_is_frozen (disputes w) then mret total_consumed_weight
  else
    let expected_bits := length (Scheduler.AvailabilityCores (scheduler w)) in
    disputed_bitfield ← free_disputed env (newly_invalid env checked (disputes w)) expected_bits;
    process_paras env parent_hash full_check data expected_bits checked disputed_bitfield ;;
    mret total_consumed_weight.

Definition enter {O A : Type} `{!FrameOrigin O A} (origin : O) env (parent_hash : Hash) (vrf_random : option Hash)
    (data : ParachainsInherentData) : Enter Weight :=
  require (bool_decide (is_Some (ensure_none origin))) BadOrigin ;;
  included ← reads Included;
  require (negb included) (OfInherent TooManyInclusionInherents) ;;
  writes (set_included true) ;;
  enter_inner env parent_hash vrf_random data Inclusion.CheckYes.

(** [on_finalize]: a block without the inherent panics. *)
Definition on_finalize (w : World) : option World :=
  if Included w then Some (set_included false w) else None.

(** ** Preparing the inherent *)

(** A candidate that must not go in: found invalid, or not verified. *)
Definition is_unfit env (parent_hash parent_storage_root : Hash) (concluded_invalid : gset CandidateHash)
    (rl : Inclusion.World (CollatorId := CollatorId) (CollatorSignature := CollatorSignature) (H := H))
    (b : Backed) : bool :=
  bool_decide (candidate_hash (candidate b) ∈ concluded_invalid) ||
  match Inclusion.verify_backed_candidate env parent_hash parent_storage_root b rl with
  | Err (Inclusion.Failed _) => true
  | _ => false
  end.

(** The closure run in a transaction that is rolled back: only what it returns
    is kept. *)
Definition select_data env (parent_hash : Hash) (sets : list StatementSet) (rng : R) (data : ParachainsInherentData) :
    Enter (R * (list Backed * list Bitfield * list StatementSet * Weight)) :=
  let session := ParasPallet.session_index env in
  let validators := ParasPallet.active_validator_keys env in
  d ← reads disputes;
  '(rng, (checked, weight, d)) ← expect (limit_and_sanitize_disputes sets (dispute_filter env Disputes.VerifySkip)
     max_block rng d);
  writes (set_disputes (Disputes.handler_process env checked d).1) ;;
  w ← reads id;
  let expected_bits := length (Scheduler.AvailabilityCores (scheduler w)) in
  let concluded_invalid : gset CandidateHash :=
    list_to_set (filter (λ h, Disputes.handler_concluded_invalid session h (disputes w) = true)
      ((λ b, candidate_hash (candidate b)) <$> backed_candidates data)) in
  disputed_bitfield ← free_disputed env (newly_invalid env checked (disputes w)) expected_bits;
  let bits := InherentData.sanitize_bitfields (bitfields data) disputed_bitfield expected_bits parent_hash session
                validators Inclusion.CheckYes in
  w ← reads id;
  '(freed_concluded, rl) ← expect (Inclusion.update_pending_availability_and_get_freed_cores code_hash_of env
     expected_bits validators bits
     (λ c, Scheduler.core_para (ParasPallet.Parachains (Inclusion.paras (relay w))) c (scheduler w)) false (relay w));
  writes (set_relay rl) ;;
  freed ← collect_all_freed_cores env freed_concluded;
  reschedule env freed ;;
  w ← reads id;
  mret (rng, (InherentData.sanitize_backed_candidates parent_hash (backed_candidates data)
                (λ _, is_unfit env parent_hash (header_state_root (parent_header data)) concluded_invalid (relay w))
                (Scheduler.Scheduled (scheduler w)), bits, checked, weight)).

(** [None] is a panic, [Some None] no inherent; [data] is what the node gives. *)
Definition create_inherent_inner env (parent_hash : Hash) (vrf_random : option Hash)
    (data : option ParachainsInherentData) (w : World) : option (option ParachainsInherentData) :=
  match data with
  | None => Some None
  | Some data =>
      if negb (bool_decide (header_hash (parent_header data) = parent_hash)) then Some None
      else
        let sets := Disputes.handler_deduplicate_and_sort (disputes w) (data_disputes data) in
        match select_data env parent_hash sets (from_seed (compute_entropy vrf_random parent_hash)) data w with
        | Some (_, Ok (rng, (backed, bits, checked, weight))) =>
            let '(_, (_, backed, bits)) :=
              InherentData.apply_weight_limit backed bits (saturating_sub max_block weight) rng in
            Some (Some (mkData bits backed checked (parent_header data)))
        | _ => None
        end
  end.

(** When the prepared data are refused, the inherent is empty. *)
Definition create_inherent env (parent_hash : Hash) (vrf_random : option Hash)
    (data : option ParachainsInherentData) (w : World) : option (option ParachainsInherentData) :=
  match create_inherent_inner env parent_hash vrf_random data w with
  | None => None
  | Some None => Some None
  | Some (Some data) =>
      match enter_inner env parent_hash vrf_random data Inclusion.CheckSkip w with
      | None => None
      | Some (_, Ok _) => Some (Some data)
      | Some (_, Err _) => Some (Some (mkData [] [] [] (parent_header data)))
      end
  end.
End Pallet.
End ParasInherent.
