(* ===== verification/InherentSelection.v ===== *)
(** * What the selection of inherent data keeps

    Bitfields and candidates that remain are within the weight they are given;
    those the author's filters let through pass the checks every node makes;
    and the weight of the disputes stays within the block. *)

From S2P Require Import Prelude.
From S2P Require Import Vectors.
From S2P Require Import Codec.
From S2P Require Import Frame.
From S2P Require Import Configuration.
From S2P Require Import Dmp.
From S2P Require Import Ump.
From S2P Require Import Hrmp.
From S2P Require Import Scheduler.
From S2P Require Import ParasPallet.
From S2P Require Import Candidates.
From S2P Require Import Disputes.
From S2P Require Import DisputesVotes.
From S2P Require Import DisputesTheorems.
From S2P Require Import Inclusion.
From S2P Require Import InclusionAvailability.
From S2P Require Import InclusionMessages.
From S2P Require Import InherentData.
From S2P Require Import ParasInherent.
Import Candidates InherentData.

Module InherentSelection.

(** ** Sums of weights *)

Definition total (l : list Weight) : Z := foldr Z.add 0 l.

Lemma total_cons x l : total (x :: l) = x + total l.
Proof. done. Qed.

Lemma total_app l k : total (l ++ k) = total l + total k.
Proof. unfold total. induction l as [|x l IH]; cbn; lia. Qed.

#[export] Instance total_proper : Proper ((≡ₚ) ==> eq) total.
Proof. intros l k. unfold total. induction 1; cbn in *; lia. Qed.

Lemma total_nonneg l : Forall (λ x, 0 ≤ x) l → 0 ≤ total l.
Proof. unfold total. induction 1; cbn; lia. Qed.

(** Adding up with saturation, in any order. *)
Lemma saturating_total a l :
  0 ≤ a ≤ u64_max → Forall (λ x, 0 ≤ x) l → foldl u64_saturating_add a l = Z.min u64_max (a + total l).
Proof.
  intros Ha Hl. revert a Ha. induction Hl as [|x l Hx Hl IH]; intros a Ha; cbn; [unfold total; cbn; lia|].
  pose proof (total_nonneg l Hl). rewrite IH; unfold u64_saturating_add; change (foldr Z.add 0 l) with (total l); lia.
Qed.

(** ** Random selection *)

Section Selection.
Context {R X : Type} `{!Rng R} (weight_fn : X → Weight) (limit : Weight).
Hypothesis limit_ok : 0 ≤ limit ≤ u64_max.
Implicit Types (l : list X).
#[local] Abbreviation nonneg l := (Forall (λ x, 0 ≤ weight_fn x) l).

(** The weights of the elements at some positions. *)
Definition weights_at l (idxs : list nat) : list Weight := weight_fn <$> omap (λ i, l !! i) idxs.

Lemma weights_at_nonneg l idxs : nonneg l → Forall (λ x, 0 ≤ x) (weights_at l idxs).
Proof.
  intros Hl. rewrite Forall_forall in Hl. apply Forall_forall. intros w (x & -> & Hx)%list_elem_of_fmap. apply Hl.
  apply list_elem_of_omap in Hx as (i & _ & Hi). by eapply list_elem_of_lookup_2.
Qed.

(** What is picked fits, is in range, and was offered. *)
Record picked l (offered : list nat) (acc : Weight * list nat) : Prop := {
  pk_weight : acc.1 = Z.min u64_max (total (weights_at l acc.2));
  pk_limit : acc.1 ≤ limit;
  pk_range : Forall (λ i, i < length l)%nat acc.2;
  pk_sub : acc.2 ⊆+ offered;
}.

Lemma pick_picked l idxs offered acc :
  nonneg l → picked l offered acc → picked l (offered ++ idxs) (foldl (pick weight_fn limit l) acc idxs).
Proof.
  intros Hpos. revert offered acc. induction idxs as [|i idxs IH]; intros offered acc Hp; cbn; [by rewrite app_nil_r|].
  rewrite (assoc_L (++) offered [i] idxs : offered ++ i :: idxs = (offered ++ [i]) ++ idxs).
  apply IH. destruct Hp as [H1 H2 H3 H4]. unfold pick.
  assert (acc.2 ⊆+ offered ++ [i]) as Hsub by (rewrite H4; by apply submseteq_inserts_r).
  pose proof (total_nonneg _ (weights_at_nonneg l acc.2 Hpos)) as Hn.
  destruct (l !! i) as [x|] eqn:Ei; [|done]. case_decide as Hlt; [done|].
  assert (0 ≤ weight_fn x) by (rewrite Forall_forall in Hpos; by eapply Hpos, list_elem_of_lookup_2). split; cbn.
  - unfold weights_at in H1, Hn |- *. rewrite omap_app, fmap_app, total_app. cbn. rewrite Ei. cbn.
    unfold u64_saturating_add. lia.
  - lia.
  - apply Forall_app. split; [done|]. repeat constructor. by eapply lookup_lt_Some.
  - by apply submseteq_app.
Qed.

Lemma random_sel_spec rng l preferred :
  nonneg l → NoDup preferred →
  let '(_, (w, idxs)) := random_sel weight_fn limit rng l preferred in
  w = Z.min u64_max (total (weights_at l idxs)) ∧ w ≤ limit ∧ NoDup idxs ∧ Forall (λ i, i < length l)%nat idxs.
Proof.
  intros Hpos Hnd. unfold random_sel. destruct l as [|x l]; [split_and!; [done|lia|constructor|done]|].
  set (sel := x :: l). set (indices := filter _ _).
  destruct (shuffle rng preferred) as [rng1 pref] eqn:E1. destruct (shuffle rng1 indices) as [rng2 idx] eqn:E2.
  pose proof (shuffle_perm rng preferred) as P1. rewrite E1 in P1. cbn [snd] in P1.
  pose proof (shuffle_perm rng1 indices) as P2. rewrite E2 in P2. cbn [snd] in P2.
  assert (picked sel [] (0, [])) as P0 by (split; cbn; [done|lia|done|done]).
  pose proof (pick_picked sel idx _ _ Hpos (pick_picked sel pref [] (0, []) Hpos P0)) as P3. cbn [app] in P3.
  destruct (foldl _ (foldl _ _ pref) idx) as [w idxs]. destruct P3 as [H1 H2 H3 H4]. cbn [fst snd] in H1, H2, H3, H4.
  assert (NoDup (pref ++ idx)) as Hall.
  { rewrite P1, P2. apply NoDup_app. split_and!; [done| |apply NoDup_filter, NoDup_seq].
    intros i Hi [Hn _]%list_elem_of_filter. done. }
  split_and!.
  - rewrite H1. unfold weights_at. by rewrite merge_sort_Permutation.
  - done.
  - rewrite merge_sort_Permutation. by eapply submseteq_NoDup.
  - apply Forall_forall. intros i. rewrite merge_sort_Permutation. rewrite Forall_forall in H3. apply H3.
Qed.

End Selection.

Section Retain.
Context {X : Type}.
Implicit Types (l : list X).

(** Keeping the elements at some positions. *)
Lemma retain_from {A} (f : nat → bool) (l : list A) k :
  snd <$> filter (λ x, f x.1 = true) (imap (λ i x, ((k + i)%nat, x)) l) =
  omap (λ i, if f (k + i)%nat then l !! i else None) (seq 0 (length l)).
Proof.
  revert k. induction l as [|a l IH]; intros k; [done|]. rewrite imap_cons. cbn [length seq]. 
  rewrite filter_cons, Nat.add_0_r. cbn [omap list_omap]. rewrite Nat.add_0_r. cbn [fst].
  rewrite (imap_ext _ (λ i x, ((S k + i)%nat, x)) l) by (intros; cbn; f_equal; lia).
  assert (omap (λ i, if f (k + i)%nat then (a :: l) !! i else None) (seq 1 (length l)) =
    omap (λ i, if f (S k + i)%nat then l !! i else None) (seq 0 (length l))) as ->.
  { rewrite <-fmap_S_seq. apply list_omap_ext, Forall2_fmap_l, Forall_Forall2_diag, Forall_forall. intros i _. cbn.
    by rewrite Nat.add_succ_r. }
  case_decide as Hf; [rewrite Hf|apply not_true_is_false in Hf; rewrite Hf]; cbn; [f_equal|]; apply (IH (S k)).
Qed.

Lemma retain_indices_omap l idxs :
  retain_indices idxs l = omap (λ i, l !! i) (filter (λ i, i ∈ idxs) (seq 0 (length l))).
Proof.
  etrans; [exact (retain_from (λ i, bool_decide (i ∈ idxs)) l 0)|]. cbn [Nat.add].
  induction (seq 0 (length l)) as [|i k IH]; [done|]. rewrite filter_cons. cbn [omap list_omap]. cbn.
  case_bool_decide; [rewrite decide_True by done|rewrite decide_False by done]; cbn; rewrite <-IH; by destruct (l !! i).
Qed.

Lemma retain_indices_perm l idxs :
  NoDup idxs → Forall (λ i, i < length l)%nat idxs → retain_indices idxs l ≡ₚ omap (λ i, l !! i) idxs.
Proof.
  intros Hnd Hr. rewrite retain_indices_omap.
  assert (filter (λ i, i ∈ idxs) (seq 0 (length l)) ≡ₚ idxs) as ->; [|done].
  apply NoDup_Permutation; [apply NoDup_filter, NoDup_seq|done|]. intros i. rewrite list_elem_of_filter, elem_of_seq.
  split; [tauto|]. intros Hi. rewrite Forall_forall in Hr. specialize (Hr i Hi). split; [done|lia].
Qed.

Lemma retain_indices_sublist {A} (l : list A) idxs : retain_indices idxs l `sublist_of` l.
Proof.
  unfold retain_indices, indexed_retain.
  assert (l = snd <$> imap (λ i x, (i, x)) l) as E.
  { symmetry. rewrite fmap_imap. cbn. apply list_eq. intros i. rewrite list_lookup_imap. cbn. by destruct (l !! i). }
  rewrite E at 2. apply fmap_sublist, sublist_filter.
Qed.
End Retain.

Lemma total_const {A} (c : Z) (l : list A) : total ((λ _, c) <$> l) = c * Z.of_nat (length l).
Proof. unfold total. induction l as [|x l IH]; cbn [fmap list_fmap foldr length]; lia. Qed.

(** ** The weight limit *)

Section Limit.
Context {CollatorId CollatorSignature ValidatorSignature R : Type} `{!WeightInfo} `{!Rng R}.
#[local] Abbreviation Backed := (BackedCandidate CollatorId CollatorSignature ValidatorSignature).
#[local] Abbreviation Bitfield := (UncheckedSigned ValidatorSignature).
#[local] Abbreviation StatementSet := (Disputes.DisputeStatementSet ValidatorSignature).

(** No weight is negative, and more statements do not weigh less. *)
Record weights_ok : Prop := {
  wt_disputes v v' : 0 ≤ v ≤ v' → 0 ≤ enter_variable_disputes v ≤ enter_variable_disputes v';
  wt_bitfields : 0 ≤ enter_bitfields;
  wt_backed v : 0 ≤ v → 0 ≤ enter_backed_candidates_variable v;
  wt_upgrade : 0 ≤ enter_backed_candidate_code_upgrade;
}.

Lemma with_code_NoDup (l : list Backed) : NoDup (with_code l).
Proof.
  unfold with_code.
  apply (sublist_NoDup _ (fst <$> imap (λ i x, (i, x)) l)); [|apply fmap_sublist, sublist_filter].
  rewrite fmap_imap. change (NoDup (imap (λ i (_ : Backed), i) l)). rewrite (imap_seq_0 l (λ i, i)), list_fmap_id. apply NoDup_seq.
Qed.

Lemma backed_weight_nonneg (c : Backed) : weights_ok → 0 ≤ backed_candidate_weight c.
Proof. intros Hw. unfold backed_candidate_weight. case_match; [apply Hw|]. apply Hw. apply Z.mod_pos_bound. lia. Qed.

Lemma backed_weights (l : list Backed) :
  weights_ok → backed_candidates_weight l = Z.min u64_max (total (backed_candidate_weight <$> l)) ∧
  0 ≤ total (backed_candidate_weight <$> l).
Proof.
  intros Hw. assert (Forall (λ x, 0 ≤ x) (backed_candidate_weight <$> l)) as Hl.
  { apply Forall_forall. intros w (c & -> & _)%list_elem_of_fmap. by apply backed_weight_nonneg. }
  split; [|by apply total_nonneg]. unfold backed_candidates_weight. rewrite saturating_total; [done| |done].
  unfold u64_max. lia.
Qed.

(** What the weight limit leaves fits: the candidates and bitfields kept are
    some of those offered, in their order, the returned weight is theirs, and it
    does not exceed the limit.  When everything fits nothing is dropped, and
    when the bitfields fit only candidates are. *)
Lemma weight_limit_respected (candidates : list Backed) (bitfields : list Bitfield) limit (rng : R) :
  weights_ok → 0 ≤ limit ≤ u64_max →
  let '(_, (w, cs, bs)) := apply_weight_limit candidates bitfields limit rng in
  cs `sublist_of` candidates ∧ bs `sublist_of` bitfields ∧
  w = u64_saturating_add (signed_bitfields_weight (length bs)) (backed_candidates_weight cs) ∧ w ≤ limit ∧
  (signed_bitfields_weight (length bitfields) ≤ limit → bs = bitfields) ∧
  (u64_saturating_add (signed_bitfields_weight (length bitfields)) (backed_candidates_weight candidates) ≤ limit →
   cs = candidates).
Proof.
  intros Hw Hl. unfold apply_weight_limit. case_decide as Hfit; [by split_and!|].
  pose proof (wt_bitfields Hw) as Hb.
  assert (0 ≤ signed_bitfields_weight (length bitfields) ≤ u64_max) as Hbw.
  { unfold signed_bitfields_weight, u64_saturating_mul, u64_max. lia. }
  unfold u64_checked_sub. case_decide as Hsub.
  - assert (0 ≤ limit - signed_bitfields_weight (length bitfields) ≤ u64_max) as Hrest by lia.
    pose proof (random_sel_spec backed_candidate_weight (limit - signed_bitfields_weight (length bitfields))
      Hrest rng candidates (with_code candidates) (proj2 (Forall_forall _ _) (λ c _, backed_weight_nonneg c Hw))
      (with_code_NoDup _)) as Hs.
    destruct (random_sel _ _ _ _ _) as [rng' [w idxs]]. destruct Hs as (E & Hle & Hnd & Hr).
    split_and!; [apply retain_indices_sublist|done| | |done|].
    + destruct (backed_weights (retain_indices idxs candidates) Hw) as [-> _].
      rewrite (retain_indices_perm _ _ Hnd Hr). unfold u64_saturating_add. unfold weights_at in E. lia.
    + unfold u64_saturating_add. lia.
    + done.
  - pose proof (random_sel_spec (λ _ : Bitfield, enter_bitfields) limit Hl rng bitfields []
      (proj2 (Forall_forall _ _) (λ _ _, Hb)) (NoDup_nil_2)) as Hs.
    destruct (random_sel _ _ _ _ _) as [rng' [w idxs]]. destruct Hs as (E & Hle & Hnd & Hr).
    split_and!; [apply sublist_nil_l|apply retain_indices_sublist| |done|lia|done].
    rewrite E. unfold weights_at. rewrite total_const, <-(retain_indices_perm _ _ Hnd Hr).
    unfold u64_saturating_add, signed_bitfields_weight, u64_saturating_mul, backed_candidates_weight, u64_max. cbn. lia.
Qed.

(** ** The weight of disputes *)

Context {ValidatorId D : Type} `{!Disputes.DisputesHandler ValidatorId ValidatorSignature D}.
#[local] Abbreviation Filter := (StatementSet → D → option (option StatementSet * D)).

(** A filter only takes statements out. *)
Definition shrinks (valid : Filter) : Prop := ∀ dss d c d', valid dss d = Some (Some c, d') →
  (length (Disputes.statements c) ≤ length (Disputes.statements dss))%nat.

(** A vector of statements has a length that fits its index type. *)
Definition countable_sets (sets : list StatementSet) : Prop :=
  Forall (λ s, Z.of_nat (length (Disputes.statements s)) ≤ u32_max) sets.

Definition sets_total (sets : list StatementSet) : Z := total (dispute_statement_set_weight <$> sets).

Lemma len32_small {A} (l : list A) : Z.of_nat (length l) ≤ u32_max → len32 l = Z.of_nat (length l).
Proof. intros Hl. apply wrap32_small. unfold is_u32. lia. Qed.

Lemma set_weight_nonneg (s : StatementSet) : weights_ok → 0 ≤ dispute_statement_set_weight s.
Proof.
  intros Hw. unfold dispute_statement_set_weight.
  apply (wt_disputes Hw (len32 (Disputes.statements s)) (len32 (Disputes.statements s))).
  pose proof (wrap32_range (Z.of_nat (length (Disputes.statements s)))) as Hr. unfold is_u32 in Hr. unfold len32. lia.
Qed.

Lemma sets_weight (sets : list StatementSet) :
  weights_ok → multi_dispute_statement_sets_weight sets = Z.min u64_max (sets_total sets) ∧ 0 ≤ sets_total sets.
Proof.
  intros Hw. assert (Forall (λ x, 0 ≤ x) (dispute_statement_set_weight <$> sets)) as Hl.
  { apply Forall_forall. intros w (c & -> & _)%list_elem_of_fmap. by apply set_weight_nonneg. }
  split; [|by apply total_nonneg]. unfold multi_dispute_statement_sets_weight. rewrite saturating_total; [done| |done].
  unfold u64_max. lia.
Qed.

Lemma filtered_weight (valid : Filter) dss d c d' :
  weights_ok → shrinks valid → Z.of_nat (length (Disputes.statements dss)) ≤ u32_max →
  valid dss d = Some (Some c, d') → 0 ≤ dispute_statement_set_weight c ≤ dispute_statement_set_weight dss.
Proof.
  intros Hw Hs Hl Hv%Hs. unfold dispute_statement_set_weight. rewrite !len32_small by lia. apply (wt_disputes Hw). lia.
Qed.

(** The sets taken so far weigh at most what was counted. *)
Definition counted (checked : list StatementSet) (w : Weight) : Prop :=
  0 ≤ w ≤ u64_max ∧ Z.min u64_max (sets_total checked) ≤ w.

Lemma counted_snoc checked w c x :
  weights_ok → counted checked w → dispute_statement_set_weight c ≤ x →
  counted (checked ++ [c]) (u64_saturating_add w x).
Proof.
  intros Hw [Hr Hc] Hx. pose proof (set_weight_nonneg c Hw). unfold counted, sets_total in *.
  rewrite fmap_app, total_app. change (total (dispute_statement_set_weight <$> [c])) with (dispute_statement_set_weight c + 0).
  unfold u64_saturating_add. lia.
Qed.

Lemma take_local_counted (valid : Filter) limit sets checked w d checked' w' d' :
  weights_ok → shrinks valid → countable_sets sets → counted checked w → w ≤ limit →
  try_fold (ParasInherent.take_local valid limit) sets (checked, w, d) = Some (checked', w', d') →
  counted checked' w' ∧ w' ≤ limit.
Proof.
  intros Hw Hs Hl. revert checked w d. induction Hl as [|dss sets Hd Hl IH]; intros checked w d Hc Hle; cbn.
  { intros [= <- <- <-]. done. }
  case_decide as Hfit; [|by apply IH]. destruct (valid dss d) as [[[c|] d1]|] eqn:E; cbn; [|by apply IH|done].
  apply IH; [|done]. apply counted_snoc; [done..|]. by apply (filtered_weight valid dss d c d1).
Qed.

Lemma take_remote_counted (valid : Filter) remote idxs checked w d checked' w' d' :
  weights_ok → shrinks valid → countable_sets remote → counted checked w →
  try_fold (ParasInherent.take_remote valid remote) idxs (checked, w, d) = Some (checked', w', d') →
  counted checked' w' ∧
  w' ≤ w + total (weights_at enter_variable_disputes ((λ s, len32 (Disputes.statements s)) <$> remote) idxs).
Proof.
  intros Hw Hs Hl. revert checked w d. induction idxs as [|i idxs IH]; intros checked w d Hc; cbn [try_fold].
  { intros [= <- <- <-]. split; [done|]. unfold weights_at. cbn. unfold total. cbn. lia. }
  cbn [ParasInherent.take_remote]. destruct (remote !! i) as [dss|] eqn:Ei; cbn; [|done].
  assert (Z.of_nat (length (Disputes.statements dss)) ≤ u32_max) as Hd.
  { unfold countable_sets in Hl. rewrite Forall_forall in Hl. by eapply Hl, list_elem_of_lookup_2. }
  unfold weights_at. cbn [omap list_omap]. rewrite list_lookup_fmap, Ei. cbn [fmap option_fmap option_map list_fmap].
  rewrite total_cons. fold (dispute_statement_set_weight dss).
  pose proof (set_weight_nonneg dss Hw).
  destruct (valid dss d) as [[[c|] d1]|] eqn:E; cbn [mbind option_bind]; [| |done]; intros Hf.
  - destruct (filtered_weight valid dss d c d1 Hw Hs Hd E) as [? ?].
    apply IH in Hf as [? Hle]; [|by apply counted_snoc]. split; [done|]. unfold weights_at, u64_saturating_add in Hle. lia.
  - apply IH in Hf as [? Hle]; [|done]. split; [done|]. unfold weights_at in Hle. lia.
Qed.

Lemma filter_all_weight (valid : Filter) sets checked d checked' d' :
  weights_ok → shrinks valid → countable_sets sets →
  try_fold (ParasInherent.filter_all valid) sets (checked, d) = Some (checked', d') →
  sets_total checked' ≤ sets_total checked + sets_total sets.
Proof.
  intros Hw Hs Hl. revert checked d. induction Hl as [|dss sets Hd Hl IH]; intros checked d; cbn [try_fold].
  { intros [= <- <-]. unfold sets_total. cbn. unfold total. cbn. lia. }
  change (ParasInherent.filter_all valid (checked, d) dss)
    with ('(r, d0) ← valid dss d; Some (match r with Some c => checked ++ [c] | None => checked end, d0)).
  pose proof (set_weight_nonneg dss Hw).
  assert (sets_total (dss :: sets) = dispute_statement_set_weight dss + sets_total sets) as Hc by apply total_cons. rewrite Hc.
  destruct (valid dss d) as [[[c|] d1]|] eqn:E; cbn [mbind option_bind]; [| |done]; intros Hf%IH; [|lia].
  destruct (filtered_weight valid dss d c d1 Hw Hs Hd E) as [? ?].
  unfold sets_total in *. rewrite fmap_app, total_app in Hf. cbn [fmap list_fmap] in Hf. rewrite total_cons in Hf.
  change (total []) with 0 in Hf. lia.
Qed.

Lemma limited_weight (valid : Filter) sets limit (rng rng' : R) d checked w d' :
  weights_ok → shrinks valid → countable_sets sets → 0 ≤ limit ≤ u64_max →
  ParasInherent.limit_and_sanitize_disputes sets valid limit rng d = Some (rng', (checked, w, d')) →
  multi_dispute_statement_sets_weight checked ≤ w ≤ limit.
Proof.
  intros Hw Hs Hl Hlim. unfold ParasInherent.limit_and_sanitize_disputes.
  destruct (sets_weight checked Hw) as [-> Hpos]. case_decide as Hover.
  - assert (countable_sets (take (ParasInherent.count_local d sets) sets)) as Hl1 by by apply Forall_take.
    assert (countable_sets (drop (ParasInherent.count_local d sets) sets)) as Hl2 by by apply Forall_drop.
    set (remote := drop _ _) in *. set (local := take _ _) in *.
    destruct (try_fold _ local _) as [[[checked1 w1] d1]|] eqn:E1; cbn [mbind option_bind]; [|done].
    assert (counted [] 0) as Hc0 by (split; unfold u64_max; [|change (sets_total []) with 0]; lia).
    destruct (take_local_counted valid limit local [] 0 d checked1 w1 d1 Hw Hs Hl1 Hc0) as [Hc1 Hle1]; [lia|done|].
    assert (0 ≤ saturating_sub limit w1 ≤ u64_max) as Hrest by (unfold saturating_sub; destruct Hc1; lia).
    assert (Forall (λ v, 0 ≤ enter_variable_disputes v) ((λ s : StatementSet, len32 (Disputes.statements s)) <$> remote)) as Hnn.
    { apply Forall_forall. intros v (s & -> & _)%list_elem_of_fmap. by apply set_weight_nonneg. }
    pose proof (random_sel_spec enter_variable_disputes _ Hrest rng _ [] Hnn NoDup_nil_2) as Hsel.
    destruct (random_sel _ _ _ _ _) as [rng2 [w2 idxs]]. destruct Hsel as (E2 & Hle2 & _).
    destruct (try_fold _ (merge_sort le idxs) _) as [[[checked2 w3] d2]|] eqn:E3; cbn [mbind option_bind]; [|done].
    intros [= <- <- <- <-]. apply take_remote_counted in E3 as [[Hr3 Hc3] Hle3]; [|done..].
    split; [done|]. unfold weights_at in Hle3. rewrite merge_sort_Permutation in Hle3. unfold weights_at in E2.
    unfold saturating_sub in Hle2. destruct Hc1 as [? _]. lia.
  - destruct (try_fold _ sets _) as [[checked1 d1]|] eqn:E1; cbn [mbind option_bind]; [|done].
    intros [= <- <- <- <-]. apply filter_all_weight in E1; [|done..].
    destruct (sets_weight sets Hw) as [E2 _]. destruct (sets_weight checked1 Hw) as [-> _].
    change (sets_total []) with 0 in E1. lia.
Qed.
End Limit.

(** ** The prepared inherent *)

Section Prepared.
Context {CollatorId CollatorSignature ValidatorId ValidatorSignature H R W Header : Type}
  `{!EqDecision CollatorId}
  `{!Blake2 CollatorId CollatorSignature}
  `{!Signatures CollatorId CollatorSignature ValidatorId ValidatorSignature}
  `{!MessageHash H} `{!Ump.UmpSink W} `{!WeightInfo} `{!Rng R}
  `{!StorageIter ParaId (Inclusion.CandidatePendingAvailability (CollatorId := CollatorId) (CollatorSignature := CollatorSignature))}
  (session_info : SessionIndex → option (list ValidatorId))
  (code_hash_of : ValidationCode → Hash) (first_message_factor_percent : Weight)
  (header_hash header_state_root : Header → Hash) (max_block : Weight).
#[local] Instance disputes_pallet : Disputes.DisputesHandler ValidatorId ValidatorSignature Disputes.State :=
  Disputes.pallet_handler session_info.
#[local] Abbreviation World := (ParasInherent.World (CollatorId := CollatorId) (CollatorSignature := CollatorSignature)
  (ValidatorSignature := ValidatorSignature) (H := H) (D := Disputes.State) (W := W)).
Implicit Types (env : ParasPallet.Env ValidatorId) (w : World).

Lemma swap_remove_shorter {A} js (l l' : list A) :
  try_fold swap_remove js l = Some l' → (length l' ≤ length l)%nat.
Proof.
  revert l. induction js as [|j js IH]; intros l; cbn [try_fold]; [by intros [= <-]|].
  destruct (swap_remove l j) as [k|] eqn:E; cbn [mbind option_bind]; [|done]. intros Hl%IH. revert E. unfold swap_remove.
  destruct (l !! j); cbn; [|done]. destruct (last l); cbn; [|done]. intros [= <-].
  rewrite length_take, length_insert in Hl. lia.
Qed.

Lemma pallet_shrinks env verify_sigs : shrinks (ParasInherent.dispute_filter env verify_sigs).
Proof.
  intros dss d c d'. unfold ParasInherent.dispute_filter. cbn. unfold Disputes.filter_dispute_data.
  destruct (Disputes.filter_votes _ _ _ _ _ _ _) as [[f s]|]; cbn; [|done].
  unfold Disputes.filter_statement_set. destruct f as [|l]; [done|].
  destruct (try_fold _ _ _) as [k|] eqn:E; cbn; [|done]. case_decide; [done|]. intros [= <- _]. cbn.
  by eapply swap_remove_shorter.
Qed.

(** C8. The inherent a block author prepares fits the block: whatever bitfields,
    candidates and disputes the node hands over, those that are put in weigh no
    more than a block may, so that no node drops them as overweight. *)
Theorem inherent_fits_block env parent_hash vrf_random data w out :
  weights_ok → 0 ≤ max_block ≤ u64_max → countable_sets (ParasInherent.data_disputes data) →
  ParasInherent.create_inherent code_hash_of first_message_factor_percent header_hash header_state_root max_block
    env parent_hash vrf_random (Some data) w = Some (Some out) →
  paras_inherent_total_weight (ParasInherent.backed_candidates out) (ParasInherent.bitfields out)
    (ParasInherent.data_disputes out) ≤ max_block.
Proof.
  intros Hw Hb Hc. unfold ParasInherent.create_inherent.
  destruct (ParasInherent.create_inherent_inner _ _ _ _ _ _ _ _ _) as [[data'|]|] eqn:Ei; [|done..].
  intros Ho. assert (out = data' ∨ out = ParasInherent.mkData [] [] [] (ParasInherent.parent_header data')) as [->| ->].
  { repeat case_match; simplify_eq; auto. }
  2: { unfold paras_inherent_total_weight, u64_saturating_add, signed_bitfields_weight, u64_saturating_mul, backed_candidates_weight,
         multi_dispute_statement_sets_weight. cbn. unfold u64_max in *. lia. }
  clear Ho. revert Ei. unfold ParasInherent.create_inherent_inner.
  destruct (negb _); [done|]. set (sets := Disputes.handler_deduplicate_and_sort _ _).
  assert (countable_sets sets) as Hs.
  { unfold countable_sets in *. rewrite Forall_forall in Hc |- *. intros s Hin. apply Hc.
    by apply (DisputesTheorems.dedup_sort_elem (λ session h, Disputes.included_state session h (ParasInherent.disputes w))). }
  destruct (ParasInherent.select_data _ _ _ _ _ _ _ _ _) as [[w' [[rng [[[backed bits] checked] weight]]|]]|] eqn:E; [|done..].
  assert (multi_dispute_statement_sets_weight checked ≤ weight ≤ max_block) as Hcw.
  { unfold ParasInherent.select_data in E. apply PM_bind_ok in E as (w1 & d & _ & E).
    apply PM_bind_ok in E as (w2 & [rng0 [[checked0 weight0] d0]] & [El _]%expect_ok & E).
    apply limited_weight in El as Hlw; [|done|apply pallet_shrinks|done..].
    pm_inv E. injection E as _ _ _ _ <- <-. exact Hlw. }
  pose proof (weight_limit_respected backed bits (saturating_sub max_block weight) rng Hw) as Hlim.
  destruct (apply_weight_limit _ _ _ _) as [rng' [[wt cs] bs]]. intros [= <-].
  cbn [ParasInherent.backed_candidates ParasInherent.bitfields ParasInherent.data_disputes].
  destruct (sets_weight checked Hw) as [Em Hm].
  destruct Hlim as (_ & _ & E1 & Hle & _); [unfold saturating_sub, u64_max in *; lia|].
  unfold paras_inherent_total_weight. unfold u64_saturating_add, saturating_sub in *. lia.
Qed.
End Prepared.

(** ** The author's filters and the checks of the nodes *)

Section Checks.
Context {CollatorId CollatorSignature ValidatorId ValidatorSignature : Type}
  `{!Signatures CollatorId CollatorSignature ValidatorId ValidatorSignature}.
#[local] Abbreviation Backed := (BackedCandidate CollatorId CollatorSignature ValidatorSignature).
#[local] Abbreviation Bitfield := (UncheckedSigned ValidatorSignature).
#[local] Abbreviation Assignment := (Scheduler.CoreAssignment (CollatorId := CollatorId)).
Implicit Types (b : Bitfield) (bs : list Bitfield) (validators : list ValidatorId).

(** A bitfield of the right size with a valid signature. *)
Definition bitfield_ok (expected_bits : nat) (ctx : SigningContext) validators b : Prop :=
  length (payload b) = expected_bits ∧ ∃ key, validators !! validator_index b = Some key ∧ check_signature b ctx key = true.

(** Indices ascend, from beyond [last]. *)
Definition ascending_from (last : option ValidatorIndex) bs : Prop :=
  StronglySorted lt (validator_index <$> bs) ∧
  ∀ x b, last = Some x → b ∈ bs → (x < validator_index b)%nat.

Lemma ascending_cons last b bs :
  ascending_from last (b :: bs) ↔
  (∀ x, last = Some x → (x < validator_index b)%nat) ∧ ascending_from (Some (validator_index b)) bs.
Proof.
  unfold ascending_from. cbn [fmap list_fmap]. split.
  - intros [Hs Hl]. apply StronglySorted_inv in Hs as [Hs Hb]. split; [intros x Hx; apply (Hl x b Hx); by left|].
    split; [done|]. intros x c [= <-] Hc. rewrite Forall_forall in Hb. apply Hb, list_elem_of_fmap. by exists c.
  - intros (Hb & Hs & Hl). split.
    + constructor; [done|]. apply Forall_forall. intros x (c & -> & Hc)%list_elem_of_fmap. by apply (Hl _ c eq_refl).
    + intros x c Hx [->|Hc]%elem_of_cons; [by apply Hb|]. pose proof (Hb x Hx). pose proof (Hl _ c eq_refl Hc). lia.
Qed.

Lemma assure_bitfields_ok n ctx validators last bs :
  Forall (bitfield_ok n ctx validators) bs → ascending_from last bs →
  Inclusion.assure_bitfields n ctx validators Inclusion.CheckYes last bs = Ok bs.
Proof.
  intros Hb. revert last. induction Hb as [|b bs (Hl & key & Hk & Hs) Hb IH]; intros last Ha; cbn; [done|].
  apply ascending_cons in Ha as [Hlast Ha]. rewrite bool_decide_eq_true_2 by done. cbn.
  rewrite Hk. cbn. rewrite Hs, (IH _ Ha).
  destruct last as [x|]; [rewrite bool_decide_eq_true_2 by (by apply Hlast)|]; done.
Qed.

Lemma sanitize_loop_ok disputed n ctx validators last bs :
  Forall (bitfield_ok n ctx validators) (sanitize_loop disputed n ctx validators Inclusion.CheckYes last bs) ∧
  ascending_from last (sanitize_loop disputed n ctx validators Inclusion.CheckYes last bs).
Proof.
  revert last. induction bs as [|b bs IH]; intros last; cbn.
  { split; [constructor|]. split; [constructor|]. by intros ?? _ ?%elem_of_nil. }
  case_bool_decide as Hl; cbn; [|apply IH]. case_bool_decide; cbn; [|apply IH].
  destruct (match last with Some x => _ | None => _ end) eqn:El; cbn; [|apply IH].
  destruct (validators !! validator_index b) as [key|] eqn:Ek; [|apply IH].
  assert (∀ x, last = Some x → (x < validator_index b)%nat) as Hx.
  { intros x ->. by apply bool_decide_eq_true in El. }
  destruct (IH (Some (validator_index b))) as [H1 H2].
  destruct (check_signature b ctx key) eqn:Es.
  - split; [constructor; [|done]; split; [done|by exists key]|]. by apply ascending_cons.
  - split; [done|]. destruct H2 as [H2 H3]. split; [done|]. intros x c Hlast Hc.
    pose proof (Hx x Hlast). pose proof (H3 _ c eq_refl Hc). lia.
Qed.

Lemma ascending_sublist last bs bs' : bs' `sublist_of` bs → ascending_from last bs → ascending_from last bs'.
Proof.
  intros Hs [Ha Hl]. split; [eapply StronglySorted_sublist; [by apply fmap_sublist|done]|].
  intros x b Hx Hb. apply Hl; [done|]. by eapply elem_of_sublist.
Qed.

Context `{!Blake2 CollatorId CollatorSignature}.

(** A candidate that is fit for its scheduled core. *)
Definition candidate_fits (parent : Hash) (scheduled : list Assignment) (c : Backed) : Prop :=
  relay_parent (descriptor (candidate c)) = parent ∧ is_Some (candidate_core scheduled c).

Lemma sorted_by_core_ok scheduled (l : list Backed) :
  Forall (λ c, is_Some (candidate_core scheduled c)) l → StronglySorted (core_le scheduled) l →
  sorted_by_core scheduled l = Some true.
Proof.
  induction 1 as [|a l [x Ha] Hl IH]; intros Hs; [done|]. apply StronglySorted_inv in Hs as [Hs Hb].
  destruct l as [|b l]; [done|].
  change (sorted_by_core scheduled (a :: b :: l)) with
    (x ← candidate_core scheduled a; y ← candidate_core scheduled b;
     if decide (y < x)%nat then Some false else sorted_by_core scheduled (b :: l)).
  inversion_clear Hl as [|?? [y Hy] _]. inversion_clear Hb as [|?? Hab _]. unfold core_le in Hab.
  rewrite Ha, Hy in *. cbn in Hab |- *. rewrite decide_False by lia. by apply IH.
Qed.

#[local] Instance core_le_trans (scheduled : list Assignment) :
  Transitive (core_le scheduled : Backed → Backed → Prop).
Proof. intros a b c. unfold core_le. lia. Qed.
#[local] Instance core_le_total (scheduled : list Assignment) :
  Total (core_le scheduled : Backed → Backed → Prop).
Proof. intros a b. unfold core_le. lia. Qed.

Lemma indexed_retain_elem {A} (f : nat → A → bool) (l : list A) x :
  x ∈ indexed_retain f l → x ∈ l ∧ ∃ i, f i x = true.
Proof.
  unfold indexed_retain. intros ([i y] & -> & [Hf Hy]%list_elem_of_filter)%list_elem_of_fmap. cbn in Hf |- *.
  apply elem_of_lookup_imap in Hy as (j & z & [= -> ->] & Hz). split; [by eapply list_elem_of_lookup_2|by exists j].
Qed.

(** C10. What the author lets through passes the checks of its form that every
    node makes before it processes the data: any selection, in order, of the
    sanitised bitfields passes [assure_sanity_bitfields], signatures included,
    and any selection of the sanitised candidates passes
    [assure_sanity_backed_candidates] without a panic, given the same disputed
    cores, validators, parent and schedule, as long as no candidate was found
    invalid in the meantime. *)
Theorem sanitized_data_accepted (parent : Hash) session validators (disputed : list bool) n bitfields bs
    (candidates cs : list Backed) is_invalid is_invalid' (scheduled : list Assignment) :
  bs `sublist_of` sanitize_bitfields bitfields disputed n parent session validators Inclusion.CheckYes →
  cs `sublist_of` sanitize_backed_candidates parent candidates is_invalid scheduled →
  length disputed = n → (∀ i c, c ∈ candidates → is_invalid' c = true → is_invalid i c = true) →
  Inclusion.assure_sanity_bitfields bs disputed n parent session validators Inclusion.CheckYes = Ok bs ∧
  assure_sanity_backed_candidates parent cs is_invalid' scheduled = Some (Ok tt).
Proof.
  intros Hbs Hcs Hn Hinv. split.
  - unfold Inclusion.assure_sanity_bitfields, sanitize_bitfields in *. rewrite bool_decide_eq_true_2 in * by done.
    cbn in Hbs |- *. destruct (sanitize_loop_ok disputed n (mkContext session parent) validators None bitfields) as [H1 H2].
    apply assure_bitfields_ok; [by eapply Forall_sublist|by eapply ascending_sublist].
  - unfold sanitize_backed_candidates in Hcs. set (l := filter _ _) in Hcs.
    assert (Forall (λ c, candidate_fits parent scheduled c ∧ is_invalid' c = false) cs) as Hok.
    { eapply Forall_sublist; [done|]. apply Forall_forall. intros c. rewrite merge_sort_Permutation. unfold l.
      intros [Hc (Hin & i & Hi)%indexed_retain_elem]%list_elem_of_filter. split; [done|].
      destruct (is_invalid' c) eqn:E; [|done]. by rewrite (Hinv i c Hin E) in Hi. }
    assert (StronglySorted (core_le scheduled) cs) as Hs.
    { eapply StronglySorted_sublist; [done|]. apply (StronglySorted_merge_sort _). }
    unfold assure_sanity_backed_candidates.
    assert (assure_each parent is_invalid' cs = Ok tt) as ->.
    { clear -Hok. induction Hok as [|c cs [[Hp _] Hi] _ IH]; cbn; [done|]. by rewrite Hi, bool_decide_eq_true_2. }
    rewrite sorted_by_core_ok; [done| |done]. eapply Forall_impl; [done|]. by intros c [[_ ?] _].
Qed.

(** A candidate whose para is not scheduled makes the check panic, unless it is
    the only one. *)
Lemma unscheduled_candidate_panics (parent : Hash) (a b : Backed) is_invalid (scheduled : list Assignment) :
  (∀ c, c ∈ [a; b] → relay_parent (descriptor (candidate c)) = parent ∧ is_invalid c = false) →
  candidate_core scheduled a = None → assure_sanity_backed_candidates parent [a; b] is_invalid scheduled = None.
Proof.
  intros Hok Ha. destruct (Hok a) as [Ha1 Ha2]; [left|]. destruct (Hok b) as [Hb1 Hb2]; [right; left|].
  unfold assure_sanity_backed_candidates. cbn. rewrite Ha2, Hb2, !bool_decide_eq_true_2 by done. cbn. by rewrite Ha.
Qed.
End Checks.

(** ** Examples: para 2000 has core 0, and its candidate is pending *)

Section Examples.
#[local] Existing Instances Hrmp.example_hash Ump.byte_sink InclusionAvailability.example_blake2
  InclusionAvailability.example_signatures.
#[local] Abbreviation ExamplePending :=
  (Inclusion.CandidatePendingAvailability (CollatorId := Z) (CollatorSignature := unit)).
#[local] Instance pending_iter : StorageIter ParaId ExamplePending :=
  {| storage_iter := map_to_list; storage_iter_perm _ := reflexivity _ |}.
#[local] Instance dispute_iter : StorageIter (SessionIndex * CandidateHash) Disputes.DisputeState :=
  {| storage_iter := map_to_list; storage_iter_perm _ := reflexivity _ |}.

(** A shuffle that changes nothing, and the weights of the tests. *)
#[local] Instance no_shuffle : Rng unit :=
  {| from_seed _ := tt; shuffle r l := (r, l); shuffle_perm _ _ := reflexivity _ |}.
#[local] Instance test_weights : WeightInfo := {|
  enter_variable_disputes v := 80_000 * v + 80_000;
  enter_bitfields := 40_000;
  enter_backed_candidates_variable v := 40_000 * v + 40_000;
  enter_backed_candidate_code_upgrade := 0;
|}.

Definition inherent_info (session : SessionIndex) : option (list Z) :=
  if decide (session = 1) then Some [10; 11; 12] else None.
#[local] Instance inherent_disputes : Disputes.DisputesHandler Z Z Disputes.State := disputes_pallet inherent_info.
Definition inherent_config : HostConfiguration :=
  fold_left (λ c call, Configuration.updater call c)
    [Configuration.set_group_rotation_frequency 20; Configuration.set_chain_availability_period 5;
     Configuration.set_thread_availability_period 5] InclusionMessages.message_config.
Definition inherent_env : ParasPallet.Env Z := ParasPallet.mkEnv 9 1 [10; 11; 12] inherent_config.
Definition inherent_world : ParasInherent.World :=
  ParasInherent.mkWorld (ValidatorSignature := Z) (W := list Ump.UpwardMessage)
    (Inclusion.on_paras (ParasPallet.upd_Parachains (λ _, [2000])) InclusionMessages.message_world1)
    (Scheduler.mkState [[0; 1]%nat] (Scheduler.mkQueue [] 0) [Some Scheduler.OccupiedParachain] [] 0 [])
    Disputes.empty_state [] false None.
Definition signed_bitfield (v : nat) : UncheckedSigned Z := mkSigned [true] v (10 + Z.of_nat v).
Definition next_candidate : BackedCandidate Z unit Z :=
  mkBacked (mkCommitted (mkDescriptor 2000 9 3 8 0 0 tt 0 7) (mkCommitments [] [] None [] 0 8))
    [Implicit 10; Explicit 11] [true; true].
Definition offered : ParasInherent.ParachainsInherentData :=
  ParasInherent.mkData [signed_bitfield 0; signed_bitfield 1; signed_bitfield 2] [next_candidate] [] 9.
Definition prepared (max_block : Weight) :=
  ParasInherent.create_inherent (λ _, 0) 100 id (λ _, 1) max_block
    inherent_env 9 None (Some offered) inherent_world.

(** A block of 200000 has room for the three bitfields but not for the candidate. *)
Definition packed : ParasInherent.ParachainsInherentData (CollatorId := Z) (CollatorSignature := unit) :=
  ParasInherent.mkData [signed_bitfield 0; signed_bitfield 1; signed_bitfield 2] [] [] 9.

Lemma inherent_fits_block_witness :
  prepared 1_000_000 = Some (Some offered) ∧ prepared 200_000 = Some (Some packed) ∧
  paras_inherent_total_weight (ParasInherent.backed_candidates packed) (ParasInherent.bitfields packed)
    (ParasInherent.data_disputes packed) ≤ 200_000.
Proof.
  split; [vm_compute; reflexivity|]. split; [vm_compute; reflexivity|].
  refine (inherent_fits_block inherent_info (λ _, 0) 100 id (λ _, 1) 200_000 inherent_env 9 None offered
    inherent_world packed _ _ _ _).
  - split; cbn; lia.
  - unfold u64_max. lia.
  - constructor.
  - vm_compute. reflexivity.
Defined.

Lemma sanitized_data_accepted_witness :
  Inclusion.assure_sanity_bitfields [signed_bitfield 0; signed_bitfield 2] [false] 1 9 1 [10; 11; 12] Inclusion.CheckYes =
    Ok [signed_bitfield 0; signed_bitfield 2] ∧
  assure_sanity_backed_candidates 9 [next_candidate] (λ _, false) InclusionAvailability.example_scheduled = Some (Ok tt).
Proof.
  refine (sanitized_data_accepted 9 1 [10; 11; 12] [false] 1
    [signed_bitfield 0; signed_bitfield 0; mkSigned [true] 1 0; signed_bitfield 2] _
    [next_candidate; InclusionMessages.message_candidate] _ (λ _ c, bool_decide (hrmp_watermark (commitments (candidate c)) = 7))
    (λ _, false) InclusionAvailability.example_scheduled _ _ eq_refl _).
  - vm_compute. repeat constructor.
  - vm_compute. repeat constructor.
  - discriminate.
Defined.
End Examples.
End InherentSelection.
