(* ===== verification/Initializer.v ===== *)
(** * Sessions and the order of the pallets

    [runtime/parachains/src/shared.rs], [session_info.rs] and [initializer.rs],
    with the helpers of [util.rs]: which validators are active in a session, what
    is kept of past sessions, and how a block and a new session go through the
    pallets.  The storages of all pallets are joined in a [Chain]. *)

From S2P Require Import Prelude.
From S2P Require Import Vectors.
From S2P Require Import Codec.
From S2P Require Import Frame.
From S2P Require Import Configuration.
From S2P Require Import Paras.
From S2P Require Import Dmp.
From S2P Require Import Ump.
From S2P Require Import Hrmp.
From S2P Require Import Scheduler.
From S2P Require Import ParasPallet.
From S2P Require Import Candidates.
From S2P Require Import Disputes.
From S2P Require Import Inclusion.
From S2P Require Import InherentData.
From S2P Require Import ParasInherent.
Import Candidates.
Import (hints) Inclusion.

(** ** Subsets of the validators ([util.rs]) *)

Section Subsets.
Context {A : Type}.
Implicit Types (active : list ValidatorIndex) (all : list A).

Definition take_active_subset active all : list A := omap (λ i, all !! i) active.

Definition split_active_subset active all : list A * list A :=
  (take_active_subset active all,
   snd <$> filter (λ x, x.1 ∉ active) (imap (λ i v, (i, v)) all)).

Definition take_active_subset_and_inactive active all : list A :=
  let '(a, i) := split_active_subset active all in a ++ i.
End Subsets.

(** ** The shared pallet *)

Module Shared.
Section Pallet.
Context {ValidatorId R : Type} `{!Rng R}.

Record State := mkState {
  CurrentSessionIndex : SessionIndex;
  ActiveValidatorIndices : list ValidatorIndex;
  ActiveValidatorKeys : list ValidatorId;
}.

Definition empty_state : State := mkState 0 [] [].

Definition initializer_on_new_session (session_index : SessionIndex) (random_seed : Hash)
    (new_config : HostConfiguration) (all_validators : list ValidatorId) : State * list ValidatorId :=
  let '(_, shuffled_indices) := shuffle (from_seed random_seed) (seq 0 (length all_validators)) in
  let shuffled_indices := match max_validators new_config with
                          | Some max => take (Z.to_nat max) shuffled_indices
                          | None => shuffled_indices
                          end in
  let active_validator_keys := take_active_subset shuffled_indices all_validators in
  (mkState session_index shuffled_indices active_validator_keys, active_validator_keys).
End Pallet.
Arguments State _ : clear implicits.
End Shared.

(** [initializer::SessionChangeNotification] *)
Record SessionChangeNotification {ValidatorId : Type} := mkNotification {
  note_validators : list ValidatorId;
  note_queued : list ValidatorId;
  note_prev_config : HostConfiguration;
  note_new_config : HostConfiguration;
  note_random_seed : Hash;
  note_session_index : SessionIndex;
}.
Arguments SessionChangeNotification _ : clear implicits.
Arguments mkNotification {_}.

(** ** The session_info pallet *)

Module SessionInfo.
Section Pallet.
Context {ValidatorId AssignmentId DiscoveryId AccountId : Type}.

(** [primitives::v2::SessionInfo] *)
Record SessionInfo := mkInfo {
  active_validator_indices : list ValidatorIndex;
  random_seed : Hash;
  info_dispute_period : SessionIndex;
  validators : list ValidatorId;
  discovery_keys : list DiscoveryId;
  assignment_keys : list AssignmentId;
  validator_groups : list (list ValidatorIndex);
  n_cores : Z;
  info_zeroth_delay_tranche_width : Z;
  info_relay_vrf_modulo_samples : Z;
  info_n_delay_tranches : Z;
  info_no_show_slots : Z;
  info_needed_approvals : Z;
}.

Record State := mkState {
  AssignmentKeysUnsafe : list AssignmentId;
  EarliestStoredSession : SessionIndex;
  Sessions : gmap SessionIndex SessionInfo;
  AccountKeys : gmap SessionIndex (list AccountId);
}.

Definition empty_state : State := mkState [] 0 ∅ ∅.

(** [OneSessionHandler::on_new_session] *)
Definition on_new_session (keys : list AssignmentId) (s : State) : State :=
  mkState keys (EarliestStoredSession s) (Sessions s) (AccountKeys s).

Definition remove_session (s : State) (idx : SessionIndex) : State :=
  mkState (AssignmentKeysUnsafe s) (EarliestStoredSession s) (delete idx (Sessions s)) (delete idx (AccountKeys s)).

Definition set_earliest (e : SessionIndex) (s : State) : State :=
  mkState (AssignmentKeysUnsafe s) e (Sessions s) (AccountKeys s).

(** Old sessions leave the window, unless the pallet is new on the chain. *)
Definition move_window (dispute_period_ new_session_index : SessionIndex) (s : State) : State :=
  let old_earliest := EarliestStoredSession s in
  let new_earliest := Z.max (saturating_sub new_session_index dispute_period_) old_earliest in
  if decide (old_earliest ≠ 0 ∨ is_Some (Sessions s !! 0))
  then set_earliest new_earliest (foldl remove_session s (seqZ old_earliest (new_earliest - old_earliest)))
  else set_earliest new_session_index s.

(** [discovery] and [accounts] are the keys of all validators in the authority
    discovery and the session pallet. *)
Definition initializer_on_new_session (config : HostConfiguration) (active_set : list ValidatorIndex)
    (groups : list (list ValidatorIndex)) (cores : nat) (discovery : list DiscoveryId) (accounts : list AccountId)
    (notification : SessionChangeNotification ValidatorId) (s : State) : State :=
  let new_session_index := note_session_index notification in
  let s := move_window (dispute_period config) new_session_index s in
  let new_session_info :=
    mkInfo active_set (note_random_seed notification) (dispute_period config) (note_validators notification)
      (take_active_subset_and_inactive active_set discovery)
      (take_active_subset active_set (AssignmentKeysUnsafe s)) groups (wrap32 (Z.of_nat cores))
      (zeroth_delay_tranche_width config) (relay_vrf_modulo_samples config) (n_delay_tranches config)
      (no_show_slots config) (needed_approvals config) in
  mkState (AssignmentKeysUnsafe s) (EarliestStoredSession s) (insert new_session_index new_session_info (Sessions s))
    (insert new_session_index (take_active_subset active_set accounts) (AccountKeys s)).
End Pallet.
End SessionInfo.

(** ** The initializer *)

Module Initializer.
Section Pallet.
Context {CollatorId CollatorSignature ValidatorId ValidatorSignature AssignmentId DiscoveryId AccountId
    H R W B Header : Type}
  `{!EqDecision CollatorId}
  `{!Blake2 CollatorId CollatorSignature}
  `{!Signatures CollatorId CollatorSignature ValidatorId ValidatorSignature}
  `{!MessageHash H} `{!Ump.UmpSink W} `{!ReservableCurrency B} `{!WeightInfo} `{!Rng R}
  `{!StorageIter ParaId (Inclusion.CandidatePendingAvailability (CollatorId := CollatorId) (CollatorSignature := CollatorSignature))}
  `{!StorageIter (SessionIndex * CandidateHash) Disputes.DisputeState}
  (code_hash_of : ValidationCode → Hash) (first_message_factor_percent : Weight)
  (header_hash header_state_root : Header → Hash) (max_block : Weight).
#[local] Abbreviation World := (ParasInherent.World (CollatorId := CollatorId) (CollatorSignature := CollatorSignature)
  (ValidatorSignature := ValidatorSignature) (H := H) (D := Disputes.State) (W := W)).
#[local] Abbreviation Data := (ParasInherent.ParachainsInherentData (CollatorId := CollatorId)
  (CollatorSignature := CollatorSignature) (ValidatorSignature := ValidatorSignature) (Header := Header)).
#[local] Abbreviation Info := (SessionInfo.State (ValidatorId := ValidatorId) (AssignmentId := AssignmentId)
  (DiscoveryId := DiscoveryId) (AccountId := AccountId)).

Record BufferedSessionChange := mkBuffered {
  buffered_validators : list ValidatorId;
  buffered_queued : list ValidatorId;
  buffered_session_index : SessionIndex;
}.

(** The storages of the pallets, with the number of the block. *)
Record Chain := mkChain {
  number : BlockNumber;
  configuration : Configuration.State;
  shared : Shared.State ValidatorId;
  world : World;
  session_info : Info;
  currency : B;
  HasInitialized : bool;
  BufferedSessionChanges : list BufferedSessionChange;
  ForceApproved : list BlockNumber;
}.

Definition set_world x (c : Chain) : Chain :=
  mkChain (number c) (configuration c) (shared c) x (session_info c) (currency c) (HasInitialized c)
    (BufferedSessionChanges c) (ForceApproved c).
Definition set_configuration x (c : Chain) : Chain :=
  mkChain (number c) x (shared c) (world c) (session_info c) (currency c) (HasInitialized c)
    (BufferedSessionChanges c) (ForceApproved c).
Definition set_buffered x (c : Chain) : Chain :=
  mkChain (number c) (configuration c) (shared c) (world c) (session_info c) (currency c) (HasInitialized c)
    x (ForceApproved c).
Definition set_initialized x (c : Chain) : Chain :=
  mkChain (number c) (configuration c) (shared c) (world c) (session_info c) (currency c) x
    (BufferedSessionChanges c) (ForceApproved c).

(** What the pallets read of each other. *)
Definition env_of (c : Chain) : ParasPallet.Env ValidatorId :=
  ParasPallet.mkEnv (number c) (Shared.CurrentSessionIndex (shared c)) (Shared.ActiveValidatorKeys (shared c))
    (Configuration.ActiveConfig (configuration c)).
Definition known_validators (s : Info) (session : SessionIndex) : option (list ValidatorId) :=
  SessionInfo.validators <$> SessionInfo.Sessions s !! session.

(** ** A block *)

Definition on_initialize (now : BlockNumber) (c : Chain) : Chain :=
  let c := mkChain now (configuration c) (shared c) (world c) (session_info c) (currency c) (HasInitialized c)
             (BufferedSessionChanges c) (ForceApproved c) in
  let w := world c in
  let rl := Inclusion.on_paras (ParasPallet.initializer_initialize (env_of c) now) (ParasInherent.relay w) in
  let d := Disputes.initializer_initialize (Configuration.ActiveConfig (configuration c)) now (ParasInherent.disputes w) in
  set_initialized true (set_world (ParasInherent.set_disputes d (ParasInherent.set_relay rl w)) c).

(** [random_hash] is what the randomness beacon gives for the subject
    [b"paras"]. *)
Definition apply_new_session (random_hash : Hash) (discovery : list DiscoveryId) (accounts : list AccountId)
    (session : SessionIndex) (all_validators queued : list ValidatorId) (c : Chain) : option Chain :=
  let '(cs, outcome) := Configuration.initializer_on_new_session session (configuration c) in
  let prev_config := Configuration.prev_config outcome in
  let new_config := default prev_config (Configuration.new_config outcome) in
  let '(sh, validators) := Shared.initializer_on_new_session session random_hash new_config all_validators in
  let notification := mkNotification validators queued prev_config new_config random_hash session in
  let config := Configuration.ActiveConfig cs in
  let env := ParasPallet.mkEnv (number c) session validators config in
  let w := world c in
  let rl := ParasInherent.relay w in
  let '(outgoing_paras, p) :=
    ParasPallet.initializer_on_new_session code_hash_of env session new_config validators (Inclusion.paras rl) in
  let sch := Scheduler.initializer_on_new_session config (ParasPallet.ParaLifecycles p) (ParasPallet.Parachains p)
               (length validators) (number c) (ParasInherent.scheduler w) in
  let incl := Inclusion.initializer_on_new_session (Inclusion.inclusion rl) in
  let info := SessionInfo.initializer_on_new_session config (Shared.ActiveValidatorIndices sh)
                (Scheduler.ValidatorGroups sch) (length (Scheduler.AvailabilityCores sch)) discovery accounts
                notification (session_info c) in
  let d := Disputes.initializer_on_new_session config session (ParasInherent.disputes w) in
  let dm := Dmp.initializer_on_new_session outgoing_paras (Inclusion.dmp rl) in
  let um := Ump.initializer_on_new_session outgoing_paras (Inclusion.ump rl) in
  h ← Hrmp.initializer_on_new_session prev_config (ParasPallet.ParaLifecycles p) outgoing_paras
        (Hrmp.mkWorld (Inclusion.hrmp rl) dm (currency c));
  let rl := Inclusion.mkWorld incl p (Hrmp.dmp h) um (Hrmp.hrmp h) (Inclusion.rewards rl) in
  let w := ParasInherent.mkWorld rl sch d (ParasInherent.chain w) (ParasInherent.Included w)
             (ParasInherent.OnChainVotes w) in
  Some (mkChain (number c) cs sh w info (Hrmp.currency h) (HasInitialized c) (BufferedSessionChanges c)
          (ForceApproved c)).

(** Only the last of the buffered changes is applied. *)
Definition on_finalize (random_hash : Hash) (discovery : list DiscoveryId) (accounts : list AccountId) (c : Chain) :
    option Chain :=
  let w := world c in
  let rl := Inclusion.on_paras (ParasPallet.initializer_finalize (number c)) (ParasInherent.relay w) in
  let c := set_world (ParasInherent.set_relay rl w) c in
  let last_change := last (BufferedSessionChanges c) in
  let c := set_buffered [] c in
  c ← match last_change with
      | Some change =>
          apply_new_session random_hash discovery accounts (buffered_session_index change)
            (buffered_validators change) (buffered_queued change) c
      | None => Some c
      end;
  Some (set_initialized false c).

(** ** Session handling *)

(** [validators] and [queued] are the keys the session pallet passes on. *)
Definition on_new_session (random_hash : Hash) (discovery : list DiscoveryId) (accounts : list AccountId)
    (session : SessionIndex) (validators : list ValidatorId) (queued : option (list ValidatorId)) (c : Chain) :
    option Chain :=
  let queued := default validators queued in
  if decide (session = 0) then apply_new_session random_hash discovery accounts 0 validators queued c
  else Some (set_buffered (BufferedSessionChanges c ++ [mkBuffered validators queued session]) c).

(** The only call; [ensure_force] is the origin check the runtime configures. *)
Definition force_approve {O : Type} (ensure_force : O → option unit) (origin : O) (up_to : BlockNumber) :
    Dispatch Chain Empty_set :=
  _ ← or_bad_origin (ensure_force origin);
  modify (λ c, mkChain (number c) (configuration c) (shared c) (world c) (session_info c) (currency c)
                 (HasInitialized c) (BufferedSessionChanges c) (ForceApproved c ++ [up_to])).

(** ** The inherent of a block *)

(** The disputes pallet reads the validators of past sessions from [session_info]. *)
Definition enter {O A : Type} `{!FrameOrigin O A} (origin : O) (parent_hash : Hash) (vrf_random : option Hash)
    (data : Data) (c : Chain) : option (Chain * result ParasInherent.EnterError Weight) :=
  '(w, r) ← ParasInherent.enter (disputes_handler := Disputes.pallet_handler (known_validators (session_info c)))
              code_hash_of first_message_factor_percent header_hash header_state_root max_block
              origin (env_of c) parent_hash vrf_random data (world c);
  Some (set_world w c, r).

(** A block with the inherent and no other transaction. *)
Definition execute_block {O A : Type} `{!FrameOrigin O A} (origin : O) (now : BlockNumber) (parent_hash : Hash)
    (vrf_random : option Hash) (data : Data) (random_hash : Hash) (discovery : list DiscoveryId)
    (accounts : list AccountId) (c : Chain) : option (Chain * result ParasInherent.EnterError Weight) :=
  '(c, r) ← enter origin parent_hash vrf_random data (on_initialize now c);
  w ← ParasInherent.on_finalize (world c);
  c ← on_finalize random_hash discovery accounts (set_world w c);
  Some (c, r).
End Pallet.
End Initializer.
