(* ===== verification/ParasSudoWrapper.v ===== *)
(** * Root calls over the paras, channels and downward messages

    [paras_sudo_wrapper.rs]: the calls with which root registers, removes,
    upgrades and downgrades paras, queues a downward message and establishes a
    channel, past the deposits and checks of other pallets. *)

From S2P Require Import Prelude.
From S2P Require Import Codec.
From S2P Require Import XcmTypes.
From S2P Require Import Frame.
From S2P Require Import Configuration.
From S2P Require Import Paras.
From S2P Require Import ParasPallet.
From S2P Require Import Dmp.
From S2P Require Import Hrmp.
From S2P Require Import HrmpRequests.

Module ParasSudoWrapper.

(** The errors of the channels pallet pass through. *)
Inductive Error :=
| ParaDoesntExist | ParaAlreadyExists | ExceedsMaxMessageSize | CouldntCleanup | NotParathread | NotParachain
| CannotUpgrade | CannotDowngrade | HrmpError (e : DispatchError Hrmp.Error).

Inductive Call :=
| sudo_schedule_para_initialize (id : ParaId) (genesis : ParasPallet.ParaGenesisArgs)
| sudo_schedule_para_cleanup (id : ParaId)
| sudo_schedule_parathread_upgrade (id : ParaId)
| sudo_schedule_parachain_downgrade (id : ParaId)
| sudo_queue_downward_xcm (id : ParaId) (xcm : list byte)
| sudo_establish_hrmp_channel (sender_ recipient_ : ParaId) (max_capacity_ max_message_size_ : Z).

Section Pallet.
Context {H B V O A : Type} `{!MessageHash H} `{!ReservableCurrency B} `{!FrameOrigin O A}
  (code_hash_of : ParasPallet.ValidationCode → ParasPallet.Hash) (encode_xcm : Xcm → list byte).

(** The storage the calls work on. *)
Record World := mkWorld { paras : ParasPallet.State; channels : Hrmp.World (H := H) (B := B) }.

Definition on_paras (m : Dispatch ParasPallet.State ParasPallet.Error) (e : Error) : Dispatch World Error := λ w,
  let '(p, r) := m (paras w) in
  (mkWorld p (channels w), match r with Ok _ => Ok tt | Err _ => Err (Module e) end).

Definition on_channels (m : Dispatch (Hrmp.World (H := H) (B := B)) Hrmp.Error) : Dispatch World Error := λ w,
  let '(h, r) := m (channels w) in
  (mkWorld (paras w) h, match r with Ok _ => Ok tt | Err e => Err (Module (HrmpError e)) end).

Definition lifecycle (id : ParaId) (w : World) : option ParaLifecycle := ParasPallet.ParaLifecycles (paras w) !! id.

(** A message that is queued, with the one error of the queue. *)
Definition queue_downward (env : ParasPallet.Env V) (id : ParaId) (m : list byte) : Dispatch World Error := λ w,
  let h := channels w in
  let '(d, r) := Dmp.queue_downward_message (ParasPallet.config env) id m (ParasPallet.block_number env) (Hrmp.dmp h) in
  (mkWorld (paras w) (Hrmp.mkWorld (Hrmp.hrmp h) d (Hrmp.currency h)),
   match r with Ok _ => Ok tt | Err Dmp.ExceedsMaxMessageSize => Err (Module ExceedsMaxMessageSize) end).

Definition dispatch (env : ParasPallet.Env V) (origin : O) (call : Call) : Dispatch World Error :=
  _ ← or_bad_origin (ensure_root origin);
  match call with
  | sudo_schedule_para_initialize id genesis =>
      on_paras (ParasPallet.schedule_para_initialize code_hash_of env id genesis) ParaAlreadyExists
  | sudo_schedule_para_cleanup id => on_paras (ParasPallet.schedule_para_cleanup env id) CouldntCleanup
  | sudo_schedule_parathread_upgrade id =>
      w ← get;
      ensure (bool_decide (lifecycle id w = Some Parathread)) (Module NotParathread) ;;
      on_paras (ParasPallet.schedule_parathread_upgrade env id) CannotUpgrade
  | sudo_schedule_parachain_downgrade id =>
      w ← get;
      ensure (bool_decide (lifecycle id w = Some ParachainLife)) (Module NotParachain) ;;
      on_paras (ParasPallet.schedule_parachain_downgrade env id) CannotDowngrade
  | sudo_queue_downward_xcm id xcm =>
      w ← get;
      ensure (Paras.is_valid_para id (ParasPallet.ParaLifecycles (paras w))) (Module ParaDoesntExist) ;;
      queue_downward env id xcm
  | sudo_establish_hrmp_channel sender_ recipient_ cap size =>
      w ← get;
      let lifecycles := ParasPallet.ParaLifecycles (paras w) in
      on_channels (Hrmp.init_open_channel encode_xcm (ParasPallet.config env) lifecycles
                     (ParasPallet.block_number env) sender_ recipient_ cap size) ;;
      on_channels (Hrmp.accept_open_channel encode_xcm (ParasPallet.config env) lifecycles
                     (ParasPallet.block_number env) recipient_ sender_)
  end.

(** ** What the calls keep *)

(** The active parachains only change with the session, and channels and
    requests stay well-formed. *)
Definition keeps (w w' : World) : Prop :=
  ParasPallet.Parachains (paras w') = ParasPallet.Parachains (paras w) ∧
  (Hrmp.channels_ok (Hrmp.hrmp (channels w)) → Hrmp.channels_ok (Hrmp.hrmp (channels w'))) ∧
  (HrmpRequests.requests_ok (Hrmp.hrmp (channels w)) → HrmpRequests.requests_ok (Hrmp.hrmp (channels w'))).

#[local] Instance keeps_preorder : PreOrder keeps.
Proof. split; [by intros w|]. intros w1 w2 w3 (A1 & A2 & A3) (B1 & B2 & B3). split_and!; [congruence|auto..]. Qed.

Lemma sudo_paras_keeps m e w :
  ParasPallet.Parachains (m (paras w)).1 = ParasPallet.Parachains (paras w) → keeps w (on_paras m e w).1.
Proof. unfold on_paras. destruct (m (paras w)) as [p r]. by split. Qed.

Lemma sudo_channels_keeps m w :
  (Hrmp.channels_ok (Hrmp.hrmp (channels w)) → Hrmp.channels_ok (Hrmp.hrmp (m (channels w)).1)) →
  (HrmpRequests.requests_ok (Hrmp.hrmp (channels w)) → HrmpRequests.requests_ok (Hrmp.hrmp (m (channels w)).1)) →
  keeps w (on_channels m w).1.
Proof. unfold on_channels. destruct (m (channels w)) as [p r]. by split. Qed.

Lemma sudo_keeps_bind {X} (m : M World (DispatchError Error) X) (f : X → Dispatch World Error) w :
  keeps w (m w).1 → (∀ x w', keeps w' (f x w').1) → keeps w ((m ≫= f) w).1.
Proof.
  intros Hm Hf. unfold mbind, M_bind. destruct (m w) as [w' [x|e]]; [|done]. by etrans; [|apply Hf].
Qed.

Lemma dispatch_keeps env origin call w : keeps w (dispatch env origin call w).1.
Proof.
  unfold dispatch. apply sudo_keeps_bind; [done|]. intros _. clear w. intros w.
  destruct call as [id g|id|id|id|id m|s r cap size].
  - apply sudo_paras_keeps. unfold ParasPallet.schedule_para_initialize. unfold_dispatch.
    by repeat (case_match; simplify_eq/=).
  - apply sudo_paras_keeps. unfold ParasPallet.schedule_para_cleanup. unfold_dispatch. by repeat (case_match; simplify_eq/=).
  - apply sudo_keeps_bind; [done|]. intros w1 w2. apply sudo_keeps_bind; [by unfold ensure; destruct (bool_decide _)|].
    intros _ w3. apply sudo_paras_keeps.
    unfold ParasPallet.schedule_parathread_upgrade. unfold_dispatch. by repeat (case_match; simplify_eq/=).
  - apply sudo_keeps_bind; [done|]. intros w1 w2. apply sudo_keeps_bind; [by unfold ensure; destruct (bool_decide _)|].
    intros _ w3. apply sudo_paras_keeps.
    unfold ParasPallet.schedule_parachain_downgrade. unfold_dispatch. by repeat (case_match; simplify_eq/=).
  - apply sudo_keeps_bind; [done|]. intros w1 w2. apply sudo_keeps_bind; [by unfold ensure; destruct (Paras.is_valid_para _ _)|].
    intros _ w3. unfold queue_downward. by destruct (Dmp.queue_downward_message _ _ _ _ _) as [d [|[]]].
  - apply sudo_keeps_bind; [done|]. intros w1 w2. apply sudo_keeps_bind; [|intros _ w3]; apply sudo_channels_keeps.
    + apply Hrmp.channels_ok_init.
    + apply HrmpRequests.requests_ok_init.
    + apply Hrmp.channels_ok_accept.
    + apply HrmpRequests.requests_ok_accept.
Qed.

(** Establishing a channel leaves a confirmed request for it. *)
Lemma established_confirmed env origin s r cap size w w' :
  dispatch env origin (sudo_establish_hrmp_channel s r cap size) w = (w', Ok tt) →
  ∃ req, Hrmp.HrmpOpenChannelRequests (Hrmp.hrmp (channels w')) !! Hrmp.mkChannelId s r = Some req ∧
    Hrmp.confirmed req = true.
Proof.
  unfold dispatch, on_channels. unfold_dispatch. destruct (ensure_root origin); [|done].
  destruct (Hrmp.init_open_channel _ _ _ _ _ _ _ _ _) as [h [?|?]]; [|done]. cbn [channels].
  unfold Hrmp.accept_open_channel, Hrmp.reserve_deposit, Hrmp.notify. unfold_dispatch.
  intros Hrun. repeat (case_match; cbn in *; simplify_eq); eexists; (split; [apply lookup_insert_eq|done]).
Qed.
End Pallet.
End ParasSudoWrapper.
