(* ===== verification/RelayChain.v ===== *)
(** * The relay chain from block to block

    Theorems about the pallets together, on the [Chain] of the initializer: its
    invariant under every hook, inherent and call, the keys of a session, and
    that the next block can always be produced. *)

From S2P Require Import Prelude.
From S2P Require Import Vectors.
From S2P Require Import Codec.
From S2P Require Import XcmTypes.
From S2P Require Import Frame.
From S2P Require Import Configuration.
From S2P Require Import Paras.
From S2P Require Import Dmp.
From S2P Require Import Ump.
From S2P Require Import Hrmp.
From S2P Require Import HrmpRequests.
From S2P Require Import Scheduler.
From S2P Require Import ParasPallet.
From S2P Require Import ParasInvariant.
From S2P Require Import Candidates.
From S2P Require Import Disputes.
From S2P Require Import DisputesVotes.
From S2P Require Import DisputesTheorems.
From S2P Require Import Inclusion.
From S2P Require Import InclusionBacking.
From S2P Require Import InherentData.
From S2P Require Import InclusionAvailability.
From S2P Require Import InclusionMessages.
From S2P Require Import ParasInherent.
From S2P Require Import InherentSelection.
From S2P Require Import Initializer.
From S2P Require Import ParasSudoWrapper.
Import Candidates.
Import (hints) Inclusion.

Module RelayChain.

(** ** The scheduler without claims of parathreads

    No call of the runtime adds a claim, so cores only ever work for
    parachains. *)

Section Threadless.
Import Scheduler.
Context {CollatorId : Type}.
#[local] Abbreviation State := (Scheduler.State (CollatorId := CollatorId)).
Implicit Types (s : State) (parachains : list ParaId) (config : HostConfiguration).

Record threadless (n : nat) (s : State) : Prop := {
  tl_queue : queue (ParathreadQueue s) = [];
  tl_scheduled a : a ∈ Scheduled s → kind a = KindParachain;
  tl_cores i o : AvailabilityCores s !! i = Some (Some o) → o = OccupiedParachain ∧ (i < n)%nat;
}.

(** Nothing but cores and schedule changes within a session. *)
Record same_groups (s s' : State) : Prop := {
  sg_groups : ValidatorGroups s' = ValidatorGroups s;
  sg_start : SessionStartBlock s' = SessionStartBlock s;
  sg_cores : length (AvailabilityCores s') = length (AvailabilityCores s);
}.

#[export] Instance same_groups_trans : Transitive same_groups.
Proof. intros s1 s2 s3 [? ? ?] [? ? ?]. split; congruence. Qed.

Lemma free_cores_threadless config freed n s :
  threadless n s → ∃ s', free_cores config freed s = Some s' ∧ threadless n s' ∧ same_groups s s' ∧
    Scheduled s' = Scheduled s.
Proof.
  revert s. induction freed as [|[i r] freed IH]; intros s Hs; cbn [free_cores]; [by exists s|].
  assert (∃ s1, free_core config s (i, r) = Some s1 ∧ threadless n s1 ∧ same_groups s s1 ∧ Scheduled s1 = Scheduled s)
    as (s1 & -> & Hs1 & G1 & E1).
  { unfold free_core. cbn. destruct (AvailabilityCores s !! i) as [[o|]|] eqn:Ei; [|by exists s..].
    destruct (tl_cores _ _ Hs _ _ Ei) as [-> _]. eexists. split; [done|]. destruct Hs as [H1 H2 H3]. split_and!; [split|split|]; cbn; try done.
    - intros j o [(_ & ? & _)|[_ Hj]]%list_lookup_insert_Some; [done|by apply H3].
    - by rewrite length_insert. }
  cbn. destruct (IH s1 Hs1) as (s2 & -> & Hs2 & G2 & E2). exists s2. split_and!; [done..|by etransitivity|congruence].
Qed.

Lemma clear_threadless config paras n s :
  threadless n s → ∃ s', clear config paras s = Some s' ∧ threadless n s' ∧ same_groups s s' ∧ Scheduled s' = [].
Proof.
  intros [H1 H2 H3]. unfold clear.
  assert (requeue config paras (Scheduled s) (ParathreadQueue s) = Some (ParathreadQueue s)) as ->.
  { induction (Scheduled s) as [|a l IH]; cbn; [done|]. rewrite H2 by left. apply IH. intros b Hb. apply H2. by right. }
  eexists. split; [done|]. split_and!; [split; cbn; [done|by intros a ?%elem_of_nil|done]|done|done].
Qed.

Lemma schedule_threadless config parachains freed now s :
  threadless (length parachains) s → shape_ok s → Scheduled s = [] → SessionStartBlock s ≤ now →
  group_rotation_frequency config ≠ 0 →
  ∃ s', schedule config parachains freed now s = Some s' ∧ threadless (length parachains) s' ∧ same_groups s s' ∧
    (∀ a, a ∈ Scheduled s' → (core a < length parachains)%nat) ∧ StronglySorted lt (core <$> Scheduled s').
Proof.
  intros Hs Hshape Hnil Hnow Hf. unfold schedule.
  destruct (free_cores_threadless config freed _ s Hs) as (s1 & -> & Hs1 & G1 & E1). cbn.
  destruct (ValidatorGroups s1) as [|g gs] eqn:Eg.
  { exists s1. rewrite E1, Hnil. split_and!; [done..| |constructor]. intros a. by intros ?%elem_of_nil. }
  rewrite Hnil in E1.
  assert (∀ c, c ∈ free_indices (AvailabilityCores s1) → (c < length (ValidatorGroups s1))%nat) as Hfree.
  { intros c Hc%elem_of_free_indices. unfold is_free in Hc. destruct (AvailabilityCores s1 !! c) eqn:Ec; [|done].
    apply lookup_lt_Some in Ec. destruct G1 as [G1 _ G3]. destruct Hshape as [E|?]; [congruence|]. rewrite G1. lia. }
  destruct (sweep_spec config parachains now s1 (free_indices (AvailabilityCores s1)) 0 (ParathreadQueue s1)) as
    (q' & ups & Hrun & Hgood & Hups & _ & Hq' & _);
    [rewrite E1; constructor|apply free_indices_sorted|by intros c x _ ?%elem_of_nil|lia|by rewrite (sg_start _ _ G1)|done|done|].
  rewrite drop_0 in Hrun. rewrite Hrun. cbn.
  destruct (insert_updates_spec (Scheduled s1) ups 0 0 []) as (L' & Hins & HL' & Hperm);
    [rewrite E1; constructor|done|done|lia|rewrite E1; constructor|by intros x u ?%elem_of_nil|].
  cbn in Hins. rewrite drop_0 in Hins, Hperm. rewrite Hins. cbn in Hperm |- *. rewrite E1, app_nil_r in Hperm.
  assert (∀ a, a ∈ L' → kind a = KindParachain ∧ (core a < length parachains)%nat) as HL.
  { intros a. rewrite Hperm, Hups. intros (_ & _ & Hdue). unfold due in Hdue.
    destruct (group_assigned_to_core _ _ _ _) as [[g'|]|]; cbn in Hdue; [|done..].
    destruct (parachains !! core a) as [p|] eqn:Ep.
    - apply lookup_lt_Some in Ep. injection Hdue as Ha. rewrite <-Ha. by cbn.
    - rewrite get_next_spec, (tl_queue _ _ Hs1) in Hdue. by cbn in Hdue. }
  eexists. split; [done|]. destruct Hs1 as [H1 H2 H3]. split_and!; [split|by destruct G1; split| |]; cbn.
  - destruct (queue q') as [|x l] eqn:Eq; [done|]. specialize (Hq' x). rewrite H1 in Hq'.
    exfalso. apply (not_elem_of_nil x), Hq'. left.
  - apply HL.
  - done.
  - apply HL.
  - done.
Qed.

Lemma occupy_threadless n occ l (cores : list (option (CoreOccupied (CollatorId := CollatorId)))) l' cores' :
  (∀ a, a ∈ l → kind a = KindParachain ∧ (core a < n)%nat) →
  (∀ i o, cores !! i = Some (Some o) → o = OccupiedParachain ∧ (i < n)%nat) →
  occupy occ l cores = Some (l', cores') →
  (∀ a, a ∈ l' → a ∈ l) ∧ (∀ i o, cores' !! i = Some (Some o) → o = OccupiedParachain ∧ (i < n)%nat) ∧
  length cores' = length cores.
Proof.
  revert occ cores l' cores'. induction l as [|a l IH]; intros occ cores l' cores' Hl Hc; cbn; [by intros [= <- <-]|].
  assert (∀ b, b ∈ l → kind b = KindParachain ∧ (core b < n)%nat) as Hl' by (intros b Hb; apply Hl; by right).
  assert (∀ occ, ('(l0, cores0) ← occupy occ l cores; Some (a :: l0, cores0)) = Some (l', cores') →
    (∀ b, b ∈ l' → b ∈ a :: l) ∧ (∀ i o, cores' !! i = Some (Some o) → o = OccupiedParachain ∧ (i < n)%nat) ∧
    length cores' = length cores) as Hkeep.
  { intros occ'. destruct (occupy occ' l cores) as [[l0 c0]|] eqn:E; cbn; [|done]. intros [= <- <-].
    destruct (IH _ _ _ _ Hl' Hc E) as (H1 & H2 & H3). split_and!; [|done..].
    intros b [->|Hb]%elem_of_cons; [left|right; by apply H1]. }
  destruct occ as [|o occ]; [apply Hkeep|]. case_decide as Ho; [|apply Hkeep]. case_decide as Hlt; [|done].
  destruct (Hl a) as [Hk Hn]; [left|]. intros E. apply IH in E as (H1 & H2 & H3); [|done|].
  - split_and!; [intros b Hb; right; by apply H1|done|]. by rewrite H3, length_insert.
  - intros i x [(<- & [= <-] & _)|[_ Hi]]%list_lookup_insert_Some; [|by apply Hc]. unfold to_core_occupied. by rewrite Hk.
Qed.

Lemma occupied_threadless occ n s s' :
  threadless n s → (∀ a, a ∈ Scheduled s → (core a < n)%nat) → occupied occ s = Some s' →
  threadless n s' ∧ same_groups s s'.
Proof.
  intros [H1 H2 H3] Hl. unfold occupied. destruct occ as [|o occ]; [by intros [= <-]|].
  destruct (occupy _ _ _) as [[l cores]|] eqn:E; cbn; [|done]. intros [= <-].
  apply (occupy_threadless n) in E as (E1 & E2 & E3); [|naive_solver|done].
  split; [split|split]; cbn; [done| |done..]. intros a Ha. by apply H2, E1.
Qed.

Lemma session_threadless config paras parachains nv bn n n' s :
  threadless n s → threadless n' (initializer_on_new_session config paras parachains nv bn s).
Proof.
  intros [H1 H2 H3]. unfold initializer_on_new_session. set (k := Z.to_nat _). cbn zeta.
  assert (occupied_claims (AvailabilityCores s) = []) as Hocc.
  { unfold occupied_claims. apply elem_of_nil_inv. intros e (o & Ho & He)%list_elem_of_omap.
    destruct o as [o|]; [|done]. apply list_elem_of_lookup in Ho as [i Hi]. by destruct (H3 _ _ Hi) as [-> _]. }
  assert (Forall (λ x, x = None) (resize k None ((λ _, None) <$> AvailabilityCores s) : list (option (CoreOccupied (CollatorId := CollatorId)))))
    as Hno.
  { apply Forall_resize; [done|]. by apply Forall_fmap, Forall_true. }
  rewrite Hocc, H1. cbn. case_decide; split; cbn; try done; intros i o Hi; discriminate (Forall_lookup_1 _ _ _ _ Hno Hi).
Qed.
End Threadless.

(** ** The list of parachains

    It changes with the session only. *)

Lemma foldl_keeps_field {S A X} (f : S → X) (g : S → A → S) (l : list A) s :
  (∀ s x, f (g s x) = f s) → f (foldl g s l) = f s.
Proof. intros Hg. revert s. induction l as [|x l IH]; intros s; cbn; [done|]. by rewrite IH. Qed.

Section ParachainsList.
Import ParasPallet.
Context {ValidatorId Signature O A : Type} `{!FrameOrigin O A} (code_hash_of : ValidationCode → Hash)
  (verify : Signature → list byte → ValidatorId → bool).
Implicit Types (env : Env ValidatorId) (s : State).

Lemma increase_parachains h code s : Parachains (increase_code_ref h code s) = Parachains s.
Proof. unfold increase_code_ref. by case_decide. Qed.

Lemma decrease_parachains h s : Parachains (decrease_code_ref h s) = Parachains s.
Proof. unfold decrease_code_ref. by repeat case_decide. Qed.

Lemma accepted_parachains env now h cs n cfg s : Parachains (enact_pvf_accepted env now h cs n cfg s) = Parachains s.
Proof. apply foldl_keeps_field. by intros s' []. Qed.

Lemma rejected_parachains h cs s : Parachains (enact_pvf_rejected h cs s) = Parachains s.
Proof. apply foldl_keeps_field. intros s' c. unfold reject_cause. by destruct c; cbn; rewrite decrease_parachains. Qed.

Lemma kick_off_parachains env cause h code cfg s : Parachains (kick_off_pvf_check env cause h code cfg s) = Parachains s.
Proof.
  unfold kick_off_pvf_check. rewrite increase_parachains. cbn [deposit_event PvfActiveVoteMap].
  repeat case_match; [done|by rewrite accepted_parachains|done].
Qed.

Lemma code_upgrade_parachains env id code rp cfg s :
  Parachains (schedule_code_upgrade code_hash_of env id code rp cfg s) = Parachains s.
Proof. unfold schedule_code_upgrade. repeat case_match; [done..|]. by rewrite kick_off_parachains. Qed.

Lemma new_head_parachains env id head ctx s : Parachains (note_new_head env id head ctx s) = Parachains s.
Proof. unfold note_new_head, note_past_code. by repeat case_match. Qed.

Lemma initialize_parachains env now s : Parachains (initializer_initialize env now s) = Parachains s.
Proof.
  unfold initializer_initialize, process_scheduled_upgrade_changes, prune_old_code. cbn.
  rewrite foldl_keeps_field by done. case_decide; [done|]. cbn. apply foldl_keeps_field. intros s' id.
  unfold prune_para. destruct (prune_up_to _ _) as [pruned meta]. case_match; cbn; apply foldl_keeps_field;
    intros s'' at_; unfold prune_entry; case_match; by rewrite ?decrease_parachains.
Qed.

Lemma finalize_parachains now s : Parachains (initializer_finalize now s) = Parachains s.
Proof. unfold initializer_finalize, process_scheduled_upgrade_cooldowns. by apply foldl_keeps_field. Qed.

Lemma dispatch_parachains env origin call s :
  Parachains (dispatch code_hash_of verify env origin call s).1 = Parachains s.
Proof.
  destruct call; unfold dispatch, include_pvf_check_statement, set_current_code, note_past_code, add_trusted;
    unfold_dispatch;
    repeat (case_match; cbn -[enact_pvf_accepted enact_pvf_rejected schedule_code_upgrade note_new_head
      increase_code_ref signing_payload] in *; simplify_eq); try done;
    by rewrite ?code_upgrade_parachains, ?new_head_parachains, ?accepted_parachains, ?rejected_parachains,
      ?increase_parachains.
Qed.
End ParachainsList.

(** ** The pallets the inherent goes through *)

Section Linked.
Context {CollatorId CollatorSignature ValidatorId ValidatorSignature H : Type}
  `{!EqDecision CollatorId} `{!Blake2 CollatorId CollatorSignature}
  `{!Signatures CollatorId CollatorSignature ValidatorId ValidatorSignature} `{!MessageHash H}
  `{!StorageIter ParaId (Inclusion.CandidatePendingAvailability (CollatorId := CollatorId) (CollatorSignature := CollatorSignature))}
  (code_hash_of : ValidationCode → Hash).
Import Inclusion.
#[local] Abbreviation World := (Inclusion.World (CollatorId := CollatorId) (CollatorSignature := CollatorSignature) (H := H)).
Implicit Types (w : World) (env : ParasPallet.Env ValidatorId).

(** Parachains stay as they are, and the channels in order. *)
Record linked w w' : Prop := {
  li_parachains : ParasPallet.Parachains (paras w') = ParasPallet.Parachains (paras w);
  li_channels : Hrmp.channels_ok (hrmp w) → Hrmp.channels_ok (hrmp w');
  li_requests : HrmpRequests.requests_ok (hrmp w) → HrmpRequests.requests_ok (hrmp w');
}.

#[export] Instance linked_preorder : PreOrder linked.
Proof. split; [done|]. intros w1 w2 w3 [] []. split; [congruence|auto..]. Qed.

Lemma linked_same w w' : paras w' = paras w → hrmp w' = hrmp w → linked w w'.
Proof. intros E1 E2. split; by rewrite ?E1, ?E2. Qed.

Lemma foldl_linked {X} (g : World → X → World) (l : list X) w : (∀ w x, linked w (g w x)) → linked w (foldl g w l).
Proof. intros Hg. revert w. induction l as [|x l IH]; intros w; cbn; [done|]. etransitivity; [apply Hg|apply IH]. Qed.

Lemma enact_linked env rp c b v i g w : linked w (enact_candidate code_hash_of env rp c b v i g w).
Proof.
  unfold enact_candidate. split.
  - destruct (new_validation_code _); cbn; by rewrite new_head_parachains, ?code_upgrade_parachains.
  - intros Hw. destruct (new_validation_code _); cbn; by apply Hrmp.channels_ok_queue, Hrmp.channels_ok_prune.
  - intros Hw. destruct (new_validation_code _); cbn;
      (eapply HrmpRequests.requests_ok_same; [apply HrmpRequests.queue_requests|]);
      by (eapply HrmpRequests.requests_ok_same; [apply HrmpRequests.prune_requests|]).
Qed.

Lemma conclude_linked env enact n acc x : linked acc.2 (conclude code_hash_of env enact n acc x).2.
Proof.
  destruct acc as [freed w], x as [p c]. unfold conclude. case_decide; [|by apply linked_same].
  cbn -[enact_candidate]. destruct (_ !! p) as [cm|]; [|by apply linked_same]. destruct enact; [|by apply linked_same].
  cbn [snd]. etransitivity; [|apply enact_linked]. by apply linked_same.
Qed.

Lemma update_linked env bits (validators : list ValidatorId) (bfs : list (UncheckedSigned ValidatorSignature)) lookup enact w freed w' :
  update_pending_availability_and_get_freed_cores code_hash_of env bits validators bfs lookup enact w = Some (freed, w') →
  linked w w'.
Proof.
  unfold update_pending_availability_and_get_freed_cores. set (n := availability_threshold _).
  destruct (load_slots _ _ _) as [slots|]; cbn [mbind option_bind]; [|done].
  destruct (try_fold _ _ _) as [[slots' s]|]; cbn [mbind option_bind]; [|done]. intros E.
  assert (∀ l acc, linked acc.2 (foldl (conclude code_hash_of env enact n) acc l).2) as Hl.
  { induction l as [|x l IH]; intros acc; cbn -[conclude]; [done|]. etransitivity; [apply (conclude_linked env enact n acc x)|apply IH]. }
  injection E as E. specialize (Hl (waiting slots') ([], on_inclusion (λ _, s) w)). rewrite E in Hl. cbn in Hl.
  etransitivity; [|exact Hl]. by apply linked_same.
Qed.

Lemma drop_linked announce w p : linked w (drop_pending announce w p).
Proof. unfold drop_pending. cbn. by repeat case_match; apply linked_same. Qed.

Lemma collect_pending_linked pred w : linked w (collect_pending pred w).2.
Proof. apply foldl_linked, drop_linked. Qed.

Lemma collect_disputed_linked disputed w : linked w (collect_disputed disputed w).2.
Proof. apply foldl_linked, drop_linked. Qed.

Lemma process_candidates_linked env ph root (candidates : list (BackedCandidate CollatorId CollatorSignature ValidatorSignature))
    scheduled gv w r w' :
  process_candidates env ph root candidates scheduled gv w = Some (r, w') → linked w w'.
Proof.
  unfold process_candidates. repeat (case_decide; [by intros [= <- <-]|]).
  destruct (check_candidates _ _ _ _ _ _ _ _) as [[acc|[|e]]|]; cbn; [|by intros [= <- <-]..|done].
  intros [= <- <-]. apply foldl_linked. intros w0 [b a]. by apply linked_same.
Qed.
End Linked.

Section Inherent.
Context {CollatorId CollatorSignature ValidatorId ValidatorSignature H R D W Header : Type}
  `{!EqDecision CollatorId}
  `{!Blake2 CollatorId CollatorSignature}
  `{!Signatures CollatorId CollatorSignature ValidatorId ValidatorSignature}
  `{!MessageHash H} `{!Ump.UmpSink W} `{!WeightInfo} `{!Rng R}
  `{disputes_handler : !Disputes.DisputesHandler ValidatorId ValidatorSignature D}
  `{!StorageIter ParaId (Inclusion.CandidatePendingAvailability (CollatorId := CollatorId) (CollatorSignature := CollatorSignature))}
  (code_hash_of : ValidationCode → Hash) (first_message_factor_percent : Weight)
  (header_hash header_state_root : Header → Hash) (max_block : Weight).
Import ParasInherent.
#[local] Abbreviation World := (ParasInherent.World (CollatorId := CollatorId) (CollatorSignature := CollatorSignature)
  (ValidatorSignature := ValidatorSignature) (H := H) (D := D) (W := W)).
Implicit Types (env : ParasPallet.Env ValidatorId) (w : World) (ps : list ParaId) (start : BlockNumber).

(** The state between the steps of the inherent, in a session with the
    parachains [ps] that began at [start]. *)
Record relay_ok ps start (inc : bool) w : Prop := {
  ro_parachains : ParasPallet.Parachains (Inclusion.paras (relay w)) = ps;
  ro_start : Scheduler.SessionStartBlock (scheduler w) = start;
  ro_shape : Scheduler.shape_ok (scheduler w);
  ro_cores : threadless (length ps) (scheduler w);
  ro_channels : Hrmp.channels_ok (Inclusion.hrmp (relay w));
  ro_requests : HrmpRequests.requests_ok (Inclusion.hrmp (relay w));
  ro_included : Included w = inc;
}.

Lemma shape_same (s s' : Scheduler.State (CollatorId := CollatorId)) :
  same_groups s s' → Scheduler.shape_ok s → Scheduler.shape_ok s'.
Proof. intros [E1 E2 E3]. unfold Scheduler.shape_ok. by rewrite E1, E3. Qed.

Lemma relay_ok_linked ps start inc w r : relay_ok ps start inc w → linked (relay w) r → relay_ok ps start inc (set_relay r w).
Proof. intros [] []. split; cbn; [congruence|auto..]. Qed.

Lemma relay_ok_scheduler ps start inc w s :
  relay_ok ps start inc w → threadless (length ps) s → same_groups (scheduler w) s → relay_ok ps start inc (set_scheduler s w).
Proof.
  intros [] Hs Hg. split; cbn; [done| |by eapply shape_same|done..]. rewrite (sg_start _ _ Hg). done.
Qed.

Lemma relay_ok_same ps start inc w w' :
  relay_ok ps start inc w → relay w' = relay w → scheduler w' = scheduler w → Included w' = Included w → relay_ok ps start inc w'.
Proof. intros [] E1 E2 E3. split; by rewrite ?E1, ?E2, ?E3. Qed.

Lemma free_disputed_ok env disputed bits ps start inc w :
  relay_ok ps start inc w →
  ∃ w' b, free_disputed env disputed bits w = Some (w', Ok b) ∧ relay_ok ps start inc w' ∧ disputes w' = disputes w ∧
    length b = bits.
Proof.
  intros Hw. unfold free_disputed. rewrite (PM_bind_run _ _ _ w (relay w)) by done.
  pose proof (collect_disputed_linked disputed (relay w)) as Hl.
  destruct (Inclusion.collect_disputed disputed (relay w)) as [cores r] eqn:E. cbn in Hl.
  pose proof (relay_ok_linked _ _ _ _ _ Hw Hl) as Hw1. rewrite (PM_bind_run _ _ _ (set_relay r w) tt) by done.
  assert (length (InherentData.create_disputed_bitfield bits cores) = bits) as Hlen.
  { unfold InherentData.create_disputed_bitfield. rewrite foldl_keeps_field; [apply length_replicate|].
    intros l x. case_decide; [apply length_insert|done]. }
  cbv zeta. destruct ((λ c, (c, Scheduler.Concluded)) <$> cores) as [|x l] eqn:Ec.
  { rewrite (PM_bind_run _ _ _ (set_relay r w) tt) by done. by eexists _, _. }
  destruct (free_cores_threadless (ParasPallet.config env) (merge_sort by_core_le (x :: l)) _ (scheduler w)
    (ro_cores _ _ _ _ Hw)) as (s & Es & Hs & Hg & _).
  rewrite (PM_bind_run _ _ _ (set_scheduler s (set_relay r w)) tt).
  - eexists _, _. split; [done|]. split; [by apply relay_ok_scheduler|]. by split.
  - rewrite (PM_bind_run _ _ _ (set_relay r w) (scheduler w)) by done.
    by rewrite (PM_bind_run _ _ _ (set_relay r w) s) by (by apply expect_ok).
Qed.

Lemma collect_all_freed_ok env freed ps start inc w :
  relay_ok ps start inc w → group_rotation_frequency (ParasPallet.config env) ≠ 0 →
  ∃ w' l, collect_all_freed_cores env freed w = Some (w', Ok l) ∧ relay_ok ps start inc w' ∧ disputes w' = disputes w.
Proof.
  intros Hw Hf. unfold collect_all_freed_cores. rewrite (PM_bind_run _ _ _ w (scheduler w)) by done.
  assert (∃ p, Scheduler.availability_timeout_predicate (ParasPallet.config env) (ParasPallet.block_number env)
    (scheduler w) = Some p) as [p Ep].
  { unfold Scheduler.availability_timeout_predicate. rewrite decide_False by lia. case_match; eauto. }
  rewrite (PM_bind_run _ _ _ w p) by (by apply expect_ok). rewrite (PM_bind_run _ _ _ w (relay w)) by done.
  destruct p as [p|].
  - pose proof (collect_pending_linked p (relay w)) as Hl.
    destruct (Inclusion.collect_pending p (relay w)) as [cores r]. cbn in Hl.
    rewrite (PM_bind_run _ _ _ (set_relay r w) tt) by done. eexists _, _. split; [done|].
    split; [by apply relay_ok_linked|done].
  - rewrite (PM_bind_run _ _ _ (set_relay (relay w) w) tt) by done. eexists _, _. split; [done|].
    split; [by apply relay_ok_linked|done].
Qed.

Lemma reschedule_ok env freed ps start inc w :
  relay_ok ps start inc w → start ≤ ParasPallet.block_number env → group_rotation_frequency (ParasPallet.config env) ≠ 0 →
  ∃ w', reschedule env freed w = Some (w', Ok tt) ∧ relay_ok ps start inc w' ∧ disputes w' = disputes w ∧
    (∀ a, a ∈ Scheduler.Scheduled (scheduler w') → (Scheduler.core a < length ps)%nat) ∧
    StronglySorted lt (Scheduler.core <$> Scheduler.Scheduled (scheduler w')).
Proof.
  intros Hw Hnow Hf. pose proof Hw as [Hp Hst Hsh Hc _ _ _]. unfold reschedule. rewrite (PM_bind_run _ _ _ w w) by done.
  destruct (clear_threadless (ParasPallet.config env) (ParasPallet.ParaLifecycles (Inclusion.paras (relay w))) _ _ Hc)
    as (s1 & E1 & Hs1 & G1 & N1).
  rewrite (PM_bind_run _ _ _ w s1) by (by apply expect_ok). rewrite Hp.
  destruct (schedule_threadless (ParasPallet.config env) ps freed (ParasPallet.block_number env) s1 Hs1)
    as (s2 & E2 & Hs2 & G2 & Hl); [by eapply shape_same|done|by rewrite (sg_start _ _ G1), Hst|done|].
  rewrite (PM_bind_run _ _ _ w s2) by (by apply expect_ok). eexists. split; [done|].
  split; [apply relay_ok_scheduler; [done..|by etransitivity]|]. by split.
Qed.

Lemma sorted_ascending last (l : list (Scheduler.CoreAssignment (CollatorId := CollatorId))) :
  StronglySorted lt (Scheduler.core <$> l) → (∀ x a, last = Some x → a ∈ l → (x < Scheduler.core a)%nat) →
  InclusionBacking.ascending last l.
Proof.
  revert last. induction l as [|a l IH]; intros last; cbn; [done|]. intros [Hs Ha]%StronglySorted_inv Hlast. split.
  - destruct last as [x|]; [|done]. apply (Hlast x a); [done|left].
  - apply IH; [done|]. intros x b [= <-] Hb. rewrite Forall_fmap, Forall_forall in Ha. by apply Ha.
Qed.

(** What the later steps of the inherent need of it. *)
Definition block_ok env start : Prop :=
  start ≤ ParasPallet.block_number env ∧ group_rotation_frequency (ParasPallet.config env) ≠ 0.

Lemma process_paras_ok env ph full data bits checked disputed ps start inc w w' :
  relay_ok ps start inc w → block_ok env start →
  process_paras code_hash_of first_message_factor_percent header_state_root env ph full data bits checked disputed w =
    Some (w', Ok tt) → relay_ok ps start inc w'.
Proof.
  intros Hw [Hnow Hf] E. unfold process_paras in E.
  apply PM_bind_ok in E as (w1 & x & [= <- <-] & E). cbv beta in E.
  apply PM_bind_ok in E as (w1 & [r rl] & [E1 ->]%expect_ok & E).
  assert (linked (relay w) rl) as Hl.
  { unfold Inclusion.process_bitfields in E1.
    destruct (Inclusion.assure_sanity_bitfields _ _ _ _ _ _ _); [|by injection E1 as <- <-].
    destruct (Inclusion.update_pending_availability_and_get_freed_cores _ _ _ _ _ _ _ _) as [[fr rl']|] eqn:Eu; [|done].
    injection E1 as _ ->. by apply update_linked in Eu. }
  pose proof (relay_ok_linked _ _ _ _ _ Hw Hl) as Hw1. clear Hw.
  apply PM_bind_ok in E as (w2 & [] & [= <-] & E).
  apply PM_bind_ok in E as (w2 & freed & Ea & E). injection Ea as <- _.
  apply PM_bind_ok in E as (w2 & [] & [= <-] & E). apply PM_bind_ok in E as (w2 & [] & [= <-] & E).
  apply PM_bind_ok in E as (w3 & l & E2 & E).
  match type of E2 with _ ?wx = _ =>
    destruct (collect_all_freed_ok env freed ps start inc wx) as (w3' & l' & E2' & Hw3 & _); [by eapply relay_ok_same|done|] end.
  rewrite E2' in E2. injection E2 as <- <-. apply PM_bind_ok in E as (w4 & [] & E3 & E).
  destruct (reschedule_ok env l' ps start inc w3') as (w4' & E3' & Hw4 & _ & Hsch & _); [done..|].
  rewrite E3' in E3. injection E3 as <-. apply PM_bind_ok in E as (w5 & x & [= <- <-] & E).
  apply PM_bind_ok in E as (w5 & r5 & [_ ->]%expect_ok & E). apply PM_bind_ok in E as (w5 & [] & Ea & E). injection Ea as <- _.
  apply PM_bind_ok in E as (w5 & [r6 rl6] & [E6%process_candidates_linked ->]%expect_ok & E).
  apply PM_bind_ok in E as (w6 & [] & [= <-] & E). apply PM_bind_ok in E as (w6 & pr & Ea & E). injection Ea as <- _.
  apply PM_bind_ok in E as (w6 & [] & [= <-] & E). apply PM_bind_ok in E as (w6 & s & [Es ->]%expect_ok & E).
  cbn -[Scheduler.occupied] in Es. apply (occupied_threadless _ (length ps)) in Es as [Hs Hg]; [|apply Hw4|done].
  apply PM_bind_ok in E as (w7 & [] & [= <-] & E). apply PM_bind_ok in E as (w7 & x & [= <- <-] & E).
  apply PM_bind_ok in E as (w7 & [[u ch] wt] & [_ ->]%expect_ok & E). injection E as <-.
  pose proof (relay_ok_linked _ _ _ _ _ Hw4 E6) as Hw6. destruct Hw6. destruct Hg. cbn in *.
  split; cbn; [done|congruence| |done..]. unfold Scheduler.shape_ok in *. cbn in *. by rewrite sg_groups0, sg_cores0.
Qed.

Lemma core_para_threadless ps (s : Scheduler.State (CollatorId := CollatorId)) i :
  threadless (length ps) s → is_Some (Scheduler.core_para ps i s).
Proof.
  intros Hs. unfold Scheduler.core_para. destruct (_ !! i) as [[o|]|] eqn:E; [|done..].
  destruct (tl_cores _ _ Hs _ _ E) as [-> Hi]. destruct (lookup_lt_is_Some_2 ps i Hi) as [p ->]. done.
Qed.

(** An inherent without bitfields and candidates goes through. *)
Lemma process_paras_empty env ph full header bits checked disputed ps start inc w :
  relay_ok ps start inc w → block_ok env start → length disputed = bits →
  ∃ w', process_paras code_hash_of first_message_factor_percent header_state_root env ph full
      (mkData [] [] [] header) bits checked disputed w = Some (w', Ok tt).
Proof.
  intros Hw [Hnow Hf] Hd. unfold process_paras. rewrite (PM_bind_run _ _ _ w w) by done.
  assert (∃ fr rl, Inclusion.process_bitfields code_hash_of env ph bits [] disputed
    (λ c, Scheduler.core_para (ParasPallet.Parachains (Inclusion.paras (relay w))) c (scheduler w)) full (relay w) =
      Some (Ok fr, rl) ∧ linked (relay w) rl) as (fr & rl & Eb & Hl).
  { unfold Inclusion.process_bitfields, Inclusion.assure_sanity_bitfields. rewrite bool_decide_eq_true_2 by done.
    cbn -[Inclusion.update_pending_availability_and_get_freed_cores].
    assert (is_Some (Inclusion.update_pending_availability_and_get_freed_cores code_hash_of env bits
      (ParasPallet.active_validator_keys env) ([] : list (UncheckedSigned ValidatorSignature))
      (λ c, Scheduler.core_para (ParasPallet.Parachains (Inclusion.paras (relay w))) c (scheduler w)) true (relay w)))
      as [[fr rl] Eu].
    { unfold Inclusion.update_pending_availability_and_get_freed_cores, Inclusion.load_slots.
      assert (is_Some (mapM (λ c, Scheduler.core_para (ParasPallet.Parachains (Inclusion.paras (relay w))) c (scheduler w))
        (seq 0 bits))) as [l ->]; [|done].
      apply mapM_is_Some, Forall_forall. intros i _. rewrite (ro_parachains _ _ _ _ Hw). apply core_para_threadless, Hw. }
    rewrite Eu. cbn. eexists _, _. split; [done|]. by eapply update_linked. }
  rewrite (PM_bind_run _ _ _ w (Ok fr, rl)) by (by apply expect_ok).
  rewrite (PM_bind_run _ _ _ (set_relay rl w) tt) by done.
  rewrite (PM_bind_run _ _ _ (set_relay rl w) fr) by done.
  set (w1 := set_scrapable_on_chain_disputes (ParasPallet.session_index env) checked (set_relay rl w)). rewrite (PM_bind_run _ _ _ w1 tt) by done.
  match goal with |- context [writes ?f ≫= _] => set (w2 := f w1); rewrite (PM_bind_run _ _ _ w2 tt) by done end.
  assert (relay_ok ps start inc w2) as Hw2 by (eapply relay_ok_same; [by apply (relay_ok_linked _ _ _ w rl)|done..]).
  destruct (collect_all_freed_ok env fr ps start inc w2) as (w3 & l & E3 & Hw3 & _); [done..|].
  rewrite (PM_bind_run _ _ _ _ _ E3).
  destruct (reschedule_ok env l ps start inc w3) as (w4 & E4 & _ & _ & _ & Hsort); [done..|].
  rewrite (PM_bind_run _ _ _ _ _ E4). rewrite (PM_bind_run _ _ _ w4 w4) by done.
  cbn [backed_candidates]. rewrite (PM_bind_run _ _ _ w4 (Ok tt)) by done.
  rewrite (PM_bind_run _ _ _ w4 tt) by done.
  assert (∃ p, Inclusion.process_candidates env ph (header_state_root header)
    ([] : list (BackedCandidate CollatorId CollatorSignature ValidatorSignature)) (Scheduler.Scheduled (scheduler w4))
    (λ g, Scheduler.group_validators g (scheduler w4)) (relay w4) = Some (Ok p, relay w4) ∧
    Inclusion.core_indices p = []) as (p & Ep & Ei).
  { unfold Inclusion.process_candidates. rewrite decide_False by (cbn; lia). case_decide; [by eexists|].
    cbn [Inclusion.check_candidates]. rewrite (proj2 (InclusionBacking.check_in_order_ok None _)); [by eexists|].
    by apply sorted_ascending. }
  rewrite (PM_bind_run _ _ _ w4 (Ok p, relay w4)) by (by apply expect_ok).
  rewrite (PM_bind_run _ _ _ (set_relay (relay w4) w4) tt) by done.
  rewrite (PM_bind_run _ _ _ (set_relay (relay w4) w4) p) by done.
  match goal with |- context [writes ?f ≫= _] => set (w5 := f (set_relay (relay w4) w4)); rewrite (PM_bind_run _ _ _ w5 tt) by done end.
  rewrite Ei, (PM_bind_run _ _ _ w5 (scheduler w4)) by done.
  rewrite (PM_bind_run _ _ _ (set_scheduler (scheduler w4) w5) tt) by done.
  rewrite (PM_bind_run _ _ _ (set_scheduler (scheduler w4) w5) (set_scheduler (scheduler w4) w5)) by done.
  match goal with |- context [Ump.process_pending_upward_messages ?c ?f ?u ?x] =>
    destruct (Ump.process_pending_terminates c f u x) as [[[u' x'] wt] Eu] end.
  erewrite PM_bind_run; [|by apply expect_ok]. by eexists.
Qed.

Lemma import_disputes_ok env ph vrf full sets w w' x :
  import_disputes max_block env ph vrf full sets w = Some (w', Ok x) →
  relay w' = relay w ∧ scheduler w' = scheduler w ∧ Included w' = Included w.
Proof.
  unfold import_disputes. intros E. apply PM_bind_ok in E as (w1 & d & [= <- <-] & E).
  apply PM_bind_ok in E as (w1 & [rng [[checked wt] d]] & [_ ->]%expect_ok & E).
  apply PM_bind_ok in E as (w1 & [] & [= <-] & E). apply PM_bind_ok in E as (w1 & d1 & [= <- <-] & E).
  cbn [disputes set_disputes] in E. destruct (Disputes.handler_process _ _ _) as [d2 r].
  apply PM_bind_ok in E as (w1 & [] & [= <-] & E). apply PM_bind_ok in E as (w1 & l & Ea & E). injection Ea as <- _.
  by injection E as <- _.
Qed.

Lemma enter_inner_ok env ph vrf data full ps start inc w w' x :
  relay_ok ps start inc w → block_ok env start →
  enter_inner code_hash_of first_message_factor_percent header_hash header_state_root max_block env ph vrf data full w =
    Some (w', Ok x) → relay_ok ps start inc w'.
Proof.
  intros Hw Hb E. unfold enter_inner in E. apply PM_bind_ok in E as (w1 & [] & Ea & E). injection Ea as <- _.
  apply PM_bind_ok in E as (w1 & d & [= <- <-] & E). apply PM_bind_ok in E as (w1 & [] & Ea & E). injection Ea as <- _.
  cbv zeta in E. set (data' := if bool_decide _ then _ else data) in E. clearbody data'.
  apply PM_bind_ok in E as (w1 & [checked wt] & Ei & E). apply import_disputes_ok in Ei as (E1 & E2 & E3).
  assert (relay_ok ps start inc w1) as Hw1 by by eapply relay_ok_same.
  apply PM_bind_ok in E as (w2 & w3 & [= <- <-] & E). destruct (Disputes.handler_is_frozen _); [by injection E as <- _|].
  apply PM_bind_ok in E as (w2 & b & Ef & E).
  destruct (free_disputed_ok env (newly_invalid env checked (disputes w1))
    (length (Scheduler.AvailabilityCores (scheduler w1))) ps start inc w1 Hw1) as (w2' & b' & Ef' & Hw2 & _).
  rewrite Ef' in Ef. injection Ef as <- <-. apply PM_bind_ok in E as (w3 & [] & Ep & E). injection E as <- _.
  by eapply process_paras_ok.
Qed.

Lemma enter_inner_empty env ph vrf header full ps start inc w :
  relay_ok ps start inc w → block_ok env start → header_hash header = ph → 0 ≤ max_block →
  (∀ d, ∃ l, (Disputes.handler_process env [] d).2 = Ok l) →
  ∃ w' x, enter_inner code_hash_of first_message_factor_percent header_hash header_state_root max_block env ph vrf
    (mkData [] [] [] header) full w = Some (w', Ok x).
Proof.
  intros Hw Hb Hh Hmax Hp. unfold enter_inner. rewrite (PM_bind_run _ _ _ w tt) by (unfold require; by rewrite bool_decide_eq_true_2).
  rewrite (PM_bind_run _ _ _ w (disputes w)) by done. rewrite (PM_bind_run _ _ _ w tt) by done. cbv zeta.
  cbn [data_disputes backed_candidates bitfields parent_header]. set (over := bool_decide _).
  replace (if over then mkData [] [] [] header else mkData [] [] [] header) with
    (mkData [] [] [] header : ParachainsInherentData (CollatorId := CollatorId) (CollatorSignature := CollatorSignature)
      (ValidatorSignature := ValidatorSignature)) by (by destruct over).
  cbn [data_disputes].
  assert (∃ w1 x, import_disputes max_block env ph vrf full [] w = Some (w1, Ok x)) as (w1 & [checked wt] & Ei).
  { unfold import_disputes. rewrite (PM_bind_run _ _ _ w (disputes w)) by done.
    assert (limit_and_sanitize_disputes [] (dispute_filter env (verify_sigs_of full)) max_block
      (from_seed (compute_entropy vrf ph)) (disputes w) = Some (from_seed (compute_entropy vrf ph), ([], 0, disputes w))) as El.
    { unfold limit_and_sanitize_disputes. by rewrite decide_False by (cbn; lia). }
    erewrite PM_bind_run; [|apply expect_ok; by split]. cbv beta iota.
    rewrite (PM_bind_run _ _ _ (set_disputes (disputes w) w) tt) by done.
    rewrite (PM_bind_run _ _ _ (set_disputes (disputes w) w) (disputes w)) by done.
    destruct (Hp (disputes w)) as [l Hl]. destruct (Disputes.handler_process env [] (disputes w)) as [d r]. cbn in Hl. subst r.
    by eexists _, _. }
  rewrite (PM_bind_run _ _ _ _ _ Ei). apply import_disputes_ok in Ei as (E1 & E2 & E3).
  assert (relay_ok ps start inc w1) as Hw1 by by eapply relay_ok_same.
  rewrite (PM_bind_run _ _ _ w1 w1) by done. destruct (Disputes.handler_is_frozen _); [by eexists _, _|].
  destruct (free_disputed_ok env (newly_invalid env checked (disputes w1))
    (length (Scheduler.AvailabilityCores (scheduler w1))) ps start inc w1 Hw1) as (w2 & b & Ef & Hw2 & _ & Hlen).
  rewrite (PM_bind_run _ _ _ _ _ Ef).
  destruct (process_paras_empty env ph full header (length (Scheduler.AvailabilityCores (scheduler w1))) checked b
    ps start inc w2 Hw2 Hb Hlen) as [w3 Ep].
  rewrite (PM_bind_run _ _ _ _ _ Ep). by eexists _, _.
Qed.
End Inherent.

(** ** Configurations *)

Section Configurations.
Context {O A : Type} `{!FrameOrigin O A}.

(** The dispute period is an unsigned integer. *)
Definition periods_ok (s : Configuration.State) : Prop :=
  0 ≤ dispute_period (Configuration.ActiveConfig s) ∧
  Forall (λ p, 0 ≤ dispute_period p.2) (Configuration.PendingConfigs s).

Lemma periods_schedule cur f s :
  periods_ok s → (∀ c, 0 ≤ dispute_period c → 0 ≤ dispute_period (f c)) →
  periods_ok (Configuration.schedule_config_update cur f s).1.
Proof.
  intros [Ha Hp] Hf. unfold Configuration.schedule_config_update. unfold_dispatch. case_match; [|by split].
  split; cbn; [done|]. set (new := f (Configuration.base_config s)).
  assert (0 ≤ dispute_period new) as Hnew.
  { apply Hf. unfold Configuration.base_config. destruct (last _) as [[at0 c0]|] eqn:E; [|done].
    apply last_Some_elem_of in E. rewrite Forall_forall in Hp. apply (Hp _ E). }
  destruct (Configuration.replace_pending _ new _) as [l|] eqn:E; [|apply Forall_app; split; [done|by repeat constructor]].
  revert l E. induction Hp as [|[at1 c1] ps Hc Hp IH]; intros l; cbn; [done|]. case_decide; [intros [= <-]; by constructor|].
  destruct (Configuration.replace_pending _ new ps) as [l'|]; cbn; [|done]. intros [= <-]. constructor; [done|by apply IH].
Qed.

Lemma periods_dispatch cur (origin : O) call s :
  periods_ok s → (∀ p, call = Configuration.set_dispute_period p → 0 ≤ p) →
  periods_ok (Configuration.dispatch cur origin call s).1.
Proof.
  intros Hs Hcall.
  assert (∀ f, (∀ c, 0 ≤ dispute_period c → 0 ≤ dispute_period (f c)) → periods_ok
    ((_ ← or_bad_origin (ensure_root origin); Configuration.schedule_config_update cur f) s).1) as Hset.
  { intros f Hf. unfold mbind, M_bind, or_bad_origin, lift, ok_or.
    destruct (ensure_root origin); cbn; [by apply periods_schedule|done]. }
  destruct call; try (apply Hset; intros c Hc; cbn; (done || by apply Hcall)); [done|].
  cbn. unfold_dispatch. by destruct (ensure_root origin).
Qed.

Lemma periods_session next s : periods_ok s → periods_ok (Configuration.initializer_on_new_session next s).1.
Proof.
  intros [Ha Hp]. unfold Configuration.initializer_on_new_session.
  destruct (Configuration.PendingConfigs s) as [|p l] eqn:E; [split; cbn; [done|by rewrite E]|]. rewrite <-E in *. split; cbn.
  - destruct (last _) as [[a c]|] eqn:El; cbn; [|done]. apply last_Some_elem_of, list_elem_of_filter in El as [_ El].
    rewrite Forall_forall in Hp. apply (Hp _ El).
  - rewrite Forall_forall in Hp |- *. intros x [_ Hx]%list_elem_of_filter. by apply Hp.
Qed.

End Configurations.

(** ** Active validators *)

Section Active.
Context {A : Type}.
Implicit Types (active : list ValidatorIndex) (all : list A).

Lemma take_active_lookup active all k :
  (∀ i, i ∈ active → (i < length all)%nat) →
  take_active_subset active all !! k = (i ← active !! k; all !! i) ∧
  length (take_active_subset active all) = length active.
Proof.
  unfold take_active_subset. revert k. induction active as [|i active IH]; intros k Hin; cbn; [done|].
  destruct (lookup_lt_is_Some_2 all i) as [v Hv]; [apply Hin; left|]. rewrite Hv.
  assert (∀ j, j ∈ active → (j < length all)%nat) as Hin' by (intros j Hj; apply Hin; by right).
  cbn [length]. split; [|f_equal; by apply (IH 0%nat)]. destruct k as [|k]; [by cbn; rewrite Hv|]. by apply IH.
Qed.

Lemma inactive_lookups active (l pre : list A) :
  snd <$> filter (λ x, x.1 ∉ active) (imap (λ i v, ((length pre + i)%nat, v)) l) =
  omap (λ i, (pre ++ l) !! i) (filter (λ i, i ∉ active) (seq (length pre) (length l))).
Proof.
  revert pre. induction l as [|v l IH]; intros pre; [done|]. cbn [imap length seq]. rewrite Nat.add_0_r, !filter_cons. cbn [fst].
  assert (snd <$> filter (λ x, x.1 ∉ active) (imap ((λ i v0, ((length pre + i)%nat, v0)) ∘ S) l) =
    omap (λ i, (pre ++ v :: l) !! i) (filter (λ i, i ∉ active) (seq (S (length pre)) (length l)))) as Hrest.
  { specialize (IH (pre ++ [v])). rewrite length_app, Nat.add_1_r, <-app_assoc in IH. cbn in IH. rewrite <-IH.
    f_equal. f_equal. apply imap_ext. intros j x _. cbn. f_equal. lia. }
  case_decide; [|done]. cbn. rewrite lookup_app_r, Nat.sub_diag by lia. cbn. by f_equal.
Qed.

Lemma take_all_perm active all :
  NoDup active → (∀ i, i ∈ active → (i < length all)%nat) → take_active_subset_and_inactive active all ≡ₚ all.
Proof.
  intros Hnd Hin. unfold take_active_subset_and_inactive, split_active_subset, take_active_subset.
  pose proof (inactive_lookups active all []) as E. cbn in E. rewrite E, <-omap_app.
  assert (active ++ filter (λ i, i ∉ active) (seq 0 (length all)) ≡ₚ seq 0 (length all)) as Hp.
  { apply NoDup_Permutation; [|apply NoDup_seq|].
    - apply NoDup_app. split_and!; [done| |apply NoDup_filter, NoDup_seq]. by intros i Hi [? _]%list_elem_of_filter.
    - intros i. rewrite elem_of_app, list_elem_of_filter, elem_of_seq. split; [|destruct (decide (i ∈ active)); tauto].
      intros [Hi%Hin|[_ ?]]; [lia|done]. }
  rewrite Hp. clear. assert (∀ pre, omap (λ i, (pre ++ all) !! i) (seq (length pre) (length all)) = all) as Hall.
  { induction all as [|v all IH]; intros pre; [done|]. cbn [length seq omap list_omap].
    rewrite lookup_app_r, Nat.sub_diag by lia. cbn. f_equal. specialize (IH (pre ++ [v])).
    by rewrite length_app, Nat.add_1_r, <-app_assoc in IH. }
  by rewrite (Hall [] : omap (λ i, all !! i) (seq 0 (length all)) = all).
Qed.
End Active.

(** ** Stored sessions *)

Section Sessions.
Context {ValidatorId AssignmentId DiscoveryId AccountId : Type}.
Import SessionInfo.
#[local] Abbreviation Info := (SessionInfo.State (ValidatorId := ValidatorId) (AssignmentId := AssignmentId)
  (DiscoveryId := DiscoveryId) (AccountId := AccountId)).
Implicit Types (s : Info).

(** The sessions stored are those of a window that ends with [cur]. *)
Record window (cur : SessionIndex) s : Prop := {
  wi_stored i : is_Some (Sessions s !! i) ↔ EarliestStoredSession s ≤ i ≤ cur;
  wi_earliest : 0 ≤ EarliestStoredSession s ≤ cur + 1;
}.

Lemma remove_sessions l s :
  let s' := foldl remove_session s l in
  (∀ i, Sessions s' !! i = if decide (i ∈ l) then None else Sessions s !! i) ∧
  AssignmentKeysUnsafe s' = AssignmentKeysUnsafe s.
Proof.
  cbn. revert s. induction l as [|x l IH]; intros s; cbn.
  { split; [|done]. intros i. by rewrite decide_False by apply not_elem_of_nil. }
  destruct (IH (remove_session s x)) as [H1 H2]. split; [|done]. intros i. rewrite H1. cbn.
  rewrite lookup_delete. repeat case_decide; set_solver.
Qed.

Lemma move_window_ok p cur s :
  0 ≤ p → window cur s →
  let s' := move_window p (cur + 1) s in
  (∀ i, is_Some (Sessions s' !! i) ↔ EarliestStoredSession s' ≤ i ≤ cur) ∧ 0 ≤ EarliestStoredSession s' ≤ cur + 1 ∧
  (∀ i, EarliestStoredSession s' ≤ i → Sessions s' !! i = Sessions s !! i) ∧
  AssignmentKeysUnsafe s' = AssignmentKeysUnsafe s.
Proof.
  intros Hp [Hw He]. cbn. unfold move_window. set (new := Z.max _ _). case_decide as Hd.
  - assert (EarliestStoredSession s ≤ new ≤ cur + 1) as Hnew by (unfold new, saturating_sub; lia).
    destruct (remove_sessions (seqZ (EarliestStoredSession s) (new - EarliestStoredSession s)) s) as [H1 H2].
    cbn. split_and!; [|lia|lia| |done].
    + intros i. rewrite H1. case_decide as Hi; rewrite elem_of_seqZ in Hi; [|rewrite Hw; lia].
      split; [by intros [? [=]]|lia].
    + intros i Hi. rewrite H1, decide_False; [done|]. rewrite elem_of_seqZ. lia.
  - assert (EarliestStoredSession s = 0 ∧ cur = -1) as [E1 E2].
    { destruct (decide (EarliestStoredSession s = 0)) as [E|]; [|tauto]. split; [done|].
      assert (¬ is_Some (Sessions s !! 0)) as H0 by tauto. rewrite Hw in H0. lia. }
    cbn. split_and!; [|lia|lia|done|done]. intros i. rewrite Hw. lia.
Qed.

Lemma window_session config active groups cores discovery accounts note s session :
  0 ≤ dispute_period config → note_session_index note = session → window (session - 1) s →
  let s' := initializer_on_new_session config active groups cores discovery accounts note s in
  window session s' ∧ validators <$> Sessions s' !! session = Some (note_validators note).
Proof.
  intros Hp En Hw. cbn. unfold initializer_on_new_session. rewrite En.
  destruct (move_window_ok (dispute_period config) (session - 1) s Hp Hw) as (H1 & H2 & _). rewrite Z.sub_add in H1, H2.
  split; [|cbn; by rewrite lookup_insert_eq]. split; cbn; [|lia].
  intros i. rewrite lookup_insert. case_decide; [split; [lia|done]|]. rewrite H1. lia.
Qed.
End Sessions.

(** ** The chain *)

Section Chain.
Context {CollatorId CollatorSignature ValidatorId ValidatorSignature AssignmentId DiscoveryId AccountId
    H R W B Header O A : Type}
  `{!EqDecision CollatorId}
  `{!Blake2 CollatorId CollatorSignature}
  `{!Signatures CollatorId CollatorSignature ValidatorId ValidatorSignature}
  `{!MessageHash H} `{!Ump.UmpSink W} `{!ReservableCurrency B} `{!WeightInfo} `{!Rng R} `{!FrameOrigin O A}
  `{!StorageIter ParaId (Inclusion.CandidatePendingAvailability (CollatorId := CollatorId) (CollatorSignature := CollatorSignature))}
  `{!StorageIter (SessionIndex * CandidateHash) Disputes.DisputeState}
  (code_hash_of : ValidationCode → Hash) (verify : ValidatorSignature → list byte → ValidatorId → bool)
  (encode_xcm : Xcm → list byte) (ensure_overweight : O → option unit)
  (first_message_factor_percent : Weight)
  (header_hash header_state_root : Header → Hash) (max_block : Weight).
Import Initializer.
#[local] Abbreviation Chain := (Initializer.Chain (CollatorId := CollatorId) (CollatorSignature := CollatorSignature)
  (ValidatorId := ValidatorId) (ValidatorSignature := ValidatorSignature) (AssignmentId := AssignmentId)
  (DiscoveryId := DiscoveryId) (AccountId := AccountId) (H := H) (W := W) (B := B)).
Implicit Types (c : Chain).

(** ** Reachable states *)

(** A chain before its first session, with the paras of the genesis. *)
Definition genesis (config : HostConfiguration) (p : ParasPallet.State) (x : W) (b : B) : Chain :=
  mkChain 0 (Configuration.mkState config [] false) Shared.empty_state
    (ParasInherent.mkWorld (Inclusion.mkWorld Inclusion.empty_state p Dmp.empty_state Ump.empty_state Hrmp.empty_state [])
       Scheduler.empty_state Disputes.empty_state x false None)
    SessionInfo.empty_state b false [] [].

#[local] Abbreviation relay_of c := (ParasInherent.relay (world c)).
#[local] Abbreviation session_of c := (Shared.CurrentSessionIndex (shared c)).
#[local] Abbreviation on_relay f c := (set_world (ParasInherent.set_relay (f (relay_of c)) (world c)) c).

(** The channels live in the same storage as the downward queues and balances. *)
Definition on_channels (f : Hrmp.World (H := H) (B := B) → Hrmp.World (H := H) (B := B)) c : Chain :=
  let h := f (Hrmp.mkWorld (Inclusion.hrmp (relay_of c)) (Inclusion.dmp (relay_of c)) (currency c)) in
  let rl := Inclusion.on_dmp (λ _, Hrmp.dmp h) (Inclusion.on_hrmp (λ _, Hrmp.hrmp h) (relay_of c)) in
  mkChain (number c) (configuration c) (shared c) (ParasInherent.set_relay rl (world c)) (session_info c)
    (Hrmp.currency h) (HasInitialized c) (BufferedSessionChanges c) (ForceApproved c).

(** The storage root calls over paras work on. *)
Definition on_paras_and_channels
    (f : ParasSudoWrapper.World (H := H) (B := B) → ParasSudoWrapper.World (H := H) (B := B)) c : Chain :=
  let h := Hrmp.mkWorld (Inclusion.hrmp (relay_of c)) (Inclusion.dmp (relay_of c)) (currency c) in
  let w := f (ParasSudoWrapper.mkWorld (Inclusion.paras (relay_of c)) h) in
  on_channels (λ _, ParasSudoWrapper.channels w) (on_relay (Inclusion.on_paras (λ _, ParasSudoWrapper.paras w)) c).

(** What can happen to a chain: its hooks, the inherent, the calls of the
    pallets and what other parts of the runtime ask of them. *)
Inductive step : Chain → Chain → Prop :=
| step_initialize c : step c (on_initialize (number c + 1) c)
| step_inherent origin parent_hash vrf_random data c c' weight :
    HasInitialized c = true →
    enter code_hash_of first_message_factor_percent header_hash header_state_root max_block (O := O) (A := A)
      origin parent_hash vrf_random data c = Some (c', Ok weight) → step c c'
| step_included c w : ParasInherent.on_finalize (world c) = Some w → step c (set_world w c)
| step_finalize random_hash discovery accounts c c' :
    on_finalize code_hash_of random_hash discovery accounts c = Some c' → step c c'
| step_session_key random_hash discovery accounts validators queued c c' :
    BufferedSessionChanges c = [] →
    on_new_session code_hash_of random_hash discovery accounts (session_of c + 1) validators (Some queued) c = Some c' →
    0 ≤ session_of c → step c c'
| step_assignment_keys keys c :
    step c (mkChain (number c) (configuration c) (shared c) (world c) (SessionInfo.on_new_session keys (session_info c))
      (currency c) (HasInitialized c) (BufferedSessionChanges c) (ForceApproved c))
| step_configuration policy (origin : O) call c :
    session_of c + Configuration.SESSION_DELAY ≤ u32_max →
    (∀ p, call = Configuration.set_dispute_period p → 0 ≤ p) →
    step c (set_configuration (run policy (Configuration.dispatch (session_of c) origin call) (configuration c)).1 c)
| step_paras policy (origin : O) call c :
    step c (on_relay (Inclusion.on_paras (λ s,
      (run policy (ParasPallet.dispatch code_hash_of verify (env_of c) origin call) s).1)) c)
| step_register id g c :
    step c (on_relay (Inclusion.on_paras (λ s,
      (ParasPallet.schedule_para_initialize code_hash_of (env_of c) id g s).1)) c)
| step_deregister id c :
    step c (on_relay (Inclusion.on_paras (λ s, (ParasPallet.schedule_para_cleanup (env_of c) id s).1)) c)
| step_upgrade id c :
    step c (on_relay (Inclusion.on_paras (λ s, (ParasPallet.schedule_parathread_upgrade (env_of c) id s).1)) c)
| step_downgrade id c :
    step c (on_relay (Inclusion.on_paras (λ s, (ParasPallet.schedule_parachain_downgrade (env_of c) id s).1)) c)
| step_channels policy origin call c :
    step c (on_channels (λ h, (run policy (Hrmp.dispatch encode_xcm (Configuration.ActiveConfig (configuration c))
      (ParasPallet.ParaLifecycles (Inclusion.paras (relay_of c))) (number c) origin call) h).1) c)
| step_downward p m c :
    step c (on_relay (Inclusion.on_dmp (λ s,
      (Dmp.queue_downward_message (Configuration.ActiveConfig (configuration c)) p m (number c) s).1)) c)
| step_overweight policy (origin : O) index weight_limit c s x :
    (run policy (Ump.service_overweight ensure_overweight origin index weight_limit)
      (Inclusion.ump (relay_of c), ParasInherent.chain (world c))).1 = (s, x) →
    step c (set_world (ParasInherent.set_chain x
      (ParasInherent.set_relay (Inclusion.on_ump (λ _, s) (relay_of c)) (world c))) c)
| step_unfreeze (origin : O) c :
    step c (set_world (ParasInherent.set_disputes (Disputes.force_unfreeze origin (ParasInherent.disputes (world c))).1
      (world c)) c)
| step_force_approve policy (ensure_force : O → option unit) (origin : O) up_to c :
    step c (run policy (force_approve ensure_force origin up_to) c).1
| step_sudo policy (origin : O) call c :
    step c (on_paras_and_channels (λ w,
      (run policy (ParasSudoWrapper.dispatch code_hash_of encode_xcm (env_of c) origin call) w).1) c).

(** Steps with the consistency check of the configuration on. *)
Definition step_checked c c' : Prop :=
  step c c' ∧ Configuration.BypassConsistencyCheck (configuration c') = false.

(** ** The invariant *)

Record chain_ok c : Prop := {
  ck_relay : relay_ok (ParasPallet.Parachains (Inclusion.paras (relay_of c)))
    (Scheduler.SessionStartBlock (ParasInherent.scheduler (world c))) (ParasInherent.Included (world c)) (world c);
  ck_number : 0 ≤ number c;
  ck_start : Scheduler.SessionStartBlock (ParasInherent.scheduler (world c)) ≤
    number c + (if HasInitialized c then 0 else 1);
  ck_config : Configuration.config_ok (session_of c) (configuration c);
  ck_periods : periods_ok (configuration c);
  ck_buffer x : x ∈ BufferedSessionChanges c → buffered_session_index x = session_of c + 1;
  ck_window : window (session_of c) (session_info c);
  ck_keys : known_validators (session_info c) (session_of c) = Some (Shared.ActiveValidatorKeys (shared c));
}.

(** A new session, from a state as [chain_ok] describes it, or before the first
    one. *)
Lemma apply_new_session_ok random_hash discovery accounts session all queued ps start inc c :
  relay_ok ps start inc (world c) → periods_ok (configuration c) → window (session - 1) (session_info c) →
  ∃ c', apply_new_session code_hash_of random_hash discovery accounts session all queued c = Some c' ∧
    number c' = number c ∧ HasInitialized c' = HasInitialized c ∧ session_of c' = session ∧
    BufferedSessionChanges c' = BufferedSessionChanges c ∧
    ParasInherent.Included (world c') = ParasInherent.Included (world c) ∧
    Scheduler.SessionStartBlock (ParasInherent.scheduler (world c')) = u32_add (number c) 1 ∧
    relay_ok (ParasPallet.Parachains (Inclusion.paras (relay_of c'))) (u32_add (number c) 1) inc (world c') ∧
    window (session_of c') (session_info c') ∧
    known_validators (session_info c') (session_of c') = Some (Shared.ActiveValidatorKeys (shared c')) ∧
    configuration c' = (Configuration.initializer_on_new_session session (configuration c)).1.
Proof.
  intros Hr Hp Hw. unfold apply_new_session.
  pose proof (periods_session session _ Hp) as Hp'.
  destruct (Configuration.initializer_on_new_session session (configuration c)) as [cs outcome] eqn:Ec.
  cbn [fst] in Hp'. set (new_config := default _ _).
  destruct (Shared.initializer_on_new_session _ random_hash new_config all) as [sh validators] eqn:Es.
  assert (Shared.CurrentSessionIndex sh = session ∧ Shared.ActiveValidatorKeys sh = validators) as [E1 E2].
  { unfold Shared.initializer_on_new_session in Es. destruct (shuffle _ _). injection Es as <- <-. done. }
  destruct (ParasPallet.initializer_on_new_session _ _ _ _ _ _) as [outgoing p] eqn:Ep. cbv zeta.
  set (h0 := Hrmp.mkWorld _ _ _).
  destruct (HrmpRequests.session_spec (Configuration.prev_config outcome) (ParasPallet.ParaLifecycles p) outgoing h0)
    as (h & Eh & Hreq & _); [apply Hr..|].
  pose proof (Hrmp.channels_ok_session _ _ _ h0 h (ro_channels _ _ _ _ Hr) Eh) as Hch. rewrite Eh. cbn [mbind option_bind].
  eexists. split; [done|]. cbn -[Scheduler.initializer_on_new_session SessionInfo.initializer_on_new_session].
  rewrite E1, E2. split_and!; try done.
  - unfold Scheduler.initializer_on_new_session. cbn zeta. by destruct (if decide _ then _ else _).
  - split; cbn -[Scheduler.initializer_on_new_session]; [done| |apply Scheduler.session_shape| |done|done|apply Hr].
    + unfold Scheduler.initializer_on_new_session. cbn zeta. by destruct (if decide _ then _ else _).
    + eapply session_threadless, Hr.
  - apply window_session; [apply Hp'|done|done].
  - unfold known_validators. apply window_session; [apply Hp'|done|done].
Qed.

Lemma genesis_session_ok config p x b random_hash discovery accounts validators c :
  HostConfiguration.consistent config = true → 0 ≤ dispute_period config →
  on_new_session code_hash_of random_hash discovery accounts 0 validators None (genesis config p x b) = Some c →
  chain_ok c.
Proof.
  intros Hc Hp E. unfold on_new_session in E. rewrite decide_True in E by done.
  destruct (apply_new_session_ok random_hash discovery accounts 0 validators validators
    (ParasPallet.Parachains p) 0 false (genesis config p x b)) as
    (c' & E' & N1 & N2 & N3 & N4 & N5 & N6 & N7 & N8 & N9 & N10).
  { split; cbn; [done..|by left|split; cbn; [done|by intros ? ?%elem_of_nil|by intros ? ?; rewrite lookup_nil]| | |done].
    - exact Hrmp.empty_channels_ok.
    - split; [constructor|]. intros ch. cbn. rewrite lookup_empty. split; [by intros ?%elem_of_nil|by intros [? [=]]]. }
  { by split. }
  { split; cbn; [|lia]. intros i. rewrite lookup_empty. split; [by intros [? [=]]|lia]. }
  cbn [default] in E. rewrite E' in E. injection E as <-.
  split; rewrite ?N6, ?N5, ?N1, ?N2, ?N3, ?N4, ?N10; [done|done|done| |by split|by intros ? ?%elem_of_nil|by rewrite <-N3 at 1|by rewrite <-N3 at 1].
  by split; cbn; [split; constructor|..].
Qed.

(** Steps that leave scheduler, channels, parachains and sessions alone. *)
Lemma chain_ok_world c inc w :
  chain_ok c → relay_ok (ParasPallet.Parachains (Inclusion.paras (relay_of c)))
    (Scheduler.SessionStartBlock (ParasInherent.scheduler (world c))) inc w → chain_ok (set_world w c).
Proof.
  intros [] Hw. split; cbn; try done; [|by rewrite (ro_start _ _ _ _ Hw)].
  by rewrite (ro_start _ _ _ _ Hw), (ro_parachains _ _ _ _ Hw), (ro_included _ _ _ _ Hw).
Qed.

Lemma chain_ok_relay c f :
  chain_ok c → linked (relay_of c) (f (relay_of c)) → chain_ok (on_relay f c).
Proof. intros Hc Hf. eapply chain_ok_world; [done|]. by apply relay_ok_linked; [apply Hc|]. Qed.

Lemma linked_paras (r : Inclusion.World (CollatorId := CollatorId) (CollatorSignature := CollatorSignature) (H := H)) f :
  ParasPallet.Parachains (f (Inclusion.paras r)) = ParasPallet.Parachains (Inclusion.paras r) →
  linked r (Inclusion.on_paras f r).
Proof. by split. Qed.

Lemma initialize_ok c : chain_ok c → chain_ok (on_initialize (number c + 1) c).
Proof.
  intros [[] K1 K2 K3 K4 K5 K6 K7]. split; try done.
  - split; cbn -[ParasPallet.initializer_initialize]; try done. rewrite initialize_parachains. done.
  - cbn. lia.
  - cbn in *. destruct (HasInitialized c); lia.
Qed.

Lemma finalize_ok random_hash discovery accounts c :
  chain_ok c → ∃ c', on_finalize code_hash_of random_hash discovery accounts c = Some c' ∧ chain_ok c' ∧
    number c' = number c.
Proof.
  intros Hc. unfold on_finalize. set (c1 := set_world _ c).
  assert (chain_ok c1) as Hc1.
  { apply (chain_ok_relay c (Inclusion.on_paras _)); [done|]. apply linked_paras, finalize_parachains. }
  change (number c) with (number c1). clearbody c1. clear c Hc. rename c1 into c, Hc1 into Hc.
  destruct (last (BufferedSessionChanges c)) as [x|] eqn:El; cbn [mbind option_bind].
  - apply last_Some_elem_of, (ck_buffer _ Hc) in El. rewrite El.
    destruct (apply_new_session_ok random_hash discovery accounts (session_of c + 1) (buffered_validators x)
      (buffered_queued x) _ _ _ (set_buffered [] c) (ck_relay _ Hc)) as
      (c' & -> & N1 & N2 & N3 & N4 & N5 & N6 & N7 & N8 & N9 & N10); [apply Hc|cbn; rewrite Z.add_simpl_r; apply Hc|].
    cbn [mbind option_bind]. eexists. split; [done|]. split; [|done].
    split; cbn in *; rewrite ?N6, ?N5, ?N1, ?N3, ?N4, ?N10; try done.
    + apply Hc.
    + pose proof (ck_number _ Hc). unfold u32_add, wrap32. apply Z.mod_le; lia.
    + apply (Configuration.session_ok (session_of c)); [lia|apply Hc].
    + apply periods_session, Hc.
    + by intros ? ?%elem_of_nil.
    + by rewrite N3 in N8.
    + by rewrite N3 in N9.
  - eexists. split; [done|]. split; [|done]. destruct Hc. split; cbn; try done.
    + destruct (HasInitialized c); lia.
    + by intros ? ?%elem_of_nil.
Qed.

Lemma block_ok_of c :
  chain_ok c → HasInitialized c = true →
  block_ok (env_of c) (Scheduler.SessionStartBlock (ParasInherent.scheduler (world c))).
Proof.
  intros Hc Hi. split; cbn.
  - pose proof (ck_start _ Hc) as Hs. rewrite Hi in Hs. lia.
  - pose proof (Configuration.cfg_active _ _ (ck_config _ Hc)) as Hg. unfold HostConfiguration.consistent,
      HostConfiguration.check_consistency in Hg. intros E. by rewrite decide_True in Hg.
Qed.

Lemma enter_ok (origin : O) ph vrf data c c' x :
  chain_ok c → HasInitialized c = true →
  enter code_hash_of first_message_factor_percent header_hash header_state_root max_block (A := A)
    origin ph vrf data c = Some (c', Ok x) → chain_ok c'.
Proof.
  intros Hc Hi. unfold enter. destruct (ParasInherent.enter _ _ _ _ _ _ _ _ _ _ _) as [[w r]|] eqn:E; cbn; [|done].
  intros [= <- ->]. eapply chain_ok_world; [done|]. unfold ParasInherent.enter in E.
  apply PM_bind_ok in E as (w1 & [] & Ea & E). injection Ea as <- _. apply PM_bind_ok in E as (w1 & inc & [= <- <-] & E).
  apply PM_bind_ok in E as (w1 & [] & Ea & E). injection Ea as <- _. apply PM_bind_ok in E as (w1 & [] & [= <-] & E).
  eapply (enter_inner_ok _ _ _ _ _ _ _ _ _ _ _ _ true); [|by apply block_ok_of|exact E]. destruct (ck_relay _ Hc). by split.
Qed.

Lemma channels_step_ok f c :
  chain_ok c →
  (∀ h, Hrmp.channels_ok (Hrmp.hrmp h) → HrmpRequests.requests_ok (Hrmp.hrmp h) →
    Hrmp.channels_ok (Hrmp.hrmp (f h)) ∧ HrmpRequests.requests_ok (Hrmp.hrmp (f h))) → chain_ok (on_channels f c).
Proof.
  intros [Hr K1 K2 K3 K4 K5 K6 K7] Hf. split; try done. destruct Hr as [? ? ? ? Hch Hreq]. split; cbn; try done; by apply Hf.
Qed.

Lemma sudo_step_ok f c :
  chain_ok c → (∀ w, ParasSudoWrapper.keeps w (f w)) → chain_ok (on_paras_and_channels f c).
Proof.
  intros Hc Hf. unfold on_paras_and_channels. set (w := f _). 
  destruct (Hf (ParasSudoWrapper.mkWorld (Inclusion.paras (relay_of c))
    (Hrmp.mkWorld (Inclusion.hrmp (relay_of c)) (Inclusion.dmp (relay_of c)) (currency c)))) as (K1 & K2 & K3).
  fold w in K1, K2, K3. cbn in K1, K2, K3. destruct (ck_relay _ Hc) as [? ? ? ? Hch Hreq].
  apply channels_step_ok; [|by intros _ _ _; auto]. apply chain_ok_relay; [done|]. by apply linked_paras.
Qed.

Lemma chain_step_ok c c' : step_checked c c' → chain_ok c → chain_ok c'.
Proof.
  intros [Hstep Hchecked]. revert Hchecked. destruct Hstep as [c|origin ph vrf data c c' wt Hi He|c w Hw|rh di ac c c' Hf|rh di ac vs q c c' Hb Hs Hn|keys c|
    po or call c Hmax Hper|po or call c|id g c|id c|id c|id c|po or call c|p m c|po or i wl c s x Hx|or c|
    po ef or n c|po or call c]; intros Hchecked Hc.
  - by apply initialize_ok.
  - by eapply enter_ok.
  - eapply chain_ok_world; [done|]. unfold ParasInherent.on_finalize in Hw.
    destruct (ParasInherent.Included (world c)); [|done]. injection Hw as <-. destruct (ck_relay _ Hc). by split.
  - destruct (finalize_ok rh di ac c Hc) as (c1 & E & Hc1 & _). congruence.
  - unfold on_new_session in Hs. rewrite decide_False in Hs by lia. injection Hs as <-. destruct Hc. split; cbn; try done.
    intros y. rewrite Hb. by intros ->%list_elem_of_singleton.
  - destruct Hc as [K0 K1 K2 K3 K4 K5 [K6 K6'] K7]. by split; [..|split|].
  - destruct Hc. split; cbn; try done.
    + by apply Configuration.run_dispatch_ok.
    + apply (run_preserves periods_ok); [done|]. by apply periods_dispatch.
  - apply chain_ok_relay; [done|]. apply linked_paras.
    set (P := λ s, ParasPallet.Parachains s = ParasPallet.Parachains (Inclusion.paras (relay_of c))).
    apply (run_preserves P); [done|]. apply dispatch_parachains.
  - apply chain_ok_relay; [done|]. apply linked_paras. unfold ParasPallet.schedule_para_initialize. unfold_dispatch.
    repeat (case_match; simplify_eq/=); done.
  - apply chain_ok_relay; [done|]. apply linked_paras. unfold ParasPallet.schedule_para_cleanup. unfold_dispatch.
    by repeat (case_match; simplify_eq/=).
  - apply chain_ok_relay; [done|]. apply linked_paras. unfold ParasPallet.schedule_parathread_upgrade. unfold_dispatch.
    by repeat (case_match; simplify_eq/=).
  - apply chain_ok_relay; [done|]. apply linked_paras. unfold ParasPallet.schedule_parachain_downgrade. unfold_dispatch.
    by repeat (case_match; simplify_eq/=).
  - apply channels_step_ok; [done|]. intros h Hch Hreq.
    pose proof (Hrmp.step_call encode_xcm (Configuration.ActiveConfig (configuration c))
      (ParasPallet.ParaLifecycles (Inclusion.paras (relay_of c))) (number c) po or call h) as Hstep.
    split; [by eapply Hrmp.step_channels_ok|by eapply HrmpRequests.step_requests_ok].
  - apply chain_ok_relay; [done|]. by apply linked_same.
  - eapply chain_ok_world; [done|]. destruct (ck_relay _ Hc). by split.
  - eapply chain_ok_world; [done|]. eapply relay_ok_same; [apply Hc|done..].
  - apply (run_preserves chain_ok); [done|]. unfold force_approve. unfold_dispatch.
    destruct (ef or); [|done]. destruct Hc. by split.
  - apply sudo_step_ok; [done|]. intros w. apply (run_preserves (ParasSudoWrapper.keeps w)); [done|].
    apply ParasSudoWrapper.dispatch_keeps.
Qed.

(** A block with the inherent is four steps, and only the last one can change
    the configuration. *)
Lemma block_steps (origin : O) ph vrf data rh discovery accounts c c' weight :
  execute_block code_hash_of first_message_factor_percent header_hash header_state_root max_block
    origin (number c + 1) ph vrf data rh discovery accounts c = Some (c', Ok weight) →
  ∃ c1, rtc (λ a b, step a b ∧ configuration b = configuration c) c c1 ∧ step c1 c'.
Proof.
  unfold execute_block. set (c1 := on_initialize _ c).
  destruct (enter _ _ _ _ _ _ _ _ _ c1) as [[c2 r]|] eqn:E1; cbn [mbind option_bind]; [|done].
  destruct (ParasInherent.on_finalize (world c2)) as [w|] eqn:E2; cbn [mbind option_bind]; [|done].
  destruct (on_finalize _ _ _ _ _) as [c3|] eqn:E3; cbn [mbind option_bind]; [|done]. intros [= -> ->].
  assert (configuration c2 = configuration c) as Hc2.
  { unfold enter in E1. destruct (ParasInherent.enter _ _ _ _ _ _ _ _ _ _ _) as [[w' r]|]; cbn in E1; [|done]. by injection E1 as <- _. }
  exists (set_world w c2). split; [|by eapply step_finalize].
  apply (rtc_l _ _ c1); [by split; [apply step_initialize|]|].
  apply (rtc_l _ _ c2); [by split; [eapply step_inherent|]|]. apply rtc_once. split; [by apply step_included|done].
Qed.

(** C1. The chain cannot get stuck: from a genesis with a consistent
    configuration, whatever blocks, calls and sessions have passed, the next
    block can be produced, provided that root has not turned off the consistency
    check of the configuration, that a session change is not announced while
    another waits in the same block, and that the configuration is not called in
    the last two sessions an index of 32 bits has.  A block with no bitfields,
    candidates and disputes goes through initialisation, inherent and
    finalisation, with a session change if one is due, without a panic or an
    error. *)
Theorem chain_never_stuck config p x b rh0 discovery0 accounts0 validators c0 c (origin : O) header ph vrf rh
    discovery accounts :
  HostConfiguration.consistent config = true → 0 ≤ dispute_period config → 0 ≤ max_block →
  on_new_session code_hash_of rh0 discovery0 accounts0 0 validators None (genesis config p x b) = Some c0 →
  rtc step_checked c0 c → ParasInherent.Included (world c) = false →
  is_Some (ensure_none origin) → header_hash header = ph →
  ∃ c' weight, execute_block code_hash_of first_message_factor_percent header_hash header_state_root max_block
    origin (number c + 1) ph vrf (ParasInherent.mkData [] [] [] header) rh discovery accounts c = Some (c', Ok weight).
Proof.
  intros Hcons Hper Hmax Hgen Hrtc Hinc Hor Hh.
  apply genesis_session_ok in Hgen; [|done..].
  assert (chain_ok c) as Hc by (revert Hgen; induction Hrtc as [|c1 c2 c3 Hs _ IH]; [done|]; intros Hc1; eauto using chain_step_ok).
  set (c1 := on_initialize (number c + 1) c). assert (chain_ok c1) as Hc1 by by apply initialize_ok.
  assert (∃ c2 wt, enter code_hash_of first_message_factor_percent header_hash header_state_root max_block
    origin ph vrf (ParasInherent.mkData [] [] [] header) c1 = Some (c2, Ok wt) ∧
    ParasInherent.Included (world c2) = true) as (c2 & wt & E2 & Hinc2).
  { unfold enter, ParasInherent.enter. rewrite (PM_bind_run _ _ _ (world c1) tt)
      by (unfold require; by rewrite bool_decide_eq_true_2).
    rewrite (PM_bind_run _ _ _ (world c1) false) by (unfold reads; cbn; by rewrite Hinc).
    rewrite (PM_bind_run _ _ _ (world c1) tt) by done.
    rewrite (PM_bind_run _ _ _ (ParasInherent.set_included true (world c1)) tt) by done.
    set (handler := Disputes.pallet_handler _).
    assert (relay_ok (ParasPallet.Parachains (Inclusion.paras (relay_of c1)))
      (Scheduler.SessionStartBlock (ParasInherent.scheduler (world c1))) true (ParasInherent.set_included true (world c1))) as Hr.
    { destruct (ck_relay _ Hc1). by split. }
    destruct (enter_inner_empty code_hash_of first_message_factor_percent header_hash header_state_root max_block
      (env_of c1) ph vrf header Inclusion.CheckYes _ _ _ _ Hr (block_ok_of c1 Hc1 eq_refl) Hh Hmax) as (w & wt & E).
    { intros d. by exists []. }
    rewrite E. cbn [mbind option_bind]. eexists _, _. split; [done|]. cbn.
    eapply enter_inner_ok in E; [|exact Hr|by apply (block_ok_of c1)]. apply E. }
  unfold execute_block. fold c1. rewrite E2. cbn [mbind option_bind].
  assert (chain_ok c2) as Hc2 by by eapply enter_ok.
  unfold ParasInherent.on_finalize. rewrite Hinc2. cbn [mbind option_bind].
  destruct (finalize_ok rh discovery accounts (set_world (ParasInherent.set_included false (world c2)) c2)) as (c3 & E3 & _).
  { eapply chain_ok_world; [done|]. destruct (ck_relay _ Hc2). by split. }
  rewrite E3. by eexists _, _.
Qed.

Lemma active_set session rh config (all : list ValidatorId) sh validators :
  Shared.initializer_on_new_session session rh config all = (sh, validators) →
  Shared.ActiveValidatorKeys sh = validators ∧ validators = take_active_subset (Shared.ActiveValidatorIndices sh) all ∧
  NoDup (Shared.ActiveValidatorIndices sh) ∧ (∀ i, i ∈ Shared.ActiveValidatorIndices sh → (i < length all)%nat) ∧
  length (Shared.ActiveValidatorIndices sh) =
    match max_validators config with Some m => Nat.min (Z.to_nat m) (length all) | None => length all end.
Proof.
  unfold Shared.initializer_on_new_session. pose proof (shuffle_perm (from_seed rh) (seq 0 (length all))) as Hp.
  destruct (shuffle _ _) as [r idx]. cbn in Hp. intros [= <- <-]. cbn -[take_active_subset].
  assert (NoDup idx) as Hnd by (rewrite Hp; apply NoDup_seq).
  assert (∀ i, i ∈ idx → (i < length all)%nat) as Hin by (intros i; rewrite Hp, elem_of_seq; lia).
  assert (length idx = length all) as Hlen by (by rewrite Hp, length_seq).
  split; [done|]. split; [done|]. case_match; [|done].
  split_and!; [by eapply sublist_NoDup; [|apply sublist_take]| |by rewrite length_take, Hlen].
  intros i Hi. apply Hin. by eapply elem_of_sublist; [apply sublist_take|].
Qed.

(** C19. The keys of a session belong together: a new session stores, for each
    active validator, its keys for validation, assignments, discovery and
    accounts at the same position, in a random selection without repetition of
    at most [max_validators]; the discovery keys of all others follow. *)
Theorem session_keys_aligned rh discovery accounts session all queued c c' :
  apply_new_session code_hash_of rh discovery accounts session all queued c = Some c' →
  length discovery = length all → length accounts = length all →
  length (SessionInfo.AssignmentKeysUnsafe (session_info c)) = length all →
  ∃ info keys, SessionInfo.Sessions (session_info c') !! session = Some info ∧
    SessionInfo.AccountKeys (session_info c') !! session = Some keys ∧
    SessionInfo.validators info = Shared.ActiveValidatorKeys (shared c') ∧
    NoDup (SessionInfo.active_validator_indices info) ∧
    length (SessionInfo.active_validator_indices info) =
      (match max_validators (Configuration.ActiveConfig (configuration c')) with
       | Some m => Nat.min (Z.to_nat m) (length all) | None => length all end) ∧
    SessionInfo.discovery_keys info ≡ₚ discovery ∧
    ∀ k i, SessionInfo.active_validator_indices info !! k = Some i →
      SessionInfo.validators info !! k = all !! i ∧ is_Some (all !! i) ∧
      SessionInfo.assignment_keys info !! k = SessionInfo.AssignmentKeysUnsafe (session_info c) !! i ∧
      SessionInfo.discovery_keys info !! k = discovery !! i ∧ keys !! k = accounts !! i.
Proof.
  intros E Hd Ha Hk. unfold apply_new_session in E.
  destruct (Configuration.initializer_on_new_session session (configuration c)) as [cs outcome] eqn:Ec.
  set (new_config := default _ _) in E.
  assert (new_config = Configuration.ActiveConfig cs) as Hnew.
  { unfold Configuration.initializer_on_new_session in Ec. unfold new_config.
    destruct (Configuration.PendingConfigs _); by injection Ec as <- <-. }
  clearbody new_config. subst new_config.
  destruct (Shared.initializer_on_new_session _ rh _ all) as [sh validators] eqn:Es.
  destruct (ParasPallet.initializer_on_new_session _ _ _ _ _ _) as [outgoing p]. cbv zeta in E.
  destruct (Hrmp.initializer_on_new_session _ _ _ _) as [h|]; cbn [mbind option_bind] in E; [|done].
  injection E as <-. cbn [session_info shared configuration]. unfold SessionInfo.initializer_on_new_session.
  cbn [note_session_index SessionInfo.Sessions SessionInfo.AccountKeys]. eexists _, _.
  rewrite !lookup_insert_eq. split; [done|]. split; [done|]. cbn -[take_active_subset take_active_subset_and_inactive].
  assert (SessionInfo.AssignmentKeysUnsafe (SessionInfo.move_window (dispute_period (Configuration.ActiveConfig cs))
    session (session_info c)) = SessionInfo.AssignmentKeysUnsafe (session_info c)) as ->.
  { unfold SessionInfo.move_window. case_decide; [|done]. cbn. apply remove_sessions. }
  apply active_set in Es as (-> & -> & Hnd' & Hin' & Hlen'). set (active := Shared.ActiveValidatorIndices sh) in *.
  split_and!; [done|done|done|apply take_all_perm; [done|by rewrite Hd]|].
  intros k i Hi. assert (i < length all)%nat as Hlt by (by apply Hin'; eapply list_elem_of_lookup_2).
  assert (∀ {X} (l : list X), length l = length all → take_active_subset active l !! k = l !! i) as Htake.
  { intros X l Hl. rewrite (proj1 (take_active_lookup active l k ltac:(by rewrite Hl))), Hi. done. }
  split_and!; [by apply Htake|by apply lookup_lt_is_Some_2|by apply Htake| |by apply Htake].
  unfold take_active_subset_and_inactive. cbn. rewrite lookup_app_l; [by apply Htake|].
  rewrite (proj2 (take_active_lookup active discovery k ltac:(by rewrite Hd))). by eapply lookup_lt_Some.
Qed.
End Chain.

(** ** Examples: three validators, a parachain, and a period of one session *)

Section Examples.
#[local] Existing Instances Hrmp.example_hash Hrmp.example_currency Ump.byte_sink InclusionAvailability.example_blake2
  InclusionAvailability.example_signatures InherentSelection.pending_iter InherentSelection.dispute_iter
  InherentSelection.no_shuffle InherentSelection.test_weights.
#[local] Abbreviation ExampleChain := (Initializer.Chain (CollatorId := Z) (CollatorSignature := unit) (ValidatorId := Z)
  (ValidatorSignature := Z) (AssignmentId := Z) (DiscoveryId := Z) (AccountId := Z) (H := list byte)
  (W := list Ump.UpwardMessage) (B := gmap ParaId Z)).
#[local] Abbreviation Origin := (RuntimeOrigin Z).

Definition chain_config : HostConfiguration :=
  fold_left (λ c call, Configuration.updater call c)
    [Configuration.set_dispute_period 1; Configuration.set_max_validators (Some 2);
     Configuration.set_validation_upgrade_delay 9; Configuration.set_minimum_validation_upgrade_delay 8] InherentSelection.inherent_config.
Definition chain_genesis : ExampleChain :=
  genesis chain_config (ParasPallet.upd_Parachains (λ _, [2000]) InclusionAvailability.example_para_state) [] ∅.
Definition chain_keys : ExampleChain → ExampleChain := λ c,
  Initializer.mkChain (Initializer.number c) (Initializer.configuration c) (Initializer.shared c) (Initializer.world c)
    (SessionInfo.on_new_session [20; 21; 22] (Initializer.session_info c)) (Initializer.currency c)
    (Initializer.HasInitialized c) (Initializer.BufferedSessionChanges c) (Initializer.ForceApproved c).
Definition chain_first : option ExampleChain :=
  Initializer.on_new_session (λ _, 0) 5 [30; 31; 32] [40; 41; 42] 0 [10; 11; 12] None chain_genesis.
Definition chain_start : ExampleChain := default chain_genesis chain_first.

(** The keys of the next session, and a block that starts it. *)
Definition chain_rotate (c : ExampleChain) : ExampleChain :=
  default c (Initializer.on_new_session (λ _, 0) 5 [30; 31; 32] [40; 41; 42]
    (Shared.CurrentSessionIndex (Initializer.shared c) + 1) [10; 11; 12] (Some [10; 11; 12]) c).
Definition chain_block (sets : list (Disputes.DisputeStatementSet Z)) (c : ExampleChain) :
    option (ExampleChain * result ParasInherent.EnterError Weight) :=
  Initializer.execute_block (λ _, 0) 100 id (λ _, 1) 1_000_000 (NoOrigin : Origin) (Initializer.number c + 1) 9 None
    (ParasInherent.mkData [] [] sets 9) 5 [30; 31; 32] [40; 41; 42] c.
Definition chain_next (sets : list (Disputes.DisputeStatementSet Z)) (c : ExampleChain) : ExampleChain :=
  match chain_block sets (chain_rotate (chain_keys c)) with Some (c, _) => c | None => c end.

(** Steps of this chain, which keep the configuration. *)
Definition chain_step (c c' : ExampleChain) : Prop :=
  step (ValidatorSignature := Z) (O := Origin) (λ _, 0) (λ _ _ _, true) (λ _, []) (λ _, None) 100 id (λ _, 1) 1_000_000
    c c' ∧ Initializer.configuration c' = Configuration.mkState chain_config [] false.

Lemma chain_next_steps sets c c' weight :
  chain_block sets (chain_rotate (chain_keys c)) = Some (c', Ok weight) →
  Initializer.BufferedSessionChanges c = [] → 0 ≤ Shared.CurrentSessionIndex (Initializer.shared c) →
  Initializer.configuration c = Configuration.mkState chain_config [] false →
  Initializer.configuration c' = Configuration.mkState chain_config [] false → rtc chain_step c c'.
Proof.
  intros E Hb Hs Hc Hc'. apply (block_steps _ (λ _ _ _, true) (λ _, []) (λ _, None)) in E as (c1 & Hr & Hl).
  assert (Initializer.on_new_session (λ _, 0) 5 [30; 31; 32] [40; 41; 42]
    (Shared.CurrentSessionIndex (Initializer.shared (chain_keys c)) + 1) [10; 11; 12] (Some [10; 11; 12]) (chain_keys c) =
    Some (chain_rotate (chain_keys c))) as Er.
  { unfold chain_rotate, Initializer.on_new_session. cbn [Initializer.shared chain_keys]. by rewrite decide_False by lia. }
  assert (Initializer.configuration (chain_rotate (chain_keys c)) = Initializer.configuration c) as Ec.
  { unfold Initializer.on_new_session in Er. cbn [Initializer.shared chain_keys] in Er. rewrite decide_False in Er by lia.
    by injection Er as <-. }
  rewrite Ec, Hc in Hr. apply (rtc_l _ _ (chain_keys c)); [by split; [apply step_assignment_keys|]|].
  apply (rtc_l _ _ (chain_rotate (chain_keys c))); [by split; [eapply step_session_key|by rewrite Ec]|].
  by eapply rtc_r; [exact Hr|split].
Qed.

(** A dispute of session 0, with a vote on either side, and two sessions later. *)
Definition chain_dispute : Disputes.DisputeStatementSet Z :=
  Disputes.mkSet 42 0 [DisputesTheorems.for_ 0; DisputesTheorems.against 1].
Definition chain_disputed : ExampleChain := chain_next [chain_dispute] chain_start.
Definition chain_later : ExampleChain := chain_next [] (chain_next [] chain_disputed).

Lemma chain_disputed_steps : rtc chain_step chain_start chain_disputed.
Proof. apply (chain_next_steps [chain_dispute] _ _ 240000); by vm_compute. Qed.

Lemma chain_later_steps : rtc chain_step chain_disputed chain_later.
Proof.
  transitivity (chain_next [] chain_disputed); apply (chain_next_steps [] _ _ 0); by vm_compute.
Qed.

Lemma chain_never_stuck_witness :
  ∃ c' weight, chain_block [] chain_disputed = Some (c', Ok weight).
Proof.
  refine (chain_never_stuck (λ _, 0) (λ _ _ _, true) (λ _, []) (λ _, None) 100 id (λ _, 1) 1_000_000 chain_config
    (ParasPallet.upd_Parachains (λ _, [2000]) InclusionAvailability.example_para_state) [] ∅ 5 [30; 31; 32] [40; 41; 42]
    [10; 11; 12] chain_start chain_disputed (NoOrigin : Origin) 9 9 None 5 [30; 31; 32] [40; 41; 42] _ _ _ _ _ _ _ _).
  - vm_compute. reflexivity.
  - vm_compute. discriminate.
  - lia.
  - vm_compute. reflexivity.
  - eapply rtc_subrel, chain_disputed_steps. intros ? ? [Hs Hc]. split; [exact Hs|by rewrite Hc].
  - vm_compute. reflexivity.
  - eexists. vm_compute. reflexivity.
  - reflexivity.
Defined.

Lemma session_keys_aligned_witness :
  ∃ c', Initializer.apply_new_session (λ _, 0) 5 [30; 31; 32] [40; 41; 42] 1 [10; 11; 12] [10; 11; 12]
      (chain_keys chain_start) = Some c' ∧
  ∃ info keys, SessionInfo.Sessions (Initializer.session_info c') !! 1 = Some info ∧
    SessionInfo.AccountKeys (Initializer.session_info c') !! 1 = Some keys ∧
    length (SessionInfo.active_validator_indices info) = 2%nat ∧ SessionInfo.discovery_keys info ≡ₚ [30; 31; 32].
Proof.
  destruct (Initializer.apply_new_session (λ _, 0) 5 [30; 31; 32] [40; 41; 42] 1 [10; 11; 12] [10; 11; 12]
      (chain_keys chain_start)) as [c'|] eqn:E; [|vm_compute in E; discriminate].
  exists c'. split; [reflexivity|].
  destruct (session_keys_aligned (λ _, 0) 5 [30; 31; 32] [40; 41; 42] 1 [10; 11; 12] [10; 11; 12] (chain_keys chain_start) c'
    E eq_refl eq_refl eq_refl) as (info & keys & E1 & E2 & _ & _ & E3 & E4 & _).
  exists info, keys. split; [exact E1|]. split; [exact E2|]. split; [|exact E4]. rewrite E3.
  vm_compute in E. injection E as <-. reflexivity.
Defined.
End Examples.
End RelayChain.
