(* ===== verification/SessionDisputes.v ===== *)
(** * What is kept of past disputes

    The disputes pallet drops the data of a session when it leaves the window of
    sessions that [session_info] keeps: a theorem about both pallets, with the
    one session for which it does not happen. *)

From S2P Require Import Prelude.
From S2P Require Import Vectors.
From S2P Require Import Codec.
From S2P Require Import XcmTypes.
From S2P Require Import Frame.
From S2P Require Import Configuration.
From S2P Require Import Paras.
From S2P Require Import Dmp.
From S2P Require Import Ump.
From S2P Require Import Hrmp.
From S2P Require Import HrmpRequests.
From S2P Require Import Scheduler.
From S2P Require Import ParasPallet.
From S2P Require Import ParasInvariant.
From S2P Require Import Candidates.
From S2P Require Import Disputes.
From S2P Require Import DisputesVotes.
From S2P Require Import DisputesTheorems.
From S2P Require Import Inclusion.
From S2P Require Import InclusionBacking.
From S2P Require Import InherentData.
From S2P Require Import InclusionAvailability.
From S2P Require Import InclusionMessages.
From S2P Require Import ParasInherent.
From S2P Require Import InherentSelection.
From S2P Require Import Initializer.
From S2P Require Import RelayChain.
Import Candidates Disputes.

Module SessionDisputes.

Section Data.
Implicit Types (s : State).

(** There is something stored for the session. *)
Definition has_data (session : SessionIndex) s : Prop :=
  (∃ h, is_Some (DisputesMap s !! (session, h))) ∨ (∃ h, is_Some (Included s !! (session, h))) ∨
  is_Some (SpamSlots s !! session).

(** Data are added for the sessions of [K] only, and none are removed. *)
Record grows (K : SessionIndex → Prop) s s' : Prop := {
  gr_data session : has_data session s' → has_data session s ∨ K session;
  gr_disputes k : is_Some (DisputesMap s !! k) → is_Some (DisputesMap s' !! k);
  gr_included k : is_Some (Included s !! k) → is_Some (Included s' !! k);
  gr_spam k : is_Some (SpamSlots s !! k) → is_Some (SpamSlots s' !! k);
  gr_last : LastPrunedSession s' = LastPrunedSession s;
}.

Lemma grows_refl K s : grows K s s.
Proof. split; try done. by left. Qed.

Lemma grows_trans (K : SessionIndex → Prop) s1 s2 s3 : grows K s1 s2 → grows K s2 s3 → grows K s1 s3.
Proof.
  intros [A1 A2 A3 A4 A5] [B1 B2 B3 B4 B5]. split; [|auto..|congruence].
  intros x [Hx%A1|?]%B1; auto.
Qed.

(** Storage that differs by insertions at sessions of [K]. *)
Lemma grows_maps (K : SessionIndex → Prop) s s' :
  (∀ k, is_Some (DisputesMap s' !! k) ↔ is_Some (DisputesMap s !! k) ∨
     is_Some (DisputesMap s' !! k) ∧ K k.1) →
  (∀ k, is_Some (Included s' !! k) ↔ is_Some (Included s !! k) ∨ is_Some (Included s' !! k) ∧ K k.1) →
  (∀ k, is_Some (SpamSlots s' !! k) ↔ is_Some (SpamSlots s !! k) ∨ is_Some (SpamSlots s' !! k) ∧ K k) →
  LastPrunedSession s' = LastPrunedSession s → grows K s s'.
Proof.
  intros H1 H2 H3 H4. split; [|intros k Hk; apply H1 || apply H2 || apply H3; by left..|done].
  intros x [[h Hh]|[[h Hh]|Hh]].
  - apply H1 in Hh as [Hh|[_ Hh]]; [left; left; eauto|by right].
  - apply H2 in Hh as [Hh|[_ Hh]]; [left; right; left; eauto|by right].
  - apply H3 in Hh as [Hh|[_ Hh]]; [left; right; by right|by right].
Qed.

Lemma grows_insert_dispute (K : SessionIndex → Prop) k d s :
  K k.1 → grows K s (set_disputes (insert k d) s).
Proof.
  intros Hk. apply grows_maps; cbn; [|tauto..|done]. intros j. rewrite lookup_insert. case_decide; [|tauto].
  subst. split; [by right|by eauto].
Qed.

Lemma grows_insert_spam (K : SessionIndex → Prop) k slots s : K k → grows K s (set_spam (insert k slots) s).
Proof.
  intros Hk. apply grows_maps; cbn; [tauto|tauto| |done]. intros j. rewrite lookup_insert. case_decide; [|tauto].
  subst. split; [by right|by eauto].
Qed.

(** Changes of the other items. *)
Lemma grows_same K s s' :
  DisputesMap s' = DisputesMap s → Included s' = Included s → SpamSlots s' = SpamSlots s →
  LastPrunedSession s' = LastPrunedSession s → grows K s s'.
Proof. intros E1 E2 E3 E4. apply grows_maps; rewrite ?E1, ?E2, ?E3; tauto. Qed.

Lemma freeze_last r s : LastPrunedSession (revert_and_freeze r s) = LastPrunedSession s.
Proof. unfold revert_and_freeze. by repeat case_match. Qed.

Lemma grows_freeze K r s : grows K s (revert_and_freeze r s).
Proof.
  destruct (DisputesTheorems.freeze_frame r s) as [(E1 & E2 & E3 & _) _]. apply grows_same; [done..|apply freeze_last].
Qed.

Lemma note_included_grows (K : SessionIndex → Prop) session h n s :
  K session → grows K s (note_included session h n s).
Proof.
  intros Hk. unfold note_included. case_decide; [apply grows_refl|]. set (s1 := set_included _ s).
  assert (grows K s s1) as G1.
  { apply grows_maps; cbn; [tauto| |tauto|done]. intros j. rewrite lookup_insert. case_decide; [|tauto].
    subst. split; [by right|by eauto]. }
  destruct (DisputesMap s1 !! _) as [d|]; [|done]. eapply grows_trans; [exact G1|].
  set (s2 := set_spam _ s1). assert (grows K s1 s2) as G2.
  { apply grows_maps; cbn; [tauto|tauto| |done]. intros j. rewrite lookup_alter. case_decide; subst; rewrite ?fmap_is_Some; tauto. }
  case_match; [|done]. eapply grows_trans; [exact G2|apply grows_freeze].
Qed.

Lemma time_out_grows (K : SessionIndex → Prop) config now s x :
  K x.1.1 → grows K s (time_out config now s x).
Proof.
  destruct x as [[session h] d]. unfold time_out. cbn [fst]. intros Hk. case_decide; [|apply grows_refl].
  set (s1 := set_disputes _ _). assert (grows K s s1) as G1.
  { eapply grows_trans; [|by apply grows_insert_dispute]. by apply grows_same. }
  case_decide; [done|]. destruct (SpamSlots s1 !! session) as [slots|]; [|done].
  destruct (decrement_spam _ _) as [part slots'] eqn:Ed. eapply grows_trans; [exact G1|]. eapply grows_trans.
  - by apply (grows_insert_spam K session slots' s1).
  - by apply grows_same.
Qed.

Lemma initialize_grows `{!StorageIter (SessionIndex * CandidateHash) DisputeState} (K : SessionIndex → Prop) config now s :
  grows K s (initializer_initialize config now s).
Proof.
  unfold initializer_initialize. set (l := storage_iter _).
  assert (∀ x, x ∈ l → has_data x.1.1 s) as Hl.
  { intros [[session h] d] Hx. left. exists h. unfold l in Hx. rewrite storage_iter_perm in Hx.
    apply elem_of_map_to_list in Hx. by eexists. }
  assert (∀ s', grows (λ x, has_data x s) s' (foldl (time_out config now) s' l)) as Hf.
  { clearbody l. induction l as [|x l IH]; intros s'; cbn [foldl]; [apply grows_refl|].
    eapply grows_trans; [apply (time_out_grows _ config now s' x); apply Hl; left|]. apply IH. intros y Hy. apply Hl. by right. }
  destruct (Hf s) as [A1 A2 A3 A4 A5]. split; auto. intros x [?|?]%A1; by left.
Qed.
End Data.

(** ** Votes *)

Section Votes.
Context {CollatorId CollatorSignature ValidatorId ValidatorSignature : Type}
  `{!Signatures CollatorId CollatorSignature ValidatorId ValidatorSignature}.
#[local] Abbreviation StatementSet := (DisputeStatementSet ValidatorSignature).
Implicit Types (env : ParasPallet.Env ValidatorId) (s : State)
  (session_info : SessionIndex → option (list ValidatorId)).

(** Votes are taken on sessions that [session_info] knows. *)
Lemma filter_grows env session_info (set : StatementSet) m a v s r s' :
  filter_dispute_data env session_info set m a v s = Some (r, s') →
  grows (λ x, is_Some (session_info x)) s s'.
Proof.
  unfold filter_dispute_data, filter_votes.
  destruct (session_info (set_session set)) as [vs|] eqn:Es; cbn [mbind option_bind];
    [|destruct (filter_statement_set _ _); cbn; intros [= <- <-] || done; apply grows_refl].
  assert (∀ f s1, (∃ slots, s1 = set_spam (insert (set_session set) slots) s) ∨ s1 = s →
    (set' ← filter_statement_set f set; Some (set', s1)) = Some (r, s') →
    grows (λ x, is_Some (session_info x)) s s') as Hend.
  { intros f s1 Hs1. destruct (filter_statement_set f set); cbn; [|done]. intros [= _ <-].
    destruct Hs1 as [[slots ->]| ->]; [|apply grows_refl]. apply grows_insert_spam. by rewrite Es. }
  case_match; [by apply Hend; right|]. destruct (foldl _ _ _) as [importer removed]. cbv zeta.
  case_decide; [by apply Hend; right|]. case_decide; [by apply Hend; right|].
  destruct (try_fold _ _ _) as [[slots removed']|]; cbn [mbind option_bind]; [|done]. apply Hend. left. by eexists.
Qed.

Lemma conclude_grows (K : SessionIndex → Prop) (set : StatementSet) fresh summary s :
  K (set_session set) → grows K s (conclude_import set fresh summary s).
Proof.
  intros Hk. unfold conclude_import. cbv zeta.
  match goal with |- context [set_disputes _ ?y] => set (s1 := y) end.
  assert (grows K s s1) as G1 by (apply grows_same; unfold s1; cbn; by repeat case_match).
  eapply grows_trans; [exact G1|]. eapply grows_trans; [by apply (grows_insert_dispute K (set_session set, set_candidate_hash set) (sum_state summary))|].
  repeat case_match; [apply grows_freeze|apply grows_refl..].
Qed.

Lemma process_grows env session_info (sets : list StatementSet) s :
  grows (λ x, is_Some (session_info x)) s (process_checked_multi_dispute_data env session_info sets s).1.
Proof.
  revert s. induction sets as [|set sets IH]; intros s; cbn; [apply grows_refl|].
  destruct (process_checked_dispute_data _ _ _ _ _) as [s1 r] eqn:E.
  assert (grows (λ x, is_Some (session_info x)) s s1) as G1.
  { revert E. unfold process_checked_dispute_data. destruct (session_info (set_session set)) eqn:Es; [|by intros [= <- _]; apply grows_refl].
    case_match; [by intros [= <- _]; apply grows_refl|]. case_match; [|by intros [= <- _]; apply grows_refl]. cbv zeta.
    case_decide; intros [= <- _]; [apply grows_refl|]. apply conclude_grows. by rewrite Es. }
  destruct r as [fresh|e]; [|done]. specialize (IH s1).
  destruct (process_checked_multi_dispute_data _ _ _ s1) as [s2 [l|e]]; by eapply grows_trans.
Qed.
End Votes.

(** ** The inherent *)

Section Inherent.
Context {CollatorId CollatorSignature ValidatorId ValidatorSignature H R W Header : Type}
  `{!EqDecision CollatorId}
  `{!Blake2 CollatorId CollatorSignature}
  `{!Signatures CollatorId CollatorSignature ValidatorId ValidatorSignature}
  `{!MessageHash H} `{!Ump.UmpSink W} `{!WeightInfo} `{!Rng R}
  `{!StorageIter ParaId (Inclusion.CandidatePendingAvailability (CollatorId := CollatorId) (CollatorSignature := CollatorSignature))}
  (code_hash_of : ValidationCode → Hash) (first_message_factor_percent : Weight)
  (header_hash header_state_root : Header → Hash) (max_block : Weight)
  (session_info : SessionIndex → option (list ValidatorId)) (env : ParasPallet.Env ValidatorId).
Import ParasInherent.
#[local] Abbreviation World := (ParasInherent.World (CollatorId := CollatorId) (CollatorSignature := CollatorSignature)
  (ValidatorSignature := ValidatorSignature) (H := H) (D := Disputes.State) (W := W)).
#[local] Instance handler : DisputesHandler ValidatorId ValidatorSignature Disputes.State := pallet_handler session_info.

(** The sessions with data after the inherent: those known and the current one. *)
Definition votable (x : SessionIndex) : Prop := is_Some (session_info x) ∨ x = ParasPallet.session_index env.

(** What a step of the inherent does with the disputes. *)
Definition grows_by {X} (m : PM World EnterError X) : Prop :=
  ∀ w w' x, m w = Some (w', Ok x) → grows votable (disputes w) (disputes w').

Lemma grows_weaken (K K' : SessionIndex → Prop) s s' : (∀ x, K x → K' x) → grows K s s' → grows K' s s'.
Proof. intros HK []. split; auto. intros x [?|?]%gr_data0; auto. Qed.

Lemma grows_bind {X Y} (m : PM World EnterError X) (f : X → PM World EnterError Y) :
  grows_by m → (∀ x, grows_by (f x)) → grows_by (m ≫= f).
Proof. intros Hm Hf w w' y (w1 & x & E1 & E2)%PM_bind_ok. eapply grows_trans; [by eapply Hm|by eapply Hf]. Qed.

Lemma grows_pure {X} (x : X) : grows_by (mret x).
Proof. intros w w' y [= <- _]. apply grows_refl. Qed.

Lemma grows_reads {X} (f : World → X) : grows_by (reads f).
Proof. intros w w' y [= <- _]. apply grows_refl. Qed.

Lemma grows_writes f : (∀ w, disputes (f w) = disputes w) → grows_by (writes f).
Proof. intros Hf w w' y [= <-]. rewrite Hf. apply grows_refl. Qed.

Lemma grows_expect {X} (o : option X) : grows_by (expect o).
Proof. intros w w' y [_ ->]%expect_ok. apply grows_refl. Qed.

Lemma grows_attempt {X E} (f : E → EnterError) (r : result E X) : grows_by (attempt f r).
Proof. intros w w' y [= <- _]. apply grows_refl. Qed.

Lemma grows_require b e : grows_by (require b e).
Proof. intros w w' y [= <- _]. apply grows_refl. Qed.

Ltac grows_step :=
  match goal with
  | |- ∀ _, grows_by _ => intros ?
  | |- grows_by (_ ≫= _) => apply grows_bind
  | |- grows_by (mret _) => apply grows_pure
  | |- grows_by (reads _) => apply grows_reads
  | |- grows_by (writes _) => apply grows_writes; done
  | |- grows_by (expect _) => apply grows_expect
  | |- grows_by (attempt _ _) => apply grows_attempt
  | |- grows_by (require _ _) => apply grows_require
  | |- grows_by (match ?x with _ => _ end) => destruct x
  end.

Lemma free_disputed_grows disputed bits : grows_by (free_disputed env disputed bits).
Proof. unfold free_disputed. repeat grows_step. Qed.

Lemma collect_all_freed_grows l : grows_by (collect_all_freed_cores env l).
Proof. unfold collect_all_freed_cores. repeat grows_step. Qed.

Lemma reschedule_grows l : grows_by (reschedule env l).
Proof. unfold reschedule. repeat grows_step. Qed.

(** *** The disputes of the inherent *)

Lemma try_fold_keeps {S X} (P : S → Prop) (f : S → X → option S) l s s' :
  (∀ s x s', P s → f s x = Some s' → P s') → P s → try_fold f l s = Some s' → P s'.
Proof.
  intros Hf. revert s. induction l as [|x l IH]; intros s Hs; cbn; [by intros [= <-]|].
  destruct (f s x) eqn:E; cbn; [|done]. apply IH. by eapply Hf.
Qed.

Lemma limit_grows sets v rng d rng' checked wt d' :
  limit_and_sanitize_disputes sets (dispute_filter env v) max_block rng d = Some (rng', (checked, wt, d')) →
  grows votable d d'.
Proof.
  assert (∀ dss d1 r d2, dispute_filter env v dss d1 = Some (r, d2) → grows votable d d1 → grows votable d d2) as Hv.
  { intros dss d1 r d2 E G. eapply grows_trans; [exact G|]. eapply grows_weaken; [|eapply filter_grows; exact E]. by left. }
  unfold limit_and_sanitize_disputes. case_decide.
  - destruct (try_fold _ (take _ _) _) as [[[c1 w1] d1]|] eqn:E1; cbn [mbind option_bind]; [|done]. cbv zeta.
    destruct (InherentData.random_sel _ _ _ _ _) as [rng1 [w2 idx]].
    destruct (try_fold _ (merge_sort _ _) _) as [acc|] eqn:E2; cbn [mbind option_bind]; [|done]. intros [= <- ->].
    apply (try_fold_keeps (λ a, grows votable d a.2)) in E1; [|intros [[? ?] ?] ? ? ?|apply grows_refl].
    + apply (try_fold_keeps (λ a, grows votable d a.2)) in E2; [done| |done]. intros [[? ?] ?] ? ? ?.
      unfold take_remote. destruct (_ !! _) as [dss|]; cbn [mbind option_bind]; [|done].
      destruct (dispute_filter _ _ _ _) as [[r d2]|] eqn:Ef; cbn [mbind option_bind]; [|done]. intros [= <-]. destruct r; cbn; by eapply Hv.
    + unfold take_local. case_decide; [|by intros [= <-]].
      destruct (dispute_filter _ _ _ _) as [[r d2]|] eqn:Ef; cbn [mbind option_bind]; [|done]. intros [= <-]. destruct r; cbn; by eapply Hv.
  - destruct (try_fold _ _ _) as [[c1 d1]|] eqn:E1; cbn [mbind option_bind]; [|done]. intros [= <- <- <- <-].
    apply (try_fold_keeps (λ a, grows votable d a.2)) in E1; [done| |apply grows_refl]. intros [? ?] ? ? ?. unfold filter_all.
    destruct (dispute_filter _ _ _ _) as [[r d2]|] eqn:Ef; cbn [mbind option_bind]; [|done]. intros [= <-]. by eapply Hv.
Qed.

Lemma import_grows ph vrf full sets : grows_by (import_disputes max_block env ph vrf full sets).
Proof.
  intros w w' x E. unfold import_disputes in E. apply PM_bind_ok in E as (w1 & d & [= <- <-] & E).
  apply PM_bind_ok in E as (w1 & [rng [[checked wt] d]] & [El ->]%expect_ok & E). apply limit_grows in El.
  apply PM_bind_ok in E as (w1 & [] & [= <-] & E). apply PM_bind_ok in E as (w1 & d1 & [= <- <-] & E).
  cbn [disputes set_disputes] in E. pose proof (process_grows env session_info checked d) as G.
  cbn [Disputes.handler_process handler pallet_handler] in E.
  destruct (process_checked_multi_dispute_data _ _ _ _) as [d2 r].
  apply PM_bind_ok in E as (w1 & [] & [= <-] & E). apply PM_bind_ok in E as (w1 & l & Ea & E). injection Ea as <- _.
  injection E as <- _. cbn. eapply grows_trans; [exact El|]. eapply grows_weaken; [|exact G]. by left.
Qed.

Lemma process_paras_grows ph full data bits checked disputed :
  grows_by (process_paras code_hash_of first_message_factor_percent header_state_root env ph full data bits checked
    disputed).
Proof.
  unfold process_paras. repeat (grows_step || apply collect_all_freed_grows || apply reschedule_grows).
  intros w1 w2 [] [= <-]. cbn. match goal with |- grows _ _ (foldl _ _ ?l) => generalize l end. intros l.
  generalize (disputes w1). induction l as [|y l IH]; intros d; cbn; [apply grows_refl|].
  eapply grows_trans; [|apply IH]. apply note_included_grows. by right.
Qed.

Lemma enter_grows {O A : Type} `{!FrameOrigin O A} (origin : O) ph vrf data :
  grows_by (enter code_hash_of first_message_factor_percent header_hash header_state_root max_block
    origin env ph vrf data).
Proof.
  unfold enter, enter_inner. cbv zeta.
  repeat (grows_step || apply import_grows || apply free_disputed_grows || apply process_paras_grows).
Qed.
End Inherent.

(** ** Pruning *)

Section Pruning.
Implicit Types (s : State).

(** Two storages that agree on the data of a session. *)
Definition same_data (x : SessionIndex) s s' : Prop :=
  (∀ h, DisputesMap s' !! (x, h) = DisputesMap s !! (x, h)) ∧ (∀ h, Included s' !! (x, h) = Included s !! (x, h)) ∧
  SpamSlots s' !! x = SpamSlots s !! x.

Lemma has_data_same x s s' : same_data x s s' → has_data x s' ↔ has_data x s.
Proof. intros (E1 & E2 & E3). unfold has_data. setoid_rewrite E1. setoid_rewrite E2. by rewrite E3. Qed.

Lemma prune_lookup {X} (m : gmap (SessionIndex * CandidateHash) X) (y x : SessionIndex) h :
  filter (λ z, z.1.1 ≠ y) m !! (x, h) = if decide (x = y) then None else m !! (x, h).
Proof.
  case_decide as Hx.
  - apply map_lookup_filter_None. right. intros d _ Hd. by apply Hd.
  - apply option_eq. intros d. rewrite map_lookup_filter_Some. cbn. naive_solver.
Qed.

Lemma prune_data s l x :
  if decide (x ∈ l) then ¬ has_data x (foldl prune_session s l) else same_data x s (foldl prune_session s l).
Proof.
  revert s. induction l as [|y l IH]; intros s; cbn [foldl].
  { by rewrite decide_False by apply not_elem_of_nil. }
  assert (if decide (x = y) then ¬ has_data x (prune_session s y) else same_data x s (prune_session s y)) as Hy.
  { assert (∀ h, DisputesMap (prune_session s y) !! (x, h) = if decide (x = y) then None else DisputesMap s !! (x, h)) as E1
      by (intros h; apply prune_lookup).
    assert (∀ h, Included (prune_session s y) !! (x, h) = if decide (x = y) then None else Included s !! (x, h)) as E2
      by (intros h; apply prune_lookup).
    assert (SpamSlots (prune_session s y) !! x = if decide (x = y) then None else SpamSlots s !! x) as E3.
    { cbn. rewrite lookup_delete. repeat case_decide; congruence. }
    unfold has_data, same_data. case_decide; [|done]. setoid_rewrite E1. setoid_rewrite E2. rewrite E3.
    intros [[h [? [=]]]|[[h [? [=]]]|[? [=]]]]. }
  specialize (IH (prune_session s y)). destruct (decide (x ∈ l)) as [Hl|Hl].
  - by rewrite decide_True by by right.
  - destruct (decide (x = y)) as [->|Hne]; [rewrite decide_True by left|].
    + by rewrite (has_data_same _ _ _ IH).
    + rewrite decide_False by (rewrite elem_of_cons; tauto). destruct Hy as (A1 & A2 & A3), IH as (B1 & B2 & B3).
      split_and!; intros; congruence.
Qed.

(** Which session is pruned last, when the period does not change. *)
Definition last_pruned (p cur : SessionIndex) : option SessionIndex :=
  if decide (cur ≤ p + 1) then None else Some (cur - p - 1).

Lemma new_session_data config cur s :
  0 ≤ dispute_period config < u32_max → 0 ≤ cur < u32_max →
  LastPrunedSession s = last_pruned (dispute_period config) cur →
  let s' := initializer_on_new_session config (cur + 1) s in
  LastPrunedSession s' = last_pruned (dispute_period config) (cur + 1) ∧
  ∀ x, if decide (x = cur - dispute_period config ∧ 0 < x) then ¬ has_data x s' else same_data x s s'.
Proof.
  intros Hp Hc. unfold last_pruned, initializer_on_new_session, u32_add, u32_sub, wrap32, range_inclusive.
  unfold u32_max in *. set (p := dispute_period config) in *. rewrite (Z.mod_small (p + 1)) by lia.
  intros Hl. destruct (decide (cur + 1 ≤ p + 1)) as [Hn|Hn].
  { rewrite decide_True in Hl by lia. split; [done|]. intros x. case_decide; [lia|done]. }
  rewrite (Z.mod_small (cur + 1 - p)), (Z.mod_small (cur + 1 - p - 1)) by lia. cbn [LastPrunedSession set_last_pruned].
  split; [f_equal; lia|]. intros x.
  match goal with |- context [foldl prune_session s ?l] => assert (∀ y, y ∈ l ↔ y = cur - p) as Hin; [|pose proof (prune_data s l x) as Hx] end.
  { intros y. rewrite Hl. destruct (decide (cur ≤ p + 1)).
    - rewrite list_elem_of_singleton. lia.
    - rewrite (Z.mod_small (cur - p - 1 + 1)), elem_of_seqZ by lia. lia. }
  destruct (decide (x ∈ _)) as [Hi|Hi]; rewrite Hin in Hi.
  - by rewrite decide_True by lia.
  - by rewrite decide_False by tauto.
Qed.
End Pruning.

(** ** The chain *)

Section Chain.
Context {CollatorId CollatorSignature ValidatorId ValidatorSignature AssignmentId DiscoveryId AccountId
    H R W B Header O A : Type}
  `{!EqDecision CollatorId}
  `{!Blake2 CollatorId CollatorSignature}
  `{!Signatures CollatorId CollatorSignature ValidatorId ValidatorSignature}
  `{!MessageHash H} `{!Ump.UmpSink W} `{!ReservableCurrency B} `{!WeightInfo} `{!Rng R} `{!FrameOrigin O A}
  `{!StorageIter ParaId (Inclusion.CandidatePendingAvailability (CollatorId := CollatorId) (CollatorSignature := CollatorSignature))}
  `{!StorageIter (SessionIndex * CandidateHash) Disputes.DisputeState}
  (code_hash_of : ValidationCode → Hash) (verify : ValidatorSignature → list byte → ValidatorId → bool)
  (encode_xcm : Xcm → list byte) (ensure_overweight : O → option unit)
  (first_message_factor_percent : Weight)
  (header_hash header_state_root : Header → Hash) (max_block : Weight).
Import Initializer.
#[local] Abbreviation Chain := (Initializer.Chain (CollatorId := CollatorId) (CollatorSignature := CollatorSignature)
  (ValidatorId := ValidatorId) (ValidatorSignature := ValidatorSignature) (AssignmentId := AssignmentId)
  (DiscoveryId := DiscoveryId) (AccountId := AccountId) (H := H) (W := W) (B := B)).
#[local] Abbreviation disputes_of c := (ParasInherent.disputes (world c)).
#[local] Abbreviation session_of c := (Shared.CurrentSessionIndex (shared c)).
#[local] Abbreviation period_of c := (dispute_period (Configuration.ActiveConfig (configuration c))).
#[local] Abbreviation step := (RelayChain.step_checked code_hash_of verify encode_xcm ensure_overweight
  first_message_factor_percent header_hash header_state_root max_block).
Implicit Types (c : Chain).

(** A step of the chain with the consistency check on, under a period of
    disputes that does not change. *)
Definition step_within (p : SessionIndex) c c' : Prop := step c c' ∧ period_of c' = p.

Record disputes_ok (p : SessionIndex) c : Prop := {
  dk_chain : RelayChain.chain_ok c;
  dk_session : 0 ≤ session_of c;
  dk_earliest : SessionInfo.EarliestStoredSession (session_info c) = Z.max 0 (session_of c - p);
  dk_pruned : LastPrunedSession (disputes_of c) = last_pruned p (session_of c);
  dk_data x : has_data x (disputes_of c) → x ≠ 0 → Z.max 0 (session_of c - p) ≤ x ≤ session_of c;
}.

(** What a step does with the disputes: it adds data of stored sessions, or the
    session changes. *)
Inductive disputes_step (p : SessionIndex) c c' : Prop :=
| within_session :
    session_of c' = session_of c →
    SessionInfo.EarliestStoredSession (session_info c') = SessionInfo.EarliestStoredSession (session_info c) →
    grows (λ x, is_Some (SessionInfo.Sessions (session_info c) !! x) ∨ x = session_of c) (disputes_of c) (disputes_of c') →
    disputes_step p c c'
| next_session config :
    session_of c' = session_of c + 1 → dispute_period config = p →
    disputes_of c' = initializer_on_new_session config (session_of c + 1) (disputes_of c) →
    SessionInfo.EarliestStoredSession (session_info c') =
      SessionInfo.EarliestStoredSession (SessionInfo.move_window p (session_of c + 1) (session_info c)) →
    disputes_step p c c'.

Lemma apply_session_disputes rh discovery accounts session all queued c c' :
  apply_new_session code_hash_of rh discovery accounts session all queued c = Some c' →
  session_of c' = session ∧
  configuration c' = (Configuration.initializer_on_new_session session (configuration c)).1 ∧
  disputes_of c' = initializer_on_new_session (Configuration.ActiveConfig (configuration c')) session (disputes_of c) ∧
  SessionInfo.EarliestStoredSession (session_info c') =
    SessionInfo.EarliestStoredSession (SessionInfo.move_window (period_of c') session (session_info c)).
Proof.
  intros E. unfold apply_new_session in E.
  destruct (Configuration.initializer_on_new_session session (configuration c)) as [cs outcome].
  destruct (Shared.initializer_on_new_session _ _ _ _) as [sh validators] eqn:Es.
  destruct (ParasPallet.initializer_on_new_session _ _ _ _ _ _) as [outgoing ps]. cbv zeta in E.
  destruct (Hrmp.initializer_on_new_session _ _ _ _) as [h|]; cbn [mbind option_bind] in E; [|done].
  injection E as <-. cbn [session_info shared configuration world ParasInherent.disputes fst]. split; [|done].
  unfold Shared.initializer_on_new_session in Es. destruct (shuffle _ _). by injection Es as <- _.
Qed.

Lemma step_disputes p c c' :
  RelayChain.chain_ok c → step_within p c c' → disputes_step p c c'.
Proof.
  intros Hc [[Hs _] Hp]. revert Hc Hp.
  destruct Hs as [c|origin ph vrf data c c' wt Hi He|c w Hw|rh di ac c c' Hf|rh di ac vs q c c' Hb Hs Hn|keys c|
    po or call c Hmax Hper|po or call c|id g c|id c|id c|id c|po or call c|q m c|po or i wl c s x Hx|or c|
    po ef or n c|po or call c];
    intros Hc Hp; try (apply within_session; [done|done|apply grows_refl]).
  - apply within_session; [done|done|]. apply initialize_grows.
  - unfold enter in He. destruct (ParasInherent.enter _ _ _ _ _ _ _ _ _ _ _) as [[w r]|] eqn:E; cbn in He; [|done].
    injection He as <- ->. apply enter_grows in E. apply within_session; [done|done|]. eapply grows_weaken; [|exact E].
    intros x [Hx|Hx]; [left|by right]. unfold known_validators in Hx. by rewrite fmap_is_Some in Hx.
  - apply within_session; [done|done|]. unfold ParasInherent.on_finalize in Hw.
    destruct (ParasInherent.Included (world c)); [|done]. injection Hw as <-. apply grows_refl.
  - unfold on_finalize in Hf. set (c1 := set_buffered _ _) in Hf.
    destruct (last _) as [ch|] eqn:El; cbn [mbind option_bind] in Hf.
    + apply last_Some_elem_of, (RelayChain.ck_buffer _ Hc) in El.
      destruct (apply_new_session _ _ _ _ _ _ _ c1) as [c2|] eqn:E; cbn in Hf; [|done]. injection Hf as <-.
      apply apply_session_disputes in E as (E1 & _ & E2 & E3). rewrite El in E1, E2, E3. cbn in Hp. rewrite Hp in E3.
      by apply (next_session _ _ _ (Configuration.ActiveConfig (configuration c2))).
    + injection Hf as <-. apply within_session; [done|done|apply grows_refl].
  - unfold on_new_session in Hs. rewrite decide_False in Hs by lia. injection Hs as <-.
    apply within_session; [done|done|apply grows_refl].
  - apply within_session; [done|done|]. cbn [world set_world ParasInherent.disputes ParasInherent.set_disputes].
    unfold force_unfreeze. apply grows_same; unfold_dispatch; by destruct (ensure_root or).
  - set (P := λ c' : Chain, disputes_step p c c'). apply (run_preserves P).
    + by apply within_session; [..|apply grows_refl].
    + unfold P, force_approve. unfold_dispatch. destruct (ef or); by apply within_session; [..|apply grows_refl].
Qed.

Lemma disputes_step_ok p c c' :
  0 ≤ p < u32_max → session_of c' ≤ u32_max → disputes_ok p c → RelayChain.chain_ok c' → disputes_step p c c' → disputes_ok p c'.
Proof.
  intros Hp Hmax [Hc Hs He Hl Hd] Hc' [Es Ee Hg|config Es Ec Ed Ee].
  - split; rewrite ?Es, ?Ee, ?(gr_last _ _ _ Hg); [done..|]. intros x [Hx|[Hx| ->]]%(gr_data _ _ _ Hg) Hne; [by apply Hd| |lia].
    apply (RelayChain.wi_stored _ _ (RelayChain.ck_window _ Hc)) in Hx. by rewrite He in Hx.
  - rewrite Es in Hmax. destruct (new_session_data config (session_of c) (disputes_of c)) as [Hl' Hd'];
      rewrite ?Ec; [done|lia|done|]. rewrite Ec in Hl', Hd'. rewrite <-Ed in Hl', Hd'.
    split; rewrite ?Es; [done|lia| |done|].
    + rewrite Ee. unfold SessionInfo.move_window, saturating_sub. rewrite decide_True; [cbn; rewrite He; lia|].
      destruct (decide (SessionInfo.EarliestStoredSession (session_info c) = 0)) as [E|]; [|by left]. right.
      apply (RelayChain.wi_stored _ _ (RelayChain.ck_window _ Hc)). lia.
    + intros x Hx Hne. specialize (Hd' x). destruct (decide (x = session_of c - p ∧ 0 < x)) as [|Hno]; [done|].
      apply (has_data_same _ _ _ Hd') in Hx. specialize (Hd x Hx Hne). lia.
Qed.

Lemma session_grows p c c' : disputes_step p c c' → session_of c ≤ session_of c'.
Proof. intros [|]; lia. Qed.

Lemma steps_ok p c c' :
  0 ≤ p < u32_max → disputes_ok p c → rtc (step_within p) c c' →
  RelayChain.chain_ok c' ∧ (session_of c' ≤ u32_max → disputes_ok p c').
Proof.
  intros Hp Hc. revert c'. apply rtc_ind_r; [split; [apply Hc|done]|]. intros c1 c2 _ Hs [Hc1 IH].
  assert (RelayChain.chain_ok c2) as Hc2 by (eapply RelayChain.chain_step_ok; [apply Hs|done]). split; [done|]. intros Hmax.
  pose proof (step_disputes _ _ _ Hc1 Hs) as Hd. pose proof (session_grows _ _ _ Hd) as Hle.
  eapply disputes_step_ok; [done|done| |done|exact Hd]. apply IH. lia.
Qed.

Lemma genesis_disputes_ok config ps x b rh discovery accounts validators c :
  HostConfiguration.consistent config = true → 0 ≤ dispute_period config < u32_max →
  on_new_session code_hash_of rh discovery accounts 0 validators None (RelayChain.genesis config ps x b) = Some c →
  disputes_ok (dispute_period config) c.
Proof.
  intros Hcons Hp E. assert (RelayChain.chain_ok c) as Hc by (eapply RelayChain.genesis_session_ok; [exact Hcons|lia|exact E]).
  unfold on_new_session in E. rewrite decide_True in E by done. apply apply_session_disputes in E as (E1 & Ec & E2 & E3).
  cbn in Ec. rewrite Ec in E2, E3. cbn [Configuration.ActiveConfig fst] in E2, E3.
  unfold initializer_on_new_session, u32_add, wrap32 in E2. unfold u32_max in Hp.
  rewrite Z.mod_small, decide_True in E2 by lia. split; rewrite ?E1, ?E2, ?E3; [done|done| | |].
  - unfold SessionInfo.move_window. rewrite decide_False; [cbn; lia|]. intros [?|[? [=]]]; done.
  - unfold last_pruned. by rewrite decide_True by lia.
  - intros y [[h [? [=]]]|[[h [? [=]]]|[? [=]]]].
Qed.

(** C12. Disputes are kept as long as their session: while the period of
    disputes is constant and the consistency check is on, the sessions stored
    are the current one and as many before it as the period says, and votes,
    inclusions and spam slots are stored for these sessions only, the very first
    session of the chain excepted. *)
Theorem disputes_kept_in_window config ps x b rh discovery accounts validators c0 c :
  HostConfiguration.consistent config = true → 0 ≤ dispute_period config < u32_max →
  on_new_session code_hash_of rh discovery accounts 0 validators None (RelayChain.genesis config ps x b) = Some c0 →
  rtc (step_within (dispute_period config)) c0 c → session_of c ≤ u32_max →
  (∀ session, is_Some (SessionInfo.Sessions (session_info c) !! session) ↔
     0 ≤ session ∧ session_of c - dispute_period config ≤ session ≤ session_of c) ∧
  (∀ session, session ≠ 0 → has_data session (disputes_of c) →
     is_Some (SessionInfo.Sessions (session_info c) !! session)).
Proof.
  intros Hcons Hp Hg Hrtc Hmax. apply genesis_disputes_ok in Hg; [|done..].
  destruct (steps_ok _ _ _ Hp Hg Hrtc) as [Hc Hok]. specialize (Hok Hmax).
  assert (∀ y, is_Some (SessionInfo.Sessions (session_info c) !! y) ↔
     0 ≤ y ∧ session_of c - dispute_period config ≤ y ≤ session_of c) as Hw.
  { intros y. rewrite (RelayChain.wi_stored _ _ (RelayChain.ck_window _ Hc)), (dk_earliest _ _ Hok). lia. }
  split; [done|]. intros y Hne Hy. apply (dk_data _ _ Hok) in Hy; [|done]. rewrite Hw. lia.
Qed.

(** C37. The exception: while the period of disputes is constant and the
    consistency check is on, what is stored about a dispute or an inclusion of
    the first session is never removed, however many sessions pass. *)
Theorem first_session_never_pruned config ps x b rh discovery accounts validators c0 c1 c2 h :
  HostConfiguration.consistent config = true → 0 ≤ dispute_period config < u32_max →
  on_new_session code_hash_of rh discovery accounts 0 validators None (RelayChain.genesis config ps x b) = Some c0 →
  rtc (step_within (dispute_period config)) c0 c1 → rtc (step_within (dispute_period config)) c1 c2 →
  session_of c2 ≤ u32_max →
  (is_Some (DisputesMap (disputes_of c1) !! (0, h)) → is_Some (DisputesMap (disputes_of c2) !! (0, h))) ∧
  (is_Some (Included (disputes_of c1) !! (0, h)) → is_Some (Included (disputes_of c2) !! (0, h))).
Proof.
  intros Hcons Hp Hg Hr1 Hr2. apply genesis_disputes_ok in Hg; [|done..].
  pose proof (λ c, steps_ok _ _ c Hp Hg) as Hok. revert c2 Hr2. apply (rtc_ind_r (λ c2, _ → _)); [done|].
  intros c2 c3 Hr2 Hs IH Hmax. destruct (Hok c2) as [Hc2 Hd2]; [by etrans|].
  pose proof (step_disputes _ _ _ Hc2 Hs) as Hd. pose proof (session_grows _ _ _ Hd) as Hle.
  specialize (Hd2 ltac:(lia)). destruct (IH ltac:(lia)) as [I1 I2].
  destruct Hd as [_ _ Hgr|cfg Es Ec Ed _].
  - split; intros ?; apply Hgr; auto.
  - rewrite Es in Hmax. destruct (new_session_data cfg (session_of c2) (disputes_of c2)) as [Hl Hsame];
      rewrite ?Ec; [done|pose proof (dk_session _ _ Hd2); lia|by apply dk_pruned|]. specialize (Hsame 0). rewrite decide_False in Hsame by lia.
    rewrite <-Ed in Hsame. destruct Hsame as (-> & -> & _). auto.
Qed.
End Chain.

(** ** Example: session 0 has left the window, its dispute has not *)

Section Examples.
#[local] Existing Instances Hrmp.example_hash Hrmp.example_currency Ump.byte_sink InclusionAvailability.example_blake2
  InclusionAvailability.example_signatures InherentSelection.pending_iter InherentSelection.dispute_iter
  InherentSelection.no_shuffle InherentSelection.test_weights.
Import RelayChain.

#[local] Abbreviation steps := (rtc (step_within (ValidatorSignature := Z) (O := RuntimeOrigin Z) (λ _, 0) (λ _ _ _, true)
  (λ _, []) (λ _, None) 100 id (λ _, 1) 1_000_000 1)).

Lemma chain_steps_within c c' : rtc chain_step c c' → steps c c'.
Proof. apply rtc_subrel. intros a b [Hs Hc]. split; [split; [exact Hs|]|]; by rewrite Hc. Qed.

Lemma disputes_kept_in_window_witness :
  (∀ session, is_Some (SessionInfo.Sessions (Initializer.session_info chain_later) !! session) ↔
     0 ≤ session ∧ 2 ≤ session ≤ 3) ∧
  (∀ session, session ≠ 0 → has_data session (ParasInherent.disputes (Initializer.world chain_later)) →
     is_Some (SessionInfo.Sessions (Initializer.session_info chain_later) !! session)).
Proof.
  refine (disputes_kept_in_window (λ _, 0) (λ _ _ _, true) (λ _, []) (λ _, None) 100 id (λ _, 1) 1_000_000 chain_config
    (ParasPallet.upd_Parachains (λ _, [2000]) InclusionAvailability.example_para_state) [] ∅ 5 [30; 31; 32] [40; 41; 42]
    [10; 11; 12] chain_start chain_later _ _ _ _ _).
  - vm_compute. reflexivity.
  - vm_compute. split; [discriminate|reflexivity].
  - vm_compute. reflexivity.
  - apply chain_steps_within. etrans; [exact chain_disputed_steps|exact chain_later_steps].
  - vm_compute. discriminate.
Defined.

Lemma first_session_never_pruned_witness :
  SessionInfo.Sessions (Initializer.session_info chain_later) !! 0 = None ∧
  is_Some (DisputesMap (ParasInherent.disputes (Initializer.world chain_later)) !! (0, 42)).
Proof.
  split; [vm_compute; reflexivity|].
  refine (proj1 (first_session_never_pruned (λ _, 0) (λ _ _ _, true) (λ _, []) (λ _, None) 100 id (λ _, 1) 1_000_000 chain_config
    (ParasPallet.upd_Parachains (λ _, [2000]) InclusionAvailability.example_para_state) [] ∅ 5 [30; 31; 32] [40; 41; 42]
    [10; 11; 12] chain_start chain_disputed chain_later 42 _ _ _ _ _ _) _).
  - vm_compute. reflexivity.
  - vm_compute. split; [discriminate|reflexivity].
  - vm_compute. reflexivity.
  - apply chain_steps_within. exact chain_disputed_steps.
  - apply chain_steps_within. exact chain_later_steps.
  - vm_compute. discriminate.
  - eexists. vm_compute. reflexivity.
Defined.
End Examples.
End SessionDisputes.
