(* ===== verification/SlotRange.v ===== *)
(** * Ranges of lease periods

    The enumeration that [generate_slot_range!] makes for [slot_range.rs]: the
    sub-ranges of eight consecutive lease periods, numbered in the order of
    their declaration ([runtime/common/slot_range_helper], [slot_range.rs]). *)

From S2P Require Import Prelude.

Module SlotRange.

Inductive SlotRange :=
| ZeroZero | ZeroOne | ZeroTwo | ZeroThree | ZeroFour | ZeroFive | ZeroSix | ZeroSeven | OneOne | OneTwo |
OneThree | OneFour | OneFive | OneSix | OneSeven | TwoTwo | TwoThree | TwoFour | TwoFive | TwoSix | TwoSeven |
ThreeThree | ThreeFour | ThreeFive | ThreeSix | ThreeSeven | FourFour | FourFive | FourSix | FourSeven |
FiveFive | FiveSix | FiveSeven | SixSix | SixSeven | SevenSeven.

#[export] Instance slot_range_eq_dec : EqDecision SlotRange.
Proof. solve_decision. Defined.

(** The variants in the order of their declaration. *)
Definition variants : list SlotRange :=
  [ZeroZero; ZeroOne; ZeroTwo; ZeroThree; ZeroFour; ZeroFive; ZeroSix; ZeroSeven; OneOne; OneTwo; OneThree;
   OneFour; OneFive; OneSix; OneSeven; TwoTwo; TwoThree; TwoFour; TwoFive; TwoSix; TwoSeven; ThreeThree;
   ThreeFour; ThreeFive; ThreeSix; ThreeSeven; FourFour; FourFive; FourSix; FourSeven; FiveFive; FiveSix;
   FiveSeven; SixSix; SixSeven; SevenSeven].

Definition LEASE_PERIODS_PER_SLOT : nat := 8.
Definition SLOT_RANGE_COUNT : nat := length variants.

Definition as_pair (r : SlotRange) : nat * nat :=
  match r with
  | ZeroZero => (0, 0) | ZeroOne => (0, 1) | ZeroTwo => (0, 2) | ZeroThree => (0, 3) | ZeroFour => (0, 4) |
  ZeroFive => (0, 5) | ZeroSix => (0, 6) | ZeroSeven => (0, 7) | OneOne => (1, 1) | OneTwo => (1, 2) |
  OneThree => (1, 3) | OneFour => (1, 4) | OneFive => (1, 5) | OneSix => (1, 6) | OneSeven => (1, 7) | TwoTwo
  => (2, 2) | TwoThree => (2, 3) | TwoFour => (2, 4) | TwoFive => (2, 5) | TwoSix => (2, 6) | TwoSeven => (2,
  7) | ThreeThree => (3, 3) | ThreeFour => (3, 4) | ThreeFive => (3, 5) | ThreeSix => (3, 6) | ThreeSeven =>
  (3, 7) | FourFour => (4, 4) | FourFive => (4, 5) | FourSix => (4, 6) | FourSeven => (4, 7) | FiveFive => (5,
  5) | FiveSix => (5, 6) | FiveSeven => (5, 7) | SixSix => (6, 6) | SixSeven => (6, 7) | SevenSeven => (7, 7)
  end%nat.

(** [range as u8 as usize] *)
Definition index (r : SlotRange) : nat :=
  match list_find (λ r', r' = r) variants with Some (i, _) => i | None => 0 end.

Definition intersects (r other : SlotRange) : bool :=
  bool_decide ((as_pair other).1 ≤ (as_pair r).2 ∧ (as_pair r).1 ≤ (as_pair other).2)%nat.

Definition len (r : SlotRange) : nat := (as_pair r).2 - (as_pair r).1 + 1.

(** [Index] is the block number, a 32-bit integer; the conversions to [u32] of
    the differences cannot fail then. *)
Definition new_bounded (current first last : Z) : result string SlotRange :=
  if decide (first > last ∨ first < current ∨
             u32_add current (Z.of_nat LEASE_PERIODS_PER_SLOT) ≤ last)
  then Err "Invalid range for this auction"%string
  else
    let count := last - first in
    let first := first - current in
    match list_find (λ r, as_pair r = (Z.to_nat first, Z.to_nat (first + count))) variants with
    | Some (_, r) => Ok r
    | None => Err "bad range"%string
    end.

(** ** Properties *)

Lemma variants_all r : r ∈ variants.
Proof. apply (bool_decide_unpack _). by destruct r. Qed.

Lemma index_lookup r : variants !! index r = Some r.
Proof. by destruct r. Qed.

Lemma index_inj r r' : index r = index r' → r = r'.
Proof. intros E. pose proof (index_lookup r) as Hr. rewrite E, index_lookup in Hr. by injection Hr. Qed.

Lemma index_lt r : (index r < SLOT_RANGE_COUNT)%nat.
Proof. eapply lookup_lt_Some, index_lookup. Qed.

Lemma as_pair_inj r r' : as_pair r = as_pair r' → r = r'.
Proof. destruct r, r'; by intros [=]. Qed.

Lemma as_pair_bounds r : ((as_pair r).1 ≤ (as_pair r).2 < LEASE_PERIODS_PER_SLOT)%nat.
Proof. unfold LEASE_PERIODS_PER_SLOT. destruct r; cbn; lia. Qed.

(** Each range is one of the variants. *)
Lemma pair_range a b : (a ≤ b < LEASE_PERIODS_PER_SLOT)%nat → ∃ r, as_pair r = (a, b).
Proof.
  intros [Hab Hb]. assert ((a, b) ∈ as_pair <$> variants) as Hin.
  { unfold LEASE_PERIODS_PER_SLOT in Hb.
    do 8 (destruct b as [|b]; [do 8 (destruct a as [|a]; [first [by apply (bool_decide_unpack _)|lia]|]); lia|]). lia. }
  apply list_elem_of_fmap in Hin as (r & -> & _). by exists r.
Qed.

Lemma find_range r : list_find (λ r', as_pair r' = as_pair r) variants = Some (index r, r).
Proof. by destruct r. Qed.

(** [new_bounded] gives the range of these periods, counted from the first one
    on auction, and nothing else. *)
Lemma new_bounded_ok current first last r :
  0 ≤ current → current + 8 ≤ u32_max →
  new_bounded current first last = Ok r ↔
    as_pair r = (Z.to_nat (first - current), Z.to_nat (last - current)) ∧ current ≤ first ≤ last.
Proof.
  intros H0 Hmax. unfold new_bounded, u32_add, wrap32, LEASE_PERIODS_PER_SLOT. unfold u32_max in Hmax.
  rewrite Z.mod_small by lia. cbv zeta. replace (first - current + (last - first)) with (last - current) by lia.
  split.
  - case_decide as Hd; [done|]. destruct (list_find _ _) as [[i r']|] eqn:E; [|done]. intros [= <-].
    apply list_find_Some in E as (_ & -> & _). split; [done|lia].
  - intros [E Hle]. pose proof (as_pair_bounds r) as Hb. rewrite E in Hb. cbn in Hb. unfold LEASE_PERIODS_PER_SLOT in Hb.
    rewrite decide_False by lia. rewrite <-E, find_range. done.
Qed.
End SlotRange.
