(* ===== verification/CommonPallets.v ===== *)
(** * The common pallets: currency, constants and storage

    The pallets of [runtime/common] that sell parachain slots share accounts and
    call each other.  This file has the currency they hold deposits in, the
    constants of a runtime, and the [World] of their storages; [Registrar],
    [Slots], [Auctions] and [Crowdloan] have their operations. *)

From S2P Require Import Prelude.
From S2P Require Import Codec.
From S2P Require Import Frame.
From S2P Require Import ParasPallet.

(** ** The currency

    [Currency] and [ReservableCurrency] of the framework, over accounts [A] and
    a storage [B].  [reserve] and [transfer] fail when the account has not
    enough; [unreserve] moves what there is, and returns what is missing. *)

Module Currency.

Inductive ExistenceRequirement := KeepAlive | AllowDeath.

Class Currency (A B : Type) := {
  free_balance : A → B → Balance;
  reserved_balance : A → B → Balance;
  existential_deposit : Balance;
  reserve : A → Balance → B → option B;
  unreserve : A → Balance → B → B * Balance;
  transfer : A → A → Balance → ExistenceRequirement → B → option B;
}.

(** What the framework documents.  An account whose total falls below the
    existential deposit is removed. *)
Class CurrencyLaws (A B : Type) `{!EqDecision A} `{!Currency A B} := {
  reserved_nonneg a b : 0 ≤ reserved_balance a b;
  free_nonneg a b : 0 ≤ free_balance a b;
  reserve_balances who x b b' a :
    reserve who x b = Some b' → 0 ≤ x →
    reserved_balance a b' = reserved_balance a b + (if decide (a = who) then x else 0) ∧
    free_balance a b' = free_balance a b - (if decide (a = who) then x else 0);
  unreserve_balances who x b a :
    0 ≤ x →
    let moved := Z.min x (reserved_balance who b) in
    let b' := (unreserve who x b).1 in
    reserved_balance a b' = reserved_balance a b - (if decide (a = who) then moved else 0) ∧
    free_balance a b' = free_balance a b + (if decide (a = who) then moved else 0);
  reserve_total who x b b' a :
    reserve who x b = Some b' →
    free_balance a b' + reserved_balance a b' = free_balance a b + reserved_balance a b;
  unreserve_total who x b a :
    let b' := (unreserve who x b).1 in
    free_balance a b' + reserved_balance a b' = free_balance a b + reserved_balance a b;
  transfer_other source dest x e b b' a :
    transfer source dest x e b = Some b' → a ≠ source → 0 ≤ x →
    reserved_balance a b' = reserved_balance a b ∧
    free_balance a b' = free_balance a b + (if decide (a = dest) then x else 0);
  transfer_source source dest x e b b' :
    transfer source dest x e b = Some b' → source ≠ dest → 0 ≤ x →
    x ≤ free_balance source b ∧ reserved_balance source b' ≤ reserved_balance source b ∧
    (existential_deposit ≤ free_balance source b - x + reserved_balance source b →
       reserved_balance source b' = reserved_balance source b ∧ free_balance source b' = free_balance source b - x);
  transfer_self source x e b b' : transfer source source x e b = Some b' → b' = b;
  transfer_keep_alive source dest x b b' :
    transfer source dest x KeepAlive b = Some b' → source ≠ dest → 0 ≤ x →
    existential_deposit ≤ free_balance source b - x + reserved_balance source b;
}.
End Currency.

(** ** Machine integers: a balance is a [u128] *)

Definition u128_max : Z := 2 ^ 128 - 1.
Definition wrap128 (z : Z) : Z := z mod 2 ^ 128.
Definition u128_add (a b : Z) : Z := wrap128 (a + b).
Definition u128_mul (a b : Z) : Z := wrap128 (a * b).
Definition u128_saturating_add (a b : Z) : Z := Z.min u128_max (a + b).
Definition u128_saturating_mul (a b : Z) : Z := Z.min u128_max (a * b).
Definition u32_saturating_add (a b : Z) : Z := Z.min u32_max (a + b).
Definition checked_sub (a b : Z) : option Z := if decide (b ≤ a) then Some (a - b) else None.

Lemma wrap128_small z : 0 ≤ z ≤ u128_max → wrap128 z = z.
Proof. unfold u128_max, wrap128. intros ?. apply Z.mod_small. lia. Qed.

(** [map_err] on a computation. *)
Definition map_error {S E E' X} (f : E → E') (m : M S E X) : M S E' X := λ s,
  let '(s', r) := m s in (s', match r with Ok x => Ok x | Err e => Err (f e) end).

(** ** Storage *)

Module Common.

Abbreviation FundIndex := Z (only parsing).
Abbreviation AuctionIndex := Z (only parsing).
Abbreviation LeasePeriodIndex := Z (only parsing).

(** The constants of the [Config] traits. *)
Record Constants := mkConstants {
  ParaDeposit : Balance;
  DataDepositPerByte : Balance;
  LeasePeriod : BlockNumber;
  LeaseOffset : BlockNumber;
  EndingPeriod : BlockNumber;
  SampleLength : BlockNumber;
  SubmissionDeposit : Balance;
  MinContribution : Balance;
  RemoveKeysLimit : Z;
  MaxMemoLength : Z;
}.

Section Storage.
Context {A B Signer : Type} `{!EqDecision A} `{!Countable A}.

(** *** [paras_registrar] *)

Record ParaInfo := mkParaInfo { manager : A; deposit : Balance; locked : bool }.

Record RegistrarState := mkRegistrar {
  PendingSwap : gmap ParaId ParaId;
  Paras : gmap ParaId ParaInfo;
  NextFreeParaId : ParaId;
}.

(** *** [slots] *)

Record SlotsState := mkSlots { Leases : gmap ParaId (list (option (A * Balance))) }.

(** *** [auctions] *)

Abbreviation WinningData := (list (option (A * ParaId * Balance))).

Record AuctionsState := mkAuctions {
  AuctionCounter : AuctionIndex;
  AuctionInfo : option (LeasePeriodIndex * BlockNumber);
  ReservedAmounts : gmap (A * ParaId) Balance;
  Winning : gmap BlockNumber WinningData;
}.

(** *** [crowdloan] *)

Inductive LastContribution := Never | PreEnding (n : Z) | Ending (n : BlockNumber).

#[export] Instance last_contribution_eq_dec : EqDecision LastContribution.
Proof. solve_decision. Defined.

Record FundInfo := mkFund {
  depositor : A;
  verifier : option Signer;
  fund_deposit : Balance;
  raised : Balance;
  end_ : BlockNumber;
  cap : Balance;
  last_contribution : LastContribution;
  first_period : LeasePeriodIndex;
  last_period : LeasePeriodIndex;
  fund_index : FundIndex;
}.

(** The contributions are in child tries, one per fund index. *)
Record CrowdloanState := mkCrowdloan {
  Funds : gmap ParaId FundInfo;
  NewRaise : list ParaId;
  EndingsCount : Z;
  NextFundIndex : FundIndex;
  Contributions : gmap FundIndex (gmap A (Balance * list byte));
}.

(** *** Errors of [auctions]

    [InsufficientBalance] is the error of the currency. *)

Inductive AuctionsError :=
| AuctionInProgress | LeasePeriodInPast | ParaNotRegistered | NotCurrentAuction | NotAuction | AuctionEnded
| AlreadyLeasedOut | InsufficientBalance.

(** *** Events *)

Inductive Event :=
| Registered (para_id : ParaId) (who : A)
| Deregistered (para_id : ParaId)
| ReservedId (para_id : ParaId) (who : A)
| NewLeasePeriod (lease_period : LeasePeriodIndex)
| Leased (para_id : ParaId) (leaser : A) (period_begin period_count : LeasePeriodIndex)
    (extra_reserved total_amount : Balance)
| AuctionStarted (auction_index : AuctionIndex) (lease_period : LeasePeriodIndex) (ending : BlockNumber)
| AuctionClosed (auction_index : AuctionIndex)
| Reserved (bidder : A) (extra_reserved total_amount : Balance)
| Unreserved (bidder : A) (amount : Balance)
| ReserveConfiscated (para_id : ParaId) (leaser : A) (amount : Balance)
| BidAccepted (bidder : A) (para_id : ParaId) (amount : Balance) (first_slot last_slot : LeasePeriodIndex)
| WinningOffset (auction_index : AuctionIndex) (block_number : BlockNumber)
| Created (para_id : ParaId)
| Contributed (who : A) (fund_index : ParaId) (amount : Balance)
| Withdrew (who : A) (fund_index : ParaId) (amount : Balance)
| PartiallyRefunded (para_id : ParaId)
| AllRefunded (para_id : ParaId)
| Dissolved (para_id : ParaId)
| HandleBidResult (para_id : ParaId) (res : result (DispatchError AuctionsError) unit)
| Edited (para_id : ParaId)
| MemoUpdated (who : A) (para_id : ParaId) (memo : list byte)
| AddedToNewRaise (para_id : ParaId).

(** ** The storages together *)

Record World := mkWorld {
  registrar : RegistrarState;
  slots : SlotsState;
  auctions : AuctionsState;
  crowdloan : CrowdloanState;
  paras : ParasPallet.State;
  balances : B;
  events : list Event;
}.

Definition on_registrar f (w : World) : World :=
  mkWorld (f (registrar w)) (slots w) (auctions w) (crowdloan w) (paras w) (balances w) (events w).
Definition on_leases f (w : World) : World :=
  mkWorld (registrar w) (mkSlots (f (Leases (slots w)))) (auctions w) (crowdloan w) (paras w) (balances w) (events w).
Definition on_auctions f (w : World) : World :=
  mkWorld (registrar w) (slots w) (f (auctions w)) (crowdloan w) (paras w) (balances w) (events w).
Definition on_crowdloan f (w : World) : World :=
  mkWorld (registrar w) (slots w) (auctions w) (f (crowdloan w)) (paras w) (balances w) (events w).
Definition set_paras x (w : World) : World :=
  mkWorld (registrar w) (slots w) (auctions w) (crowdloan w) x (balances w) (events w).
Definition set_balances x (w : World) : World :=
  mkWorld (registrar w) (slots w) (auctions w) (crowdloan w) (paras w) x (events w).
Definition deposit_event e (w : World) : World :=
  mkWorld (registrar w) (slots w) (auctions w) (crowdloan w) (paras w) (balances w) (events w ++ [e]).

Definition set_pending_swap f (s : RegistrarState) : RegistrarState :=
  mkRegistrar (f (PendingSwap s)) (Paras s) (NextFreeParaId s).
Definition set_infos f (s : RegistrarState) : RegistrarState :=
  mkRegistrar (PendingSwap s) (f (Paras s)) (NextFreeParaId s).
Definition set_next_id x (s : RegistrarState) : RegistrarState := mkRegistrar (PendingSwap s) (Paras s) x.

Definition set_info x (s : AuctionsState) : AuctionsState :=
  mkAuctions (AuctionCounter s) x (ReservedAmounts s) (Winning s).
Definition set_reserved f (s : AuctionsState) : AuctionsState :=
  mkAuctions (AuctionCounter s) (AuctionInfo s) (f (ReservedAmounts s)) (Winning s).
Definition set_winning f (s : AuctionsState) : AuctionsState :=
  mkAuctions (AuctionCounter s) (AuctionInfo s) (ReservedAmounts s) (f (Winning s)).

Definition set_funds f (s : CrowdloanState) : CrowdloanState :=
  mkCrowdloan (f (Funds s)) (NewRaise s) (EndingsCount s) (NextFundIndex s) (Contributions s).
Definition set_new_raise x (s : CrowdloanState) : CrowdloanState :=
  mkCrowdloan (Funds s) x (EndingsCount s) (NextFundIndex s) (Contributions s).
Definition set_contributions f (s : CrowdloanState) : CrowdloanState :=
  mkCrowdloan (Funds s) (NewRaise s) (EndingsCount s) (NextFundIndex s) (f (Contributions s)).
End Storage.
Arguments ParaInfo : clear implicits.
Arguments RegistrarState : clear implicits.
Arguments SlotsState : clear implicits.
Arguments AuctionsState _ {_ _}.
Arguments FundInfo : clear implicits.
Arguments CrowdloanState _ _ {_ _}.
Arguments Event : clear implicits.
Arguments World _ _ _ {_ _}.
End Common.
