(* ===== verification/Registrar.v ===== *)
(** * The registrar of paras

    [paras_registrar.rs]: reservation of identifiers, registration and
    deregistration with deposits, locks and swaps, over the paras pallet. *)

From S2P Require Import Prelude.
From S2P Require Import Codec.
From S2P Require Import Frame.
From S2P Require Import Configuration.
From S2P Require Import Paras.
From S2P Require Import ParasPallet.
From S2P Require Import Candidates.
From S2P Require Import CommonPallets.
Import Candidates Currency Common.

(** [trait OnSwap]: what other pallets do when two paras swap. *)
Class OnSwap (W : Type) := on_swap : ParaId → ParaId → W → W.

Module Registrar.

(** [InsufficientBalance] is the error of the currency. *)
Inductive Error :=
| NotRegistered | AlreadyRegistered | NotOwner | CodeTooLarge | HeadDataTooLarge | NotParachain | NotParathread
| CannotDeregister | CannotDowngrade | CannotUpgrade | ParaLocked | NotReserved | EmptyCode | CannotSwap
| InsufficientBalance.

(** [primitives::v2::LOWEST_PUBLIC_ID] *)
Definition LOWEST_PUBLIC_ID : ParaId := 2000.

Section Pallet.
Context {A B V Signer O : Type} `{!EqDecision A} `{!Countable A} `{!Currency A B} `{!FrameOrigin O A}
  (code_hash_of : ValidationCode → Hash) (ensure_parachain : O → option ParaId) (consts : Constants).
#[local] Abbreviation World := (World A B Signer).
#[local] Abbreviation Call := (M World (DispatchError Error) unit).
Context `{!OnSwap World}.
Implicit Types (env : ParasPallet.Env V) (w : World).

(** ** Access to currency and paras *)

Definition reserve_from (who : A) (amount : Balance) : Call := λ w,
  match Currency.reserve who amount (balances w) with
  | Some b => (set_balances b w, Ok tt)
  | None => (w, Err (Module InsufficientBalance))
  end.

Definition unreserve_to (who : A) (amount : Balance) w : World :=
  set_balances (Currency.unreserve who amount (balances w)).1 w.

Definition on_paras (m : Dispatch ParasPallet.State ParasPallet.Error) (e : Error) : Call := λ w,
  let '(p, r) := m (paras w) in
  (set_paras p w, match r with Ok _ => Ok tt | Err _ => Err (Module e) end).

Definition lifecycle (id : ParaId) w : option ParaLifecycle := ParasPallet.ParaLifecycles (paras w) !! id.

(** ** [impl Registrar] *)

Definition manager_of (id : ParaId) w : option A := manager <$> Paras (registrar w) !! id.
Definition parachains w : list ParaId := ParasPallet.Parachains (paras w).
Definition is_parathread (id : ParaId) w : bool := Paras.is_parathread id (ParasPallet.ParaLifecycles (paras w)).
Definition is_parachain (id : ParaId) w : bool := Paras.is_parachain id (ParasPallet.ParaLifecycles (paras w)).
Definition is_registered (id : ParaId) w : bool := is_parathread id w || is_parachain id w.

Definition set_lock (l : bool) (id : ParaId) w : World :=
  on_registrar (set_infos (alter (λ info, mkParaInfo (manager info) (deposit info) l) id)) w.
Definition apply_lock : ParaId → World → World := set_lock true.
Definition remove_lock : ParaId → World → World := set_lock false.

Definition make_parachain env (id : ParaId) : Call :=
  w ← get;
  ensure (bool_decide (lifecycle id w = Some Parathread)) (Module NotParathread) ;;
  on_paras (ParasPallet.schedule_parathread_upgrade env id) CannotUpgrade ;;
  modify (apply_lock id).

Definition make_parathread env (id : ParaId) : Call :=
  w ← get;
  ensure (bool_decide (lifecycle id w = Some ParachainLife)) (Module NotParachain) ;;
  on_paras (ParasPallet.schedule_parachain_downgrade env id) CannotDowngrade.

(** ** Registration *)

(** Root, the para itself, or its manager while it is not locked. *)
Definition ensure_root_para_or_owner (origin : O) (id : ParaId) : Call := λ w,
  let by_owner := match ensure_signed origin, Paras (registrar w) !! id with
                  | Some who, Some info => negb (locked info) && bool_decide (manager info = who)
                  | _, _ => false
                  end in
  let by_para := bool_decide (ensure_parachain origin = Some id) in
  let by_root := bool_decide (is_Some (ensure_root origin)) in
  (w, if by_owner || by_para || by_root then Ok tt else Err BadOrigin).

Definition do_reserve (who : A) (deposit_override : option Balance) (id : ParaId) : Call :=
  w ← get;
  ensure (negb (contains_key id (Paras (registrar w)))) (Module AlreadyRegistered) ;;
  ensure (bool_decide (lifecycle id w = None)) (Module AlreadyRegistered) ;;
  let deposit := default (ParaDeposit consts) deposit_override in
  reserve_from who deposit ;;
  modify (on_registrar (set_infos (insert id (mkParaInfo who deposit false)))) ;;
  modify (deposit_event (ReservedId id who)).

Definition validate_onboarding_data env (genesis_head : HeadData) (validation_code : ValidationCode) (parachain : bool) :
    M World (DispatchError Error) (ParasPallet.ParaGenesisArgs * Balance) :=
  let config := ParasPallet.config env in
  ensure (bool_decide (0 < length validation_code)%nat) (Module EmptyCode) ;;
  ensure (bool_decide (Z.of_nat (length validation_code) ≤ max_code_size config)) (Module CodeTooLarge) ;;
  ensure (bool_decide (Z.of_nat (length genesis_head) ≤ max_head_data_size config)) (Module HeadDataTooLarge) ;;
  let per_byte_fee := DataDepositPerByte consts in
  let deposit :=
    u128_saturating_add
      (u128_saturating_add (ParaDeposit consts) (u128_saturating_mul per_byte_fee (len32 genesis_head)))
      (u128_saturating_mul per_byte_fee (len32 validation_code)) in
  mret (ParasPallet.mkGenesis genesis_head validation_code parachain, deposit).

(** The deposit is raised or lowered to what is due. *)
Definition do_register env (who : A) (deposit_override : option Balance) (id : ParaId) (genesis_head : HeadData)
    (validation_code : ValidationCode) (ensure_reserved : bool) : Call :=
  w ← get;
  deposited ← match Paras (registrar w) !! id with
              | Some para_data =>
                  ensure (bool_decide (manager para_data = who)) (Module NotOwner) ;;
                  ensure (negb (locked para_data)) (Module ParaLocked) ;;
                  mret (deposit para_data)
              | None => ensure (negb ensure_reserved) (Module NotReserved) ;; mret 0
              end;
  ensure (bool_decide (lifecycle id w = None)) (Module AlreadyRegistered) ;;
  '(genesis, due) ← validate_onboarding_data env genesis_head validation_code false;
  let due := default due deposit_override in
  match checked_sub due deposited with
  | Some additional => reserve_from who additional
  | None => match checked_sub deposited due with
            | Some rebate => modify (unreserve_to who rebate)
            | None => mret tt
            end
  end ;;
  modify (on_registrar (set_infos (insert id (mkParaInfo who due false)))) ;;
  modify (λ w, set_paras (ParasPallet.schedule_para_initialize code_hash_of env id genesis (paras w)).1 w) ;;
  modify (deposit_event (Registered id who)).

Definition do_deregister env (id : ParaId) : Call :=
  w ← get;
  ensure (match lifecycle id w with Some Parathread | None => true | _ => false end) (Module NotParathread) ;;
  on_paras (ParasPallet.schedule_para_cleanup env id) CannotDeregister ;;
  modify (λ w, match Paras (registrar w) !! id with
               | Some info => unreserve_to (manager info) (deposit info) (on_registrar (set_infos (delete id)) w)
               | None => w
               end) ;;
  modify (on_registrar (set_pending_swap (delete id))) ;;
  modify (deposit_event (Deregistered id)).

(** ** Swaps *)

Definition do_thread_and_chain_swap env (to_downgrade to_upgrade : ParaId) w : World :=
  let w := set_paras (ParasPallet.schedule_parachain_downgrade env to_downgrade (paras w)).1 w in
  let w := set_paras (ParasPallet.schedule_parathread_upgrade env to_upgrade (paras w)).1 w in
  on_swap to_upgrade to_downgrade w.

Definition swap env (origin : O) (id other : ParaId) : Call :=
  ensure_root_para_or_owner origin id ;;
  if decide (id = other) then modify (on_registrar (set_pending_swap (delete id)))
  else
    w ← get;
    id_lifecycle ← lift (ok_or (lifecycle id w) (Module NotRegistered));
    if decide (PendingSwap (registrar w) !! other = Some id) then
      other_lifecycle ← lift (ok_or (lifecycle other w) (Module NotRegistered));
      match id_lifecycle, other_lifecycle with
      | ParachainLife, Parathread => modify (do_thread_and_chain_swap env id other)
      | Parathread, ParachainLife => modify (do_thread_and_chain_swap env other id)
      | ParachainLife, ParachainLife => modify (on_swap id other)
      | _, _ => throw (Module CannotSwap)
      end ;;
      modify (on_registrar (set_pending_swap (delete other)))
    else modify (on_registrar (set_pending_swap (insert id other))).

(** ** Calls *)

Definition register env (origin : O) (id : ParaId) (genesis_head : HeadData) (validation_code : ValidationCode) : Call :=
  who ← or_bad_origin (ensure_signed origin);
  do_register env who None id genesis_head validation_code true.

Definition force_register env (origin : O) (who : A) (deposit : Balance) (id : ParaId) (genesis_head : HeadData)
    (validation_code : ValidationCode) : Call :=
  or_bad_origin (ensure_root origin) ;;
  do_register env who (Some deposit) id genesis_head validation_code false.

Definition deregister env (origin : O) (id : ParaId) : Call :=
  ensure_root_para_or_owner origin id ;;
  do_deregister env id.

Definition force_remove_lock (origin : O) (para : ParaId) : Call :=
  or_bad_origin (ensure_root origin) ;;
  modify (remove_lock para).

Definition reserve (origin : O) : Call :=
  who ← or_bad_origin (ensure_signed origin);
  w ← get;
  let id := Z.max (NextFreeParaId (registrar w)) LOWEST_PUBLIC_ID in
  do_reserve who None id ;;
  modify (on_registrar (set_next_id (u32_add id 1))).
End Pallet.
End Registrar.
