(* ===== verification/Slots.v ===== *)
(** * Leases of parachain slots

    [slots/mod.rs]: who has paid for which lease periods of a para, the start of
    a lease period, and the [Leaser] interface the auctions use. *)

From S2P Require Import Prelude.
From S2P Require Import Vectors.
From S2P Require Import Frame.
From S2P Require Import Configuration.
From S2P Require Import ParasPallet.
From S2P Require Import Candidates.
From S2P Require Import CommonPallets.
From S2P Require Import Registrar.
Import Candidates Currency Common.

Module Slots.

Inductive LeaseError := ReserveFailed | AlreadyLeased | AlreadyEnded | NoLeasePeriod.

Inductive Error := ParaNotOnboarding | LeaseErrorRaised | OfRegistrar (e : Registrar.Error).

Section Pallet.
Context {A B V Signer O : Type} `{!EqDecision A} `{!Countable A} `{!Currency A B} `{!FrameOrigin O A}
  `{!StorageIter ParaId (list (option (A * Balance)))} (ensure_force : O → option unit) (consts : Constants).
#[local] Abbreviation World := (World A B Signer).
#[local] Abbreviation Call := (M World (DispatchError Error) unit).
#[local] Abbreviation Lease := (option (A * Balance)).
Implicit Types (env : ParasPallet.Env V) (w : World) (d : list Lease).

(** ** Queries *)

Definition lease (para : ParaId) w : list Lease := value_query [] para (Leases (slots w)).

Definition lease_period_index (b : BlockNumber) : option (LeasePeriodIndex * bool) :=
  offset_block_now ← checked_sub b (LeaseOffset consts);
  Some (offset_block_now `div` LeasePeriod consts, bool_decide (offset_block_now `mod` LeasePeriod consts = 0)).

(** The amount of one entry that is held from [leaser]. *)
Definition held_by (leaser : A) (l : Lease) : Balance :=
  match l with Some (who, amount) => if decide (who = leaser) then amount else 0 | None => 0 end.
Definition held_in (leaser : A) d : Balance := foldr Z.max 0 (held_by leaser <$> d).
Definition deposit_held (para : ParaId) (leaser : A) w : Balance := held_in leaser (lease para w).

(** For each account the largest amount it has in the list. *)
Definition track (tracker : gmap A Balance) (l : Lease) : gmap A Balance :=
  match l with
  | Some (who, amount) =>
      match tracker !! who with
      | Some prev_amount => if decide (prev_amount < amount) then <[who := amount]> tracker else tracker
      | None => <[who := amount]> tracker
      end
  | None => tracker
  end.
(** The order of the list is that of the accounts, which does not matter. *)
Definition all_deposits_held (para : ParaId) w : list (A * Balance) := map_to_list (foldl track ∅ (lease para w)).

Definition already_leased env (para_id : ParaId) (first_period last_period : LeasePeriodIndex) w : bool :=
  match lease_period_index (ParasPallet.block_number env) with
  | None => true
  | Some (current_lease_period, _) =>
      let start_period := Z.max first_period current_lease_period in
      let offset := Z.to_nat (start_period - current_lease_period) in
      let period_count := Z.to_nat (saturating_sub last_period start_period) in
      existsb (λ slot, match lease para_id w !! slot with Some (Some _) => true | _ => false end)
        (seq offset (period_count + 1))
  end.

(** ** Leasing *)

(** The body of the loop over the leased periods. *)
Definition place (leaser : A) (amount : Balance) (r : result LeaseError (list Lease)) (i : nat) :
    result LeaseError (list Lease) :=
  d ← r;
  match d !! i with
  | Some None => Ok (<[i := Some (leaser, amount)]> d)
  | Some (Some _) => Err AlreadyLeased
  | None => if decide (length d = i) then Ok (d ++ [Some (leaser, amount)]) else Ok d
  end.

Definition pad (offset : nat) d : list Lease :=
  if decide (length d < offset)%nat then d ++ replicate (offset - length d) None else d.

Definition lease_out env (para : ParaId) (leaser : A) (amount : Balance) (period_begin period_count : LeasePeriodIndex) :
    M World LeaseError unit :=
  '(current_lease_period, _) ← lift (ok_or (lease_period_index (ParasPallet.block_number env)) NoLeasePeriod);
  offset ← lift (ok_or (checked_sub period_begin current_lease_period) AlreadyEnded);
  let offset := Z.to_nat offset in
  w ← get;
  d ← lift (foldl (place leaser amount) (Ok (pad offset (lease para w))) (seq offset (Z.to_nat period_count)));
  let maybe_additional := checked_sub amount (deposit_held para leaser w) in
  match maybe_additional with
  | Some additional =>
      b ← lift (ok_or (Currency.reserve leaser additional (balances w)) ReserveFailed);
      modify (set_balances b)
  | None => mret tt
  end ;;
  modify (λ w, if decide (current_lease_period = period_begin) then (Registrar.make_parachain env para w).1 else w) ;;
  modify (deposit_event (Leased para leaser period_begin period_count (default 0 maybe_additional) amount)) ;;
  modify (on_leases (insert para d)).

(** ** The start of a lease period *)

(** A para met by the loop: its first entry is the period that ended. *)
Definition end_period (acc : World * list ParaId) (x : ParaId * list Lease) : World * list ParaId :=
  let '(w, parachains) := acc in
  let '(para, lease_periods) := x in
  match lease_periods with
  | [] => (w, parachains)
  | [l] =>
      let w := match l with Some (who, value) => Registrar.unreserve_to who value w | None => w end in
      (on_leases (delete para) w, parachains)
  | maybe_ended_lease :: lease_periods =>
      let w := on_leases (insert para lease_periods) w in
      let w := match maybe_ended_lease with
               | Some (who, amount) =>
                   match checked_sub amount (deposit_held para who w) with
                   | Some rebate => Registrar.unreserve_to who rebate w
                   | None => w
                   end
               | None => w
               end in
      (w, match lease_periods with Some _ :: _ => parachains ++ [para] | _ => parachains end)
  end.

Definition onboard env (old_parachains : list ParaId) w (para : ParaId) : World :=
  if is_ok (binary_search old_parachains para) then w else (Registrar.make_parachain env para w).1.
Definition offboard env (parachains : list ParaId) w (para : ParaId) : World :=
  if is_ok (binary_search parachains para) then w else (Registrar.make_parathread env para w).1.

Definition manage_lease_period_start env (lease_period_index : LeasePeriodIndex) w : World :=
  let w := deposit_event (NewLeasePeriod lease_period_index) w in
  let old_parachains := Registrar.parachains w in
  let '(w, parachains) := foldl end_period (w, []) (storage_iter (Leases (slots w))) in
  let parachains := merge_sort Z.le parachains in
  let w := foldl (onboard env old_parachains) w parachains in
  foldl (offboard env parachains) w old_parachains.

Definition on_initialize env (n : BlockNumber) w : World :=
  match lease_period_index n with
  | Some (lease_period, true) => manage_lease_period_start env lease_period w
  | _ => w
  end.

(** ** Calls *)

Definition force_lease env (origin : O) (para : ParaId) (leaser : A) (amount : Balance)
    (period_begin period_count : LeasePeriodIndex) : Call :=
  or_bad_origin (ensure_force origin) ;;
  map_error (λ _, Module LeaseErrorRaised) (lease_out env para leaser amount period_begin period_count).

Definition clear_all_leases (origin : O) (para : ParaId) : Call :=
  or_bad_origin (ensure_force origin) ;;
  modify (λ w, foldl (λ w x, Registrar.unreserve_to x.1 x.2 w) w (all_deposits_held para w)) ;;
  modify (on_leases (delete para)).

Definition of_registrar (e : DispatchError Registrar.Error) : DispatchError Error :=
  match e with Module e => Module (OfRegistrar e) | BadOrigin => BadOrigin | Other m => Other m end.

Definition trigger_onboard env (origin : O) (para : ParaId) : Call :=
  or_bad_origin (ensure_signed origin) ;;
  w ← get;
  match lease para w with
  | Some _ :: _ => map_error of_registrar (Registrar.make_parachain env para)
  | _ => throw (Module ParaNotOnboarding)
  end.

(** The entries of the two paras change places; both are written, also when one
    had none. *)
Definition on_swap (one other : ParaId) w : World :=
  let x := lease one w in
  let y := lease other w in
  on_leases (λ m, <[one := y]> (<[other := x]> m)) w.
End Pallet.
End Slots.
