(* ===== verification/Auctions.v ===== *)
(** * Auctions of lease periods

    [auctions.rs]: bids on ranges of lease periods, the samples of the ending
    period, and the choice of the winners. *)

From S2P Require Import Prelude.
From S2P Require Import Frame.
From S2P Require Import Configuration.
From S2P Require Import ParasPallet.
From S2P Require Import Candidates.
From S2P Require Import SlotRange.
From S2P Require Import CommonPallets.
From S2P Require Import Registrar.
From S2P Require Import Slots.
Import Candidates Currency Common SlotRange.

Module Auctions.

(** [traits.rs] *)
Inductive AuctionStatus :=
| NotStarted
| StartingPeriod
| EndingPeriod (sample sub_sample : BlockNumber)
| VrfDelay (blocks : BlockNumber).

Definition is_in_progress (s : AuctionStatus) : bool := match s with NotStarted => false | _ => true end.
Definition is_starting (s : AuctionStatus) : bool := match s with StartingPeriod => true | _ => false end.
Definition is_ending (s : AuctionStatus) : option (BlockNumber * BlockNumber) :=
  match s with EndingPeriod sample sub_sample => Some (sample, sub_sample) | _ => None end.
Definition is_vrf (s : AuctionStatus) : bool := match s with VrfDelay _ => true | _ => false end.

Section Pallet.
Context {A B V Signer O : Type} `{!EqDecision A} `{!Countable A} `{!Currency A B} `{!FrameOrigin O A}
  `{!StorageIter (A * ParaId) Balance} (ensure_initiate : O → option unit) (consts : Constants).
#[local] Abbreviation World := (World A B Signer).
#[local] Abbreviation Call := (M World (DispatchError AuctionsError) unit).
#[local] Abbreviation WinningData := (list (option (A * ParaId * Balance))).
Implicit Types (env : ParasPallet.Env V) (w : World) (winning : WinningData).

Definition EMPTY : WinningData := replicate SLOT_RANGE_COUNT None.

(** ** Status *)

Definition auction_status (now : BlockNumber) w : AuctionStatus :=
  match AuctionInfo (auctions w) with
  | None => NotStarted
  | Some (_, early_end) =>
      match checked_sub now early_end with
      | None => StartingPeriod
      | Some after_early_end =>
          let ending_period := Common.EndingPeriod consts in
          if decide (after_early_end < ending_period) then
            let sample_length := Z.max (SampleLength consts) 1 in
            EndingPeriod (after_early_end `div` sample_length) (after_early_end `mod` sample_length)
          else VrfDelay (after_early_end - ending_period)
      end
  end.

Definition has_won_an_auction (para : ParaId) (bidder : A) w : bool :=
  negb (bool_decide (Slots.deposit_held para bidder w = 0)).

(** ** Starting an auction *)

Definition do_new_auction env (duration : BlockNumber) (lease_period_index : LeasePeriodIndex) : Call :=
  w ← get;
  ensure (bool_decide (AuctionInfo (auctions w) = None)) (Module AuctionInProgress) ;;
  let now := ParasPallet.block_number env in
  ensure (match Slots.lease_period_index consts now with
          | Some (current_lease_period, _) => bool_decide (current_lease_period ≤ lease_period_index)
          | None => true
          end) (Module LeasePeriodInPast) ;;
  let n := u32_add (AuctionCounter (auctions w)) 1 in
  let ending := u32_saturating_add now duration in
  modify (on_auctions (λ s, mkAuctions n (Some (lease_period_index, ending)) (ReservedAmounts s) (Winning s))) ;;
  modify (deposit_event (AuctionStarted n lease_period_index ending)).

(** ** Bids *)

(** The ranges won so far: those of the sample, or of the one before. *)
Definition current_winning (offset : BlockNumber) w : WinningData :=
  match Winning (auctions w) !! offset with
  | Some d => d
  | None => default EMPTY (prev ← checked_sub offset 1; Winning (auctions w) !! prev)
  end.

(** What a bid needs beyond what is reserved already. *)
Definition reserve_bid (bidder : A) (para : ParaId) (amount : Balance) : Call :=
  w ← get;
  let existing_lease_deposit := Slots.deposit_held para bidder w in
  let reserve_required := saturating_sub amount existing_lease_deposit in
  let already_reserved := value_query 0 (bidder, para) (ReservedAmounts (auctions w)) in
  match checked_sub reserve_required already_reserved with
  | Some additional =>
      b ← lift (ok_or (Currency.reserve bidder additional (balances w)) (Module InsufficientBalance));
      modify (set_balances b) ;;
      modify (on_auctions (set_reserved (insert (bidder, para) reserve_required))) ;;
      modify (deposit_event (Reserved bidder additional reserve_required))
  | None => mret tt
  end.

(** A bidder that was overbid on its last range gets its funds back, before the
    ending period. *)
Definition release_outgoing (starting : bool) winning (outgoing_winner : option (A * ParaId * Balance)) w : World :=
  match outgoing_winner with
  | Some (who, para, _) =>
      if starting && forallb (λ b, match b with
                                   | Some (other, other_para, _) => bool_decide (other ≠ who ∨ other_para ≠ para)
                                   | None => true
                                   end) winning then
        match ReservedAmounts (auctions w) !! (who, para) with
        | Some amount =>
            let w := on_auctions (set_reserved (delete (who, para))) w in
            deposit_event (Unreserved who amount) (Registrar.unreserve_to who amount w)
        | None => w
        end
      else w
  | None => w
  end.

Definition beats (amount : Balance) (last : option (A * ParaId * Balance)) : bool :=
  match last with Some (_, _, a) => bool_decide (a < amount) | None => true end.

Definition handle_bid env (bidder : A) (para : ParaId) (auction_index : AuctionIndex)
    (first_slot last_slot : LeasePeriodIndex) (amount : Balance) : Call :=
  w ← get;
  ensure (Registrar.is_registered para w) (Module ParaNotRegistered) ;;
  ensure (bool_decide (auction_index = AuctionCounter (auctions w))) (Module NotCurrentAuction) ;;
  '(first_lease_period, _) ← lift (ok_or (AuctionInfo (auctions w)) (Module NotAuction));
  let status := auction_status (ParasPallet.block_number env) w in
  offset ← lift match status with
                | NotStarted => Err (Module AuctionEnded)
                | StartingPeriod => Ok 0
                | EndingPeriod o _ => Ok o
                | VrfDelay _ => Err (Module AuctionEnded)
                end;
  ensure (negb (Slots.already_leased consts env para first_slot last_slot w)) (Module AlreadyLeasedOut) ;;
  range ← lift match new_bounded first_lease_period first_slot last_slot with
               | Ok r => Ok r | Err m => Err (Other m) end;
  let winning := current_winning offset w in
  let last := default None (winning !! index range) in
  if beats amount last then
    reserve_bid bidder para amount ;;
    let winning := <[index range := Some (bidder, para, amount)]> winning in
    modify (release_outgoing (is_starting status) winning last) ;;
    modify (on_auctions (set_winning (insert offset winning))) ;;
    modify (deposit_event (BidAccepted bidder para amount first_slot last_slot))
  else mret tt.

Definition place_bid env (bidder : A) (para : ParaId) (first_slot last_slot : LeasePeriodIndex) (amount : Balance) : Call :=
  w ← get;
  handle_bid env bidder para (AuctionCounter (auctions w)) first_slot last_slot amount.

(** ** Winners *)

Definition best_bid winning (r : SlotRange) : option Balance :=
  match winning !! index r with
  | Some (Some (_, _, amount)) => Some (u128_mul amount (Z.of_nat (len r)))
  | _ => None
  end.

(** [SlotRange::new_bounded(0, first, last).expect(..)] *)
Definition range_of (first last : nat) : option SlotRange :=
  match new_bounded 0 (Z.of_nat first) (Z.of_nat last) with Ok r => Some r | Err _ => None end.

(** The best selections of the periods up to each one, with their values. *)
Abbreviation Best := (list (list SlotRange * Balance)).

(** Periods [j + 1] to [i] after the best selection up to [j]. *)
Definition extend winning (i : nat) (best : Best) (j : nat) : option Best :=
  r ← range_of (j + 1) i;
  '(winners_j, value_j) ← best !! j;
  '(_, value_i) ← best !! i;
  Some match best_bid winning r with
       | Some bid =>
           let bid := u128_add bid value_j in
           if decide (value_i < bid) then <[i := (winners_j ++ [r], bid)]> best else best
       | None => if decide (value_i < value_j) then <[i := (winners_j, value_j)]> best else best
       end.

Definition ending_at winning (best : Best) (i : nat) : option Best :=
  r ← range_of 0 i;
  let best := match best_bid winning r with Some bid => <[i := ([r], bid)]> best | None => best end in
  try_fold (extend winning i) (seq 0 i) best.

(** [best_winners_ending_at[LEASE_PERIODS_PER_SLOT - 1]]; [None] is a panic. *)
Definition winning_ranges winning : option (list SlotRange) :=
  best ← try_fold (ending_at winning) (seq 0 LEASE_PERIODS_PER_SLOT) (replicate LEASE_PERIODS_PER_SLOT ([], 0));
  fst <$> best !! (LEASE_PERIODS_PER_SLOT - 1)%nat.

Fixpoint take_winners winning (ranges : list SlotRange) : list (A * ParaId * Balance * SlotRange) :=
  match ranges with
  | [] => []
  | range :: ranges =>
      match winning !! index range with
      | Some (Some bid) => (bid, range) :: take_winners (<[index range := None]> winning) ranges
      | _ => take_winners winning ranges
      end
  end.

Definition calculate_winners winning : option (list (A * ParaId * Balance * SlotRange)) :=
  ranges ← winning_ranges winning;
  Some (take_winners winning ranges).

(** ** The end of an auction *)

(** [random] is what the randomness source gives for [b"para_auction"]: the
    block number decoded from the seed, and the block since which it is known. *)
Definition check_auction_end (now : BlockNumber) (random : BlockNumber * BlockNumber) w :
    option (WinningData * LeasePeriodIndex) * World :=
  match AuctionInfo (auctions w) with
  | Some (lease_period_index, early_end) =>
      let ending_period := Common.EndingPeriod consts in
      let late_end := u32_saturating_add early_end ending_period in
      let '(raw_offset, known_since) := random in
      if decide (late_end ≤ now ∧ late_end ≤ known_since) then
        let offset := (raw_offset `mod` ending_period) `div` Z.max (SampleLength consts) 1 in
        let w := deposit_event (WinningOffset (AuctionCounter (auctions w)) offset) w in
        let res := default EMPTY (Winning (auctions w) !! offset) in
        (Some (res, lease_period_index), on_auctions (λ s, set_info None (set_winning (λ _, ∅) s)) w)
      else (None, w)
  | None => (None, w)
  end.

(** [ReservedAmounts::drain()] *)
Definition unreserve_all w : World :=
  let w' := foldl (λ w x, Registrar.unreserve_to x.1.1 x.2 w) w (storage_iter (ReservedAmounts (auctions w))) in
  on_auctions (set_reserved (λ _, ∅)) w'.

Definition assign_slot env (auction_lease_period_index : LeasePeriodIndex) w
    (x : A * ParaId * Balance * SlotRange) : World :=
  let '(leaser, para, amount, range) := x in
  let period_begin := u32_add auction_lease_period_index (Z.of_nat (as_pair range).1) in
  let period_count := Z.of_nat (len range) in
  match Slots.lease_out consts env para leaser amount period_begin period_count w with
  | (w, Err Slots.AlreadyLeased) =>
      match Currency.reserve leaser amount (balances w) with
      | Some b => deposit_event (ReserveConfiscated para leaser amount) (set_balances b w)
      | None => w
      end
  | (w, _) => w
  end.

Definition manage_auction_end env (auction_lease_period_index : LeasePeriodIndex) winning w : option World :=
  let w := unreserve_all w in
  winners ← calculate_winners winning;
  let w := foldl (assign_slot env auction_lease_period_index) w winners in
  Some (deposit_event (AuctionClosed (AuctionCounter (auctions w))) w).

(** The sample of the block starts with the ranges of the one before. *)
Definition copy_sample (n : BlockNumber) w : World :=
  match auction_status n w with
  | EndingPeriod offset _ =>
      if contains_key offset (Winning (auctions w)) then w
      else
        let winning_data := default EMPTY (prev ← checked_sub offset 1; Winning (auctions w) !! prev) in
        on_auctions (set_winning (insert offset winning_data)) w
  | _ => w
  end.

Definition on_initialize env (n : BlockNumber) (random : BlockNumber * BlockNumber) w : option World :=
  let w := copy_sample n w in
  match check_auction_end n random w with
  | (Some (winning_ranges, auction_lease_period_index), w) =>
      manage_auction_end env auction_lease_period_index winning_ranges w
  | (None, w) => Some w
  end.

(** ** Calls *)

Definition new_auction env (origin : O) (duration : BlockNumber) (lease_period_index : LeasePeriodIndex) : Call :=
  or_bad_origin (ensure_initiate origin) ;;
  do_new_auction env duration lease_period_index.

Definition bid env (origin : O) (para : ParaId) (auction_index : AuctionIndex) (first_slot last_slot : LeasePeriodIndex)
    (amount : Balance) : Call :=
  who ← or_bad_origin (ensure_signed origin);
  handle_bid env who para auction_index first_slot last_slot amount.

Definition cancel_auction (origin : O) : Call :=
  or_bad_origin (ensure_root origin) ;;
  modify unreserve_all ;;
  modify (on_auctions (λ s, set_info None (set_winning (λ _, ∅) s))).
End Pallet.
End Auctions.
