(* ===== verification/Crowdloan.v ===== *)
(** * Crowdloans

    [crowdloan/mod.rs]: funds that collect contributions for a bid on lease
    periods, hold them while a lease lasts, and give them back.  The account of
    a fund and the check of signatures are parameters. *)

From S2P Require Import Prelude.
From S2P Require Import Frame.
From S2P Require Import Configuration.
From S2P Require Import ParasPallet.
From S2P Require Import Candidates.
From S2P Require Import SlotRange.
From S2P Require Import CommonPallets.
From S2P Require Import Registrar.
From S2P Require Import Slots.
From S2P Require Import Auctions.
Import Candidates Currency Common.

Module Crowdloan.

(** [OfCurrency] is an error of the currency. *)
Inductive Error :=
| FirstPeriodInPast | FirstPeriodTooFarInFuture | LastPeriodBeforeFirstPeriod | LastPeriodTooFarInFuture
| CannotEndInPast | EndTooFarInFuture | Overflow | ContributionTooSmall | InvalidParaId | CapExceeded
| ContributionPeriodOver | InvalidOrigin | NotParachain | LeaseActive | BidOrLeaseActive | FundNotEnded
| NoContributions | NotReadyToDissolve | InvalidSignature | MemoTooLarge | AlreadyInNewRaise | VrfDelayInProgress
| NoLeasePeriod | OfCurrency.

Section Pallet.
Context {A B V Signer Signature O : Type} `{!EqDecision A} `{!Countable A} `{!Currency A B} `{!FrameOrigin O A}
  `{!StorageIter A (Balance * list byte)} (consts : Constants) (fund_account_id : FundIndex → A)
  (verify : Signature → ParaId * A * Balance * Balance → Signer → bool).
#[local] Abbreviation World := (World A B Signer).
#[local] Abbreviation Call := (M World (DispatchError Error) unit).
#[local] Abbreviation Fund := (FundInfo A Signer).
Implicit Types (env : ParasPallet.Env V) (w : World) (fund : Fund).

(** ** Contributions *)

Definition contributions (index : FundIndex) w : gmap A (Balance * list byte) :=
  value_query ∅ index (Contributions (crowdloan w)).
Definition contribution_get (index : FundIndex) (who : A) w : Balance * list byte :=
  value_query (0, []) who (contributions index w).
Definition contribution_put (index : FundIndex) (who : A) (balance : Balance) (memo : list byte) w : World :=
  on_crowdloan (set_contributions (insert index (<[who := (balance, memo)]> (contributions index w)))) w.
Definition contribution_kill (index : FundIndex) (who : A) w : World :=
  on_crowdloan (set_contributions (insert index (delete who (contributions index w)))) w.

Definition set_raised (x : Balance) fund : Fund :=
  mkFund (depositor fund) (verifier fund) (fund_deposit fund) x (end_ fund) (cap fund) (last_contribution fund)
    (first_period fund) (last_period fund) (fund_index fund).
Definition set_last_contribution (x : LastContribution) fund : Fund :=
  mkFund (depositor fund) (verifier fund) (fund_deposit fund) (raised fund) (end_ fund) (cap fund) x
    (first_period fund) (last_period fund) (fund_index fund).

Definition get_fund (index : ParaId) : M World (DispatchError Error) Fund :=
  w ← get;
  lift (ok_or (Funds (crowdloan w) !! index) (Module InvalidParaId)).
Definition put_fund (index : ParaId) fund : Call := modify (on_crowdloan (set_funds (insert index fund))).

Definition transfer_funds (source dest : A) (amount : Balance) (e : ExistenceRequirement) : Call :=
  w ← get;
  b ← lift (ok_or (Currency.transfer source dest amount e (balances w)) (Module OfCurrency));
  modify (set_balances b).

Definition current_lease_period (b : BlockNumber) : M World (DispatchError Error) LeasePeriodIndex :=
  lift match Slots.lease_period_index consts b with Some (p, _) => Ok p | None => Err (Module NoLeasePeriod) end.

(** The end has come or the first lease period has passed, and the funds are
    not in use. *)
Definition ensure_crowdloan_ended (now : BlockNumber) (fund_account : A) fund : Call :=
  period ← current_lease_period now;
  ensure (bool_decide (end_ fund ≤ now ∨ first_period fund < period)) (Module FundNotEnded) ;;
  w ← get;
  ensure (bool_decide (raised fund ≤ free_balance fund_account (balances w))) (Module BidOrLeaseActive).

(** ** Contributing *)

(** The fund goes on the list of new raises unless it is there for this block of
    the ending period, or for this auction. *)
Definition note_raise env (index : ParaId) fund : M World (DispatchError Error) Fund :=
  w ← get;
  let now := ParasPallet.block_number env in
  let marker := match Auctions.is_ending (Auctions.auction_status consts now w) with
                | Some _ => Ending now
                | None => PreEnding (EndingsCount (crowdloan w))
                end in
  if decide (last_contribution fund = marker) then mret fund
  else
    modify (on_crowdloan (set_new_raise (NewRaise (crowdloan w) ++ [index]))) ;;
    mret (set_last_contribution marker fund).

(** With a verifier, a contribution needs its signature. *)
Definition signature_valid fund (index : ParaId) (who : A) (old_balance value : Balance) (signature : option Signature) :
    bool :=
  match verifier fund, signature with
  | None, _ => true
  | Some _, None => false
  | Some v, Some sig => verify sig (index, who, old_balance, value) v
  end.

Definition do_contribute env (who : A) (index : ParaId) (value : Balance) (signature : option Signature)
    (existence : ExistenceRequirement) : Call :=
  ensure (bool_decide (MinContribution consts ≤ value)) (Module ContributionTooSmall) ;;
  fund ← get_fund index;
  ensure (bool_decide (raised fund + value ≤ u128_max)) (Module Overflow) ;;
  let fund := set_raised (raised fund + value) fund in
  ensure (bool_decide (raised fund ≤ cap fund)) (Module CapExceeded) ;;
  let now := ParasPallet.block_number env in
  ensure (bool_decide (now < end_ fund)) (Module ContributionPeriodOver) ;;
  period ← current_lease_period now;
  ensure (bool_decide (period ≤ first_period fund)) (Module ContributionPeriodOver) ;;
  let fund_account := fund_account_id (fund_index fund) in
  w ← get;
  ensure (negb (Auctions.has_won_an_auction index fund_account w)) (Module BidOrLeaseActive) ;;
  ensure (negb (Auctions.is_vrf (Auctions.auction_status consts now w))) (Module VrfDelayInProgress) ;;
  let '(old_balance, memo) := contribution_get (fund_index fund) who w in
  ensure (signature_valid fund index who old_balance value signature) (Module InvalidSignature) ;;
  transfer_funds who fund_account value existence ;;
  modify (contribution_put (fund_index fund) who (u128_saturating_add old_balance value) memo) ;;
  fund ← note_raise env index fund;
  put_fund index fund ;;
  modify (deposit_event (Contributed who index value)).

(** ** Calls *)

Definition create env (origin : O) (index : ParaId) (cap_ : Balance) (first last : LeasePeriodIndex) (end_at : BlockNumber)
    (verifier_ : option Signer) : Call :=
  depositor ← or_bad_origin (ensure_signed origin);
  let now := ParasPallet.block_number env in
  ensure (bool_decide (first ≤ last)) (Module LastPeriodBeforeFirstPeriod) ;;
  last_period_limit ← lift (ok_or (u32_checked_add first (Z.of_nat SlotRange.LEASE_PERIODS_PER_SLOT - 1))
                              (Module FirstPeriodTooFarInFuture));
  ensure (bool_decide (last ≤ last_period_limit)) (Module LastPeriodTooFarInFuture) ;;
  ensure (bool_decide (now < end_at)) (Module CannotEndInPast) ;;
  '(lease_period_at_end, is_first_block) ← lift (ok_or (Slots.lease_period_index consts end_at) (Module NoLeasePeriod));
  let adjusted_lease_period_at_end :=
    if is_first_block : bool then saturating_sub lease_period_at_end 1 else lease_period_at_end in
  ensure (bool_decide (adjusted_lease_period_at_end ≤ first)) (Module EndTooFarInFuture) ;;
  ensure (match Slots.lease_period_index consts now with
          | Some (current, _) => bool_decide (current ≤ first)
          | None => true
          end) (Module FirstPeriodInPast) ;;
  w ← get;
  ensure (negb (contains_key index (Funds (crowdloan w)))) (Module FundNotEnded) ;;
  manager ← lift (ok_or (Registrar.manager_of index w) (Module InvalidParaId));
  ensure (bool_decide (depositor = manager)) (Module InvalidOrigin) ;;
  ensure (Registrar.is_registered index w) (Module InvalidParaId) ;;
  let index_ := NextFundIndex (crowdloan w) in
  new_fund_index ← lift (ok_or (u32_checked_add index_ 1) (Module Overflow));
  b ← lift (ok_or (Currency.reserve depositor (SubmissionDeposit consts) (balances w)) (Module OfCurrency));
  modify (set_balances b) ;;
  put_fund index (mkFund depositor verifier_ (SubmissionDeposit consts) 0 end_at cap_ Never first last index_) ;;
  modify (on_crowdloan (λ s, mkCrowdloan (Funds s) (NewRaise s) (EndingsCount s) new_fund_index (Contributions s))) ;;
  modify (Registrar.apply_lock index) ;;
  modify (deposit_event (Created index)).

Definition contribute env (origin : O) (index : ParaId) (value : Balance) (signature : option Signature) : Call :=
  who ← or_bad_origin (ensure_signed origin);
  do_contribute env who index value signature KeepAlive.

Definition contribute_all env (origin : O) (index : ParaId) (signature : option Signature) : Call :=
  who ← or_bad_origin (ensure_signed origin);
  w ← get;
  do_contribute env who index (free_balance who (balances w)) signature AllowDeath.

Definition withdraw env (origin : O) (who : A) (index : ParaId) : Call :=
  or_bad_origin (ensure_signed origin) ;;
  fund ← get_fund index;
  let fund_account := fund_account_id (fund_index fund) in
  ensure_crowdloan_ended (ParasPallet.block_number env) fund_account fund ;;
  w ← get;
  let balance := (contribution_get (fund_index fund) who w).1 in
  ensure (bool_decide (0 < balance)) (Module NoContributions) ;;
  transfer_funds fund_account who balance AllowDeath ;;
  modify (contribution_kill (fund_index fund) who) ;;
  put_fund index (set_raised (saturating_sub (raised fund) balance) fund) ;;
  modify (deposit_event (Withdrew who index balance)).

(** The loop over the contributions; the result says whether all were met. *)
Fixpoint refund_loop (fund_account : A) (limit : nat) (l : list (A * (Balance * list byte))) fund :
    M World (DispatchError Error) (Fund * bool) :=
  match l, limit with
  | [], _ => mret (fund, true)
  | _ :: _, Datatypes.O => mret (fund, false)
  | (who, (balance, _)) :: l, S limit =>
      transfer_funds fund_account who balance AllowDeath ;;
      modify (contribution_kill (fund_index fund) who) ;;
      refund_loop fund_account limit l (set_raised (saturating_sub (raised fund) balance) fund)
  end.

Definition refund env (origin : O) (index : ParaId) : Call :=
  or_bad_origin (ensure_signed origin) ;;
  fund ← get_fund index;
  let fund_account := fund_account_id (fund_index fund) in
  ensure_crowdloan_ended (ParasPallet.block_number env) fund_account fund ;;
  w ← get;
  '(fund, all_refunded) ← refund_loop fund_account (Z.to_nat (RemoveKeysLimit consts))
     (storage_iter (contributions (fund_index fund) w)) fund;
  put_fund index fund ;;
  modify (deposit_event (if all_refunded : bool then AllRefunded index else PartiallyRefunded index)).

Definition dissolve env (origin : O) (index : ParaId) : Call :=
  who ← or_bad_origin (ensure_signed origin);
  fund ← get_fund index;
  let permitted := bool_decide (who = depositor fund ∨ end_ fund ≤ ParasPallet.block_number env) in
  ensure (permitted && bool_decide (raised fund = 0)) (Module NotReadyToDissolve) ;;
  modify (Registrar.unreserve_to (depositor fund) (fund_deposit fund)) ;;
  modify (on_crowdloan (set_funds (delete index))) ;;
  modify (deposit_event (Dissolved index)).

Definition edit (origin : O) (index : ParaId) (cap_ : Balance) (first last : LeasePeriodIndex) (end_at : BlockNumber)
    (verifier_ : option Signer) : Call :=
  or_bad_origin (ensure_root origin) ;;
  fund ← get_fund index;
  put_fund index (mkFund (depositor fund) verifier_ (fund_deposit fund) (raised fund) end_at cap_
    (last_contribution fund) first last (fund_index fund)) ;;
  modify (deposit_event (Edited index)).

Definition add_memo (origin : O) (index : ParaId) (memo : list byte) : Call :=
  who ← or_bad_origin (ensure_signed origin);
  ensure (bool_decide (Z.of_nat (length memo) ≤ MaxMemoLength consts)) (Module MemoTooLarge) ;;
  fund ← get_fund index;
  w ← get;
  let balance := (contribution_get (fund_index fund) who w).1 in
  ensure (bool_decide (0 < balance)) (Module NoContributions) ;;
  modify (contribution_put (fund_index fund) who balance memo) ;;
  modify (deposit_event (MemoUpdated who index memo)).

Definition poke (origin : O) (index : ParaId) : Call :=
  or_bad_origin (ensure_signed origin) ;;
  fund ← get_fund index;
  ensure (negb (bool_decide (raised fund = 0))) (Module NoContributions) ;;
  w ← get;
  ensure (negb (bool_decide (index ∈ NewRaise (crowdloan w)))) (Module AlreadyInNewRaise) ;;
  modify (on_crowdloan (set_new_raise (NewRaise (crowdloan w) ++ [index]))) ;;
  modify (deposit_event (AddedToNewRaise index)).

(** ** Blocks *)

(** A fund on the list bids all it has raised; the outcome is reported. *)
Definition submit_bid env w (para_id : ParaId) : World :=
  match Funds (crowdloan w) !! para_id with
  | Some fund =>
      let '(w, res) := Auctions.place_bid consts env (fund_account_id (fund_index fund)) para_id (first_period fund)
                         (last_period fund) (raised fund) w in
      deposit_event (HandleBidResult para_id res) w
  | None => w
  end.

Definition on_initialize env (num : BlockNumber) w : World :=
  match Auctions.is_ending (Auctions.auction_status consts num w) with
  | Some (sample, sub_sample) =>
      let w := if decide (sample = 0 ∧ sub_sample = 0)
               then on_crowdloan (λ s, mkCrowdloan (Funds s) (NewRaise s) (u32_add (EndingsCount s) 1) (NextFundIndex s)
                                         (Contributions s)) w
               else w in
      let new_raise := NewRaise (crowdloan w) in
      foldl (submit_bid env) (on_crowdloan (set_new_raise []) w) new_raise
  | None => w
  end.

(** The funds of the two paras change places. *)
Definition on_swap (one other : ParaId) w : World :=
  let x := Funds (crowdloan w) !! one in
  let y := Funds (crowdloan w) !! other in
  on_crowdloan (set_funds (λ m, partial_alter (λ _, y) one (partial_alter (λ _, x) other m))) w.
End Pallet.
End Crowdloan.

(** [type OnSwap = (Crowdloan, Slots)] of the runtimes. *)
#[export] Instance runtime_on_swap {A B Signer : Type} `{!EqDecision A} `{!Countable A} :
  OnSwap (World A B Signer) := λ one other w, Slots.on_swap one other (Crowdloan.on_swap one other w).
