(* ===== verification/AuctionWinners.v ===== *)
(** * The winners of an auction

    [calculate_winners] is a dynamic programme over the lease periods; it finds
    the selection of ranges that pays most. *)

From S2P Require Import Prelude.
From S2P Require Import Frame.
From S2P Require Import Candidates.
From S2P Require Import SlotRange.
From S2P Require Import CommonPallets.
From S2P Require Import Auctions.
Import Candidates SlotRange.

Module AuctionWinners.
Import Auctions.

Section Winners.
Context {A : Type}.
#[local] Abbreviation WinningData := (list (option (A * ParaId * Balance))).
Context (winning : WinningData).

(** What the bid on a range pays over its periods. *)
Definition pays (r : SlotRange) : option Balance :=
  match winning !! index r with
  | Some (Some (_, _, amount)) => Some (amount * Z.of_nat (len r))
  | _ => None
  end.
Definition total (l : list SlotRange) : Balance := foldr Z.add 0 ((λ r, default 0 (pays r)) <$> l).

(** Amounts that do not overflow when they are paid for all periods. *)
Definition bids_fit : Prop :=
  ∀ i who para amount, winning !! i = Some (Some (who, para, amount)) →
    0 ≤ amount ∧ amount * Z.of_nat LEASE_PERIODS_PER_SLOT ≤ u128_max.

(** Ranges with bids, one after the other, before period [n]. *)
Definition before (r r' : SlotRange) : Prop := ((as_pair r).2 < (as_pair r').1)%nat.
Definition selection (n : nat) (l : list SlotRange) : Prop :=
  StronglySorted before l ∧ ∀ r, r ∈ l → is_Some (pays r) ∧ ((as_pair r).2 < n)%nat.

Context (Hfit : bids_fit).

Lemma pays_bounds r v :
  pays r = Some v → 0 ≤ v ∧ v ≤ (u128_max `div` 8) * Z.of_nat (len r).
Proof.
  unfold pays. intros Hp. destruct (winning !! index r) as [[[[who para] amount]|]|] eqn:E; [|done..].
  injection Hp as <-. apply Hfit in E as [H0 Hm]. unfold LEASE_PERIODS_PER_SLOT in Hm.
  assert (amount ≤ u128_max `div` 8) by (apply Z.div_le_lower_bound; lia). nia.
Qed.

Lemma total_pay_app l k : total (l ++ k) = total l + total k.
Proof. unfold total. rewrite fmap_app. induction l as [|x l IH]; cbn; [done|]. rewrite IH. lia. Qed.

Lemma total_snoc l r v : pays r = Some v → total (l ++ [r]) = total l + v.
Proof. intros E. rewrite total_pay_app. unfold total at 2. cbn. rewrite E. cbn. lia. Qed.

Lemma selection_snoc n l r :
  selection n (l ++ [r]) ↔ selection (as_pair r).1 l ∧ is_Some (pays r) ∧ ((as_pair r).2 < n)%nat.
Proof.
  pose proof (as_pair_bounds r) as Hr. split.
  - intros [Hs Hl]. destruct (Hl r) as [Hp Hn]; [set_solver|]. split; [|done].
    assert (∀ x, x ∈ l → before x r) as Hb.
    { intros x Hx. eapply StronglySorted_app_1_elem_of; [exact Hs|done|by left]. }
    split; [by apply StronglySorted_app_1_l in Hs|]. intros x Hx. split; [apply Hl; set_solver|by apply Hb].
  - intros ([Hs Hl] & Hp & Hn). split.
    + apply StronglySorted_app_2; [|done|repeat constructor]. intros x y Hx ->%list_elem_of_singleton. by apply Hl.
    + intros x [Hx| ->%list_elem_of_singleton]%elem_of_app; [|done]. destruct (Hl x Hx) as [H1 H2]. split; [done|lia].
Qed.

Lemma selection_total l : ∀ n, selection n l → 0 ≤ total l ≤ (u128_max `div` 8) * Z.of_nat n.
Proof.
  assert (0 ≤ u128_max `div` 8) as Hpos by done.
  induction l as [|r l IH] using rev_ind; intros n Hl; [change (total []) with 0; nia|].
  apply selection_snoc in Hl as (Hl & [v Hv] & Hn). rewrite (total_snoc _ _ _ Hv). pose proof (pays_bounds _ _ Hv) as Hb.
  specialize (IH _ Hl). unfold len in Hb. pose proof (as_pair_bounds r). nia.
Qed.

Lemma best_bid_pays r : best_bid winning r = pays r.
Proof.
  unfold best_bid, pays. destruct (winning !! index r) as [[[[who para] amount]|]|] eqn:E; [|done..].
  pose proof (as_pair_bounds r) as Hr. apply Hfit in E as [H0 Hm]. unfold u128_mul, len, LEASE_PERIODS_PER_SLOT in *.
  rewrite wrap128_small; [done|]. nia.
Qed.

Lemma range_of_ok a b :
  (a ≤ b < LEASE_PERIODS_PER_SLOT)%nat → ∃ r, range_of a b = Some r ∧ as_pair r = (a, b).
Proof.
  intros Hab. destruct (pair_range a b Hab) as [r Hr]. exists r. split; [|done]. unfold range_of.
  assert (new_bounded 0 (Z.of_nat a) (Z.of_nat b) = Ok r) as ->; [|done].
  apply new_bounded_ok; [lia|unfold u32_max; lia|]. rewrite !Z.sub_0_r, !Nat2Z.id. split; [done|lia].
Qed.

(** ** The loops *)

Definition optimal (n : nat) (w : list SlotRange) (v : Balance) : Prop :=
  selection n w ∧ total w = v ∧ ∀ l, selection n l → total l ≤ v.

(** Up to [m], the ranges that end at [i] and start at [m] at the latest. *)
Definition best_from (i m : nat) (w : list SlotRange) (v : Balance) : Prop :=
  selection (i + 1) w ∧ total w = v ∧
  ∀ l r, selection (i + 1) (l ++ [r]) → (as_pair r).2 = i → ((as_pair r).1 ≤ m)%nat → total (l ++ [r]) ≤ v.

Lemma extend_ok i j best wi vi wj vj :
  (j < i < LEASE_PERIODS_PER_SLOT)%nat → best !! i = Some (wi, vi) → best !! j = Some (wj, vj) →
  optimal (j + 1) wj vj → best_from i j wi vi →
  ∃ wi' vi', extend winning i best j = Some (<[i := (wi', vi')]> best) ∧ best_from i (j + 1) wi' vi' ∧ vj ≤ vi' ∧ vi ≤ vi'.
Proof.
  intros Hij Ei Ej (Hsj & Htj & Hoj) (Hsi & Hti & Hoi). unfold extend.
  destruct (range_of_ok (j + 1) i) as (r & -> & Hr); [lia|]. cbn [mbind option_bind]. rewrite Ej, Ei. cbn [mbind option_bind].
  rewrite best_bid_pays.
  assert (∀ v, vi ≤ v → (∀ x, pays r = Some x → vj + x ≤ v) →
    ∀ l r', selection (i + 1) (l ++ [r']) → (as_pair r').2 = i → ((as_pair r').1 ≤ j + 1)%nat → total (l ++ [r']) ≤ v) as Hbest.
  { intros v Hv Hx l r' Hl He Hf. destruct (decide ((as_pair r').1 ≤ j)%nat) as [Hle|Hgt].
    { etrans; [by apply Hoi|done]. }
    assert (r' = r) as ->. { apply as_pair_inj. rewrite Hr. destruct (as_pair r'); cbn in *. f_equal; lia. }
    apply selection_snoc in Hl as (Hl & [x Ex] & _). rewrite (total_snoc _ _ _ Ex).
    rewrite Hr in Hl. specialize (Hoj l Hl). specialize (Hx x Ex). lia. }
  assert (is_Some (pays r) → selection (i + 1) (wj ++ [r])) as Hnew.
  { intros Hp. apply selection_snoc. rewrite Hr. cbn. split; [done|]. split; [done|lia]. }
  destruct (pays r) as [x|] eqn:Ex.
  - pose proof (selection_total _ _ (Hnew ltac:(by eexists))) as Hb. rewrite (total_snoc _ _ _ Ex) in Hb.
    pose proof (pays_bounds _ _ Ex) as [Hx0 _].
    unfold u128_add. rewrite wrap128_small.
    2: { pose proof (Z.mul_div_le u128_max 8 ltac:(lia)). unfold LEASE_PERIODS_PER_SLOT in Hij. nia. }
    case_decide as Hlt.
    + exists (wj ++ [r]), (x + vj). split; [done|]. split; [|split; lia]. split; [by apply Hnew; eexists|].
      split; [rewrite (total_snoc _ _ _ Ex); lia|]. apply Hbest; [lia|]. intros ? [= <-]. lia.
    + exists wi, vi. split; [by rewrite list_insert_id|]. split; [|split; lia]. split; [done|]. split; [done|].
      apply Hbest; [lia|]. intros ? [= <-]. lia.
  - case_decide as Hlt.
    + exists wj, vj. split; [done|]. split; [|split; lia]. split.
      { destruct Hsj as [? Hj]. split; [done|]. intros y Hy. destruct (Hj y Hy). split; [done|lia]. }
      split; [done|]. apply Hbest; [lia|done].
    + exists wi, vi. split; [by rewrite list_insert_id|]. split; [|split; lia]. split; [done|]. split; [done|]. by apply Hbest.
Qed.

Lemma extend_all i m best wi vi :
  (m ≤ i < LEASE_PERIODS_PER_SLOT)%nat → best !! i = Some (wi, vi) → best_from i 0 wi vi →
  (∀ j, (j < i)%nat → ∃ w v, best !! j = Some (w, v) ∧ optimal (j + 1) w v) →
  ∃ wi' vi', try_fold (extend winning i) (seq 0 m) best = Some (<[i := (wi', vi')]> best) ∧ best_from i m wi' vi' ∧
    ∀ j w v, (j < m)%nat → best !! j = Some (w, v) → v ≤ vi'.
Proof.
  intros Hm Hi Hb Hbest. induction m as [|m IH].
  { cbn [seq try_fold]. exists wi, vi. rewrite list_insert_id by done. split; [done|]. split; [done|]. lia. }
  destruct IH as (w & v & E & Hw & Hle); [lia|]. rewrite seq_S, try_fold_app, E. cbn [mbind option_bind try_fold Nat.add].
  destruct (Hbest m) as (wj & vj & Ej & Hj); [lia|].
  destruct (extend_ok i m (<[i := (w, v)]> best) w v wj vj) as (w' & v' & E' & Hw' & H1 & H2); [lia| | |done|done|].
  { rewrite list_lookup_insert_eq; [done|]. by eapply lookup_lt_Some. }
  { by rewrite list_lookup_insert_ne by lia. }
  rewrite E'. cbn. exists w', v'. rewrite list_insert_insert_eq. split; [done|].
  split; [by rewrite Nat.add_1_r in Hw'|]. intros j w0 v0 Hjm Ejm. destruct (decide (j = m)) as [->|Hne]; [by simplify_eq|].
  etrans; [eapply Hle; [|done]; lia|done].
Qed.

Lemma ending_at_ok i best :
  (i < LEASE_PERIODS_PER_SLOT)%nat → best !! i = Some ([], 0) →
  (∀ j, (j < i)%nat → ∃ w v, best !! j = Some (w, v) ∧ optimal (j + 1) w v) →
  ∃ w v, ending_at winning best i = Some (<[i := (w, v)]> best) ∧ optimal (i + 1) w v.
Proof.
  intros Hi Ei Hbest. unfold ending_at. destruct (range_of_ok 0 i) as (r & -> & Hr); [lia|].
  cbn [mbind option_bind]. rewrite best_bid_pays. cbv zeta.
  assert (∃ w0 v0, match pays r with Some bid => <[i := ([r], bid)]> best | None => best end = <[i := (w0, v0)]> best ∧
    best_from i 0 w0 v0 ∧ 0 ≤ v0) as (w0 & v0 & -> & Hb & Hv0).
  { assert (∀ l r', selection (i + 1) (l ++ [r']) → (as_pair r').2 = i → ((as_pair r').1 ≤ 0)%nat → l = [] ∧ r' = r) as Huniq.
    { intros l r' Hl He Hf. split; [|apply as_pair_inj; rewrite Hr; destruct (as_pair r'); cbn in *; f_equal; lia].
      apply selection_snoc in Hl as ([_ Hl] & _). destruct l as [|y l]; [done|]. destruct (Hl y); [by left|lia]. }
    destruct (pays r) as [x|] eqn:Ex.
    - exists [r], x. split; [done|]. split; [|by apply (pays_bounds r)]. split.
      { apply (selection_snoc _ []). rewrite Hr. cbn. split; [by split; [constructor|intros ? ?%elem_of_nil]|]. split; [done|lia]. }
      split; [unfold total; cbn; rewrite Ex; cbn; lia|]. intros l r' Hl He Hf. destruct (Huniq l r' Hl He Hf) as [-> ->].
      unfold total. cbn. rewrite Ex. cbn. lia.
    - exists [], 0. split; [by rewrite list_insert_id|]. split; [|done]. split; [by split; [constructor|intros ? ?%elem_of_nil]|].
      split; [done|]. intros l r' Hl He Hf. destruct (Huniq l r' Hl He Hf) as [-> ->].
      apply selection_snoc in Hl as (_ & Hp & _). rewrite Ex in Hp. by destruct Hp. }
  assert (i < length best)%nat as Hlen by by eapply lookup_lt_Some.
  destruct (extend_all i i (<[i := (w0, v0)]> best) w0 v0) as (w & v & E & (Hs & Ht & Ho) & Hle);
    [lia|by rewrite list_lookup_insert_eq|done| |].
  { intros j Hj. destruct (Hbest j Hj) as (wj & vj & Ej & ?). exists wj, vj. by rewrite list_lookup_insert_ne by lia. }
  exists w, v. rewrite E, list_insert_insert_eq. split; [done|]. split; [done|]. split; [done|]. intros l Hl.
  destruct l as [|r' l _] using rev_ind.
  { change (total []) with 0. apply selection_total in Hs. lia. }
  destruct (decide ((as_pair r').2 = i)) as [He|He].
  { apply Ho; [done|done|]. pose proof (as_pair_bounds r'). lia. }
  apply selection_snoc in Hl as (Hl & Hp & Hn). destruct i as [|i]; [lia|].
  destruct (Hbest i) as (wj & vj & Ej & _ & _ & Hoj); [lia|].
  etrans; [apply Hoj, selection_snoc; split; [done|]; split; [done|lia]|].
  eapply (Hle i wj); [lia|]. by rewrite list_lookup_insert_ne by lia.
Qed.

Lemma all_periods n :
  (n ≤ LEASE_PERIODS_PER_SLOT)%nat →
  ∃ best, try_fold (ending_at winning) (seq 0 n) (replicate LEASE_PERIODS_PER_SLOT ([], 0)) = Some best ∧
    (∀ j, (j < n)%nat → ∃ w v, best !! j = Some (w, v) ∧ optimal (j + 1) w v) ∧
    (∀ j, (n ≤ j < LEASE_PERIODS_PER_SLOT)%nat → best !! j = Some ([], 0)).
Proof.
  induction n as [|n IH]; intros Hn.
  { eexists. split; [done|]. split; [lia|]. intros j Hj. apply lookup_replicate_2; lia. }
  destruct IH as (best & E & Hd & Hr); [lia|]. rewrite seq_S, try_fold_app, E. cbn [mbind option_bind try_fold Nat.add].
  destruct (ending_at_ok n best) as (w & v & -> & Ho); [lia|by apply Hr; lia|done|]. cbn. eexists. split; [done|].
  assert (n < length best)%nat as Hlen by (eapply lookup_lt_Some, Hr; lia). split.
  - intros j Hj. destruct (decide (j = n)) as [->|Hne].
    + exists w, v. by rewrite list_lookup_insert_eq.
    + rewrite list_lookup_insert_ne by lia. apply Hd. lia.
  - intros j Hj. rewrite list_lookup_insert_ne by lia. apply Hr. lia.
Qed.

Lemma winning_ranges_ok :
  ∃ ranges, winning_ranges winning = Some ranges ∧ optimal LEASE_PERIODS_PER_SLOT ranges (total ranges).
Proof.
  destruct (all_periods LEASE_PERIODS_PER_SLOT) as (best & E & Hd & _); [done|]. unfold winning_ranges. rewrite E.
  destruct (Hd 7%nat) as (w & v & E7 & Ho); [unfold LEASE_PERIODS_PER_SLOT; lia|]. exists w. cbn [mbind option_bind].
  change (LEASE_PERIODS_PER_SLOT - 1)%nat with 7%nat. rewrite E7. split; [done|]. destruct Ho as (H1 & H2 & H3). split; [done|]. by rewrite H2.
Qed.

Lemma selection_NoDup n l : selection n l → NoDup l.
Proof.
  intros [Hs _]. induction Hs as [|r l Hs IH Hf]; constructor; [|done].
  intros Hr. rewrite Forall_forall in Hf. specialize (Hf r Hr). unfold before in Hf. pose proof (as_pair_bounds r). lia.
Qed.
End Winners.

(** ** The bids of the winners *)

Lemma take_winners_all {A} (winning : list (option (A * ParaId * Balance))) ranges :
  NoDup ranges → (∀ r, r ∈ ranges → is_Some (pays winning r)) →
  (take_winners winning ranges).*2 = ranges ∧
  ∀ bid r, (bid, r) ∈ take_winners winning ranges → winning !! index r = Some (Some bid).
Proof.
  revert winning. induction ranges as [|r ranges IH]; intros winning Hnd Hp; cbn; [split; [done|by intros ? ? ?%elem_of_nil]|].
  inversion_clear Hnd as [|? ? Hr Hnd']. destruct (Hp r) as [v Hv]; [by left|]. unfold pays in Hv.
  destruct (winning !! index r) as [[bid|]|] eqn:E; [|done..].
  assert (∀ r', r' ∈ ranges → <[index r := None]> winning !! index r' = winning !! index r') as Hother.
  { intros r' Hr'. apply list_lookup_insert_ne. intros Hi%index_inj. by subst r'. }
  destruct (IH (<[index r := None]> winning)) as [IH1 IH2]; [done| |].
  { intros r' Hr'. unfold pays. rewrite Hother by done. apply Hp. by right. }
  split; [cbn; by rewrite IH1|]. intros bid' r' [[= -> ->]|Hin]%elem_of_cons; [done|].
  rewrite <-Hother; [by apply IH2|]. rewrite <-IH1. by apply (list_elem_of_fmap_2 snd) in Hin.
Qed.

(** A set of ranges without overlap, in their order. *)
Definition by_start (r r' : SlotRange) : Prop := ((as_pair r).1 ≤ (as_pair r').1)%nat.
#[export] Instance by_start_dec : RelDecision by_start.
Proof. intros r r'. unfold by_start. apply _. Defined.
#[export] Instance by_start_total : Total by_start.
Proof. intros r r'. unfold by_start. lia. Qed.
#[export] Instance by_start_trans : Transitive by_start.
Proof. intros r r' r''. unfold by_start. lia. Qed.

Lemma disjoint_selection {A} (winning : list (option (A * ParaId * Balance))) l :
  NoDup l → (∀ r, r ∈ l → is_Some (pays winning r)) →
  (∀ r r', r ∈ l → r' ∈ l → r ≠ r' → intersects r r' = false) →
  selection winning LEASE_PERIODS_PER_SLOT (merge_sort by_start l).
Proof.
  intros Hnd Hp Hd. pose proof (merge_sort_Permutation by_start l) as Hperm. split.
  - pose proof (StronglySorted_merge_sort by_start l) as Hs. rewrite <-Hperm in Hnd.
    assert (∀ r, r ∈ merge_sort by_start l → r ∈ l) as Hin by (intros r; by rewrite Hperm).
    clear Hperm. induction Hs as [|r k Hs IH Hf]; constructor.
    + apply IH; [by inversion Hnd|]. intros r' Hr'. apply Hin. by right.
    + inversion_clear Hnd as [|? ? Hr _]. apply Forall_forall. intros r' Hr'. rewrite Forall_forall in Hf.
      specialize (Hf r' Hr'). assert (r ≠ r') as Hne by (by intros ->).
      specialize (Hd r r' (Hin r ltac:(by left)) (Hin r' ltac:(by right)) Hne). unfold intersects in Hd.
      apply bool_decide_eq_false in Hd. unfold by_start in Hf. unfold before. pose proof (as_pair_bounds r'). lia.
  - intros r Hr. rewrite Hperm in Hr. split; [by apply Hp|apply as_pair_bounds].
Qed.
Lemma total_perm {A} (winning : list (option (A * ParaId * Balance))) l k : l ≡ₚ k → total winning l = total winning k.
Proof. intros Hp. unfold total. apply foldr_permutation_proper; [apply _..| |by rewrite Hp]. lia. Qed.

(** C13. The winners of an auction pay most: they are bids on ranges that do not
    overlap, in the order of the periods, each the standing bid on its range; and
    no set of ranges without overlap has bids that pay more, counting the amount
    of a bid for every lease period it covers. *)
Theorem winners_optimal {A} (winning : list (option (A * ParaId * Balance))) :
  bids_fit winning →
  ∃ winners, calculate_winners winning = Some winners ∧
    (∀ bid r, (bid, r) ∈ winners → winning !! index r = Some (Some bid)) ∧
    StronglySorted (λ x y, intersects x.2 y.2 = false ∧ before x.2 y.2) winners ∧
    ∀ l, NoDup l → (∀ r, r ∈ l → ∃ bid, winning !! index r = Some (Some bid)) →
      (∀ r r', r ∈ l → r' ∈ l → r ≠ r' → intersects r r' = false) →
      total winning l ≤ foldr (λ '(_, _, amount, r) acc, amount * Z.of_nat (len r) + acc) 0 winners.
Proof.
  intros Hfit. destruct (winning_ranges_ok winning Hfit) as (ranges & E & Hs & _ & Ho).
  destruct (take_winners_all winning ranges) as [Hr Hb]; [by eapply selection_NoDup|apply Hs|].
  exists (take_winners winning ranges). split; [unfold calculate_winners; by rewrite E|]. split; [done|]. split.
  - assert (StronglySorted before (take_winners winning ranges).*2) as Hbf by (rewrite Hr; apply Hs).
    clear -Hbf. induction (take_winners winning ranges) as [|x l IH]; constructor; [apply IH; by inversion Hbf|].
    inversion_clear Hbf as [|? ? _ Hf]. rewrite Forall_fmap in Hf. eapply Forall_impl; [exact Hf|]. intros y Hy. split; [|done].
    unfold intersects. apply bool_decide_eq_false. cbn in Hy. unfold before in Hy. lia.
  - intros l Hnd Hl Hd. etrans.
    + rewrite <-(total_perm winning _ _ (merge_sort_Permutation by_start l)). apply Ho, disjoint_selection; [done| |done].
      intros r Hr'. destruct (Hl r Hr') as [[[who para] amount] Eb]. unfold pays. rewrite Eb. by eexists.
    + rewrite <-Hr at 1. clear -Hb. induction (take_winners winning ranges) as [|[[[who para] amount] r] ws IH]; [done|].
      cbn. unfold total in *. cbn. unfold pays at 1. rewrite (Hb (who, para, amount) r) by left. cbn.
      assert (∀ bid r', (bid, r') ∈ ws → winning !! index r' = Some (Some bid)) as Hb' by (intros; apply Hb; by right).
      specialize (IH Hb'). lia.
Qed.

(** Three bids: two halves that pay 40 and 20 together, and the whole for 64. *)
Definition example_bids : list (option (nat * ParaId * Balance)) :=
  <[index ZeroThree := Some (1%nat, 7, 10)]> (<[index FourSeven := Some (2%nat, 8, 5)]>
    (<[index ZeroSeven := Some (3%nat, 9, 8)]> EMPTY)).

Lemma winners_optimal_witness :
  calculate_winners example_bids = Some [(3%nat, 9, 8, ZeroSeven)] ∧ total example_bids [ZeroThree; FourSeven] = 60 ∧
  total example_bids [ZeroThree; FourSeven] ≤ 64.
Proof.
  split; [by vm_compute|]. split; [by vm_compute|].
  destruct (winners_optimal example_bids) as (winners & E & _ & _ & Ho).
  - intros i who para amount E. unfold example_bids in E.
    do 3 (apply list_lookup_insert_Some in E as [(_ & E & _)|[_ E]]; [injection E as <- <- <-; by vm_compute|]).
    by apply lookup_replicate in E as [? _].
  - specialize (Ho [ZeroThree; FourSeven]). assert (calculate_winners example_bids = Some [(3%nat, 9, 8, ZeroSeven)]) as E' by by vm_compute.
    rewrite E' in E. injection E as <-. apply Ho.
    + apply (bool_decide_unpack _). by vm_compute.
    + intros r [->|[->|[]%elem_of_nil]%elem_of_cons]%elem_of_cons; eexists; by vm_compute.
    + intros r r' Hr Hr' Hne.
      apply elem_of_cons in Hr as [->|[->|[]%elem_of_nil]%elem_of_cons];
        apply elem_of_cons in Hr' as [->|[->|[]%elem_of_nil]%elem_of_cons]; [by destruct Hne| | |by destruct Hne]; vm_compute; reflexivity.
Defined.
End AuctionWinners.
