(* ===== verification/Deposits.v ===== *)
(** * Deposits of the common pallets

    What an account has in reserve for leases, bids, registrations and
    crowdloans is recorded by the four pallets; the theorem is that the records
    and the reserve change together. *)

From S2P Require Import Prelude.
From S2P Require Import Vectors.
From S2P Require Import Frame.
From S2P Require Import Configuration.
From S2P Require Import Paras.
From S2P Require Import ParasPallet.
From S2P Require Import Candidates.
From S2P Require Import SlotRange.
From S2P Require Import CommonPallets.
From S2P Require Import Registrar.
From S2P Require Import Slots.
From S2P Require Import Auctions.
From S2P Require Import Crowdloan.
Import Candidates Currency Common.

Module Deposits.

(** ** Sums over storage maps *)

Section Sums.
Context {K V : Type} `{Countable K} (f : K → V → Z).

Definition sum_map (m : gmap K V) : Z := map_fold (λ k v acc, f k v + acc) 0 m.

(** The part of a key. *)
Definition share (k : K) (o : option V) : Z := match o with Some v => f k v | None => 0 end.

Lemma sum_map_empty : sum_map ∅ = 0.
Proof. apply map_fold_empty. Qed.

Lemma sum_map_insert_new k v m : m !! k = None → sum_map (<[k := v]> m) = f k v + sum_map m.
Proof. intros Hk. unfold sum_map. apply (map_fold_insert_L (λ k v acc, f k v + acc) 0 k v m); [lia|done]. Qed.

Lemma sum_map_delete k m : sum_map (delete k m) = sum_map m - share k (m !! k).
Proof.
  destruct (m !! k) as [v|] eqn:E; cbn.
  - rewrite <-(insert_delete_id m k v) at 2 by done. rewrite sum_map_insert_new by apply lookup_delete_eq. lia.
  - rewrite delete_id by done. lia.
Qed.

Lemma sum_map_insert k v m : sum_map (<[k := v]> m) = sum_map m - share k (m !! k) + f k v.
Proof. rewrite <-insert_delete_eq, sum_map_insert_new by apply lookup_delete_eq. rewrite sum_map_delete. lia. Qed.

Lemma sum_map_set k o m : sum_map (partial_alter (λ _, o) k m) = sum_map m - share k (m !! k) + share k o.
Proof. destruct o as [v|]; [apply sum_map_insert|]. cbn. rewrite Z.add_0_r. apply sum_map_delete. Qed.

Lemma sum_map_nonneg m : (∀ k v, m !! k = Some v → 0 ≤ f k v) → 0 ≤ sum_map m.
Proof.
  induction m as [|k v m Hk IH] using map_ind; intros Hm; [by rewrite sum_map_empty|]. rewrite sum_map_insert_new by done.
  assert (0 ≤ f k v) by (apply Hm, lookup_insert_eq). assert (0 ≤ sum_map m); [|lia]. apply IH. intros k' v' Hk'.
  apply Hm. rewrite lookup_insert_ne; [done|]. intros ->. by rewrite Hk in Hk'.
Qed.

Lemma sum_map_share m k : (∀ k v, m !! k = Some v → 0 ≤ f k v) → share k (m !! k) ≤ sum_map m.
Proof.
  intros Hm. pose proof (sum_map_delete k m) as E. assert (0 ≤ sum_map (delete k m)); [|lia].
  apply sum_map_nonneg. intros k' v' [_ Hk']%lookup_delete_Some. by apply Hm.
Qed.
End Sums.

(** ** What is recorded *)

Section Claims.
Context {A B Signer : Type} `{!EqDecision A} `{!Countable A}.
#[local] Abbreviation World := (World A B Signer).
Implicit Types (w : World) (who : A).

Definition of_account (who a : A) (x : Balance) : Balance := if decide (a = who) then x else 0.

Definition leased who w : Balance := sum_map (λ _ d, Slots.held_in who d) (Leases (slots w)).
Definition bidding who w : Balance := sum_map (λ k x, of_account who k.1 x) (ReservedAmounts (auctions w)).
Definition registered who w : Balance := sum_map (λ _ i, of_account who (manager i) (deposit i)) (Paras (registrar w)).
Definition funding who w : Balance :=
  sum_map (λ _ f, of_account who (depositor f) (fund_deposit f)) (Funds (crowdloan w)).
(** What stays in reserve although no storage records it: the bid of a winner
    who could not be given a lease, and what was reserved for a lease of no
    period.  The event is the only trace. *)
Definition strands (e : Event A) : option (A * Balance) :=
  match e with
  | ReserveConfiscated _ leaser amount => Some (leaser, amount)
  | Leased _ leaser _ period_count extra_reserved _ =>
      if decide (period_count = 0) then Some (leaser, extra_reserved) else None
  | _ => None
  end.
Definition stranding who (e : Event A) : Balance :=
  match strands e with Some (leaser, amount) => of_account who leaser amount | None => 0 end.
Definition stranded who w : Balance := foldr Z.add 0 (stranding who <$> events w).

Definition claims who w : Balance :=
  leased who w + bidding who w + registered who w + funding who w + stranded who w.

Definition bids_nonneg (data : list (option (A * ParaId * Balance))) : Prop :=
  Forall (λ b, ∀ x, b = Some x → 0 ≤ x.2) data.

Record amounts_ok w : Prop := {
  am_leases para d : Leases (slots w) !! para = Some d → Forall (λ l, ∀ x, l = Some x → 0 ≤ x.2) d;
  am_bids k x : ReservedAmounts (auctions w) !! k = Some x → 0 ≤ x;
  am_paras id i : Paras (registrar w) !! id = Some i → 0 ≤ deposit i;
  am_funds id f : Funds (crowdloan w) !! id = Some f → 0 ≤ fund_deposit f ∧ 0 ≤ raised f;
  am_winning n data : Winning (auctions w) !! n = Some data → bids_nonneg data;
  am_events e y : e ∈ events w → strands e = Some y → 0 ≤ y.2;
  am_contributions index m who x : Contributions (crowdloan w) !! index = Some m → m !! who = Some x → 0 ≤ x.1;
}.

Lemma of_account_eq who x : of_account who who x = x.
Proof. unfold of_account. by rewrite decide_True. Qed.

Lemma of_account_nonneg who a x : 0 ≤ x → 0 ≤ of_account who a x.
Proof. unfold of_account. case_decide; lia. Qed.

Lemma held_nonneg who (d : list (option (A * Balance))) : 0 ≤ Slots.held_in who d.
Proof. unfold Slots.held_in. induction d as [|l d IH]; cbn; lia. Qed.

Lemma parts_nonneg who w :
  amounts_ok w → 0 ≤ leased who w ∧ 0 ≤ bidding who w ∧ 0 ≤ registered who w ∧ 0 ≤ funding who w ∧ 0 ≤ stranded who w.
Proof.
  intros Hw. split_and!.
  - apply sum_map_nonneg. intros. apply held_nonneg.
  - apply sum_map_nonneg. intros k x Hx. apply of_account_nonneg. by eapply am_bids.
  - apply sum_map_nonneg. intros k x Hx. apply of_account_nonneg. by eapply am_paras.
  - apply sum_map_nonneg. intros k x Hx. apply of_account_nonneg. by eapply am_funds.
  - unfold stranded. assert (∀ e y, e ∈ events w → strands e = Some y → 0 ≤ y.2) as He by apply Hw.
    clear Hw. induction (events w) as [|e l IH]; cbn; [done|].
    assert (0 ≤ stranding who e).
    { unfold stranding. destruct (strands e) as [[a x]|] eqn:E; [|done]. apply of_account_nonneg.
      apply (He e (a, x)); [by left|done]. }
    assert (0 ≤ foldr Z.add 0 (stranding who <$> l)); [|lia]. apply IH. intros. eapply He; [by right|done].
Qed.

(** ** Computations and the reserve *)

Context `{!Currency A B} `{!CurrencyLaws A B}.
#[local] Abbreviation reserved_of who w := (reserved_balance who (balances w)).

(** The reserve covers what is recorded. *)
Record covered w : Prop := {
  co_amounts : amounts_ok w;
  co_claims who : claims who w ≤ reserved_of who w;
}.

(** Records and reserve change by the same amounts. *)
Definition balanced w w' : Prop :=
  amounts_ok w' ∧ ∀ who, reserved_of who w' - claims who w' = reserved_of who w - claims who w.

Lemma balanced_covered w w' : covered w → balanced w w' → covered w'.
Proof. intros [_ Hc] [Ha Hb]. split; [done|]. intros who. specialize (Hc who). specialize (Hb who). lia. Qed.

Lemma balanced_refl w : covered w → balanced w w.
Proof. intros [? _]. by split. Qed.

Lemma balanced_trans w1 w2 w3 : balanced w1 w2 → balanced w2 w3 → balanced w1 w3.
Proof. intros [_ H1] [Ha H2]. split; [done|]. intros who. by rewrite H2, H1. Qed.

(** Changes of anything else. *)
Lemma balanced_same w w' :
  covered w → slots w' = slots w → ReservedAmounts (auctions w') = ReservedAmounts (auctions w) →
  (∀ n data, Winning (auctions w') !! n = Some data → bids_nonneg data) →
  (∀ who, registered who w' = registered who w) → (∀ id i, Paras (registrar w') !! id = Some i → 0 ≤ deposit i) →
  (∀ who, funding who w' = funding who w) → (∀ id f, Funds (crowdloan w') !! id = Some f → 0 ≤ fund_deposit f ∧ 0 ≤ raised f) →
  (∃ l, events w' = events w ++ l ∧ ∀ e, e ∈ l → strands e = None) →
  (∀ index m who x, Contributions (crowdloan w') !! index = Some m → m !! who = Some x → 0 ≤ x.1) →
  (∀ who, reserved_of who w' = reserved_of who w) → balanced w w'.
Proof.
  intros [[] Hc] E1 E2 Hwin E3 H3 E4 H4 (l & E5 & H5) H6 E6. split.
  - split; [by rewrite E1|by rewrite E2|done|done|done| |done]. rewrite E5. intros e y [He|He]%elem_of_app Hy; [by eapply am_events0|].
    rewrite (H5 _ He) in Hy. done.
  - intros who. rewrite E6. unfold claims, leased, bidding. rewrite E1, E2, E3, E4. unfold stranded. rewrite E5, fmap_app, foldr_app.
    assert (foldr Z.add 0 (stranding who <$> l) = 0) as ->; [|done].
    clear -H5. induction l as [|e l IH]; cbn; [done|]. rewrite IH by (intros; eapply H5; by right).
    unfold stranding. by rewrite (H5 e) by left.
Qed.

(** Sequences of computations, whether they fail or not. *)
Definition keeps {E X} w (m : M World E X) : Prop := balanced w (m w).1.

Lemma keeps_bind {E X Y} (m : M World E X) (f : X → M World E Y) w :
  covered w → keeps w m → (∀ x w', covered w' → m w = (w', Ok x) → keeps w' (f x)) → keeps w (m ≫= f).
Proof.
  intros Hw Hm Hf. unfold keeps, mbind, M_bind in *. destruct (m w) as [w' [x|e]] eqn:Em; cbn [fst] in *; [|done].
  eapply balanced_trans; [exact Hm|]. apply Hf; [|done]. by eapply balanced_covered.
Qed.

Lemma keeps_get {E Y} (f : World → M World E Y) w : keeps w (f w) → keeps w (get ≫= f).
Proof. done. Qed.

Lemma keeps_ensure {E Y} b (e : E) (f : unit → M World E Y) w :
  covered w → (b = true → keeps w (f tt)) → keeps w (ensure b e ≫= f).
Proof. intros Hw Hf. destruct b; [by apply Hf|]. by apply balanced_refl. Qed.

Lemma keeps_lift {E X Y} (r : result E X) (f : X → M World E Y) w :
  covered w → (∀ x, r = Ok x → keeps w (f x)) → keeps w (lift r ≫= f).
Proof. intros Hw Hf. destruct r as [x|e]; [by apply Hf|]. by apply balanced_refl. Qed.

Lemma keeps_modify {E Y} g (f : unit → M World E Y) w :
  covered w → balanced w (g w) → keeps (g w) (f tt) → keeps w (modify g ≫= f).
Proof. intros Hw Hg Hf. by eapply balanced_trans. Qed.

Lemma keeps_ret {E X} (x : X) w : covered w → keeps (E := E) w (mret x).
Proof. apply balanced_refl. Qed.

Lemma keeps_throw {E X} (e : E) w : covered w → keeps (X := X) w (throw e).
Proof. apply balanced_refl. Qed.

Lemma keeps_map_error {E E' X} (f : E → E') (m : M World E X) w : keeps w m → keeps w (map_error f m).
Proof. unfold keeps, map_error. by destruct (m w). Qed.

Lemma keeps_run {E X} p (m : M World E X) w : covered w → keeps w m → balanced w (run p m w).1.
Proof. intros Hw Hm. apply (run_preserves (balanced w)); [by apply balanced_refl|done]. Qed.

(** Funds returned for a record that is removed first, or afterwards. *)
Lemma unreserve_balance who x w a :
  0 ≤ x ≤ reserved_of who w →
  reserved_of a (Registrar.unreserve_to who x w) = reserved_of a w - of_account a who x.
Proof.
  intros Hx. unfold Registrar.unreserve_to. cbn [balances set_balances].
  destruct (unreserve_balances who x (balances w) a ltac:(lia)) as [-> _]. rewrite Z.min_l by lia. unfold of_account.
  repeat case_decide; congruence.
Qed.

Lemma reserve_balance who x w b a :
  0 ≤ x → Currency.reserve who x (balances w) = Some b →
  reserved_balance a b = reserved_of a w + of_account a who x.
Proof.
  intros Hx E. destruct (reserve_balances who x _ _ a E Hx) as [-> _]. unfold of_account. repeat case_decide; congruence.
Qed.

(** A record is removed and the funds go back, or the other way round. *)
Lemma unreserve_claim w w1 who x :
  covered w → amounts_ok w1 → balances w1 = balances w → 0 ≤ x ≤ reserved_of who w →
  (∀ a, claims a w1 = claims a w - of_account a who x) → balanced w (Registrar.unreserve_to who x w1).
Proof.
  intros Hw [] Eb Hx Hc. split; [by split|]. intros a. rewrite unreserve_balance by by rewrite Eb.
  change (claims a (Registrar.unreserve_to who x w1)) with (claims a w1). rewrite Hc, Eb. lia.
Qed.

Lemma reserve_claim w w1 who x :
  covered w → amounts_ok w1 → 0 ≤ x → Currency.reserve who x (balances w) = Some (balances w1) →
  (∀ a, claims a w1 = claims a w + of_account a who x) → balanced w w1.
Proof.
  intros Hw Ha Hx Er Hc. split; [done|]. intros a. rewrite (reserve_balance _ _ _ _ a Hx Er), Hc. lia.
Qed.
End Claims.

(** A step that touches neither the records nor the reserve. *)
Ltac old_amounts :=
  match goal with
  | H : covered _ |- ∀ id i, Paras _ !! _ = _ → _ => exact (am_paras _ (co_amounts _ H))
  | H : covered _ |- ∀ id f, Funds _ !! _ = _ → _ => exact (am_funds _ (co_amounts _ H))
  | H : covered _ |- ∀ n data, Winning _ !! _ = _ → _ => exact (am_winning _ (co_amounts _ H))
  | H : covered _ |- ∀ index m who x, Contributions _ !! _ = _ → _ => exact (am_contributions _ (co_amounts _ H))
  end.
Ltac no_events := exists []; rewrite app_nil_r; split; [done|intros ? ?%elem_of_nil; done].
Ltac same_records := apply balanced_same; try done; try old_amounts; try no_events.

(** ** The registrar *)

Section Registrar.
Context {A B V Signer O : Type} `{!EqDecision A} `{!Countable A} `{!Currency A B} `{!CurrencyLaws A B}
  `{!FrameOrigin O A} (code_hash_of : ValidationCode → Hash) (ensure_parachain : O → option ParaId) (consts : Constants).
#[local] Abbreviation World := (World A B Signer).
Implicit Types (env : ParasPallet.Env V) (w : World).

Lemma paras_balanced p w : covered w → balanced w (set_paras p w).
Proof. intros Hw. same_records. Qed.

Lemma event_balanced e w : covered w → strands e = None → balanced w (deposit_event e w).
Proof.
  intros Hw He. same_records.
  exists [e]. split; [done|]. by intros ? ->%list_elem_of_singleton.
Qed.

Lemma claims_event e w a : claims a (deposit_event e w) = claims a w + stranding a e.
Proof.
  unfold claims, stranded. cbn. rewrite fmap_app, foldr_app. cbn. unfold leased, bidding, registered, funding. cbn.
  assert (∀ l k, foldr Z.add k (stranding a <$> l) = foldr Z.add 0 (stranding a <$> l) + k) as Hk.
  { intros l k. induction l as [|e' l IH]; cbn; [lia|]. rewrite IH. lia. }
  rewrite Hk. lia.
Qed.

Lemma amounts_event e w : amounts_ok w → (∀ y, strands e = Some y → 0 ≤ y.2) → amounts_ok (deposit_event e w).
Proof.
  intros [] He. split; cbn; try done. intros e' y [He'|He'%list_elem_of_singleton]%elem_of_app; [by eapply am_events0|].
  subst e'. apply He.
Qed.

Lemma pending_balanced f w : covered w → balanced w (on_registrar (set_pending_swap f) w).
Proof. intros Hw. same_records. Qed.

Lemma next_id_balanced x w : covered w → balanced w (on_registrar (set_next_id x) w).
Proof. intros Hw. same_records. Qed.

Lemma lock_balanced l id w : covered w → balanced w (Registrar.set_lock l id w).
Proof.
  intros Hw. same_records.
  - intros who. unfold registered. cbn. destruct (Paras (registrar w) !! id) as [i|] eqn:E.
    + rewrite <-(insert_id (Paras (registrar w)) id i) at 1 by done. rewrite alter_insert_eq, sum_map_insert, E. cbn. lia.
    + by rewrite alter_id by (by rewrite E).
  - intros id' i. cbn. rewrite lookup_alter. case_decide; subst; [|by apply (am_paras _ (co_amounts _ Hw))].
    destruct (Paras (registrar w) !! id') as [i'|] eqn:E; cbn; [|done]. intros [= <-]. cbn. by eapply am_paras; [apply Hw|].
Qed.

Lemma on_paras_keeps m e w : covered w → keeps w (Registrar.on_paras m e).
Proof. intros Hw. unfold keeps, Registrar.on_paras. destruct (m (paras w)). by apply paras_balanced. Qed.

Lemma make_parachain_balanced env id w : covered w → balanced w (Registrar.make_parachain env id w).1.
Proof.
  intros Hw. apply keeps_get, keeps_ensure; [done|]. intros _. apply keeps_bind; [done|by apply on_paras_keeps|].
  intros _ w' Hw' _. by apply lock_balanced.
Qed.

Lemma make_parathread_balanced env id w : covered w → balanced w (Registrar.make_parathread env id w).1.
Proof. intros Hw. apply keeps_get, keeps_ensure; [done|]. intros _. by apply on_paras_keeps. Qed.

(** A deposit taken, changed or returned. *)
Lemma registered_insert w id who due a old :
  old = share (λ _ i, of_account a (manager i) (deposit i)) id (Paras (registrar w) !! id) →
  registered a (on_registrar (set_infos (insert id (mkParaInfo who due false))) w) = registered a w - old + of_account a who due.
Proof. intros ->. unfold registered. cbn. by rewrite sum_map_insert. Qed.

(** The entry of a para is replaced, and the reserve of its manager with it. *)
Lemma register_balanced w b id who due deposited :
  covered w → 0 ≤ due →
  (∀ a, share (λ _ i, of_account a (manager i) (deposit i)) id (Paras (registrar w) !! id) = of_account a who deposited) →
  (∀ a, reserved_balance a b = reserved_balance a (balances w) + of_account a who (due - deposited)) →
  balanced w (on_registrar (set_infos (insert id (mkParaInfo who due false))) (set_balances b w)).
Proof.
  intros [[] Hc] Hd Hs Hb. split.
  - split; cbn; try done. intros id' i. rewrite lookup_insert. case_decide; [by intros [= <-]|apply am_paras0].
  - intros a. cbn [balances on_registrar set_balances]. rewrite Hb. unfold claims.
    change (registered a (on_registrar ?f (set_balances b w))) with (registered a (on_registrar f w)).
    rewrite (registered_insert w id who due a _ eq_refl), Hs. unfold of_account, leased, bidding, funding, stranded. cbn.
    case_decide; lia.
Qed.

(** ... and the para is registered. *)
Lemma register_finish w b id who due deposited p :
  covered w → 0 ≤ due →
  (∀ a, share (λ _ i, of_account a (manager i) (deposit i)) id (Paras (registrar w) !! id) = of_account a who deposited) →
  (∀ a, reserved_balance a b = reserved_balance a (balances w) + of_account a who (due - deposited)) →
  balanced w (deposit_event (Registered id who) (set_paras p
    (on_registrar (set_infos (insert id (mkParaInfo who due false))) (set_balances b w)))).
Proof.
  intros Hw Hd Hs Hb. pose proof (register_balanced w b id who due deposited Hw Hd Hs Hb) as H1.
  set (w1 := on_registrar _ _) in *. assert (covered w1) as Hc1 by by eapply balanced_covered.
  eapply balanced_trans; [exact H1|]. eapply balanced_trans; [by apply (paras_balanced p)|].
  apply event_balanced; [|done]. eapply balanced_covered; [exact Hc1|]. by apply paras_balanced.
Qed.

Lemma info_covered w id i :
  covered w → Paras (registrar w) !! id = Some i → 0 ≤ deposit i ≤ reserved_balance (manager i) (balances w).
Proof.
  intros [Ha Hc] Hi. split; [by eapply am_paras|]. etrans; [|apply Hc].
  destruct (parts_nonneg (manager i) w Ha) as (? & ? & ? & ? & ?). unfold claims.
  assert (deposit i ≤ registered (manager i) w); [|lia].
  pose proof (sum_map_share (λ _ i', of_account (manager i) (manager i') (deposit i')) (Paras (registrar w)) id) as Hs.
  rewrite Hi in Hs. cbn in Hs. rewrite of_account_eq in Hs. apply Hs.
  intros k v Hk. apply of_account_nonneg. by eapply am_paras.
Qed.

Context (Hdeposit : 0 ≤ ParaDeposit consts) (Hbyte : 0 ≤ DataDepositPerByte consts).

Lemma do_reserve_keeps who o id w :
  covered w → (∀ x, o = Some x → 0 ≤ x) → keeps w (Registrar.do_reserve consts who o id).
Proof.
  intros Hw Ho. apply keeps_get, keeps_ensure; [done|]. intros Hn%negb_true_iff%contains_key_false.
  apply keeps_ensure; [done|]. intros _. cbv zeta. set (due := default _ _).
  assert (0 ≤ due) as Hdue by (unfold due; destruct o; cbn; [by apply Ho|done]). clearbody due.
  unfold keeps, Registrar.reserve_from, mbind, M_bind. destruct (Currency.reserve who due (balances w)) as [b|] eqn:E; [|by apply balanced_refl].
  assert (balanced w (on_registrar (set_infos (insert id (mkParaInfo who due false))) (set_balances b w))) as H1.
  { apply register_balanced with (deposited := 0); [done|done| |].
    - intros a. rewrite Hn. cbn. unfold of_account. by case_decide.
    - intros a. rewrite Z.sub_0_r. by apply reserve_balance. }
  eapply balanced_trans; [exact H1|]. apply event_balanced; [by eapply balanced_covered|done].
Qed.

Lemma do_register_keeps env who o id head code reserved w :
  covered w → (∀ x, o = Some x → 0 ≤ x) → keeps w (Registrar.do_register code_hash_of consts env who o id head code reserved).
Proof.
  intros Hw Ho. apply keeps_get.
  set (deposited := match Paras (registrar w) !! id with Some i => deposit i | None => 0 end).
  apply keeps_bind; [done| |].
  { destruct (Paras (registrar w) !! id); [repeat (apply keeps_ensure; [done|]; intros _); by apply keeps_ret|].
    apply keeps_ensure; [done|]; intros _; by apply keeps_ret. }
  intros x w' _ Ex.
  assert (w' = w ∧ x = deposited ∧ ∀ i, Paras (registrar w) !! id = Some i → manager i = who) as (-> & -> & Hman).
  { unfold deposited. destruct (Paras (registrar w) !! id) as [i|]; unfold_dispatch; repeat case_match; simplify_eq/=; case_storage; naive_solver. }
  clear Ex. apply keeps_ensure; [done|]. intros _. apply keeps_bind; [done| |].
  { repeat (apply keeps_ensure; [done|]; intros _). by apply keeps_ret. }
  intros [genesis due] w' _ Ev. assert (w' = w ∧ 0 ≤ due) as [-> Hdue0].
  { unfold Registrar.validate_onboarding_data in Ev. unfold_dispatch. repeat case_match; simplify_eq/=. split; [done|].
    pose proof (wrap32_range (Z.of_nat (length head))). pose proof (wrap32_range (Z.of_nat (length code))).
    unfold u128_saturating_add, u128_saturating_mul, len32, u128_max, is_u32 in *. nia. }
  clear Ev. cbv zeta. set (due' := default due o).
  assert (0 ≤ due') as Hdue by (unfold due'; destruct o; cbn; [by apply Ho|done]). clearbody due'. clear due Hdue0.
  assert (∀ a, share (λ _ i, of_account a (manager i) (deposit i)) id (Paras (registrar w) !! id) =
    of_account a who deposited) as Hold.
  { intros a. unfold deposited. destruct (Paras (registrar w) !! id) as [i|]; cbn; [by rewrite (Hman i)|].
    unfold of_account. by case_decide. }
  unfold keeps, mbind, M_bind, modify, mret, M_ret. destruct (checked_sub due' deposited) as [add|] eqn:Ea.
  - unfold Registrar.reserve_from. destruct (Currency.reserve who add (balances w)) as [b|] eqn:Er; [|by apply balanced_refl].
    cbn [fst]. unfold checked_sub in Ea. case_decide as Hle; [|done]. injection Ea as <-.
    eapply register_finish; [done..|]. intros a. apply reserve_balance; [lia|done].
  - unfold checked_sub in *. case_decide as Hlt; [done|]. rewrite decide_True by lia. cbn [fst].
    eapply (register_finish w (Currency.unreserve who (deposited - due') (balances w)).1); [done..|]. intros a.
    assert (deposited ≤ reserved_balance who (balances w)).
    { unfold deposited in *. destruct (Paras (registrar w) !! id) as [i|] eqn:Ei; [|lia].
      rewrite <-(Hman i) by done. by eapply info_covered. }
    clearbody deposited. assert (0 ≤ deposited - due' ≤ reserved_balance who (balances w)) as Hx by lia.
    pose proof (unreserve_balance who (deposited - due') w a Hx) as Hu. unfold Registrar.unreserve_to in Hu. cbn in Hu.
    rewrite Hu. unfold of_account. case_decide; lia.
Qed.

Lemma remove_info_balanced w id i :
  covered w → Paras (registrar w) !! id = Some i →
  balanced w (Registrar.unreserve_to (manager i) (deposit i) (on_registrar (set_infos (delete id)) w)).
Proof.
  intros Hw Hi. apply unreserve_claim; [done| |done|by eapply info_covered|].
  - destruct (co_amounts _ Hw). split; cbn; try done. intros id' i' [_ ?]%lookup_delete_Some. by eapply am_paras0.
  - intros a. unfold claims, registered at 1. cbn. rewrite sum_map_delete, Hi. unfold leased, bidding, registered, funding, stranded.
    cbn. lia.
Qed.

Lemma do_deregister_keeps env id w : covered w → keeps w (Registrar.do_deregister env id).
Proof.
  intros Hw. apply keeps_get, keeps_ensure; [done|]. intros _. apply keeps_bind; [done|by apply on_paras_keeps|].
  intros _ w' Hw' _. match goal with |- keeps _ (modify ?f ≫= _) => set (g := f) end.
  assert (balanced w' (g w')) as H1.
  { unfold g. destruct (Paras (registrar w') !! id) eqn:E; [by apply remove_info_balanced|by apply balanced_refl]. }
  assert (covered (g w')) as Hw1 by by eapply balanced_covered.
  apply keeps_modify; [done|exact H1|]. apply keeps_modify; [done|by apply pending_balanced|].
  apply event_balanced; [|done]. eapply balanced_covered; [exact Hw1|by apply pending_balanced].
Qed.

(** *** Swaps *)

Lemma swap_leases_balanced one other w : covered w → balanced w (Slots.on_swap one other w).
Proof.
  intros Hw. assert (∀ a p, share (λ _ d, Slots.held_in a d) p (Leases (slots w) !! p) = Slots.held_in a (Slots.lease p w)) as Hs.
  { intros a p. unfold Slots.lease, value_query. by destruct (Leases (slots w) !! p). }
  assert (∀ p, Forall (λ l : option (A * Balance), ∀ x, l = Some x → 0 ≤ x.2) (Slots.lease p w)) as Hl.
  { intros p. unfold Slots.lease, value_query. destruct (Leases (slots w) !! p) eqn:E; cbn; [by eapply am_leases; [apply Hw|]|constructor]. }
  split.
  - destruct (co_amounts _ Hw). split; cbn; try done. intros p d. rewrite !lookup_insert.
    repeat case_decide; [by intros [= <-]..|apply am_leases0].
  - intros a. unfold claims, leased at 1. cbn. rewrite !sum_map_insert, lookup_insert, Hs.
    unfold leased, bidding, registered, funding, stranded. cbn. case_decide; cbn; [subst|rewrite Hs]; lia.
Qed.

Lemma swap_funds_balanced one other w : covered w → balanced w (Crowdloan.on_swap one other w).
Proof.
  intros Hw. split.
  - destruct (co_amounts _ Hw). split; cbn; try done. intros p f. rewrite !lookup_partial_alter.
    repeat case_decide; eauto.
  - intros a. unfold claims, funding at 1. cbn. rewrite !sum_map_set, lookup_partial_alter.
    unfold leased, bidding, registered, funding, stranded. cbn. case_decide; [subst|]; unfold share; repeat case_match; lia.
Qed.

Lemma on_swap_balanced one other w : covered w → balanced w (on_swap one other w).
Proof.
  intros Hw. pose proof (swap_funds_balanced one other w Hw) as H1. eapply balanced_trans; [exact H1|].
  apply swap_leases_balanced. by eapply balanced_covered.
Qed.

Lemma thread_chain_swap_balanced env one other w :
  covered w → balanced w (Registrar.do_thread_and_chain_swap env one other w).
Proof.
  intros Hw. unfold Registrar.do_thread_and_chain_swap. cbv zeta. set (p1 := (ParasPallet.schedule_parachain_downgrade _ _ _).1).
  pose proof (paras_balanced p1 w Hw) as H1. assert (covered (set_paras p1 w)) as Hc1 by by eapply balanced_covered.
  set (p2 := (ParasPallet.schedule_parathread_upgrade _ _ _).1). pose proof (paras_balanced p2 _ Hc1) as H2.
  eapply balanced_trans; [exact H1|]. eapply balanced_trans; [exact H2|]. apply on_swap_balanced. by eapply balanced_covered.
Qed.

Lemma swap_keeps env origin id other w : covered w → keeps w (Registrar.swap ensure_parachain env origin id other).
Proof.
  intros Hw. apply keeps_bind; [done|by apply balanced_refl|]. intros [] w' Hw' E0.
  apply (f_equal fst) in E0. cbn in E0. subst w'. clear Hw'.
  case_decide; [by apply pending_balanced|]. apply keeps_get, keeps_lift; [done|]. intros l1 _. case_decide; [|by apply pending_balanced].
  apply keeps_lift; [done|]. intros l2 _. apply keeps_bind; [done| |intros _ w' Hw' _; by apply pending_balanced].
  destruct l1, l2; first [by apply keeps_throw|by apply on_swap_balanced|by apply thread_chain_swap_balanced].
Qed.
End Registrar.

(** ** Leases *)

Section Held.
Context {A : Type} `{!EqDecision A}.
#[local] Abbreviation Lease := (option (A * Balance)).
Implicit Types (d : list Lease) (a : A).

Definition leases_ok d : Prop := Forall (λ l, ∀ x, l = Some x → 0 ≤ x.2) d.

Lemma held_by_of a (l : Lease) : Slots.held_by a l = match l with Some x => of_account a x.1 x.2 | None => 0 end.
Proof. by destruct l as [[]|]. Qed.

Lemma held_app a d d' : Slots.held_in a (d ++ d') = Z.max (Slots.held_in a d) (Slots.held_in a d').
Proof.
  unfold Slots.held_in. rewrite fmap_app, foldr_app. induction d as [|l d IH]; cbn.
  - pose proof (held_nonneg a d'). unfold Slots.held_in in *. lia.
  - rewrite IH. lia.
Qed.

Lemma held_insert a d i l :
  d !! i = Some None → (∀ x, l = Some x → 0 ≤ x.2) →
  Slots.held_in a (<[i := l]> d) = Z.max (Slots.held_in a d) (Slots.held_by a l).
Proof.
  intros Hi Hl. revert i Hi. induction d as [|l' d IH]; intros [|i] Hi; [done..| |].
  - injection Hi as ->. change (<[0%nat := l]> (None :: d)) with (l :: d). pose proof (held_nonneg a d).
    unfold Slots.held_in in *. cbn. lia.
  - change (<[S i := l]> (l' :: d)) with (l' :: <[i := l]> d). specialize (IH i Hi). unfold Slots.held_in in *. cbn [fmap list_fmap foldr].
    rewrite IH. lia.
Qed.

Lemma held_none a n : Slots.held_in a (replicate n (None : Lease)) = 0.
Proof. unfold Slots.held_in. induction n as [|n IH]; cbn; lia. Qed.

Lemma pad_ok n d : leases_ok d → leases_ok (Slots.pad n d) ∧ (n ≤ length (Slots.pad n d))%nat ∧
  ∀ a, Slots.held_in a (Slots.pad n d) = Slots.held_in a d.
Proof.
  intros Hd. unfold Slots.pad. case_decide; [|split; [done|split; [lia|done]]]. split_and!.
  - apply Forall_app. split; [done|]. apply Forall_replicate. done.
  - rewrite length_app, length_replicate. lia.
  - intros a. rewrite held_app, held_none. pose proof (held_nonneg a d). lia.
Qed.

Lemma place_ok leaser amount d i d' :
  0 ≤ amount → (i ≤ length d)%nat → leases_ok d → Slots.place leaser amount (Ok d) i = Ok d' →
  leases_ok d' ∧ (i + 1 ≤ length d')%nat ∧
  ∀ a, Slots.held_in a d' = Z.max (Slots.held_in a d) (of_account a leaser amount).
Proof.
  intros H0 Hi Hd. unfold Slots.place. cbn. destruct (d !! i) as [[|]|] eqn:E; [done| |].
  - intros [= <-]. pose proof (lookup_lt_Some _ _ _ E). split; [apply Forall_insert; [done|by intros ? [= <-]]|].
    rewrite length_insert. split; [lia|]. intros a. rewrite held_insert; [done|done|by intros ? [= <-]].
  - apply lookup_ge_None in E. rewrite decide_True by lia. intros [= <-]. split; [apply Forall_app; split; [done|]|].
    + constructor; [by intros ? [= <-]|constructor].
    + rewrite length_app. cbn. split; [lia|]. intros a. rewrite held_app. unfold Slots.held_in at 2. cbn. unfold of_account.
      case_decide; lia.
Qed.

Lemma place_err (leaser : A) amount l e : foldl (Slots.place leaser amount) (Err e) l = Err e.
Proof. by induction l. Qed.

Lemma place_all_ok leaser amount n : ∀ d i d',
  0 ≤ amount → (i ≤ length d)%nat → leases_ok d → foldl (Slots.place leaser amount) (Ok d) (seq i (S n)) = Ok d' →
  leases_ok d' ∧ ∀ a, Slots.held_in a d' = Z.max (Slots.held_in a d) (of_account a leaser amount).
Proof.
  induction n as [|n IH]; intros d i d' H0 Hi Hd; rewrite <-cons_seq; cbn [foldl].
  - intros E. by destruct (place_ok leaser amount d i d' H0 Hi Hd E) as (? & _ & ?).
  - destruct (Slots.place leaser amount (Ok d) i) as [d1|e] eqn:E; [|by rewrite place_err].
    destruct (place_ok leaser amount d i d1 H0 Hi Hd E) as (Hd1 & Hl & Hh). intros E'.
    destruct (IH d1 (S i) d' H0 ltac:(lia) Hd1 E') as [Hd' Hh']. split; [done|]. intros a. rewrite Hh', Hh. lia.
Qed.

(** The deposits of each account in a list. *)
Context `{!Countable A}.

Definition sum_of (a : A) (l : list (A * Balance)) : Balance := foldr (λ x acc, of_account a x.1 x.2 + acc) 0 l.

Lemma sum_of_perm a l l' : l ≡ₚ l' → sum_of a l = sum_of a l'.
Proof. intros Hp. unfold sum_of. apply foldr_permutation_proper; [apply _..| |done]. intros. lia. Qed.

Lemma sum_of_map a (m : gmap A Balance) : sum_of a (map_to_list m) = default 0 (m !! a).
Proof.
  induction m as [|k x m Hk IH] using map_ind; [by rewrite map_to_list_empty, lookup_empty|].
  rewrite (sum_of_perm _ _ _ (map_to_list_insert m k x Hk)).
  change (sum_of a ((k, x) :: map_to_list m)) with (of_account a k x + sum_of a (map_to_list m)).
  rewrite IH, lookup_insert. unfold of_account.
  case_decide; [subst; rewrite Hk; cbn; lia|lia].
Qed.

Lemma track_ok d : ∀ m, leases_ok d → (∀ k x, m !! k = Some x → 0 ≤ x) →
  (∀ k x, foldl Slots.track m d !! k = Some x → 0 ≤ x) ∧
  ∀ a, default 0 (foldl Slots.track m d !! a) = Z.max (default 0 (m !! a)) (Slots.held_in a d).
Proof.
  induction d as [|l d IH]; intros m Hd Hm; cbn [foldl].
  { split; [done|]. intros a. unfold Slots.held_in. cbn. destruct (m !! a) eqn:E; cbn; [apply Hm in E|]; lia. }
  inversion_clear Hd as [|? ? Hl Hd'].
  assert ((∀ k x, Slots.track m l !! k = Some x → 0 ≤ x) ∧
    ∀ a, default 0 (Slots.track m l !! a) = Z.max (default 0 (m !! a)) (Slots.held_by a l)) as [Hm1 Ha1].
  { assert (∀ a, 0 ≤ default 0 (m !! a)) as Hpos by (intros a; destruct (m !! a) eqn:E; cbn; [by eapply Hm|done]).
    destruct l as [[who x]|]; cbn; [|split; [done|]; intros a; specialize (Hpos a); lia].
    specialize (Hl _ eq_refl). cbn in Hl. destruct (m !! who) as [prev|] eqn:E; [case_decide|].
    - split; [intros k y [[_ <-]|[_ ?]]%lookup_insert_Some; eauto|]. intros a. rewrite lookup_insert. unfold Slots.held_by.
      specialize (Hpos a). case_decide; [subst; rewrite E; cbn; lia|lia].
    - split; [done|]. intros a. specialize (Hpos a). unfold Slots.held_by. case_decide; [subst; rewrite E in *; cbn in *; lia|lia].
    - split; [intros k y [[_ <-]|[_ ?]]%lookup_insert_Some; eauto|]. intros a. rewrite lookup_insert. unfold Slots.held_by.
      specialize (Hpos a). case_decide; [subst; rewrite E; cbn; lia|lia]. }
  destruct (IH (Slots.track m l) Hd' Hm1) as [H1 H2]. split; [done|]. intros a. rewrite H2, Ha1. unfold Slots.held_in. cbn. lia.
Qed.
End Held.

Section Slots.
Context {A B V Signer O : Type} `{!EqDecision A} `{!Countable A} `{!Currency A B} `{!CurrencyLaws A B}
  `{!FrameOrigin O A} `{!StorageIter ParaId (list (option (A * Balance)))} (ensure_force : O → option unit) (consts : Constants).
#[local] Abbreviation World := (World A B Signer).
Implicit Types (env : ParasPallet.Env V) (w : World).

(** *** Several accounts paid back *)

Definition pay_back (l : list (A * Balance)) w : World := foldl (λ w x, Registrar.unreserve_to x.1 x.2 w) w l.

Lemma pay_back_balances l w :
  pay_back l w = set_balances (balances (pay_back l w)) w.
Proof.
  unfold pay_back. revert w. induction l as [|x l IH]; intros w; cbn; [by destruct w|]. rewrite IH. by destruct w.
Qed.

Lemma pay_back_reserved l : ∀ w a,
  Forall (λ x, 0 ≤ x.2) l → (∀ a, sum_of a l ≤ reserved_balance a (balances w)) →
  reserved_balance a (balances (pay_back l w)) = reserved_balance a (balances w) - sum_of a l.
Proof.
  induction l as [|[who x] l IH]; intros w a Hpos Hle; cbn; [lia|]. inversion_clear Hpos as [|? ? Hx Hl]. cbn in Hx.
  assert (∀ b, 0 ≤ sum_of b l) as Hnn.
  { intros b. clear -Hl. induction Hl as [|y l Hy _ IH]; cbn; [done|]. pose proof (of_account_nonneg b y.1 y.2 Hy). unfold sum_of in IH. lia. }
  assert (0 ≤ x ≤ reserved_balance who (balances w)) as Hle0.
  { split; [done|]. specialize (Hle who). cbn in Hle. rewrite of_account_eq in Hle. specialize (Hnn who). unfold sum_of in Hnn. lia. }
  unfold pay_back in IH. rewrite IH; [|done|].
  - rewrite (unreserve_balance who x w a Hle0). unfold sum_of. lia.
  - intros b. rewrite (unreserve_balance who x w b Hle0). specialize (Hle b). cbn in Hle. unfold sum_of in *. lia.
Qed.

(** *** Leases that start and end *)

Lemma lease_covered w para d who :
  covered w → Leases (slots w) !! para = Some d → Slots.held_in who d ≤ reserved_balance who (balances w).
Proof.
  intros [Ha Hc] Hd. etrans; [|apply Hc]. destruct (parts_nonneg who w Ha) as (? & ? & ? & ? & ?). unfold claims.
  assert (Slots.held_in who d ≤ leased who w); [|lia].
  pose proof (sum_map_share (λ _ d', Slots.held_in who d') (Leases (slots w)) para) as Hs. rewrite Hd in Hs. apply Hs.
  intros. apply held_nonneg.
Qed.

Lemma lease_amounts w para : amounts_ok w → leases_ok (Slots.lease para w).
Proof.
  intros Ha. unfold Slots.lease, value_query. destruct (Leases (slots w) !! para) eqn:E; cbn; [by eapply am_leases|constructor].
Qed.

Lemma leased_set a f w para o :
  Leases (slots (on_leases f w)) = partial_alter (λ _, o) para (Leases (slots w)) →
  leased a (on_leases f w) = leased a w - Slots.held_in a (Slots.lease para w) + Slots.held_in a (default [] o).
Proof.
  intros E. unfold leased. rewrite E, sum_map_set. unfold Slots.lease, value_query.
  destruct (Leases (slots w) !! para), o; cbn [default from_option share id]; change (Slots.held_in a []) with 0; lia.
Qed.

Lemma amounts_lease f w para o :
  amounts_ok w → Leases (slots (on_leases f w)) = partial_alter (λ _, o) para (Leases (slots w)) →
  leases_ok (default [] o) → amounts_ok (on_leases f w).
Proof.
  intros [] E Ho. split; try done. rewrite E. intros p d. rewrite lookup_partial_alter. case_decide; [by intros ->|]. apply am_leases0.
Qed.

Lemma make_parachain_leases env para f w :
  (Registrar.make_parachain env para (on_leases f w)).1 = on_leases f (Registrar.make_parachain env para w).1.
Proof.
  unfold Registrar.make_parachain, Registrar.on_paras, Registrar.lifecycle. unfold_dispatch. cbn [paras on_leases].
  by repeat case_match; simplify_eq/=.
Qed.

(** A new list of leases of a para, with the change of the reserve it needs and
    what is reserved besides. *)
Lemma lease_excess f w b para o extra :
  covered w → Leases (slots (on_leases f w)) = partial_alter (λ _, o) para (Leases (slots w)) → leases_ok (default [] o) →
  (∀ a, reserved_balance a b = reserved_balance a (balances w) - Slots.held_in a (Slots.lease para w) +
     Slots.held_in a (default [] o) + extra a) →
  let w' := on_leases f (set_balances b w) in
  amounts_ok w' ∧ ∀ a, reserved_balance a (balances w') - claims a w' = reserved_balance a (balances w) - claims a w + extra a.
Proof.
  intros Hw E Ho Hb. cbv zeta. split.
  - destruct (amounts_lease f w para o (co_amounts _ Hw) E Ho). by split.
  - intros a. cbn [balances on_leases set_balances]. rewrite Hb. unfold claims.
    change (leased a (on_leases f (set_balances b w))) with (leased a (on_leases f w)).
    rewrite (leased_set a f w para o E). unfold bidding, registered, funding, stranded. cbn. lia.
Qed.

Lemma lease_balanced f w b para o :
  covered w → Leases (slots (on_leases f w)) = partial_alter (λ _, o) para (Leases (slots w)) → leases_ok (default [] o) →
  (∀ a, reserved_balance a b = reserved_balance a (balances w) - Slots.held_in a (Slots.lease para w) +
     Slots.held_in a (default [] o)) →
  balanced w (on_leases f (set_balances b w)).
Proof.
  intros Hw E Ho Hb. destruct (lease_excess f w b para o (λ _, 0) Hw E Ho) as [Ha He]; [intros a; rewrite Hb; lia|].
  split; [done|]. intros a. rewrite He. lia.
Qed.

Lemma lease_finish env para d w b e (P : Prop) (dec : {P} + {¬ P}) :
  covered w → leases_ok d → (∀ y, strands e = Some y → 0 ≤ y.2) →
  (∀ a, reserved_balance a b = reserved_balance a (balances w) - Slots.held_in a (Slots.lease para w) + Slots.held_in a d + stranding a e) →
  balanced w (on_leases (insert para d) (deposit_event e
    (if dec then (Registrar.make_parachain env para (set_balances b w)).1 else set_balances b w))).
Proof.
  intros Hw Hd He Hb. set (w1 := on_leases (insert para d) (set_balances b w)).
  destruct (lease_excess (insert para d) w b para (Some d) (λ a, stranding a e) Hw eq_refl Hd Hb) as [Ha1 Hx1]. fold w1 in Ha1, Hx1.
  assert (∀ a, 0 ≤ stranding a e) as Hpos.
  { intros a. unfold stranding. destruct (strands e) as [[x y]|] eqn:E; [|done]. apply of_account_nonneg, (He _ eq_refl). }
  assert (covered w1) as Hc1.
  { split; [done|]. intros a. specialize (Hx1 a). specialize (Hpos a). pose proof (co_claims _ Hw a). lia. }
  set (w2 := if dec then (Registrar.make_parachain env para w1).1 else w1).
  assert (balanced w1 w2) as [Ha2 Hx2] by (unfold w2; destruct dec; [by apply make_parachain_balanced|by apply balanced_refl]).
  assert (on_leases (insert para d) (deposit_event e
    (if dec then (Registrar.make_parachain env para (set_balances b w)).1 else set_balances b w)) = deposit_event e w2) as ->.
  { unfold w2, w1. destruct dec; [|done].
    change (on_leases ?f (deposit_event ?e ?x)) with (deposit_event e (on_leases f x)). by rewrite <-make_parachain_leases. }
  split; [by apply amounts_event|]. intros a. rewrite claims_event. change (balances (deposit_event e w2)) with (balances w2).
  specialize (Hx1 a). specialize (Hx2 a). lia.
Qed.

(** The leases of a call: the deposit of each account is raised to [amount] for
    the leaser, if there is a period, and nothing is recorded otherwise. *)
Lemma place_periods_ok (leaser : A) amount count d offset d' :
  0 ≤ amount → 0 ≤ count → (offset ≤ length d)%nat → leases_ok d →
  foldl (Slots.place leaser amount) (Ok d) (seq offset (Z.to_nat count)) = Ok d' →
  leases_ok d' ∧ ∀ a, Slots.held_in a d' =
    if decide (count = 0) then Slots.held_in a d else Z.max (Slots.held_in a d) (of_account a leaser amount).
Proof.
  intros H0 Hc Hlen Hd. case_decide as Hz.
  - subst count. cbn. by intros [= <-].
  - replace (Z.to_nat count) with (S (Z.to_nat (count - 1))) by lia. by apply place_all_ok.
Qed.

Lemma lease_out_keeps env para leaser amount first count w :
  covered w → 0 ≤ amount → 0 ≤ count → keeps w (Slots.lease_out consts env para leaser amount first count).
Proof.
  intros Hw H0 H1. apply keeps_lift; [done|]. intros [cur fb] _. apply keeps_lift; [done|]. intros offset _. cbv zeta.
  apply keeps_get, keeps_lift; [done|]. intros d Ed.
  destruct (pad_ok (Z.to_nat offset) (Slots.lease para w) (lease_amounts w para (co_amounts _ Hw))) as (Hp & Hlen & Hpad).
  destruct (place_periods_ok _ _ _ _ _ _ H0 H1 Hlen Hp Ed) as [Hd Hheld]. clear Ed.
  unfold keeps, mbind, M_bind, modify, lift, mret, M_ret, Slots.deposit_held, checked_sub.
  pose proof (held_nonneg leaser (Slots.lease para w)).
  destruct (decide (Slots.held_in leaser (Slots.lease para w) ≤ amount)) as [Hle|Hle].
  - destruct (Currency.reserve leaser _ (balances w)) as [b|] eqn:Er; cbn [ok_or]; [|by apply balanced_refl]. cbn [fst].
    assert (0 ≤ amount - Slots.held_in leaser (Slots.lease para w)) as Hx by lia.
    apply lease_finish; [done|done|by cbn; intros y; case_decide; intros [= <-]|]. intros a.
    rewrite (reserve_balance _ _ w b a Hx Er), Hheld, Hpad. unfold stranding. cbn.
    pose proof (held_nonneg a (Slots.lease para w)). unfold of_account. repeat case_decide; subst; lia.
  - cbn [fst]. match goal with |- balanced w (on_leases _ (deposit_event ?e (if ?dec then _ else _))) =>
      pose proof (lease_finish env para d w (balances w) e _ dec Hw Hd) as Hf end.
    assert (set_balances (balances w) w = w) as Ew by by destruct w. rewrite Ew in Hf. apply Hf; clear Hf.
    { by cbn; intros y; case_decide; intros [= <-]. }
    intros a. rewrite Hheld, Hpad. pose proof (held_nonneg a (Slots.lease para w)).
    unfold stranding. cbn. unfold of_account. repeat case_decide; subst; lia.
Qed.

(** *** The start of a lease period *)

Lemma lease_lookup w para d : Leases (slots w) !! para = Some d → Slots.lease para w = d.
Proof. intros E. unfold Slots.lease, value_query. by rewrite E. Qed.

(** Funds returned for a change of the leases of a para. *)
Lemma rebate_balanced f w para d o who x :
  covered w → Leases (slots w) !! para = Some d →
  Leases (slots (on_leases f w)) = partial_alter (λ _, o) para (Leases (slots w)) → leases_ok (default [] o) → 0 ≤ x →
  (∀ a, Slots.held_in a (default [] o) = Slots.held_in a d - of_account a who x) →
  balanced w (Registrar.unreserve_to who x (on_leases f w)).
Proof.
  intros Hw Hd E Ho Hx Hh. apply unreserve_claim; [done|exact (amounts_lease f w para o (co_amounts _ Hw) E Ho)|done| |].
  - split; [done|]. pose proof (lease_covered w para d who Hw Hd). specialize (Hh who). rewrite of_account_eq in Hh.
    pose proof (held_nonneg who (default [] o)). lia.
  - intros a. unfold claims. rewrite (leased_set a f w para o E), (lease_lookup w para d Hd), Hh.
    unfold bidding, registered, funding, stranded. cbn. lia.
Qed.

Lemma end_period_balanced w ps para d :
  covered w → Leases (slots w) !! para = Some d →
  balanced w (Slots.end_period (w, ps) (para, d)).1 ∧
  ∀ p, p ≠ para → Leases (slots (Slots.end_period (w, ps) (para, d)).1) !! p = Leases (slots w) !! p.
Proof.
  intros Hw Hd. assert (leases_ok d) as Hok by by eapply am_leases; [apply Hw|].
  destruct d as [|l [|l' d]]; [by split; [apply balanced_refl|]| |].
  - split; [|intros p Hp; destruct l as [[]|]; cbn; by rewrite lookup_delete_ne].
    inversion_clear Hok as [|? ? Hl _]. destruct l as [[who value]|]; cbn [Slots.end_period fst].
    + specialize (Hl _ eq_refl). apply (rebate_balanced (delete para) w para _ None who value Hw Hd); [done|by constructor|done|].
      intros a. unfold Slots.held_in. cbn. fold (of_account a who value). pose proof (of_account_nonneg a who value Hl). lia.
    + assert (set_balances (balances w) w = w) as Ew by by destruct w. rewrite <-Ew at 2.
      apply (lease_balanced _ _ _ para None); [done|done|constructor|]. intros a. rewrite (lease_lookup _ _ _ Hd).
      unfold Slots.held_in. cbn. lia.
  - split; [|intros p Hp; destruct l as [[]|]; cbn; [case_match|]; cbn; by rewrite lookup_insert_ne].
    inversion_clear Hok as [|? ? Hl Hrest]. set (rest := l' :: d) in *. cbn [Slots.end_period fst].
    assert (Slots.lease para (on_leases (insert para rest) w) = rest) as Hrd by apply lease_lookup, lookup_insert_eq.
    assert (set_balances (balances w) w = w) as Ew by by destruct w.
    assert ((∀ a, Slots.held_in a (l :: rest) = Slots.held_in a rest) → balanced w (on_leases (insert para rest) w)) as Hsame.
    { intros Hh. rewrite <-Ew at 2. apply (lease_balanced _ _ _ para (Some rest)); [done|done|done|].
      intros a. rewrite (lease_lookup _ _ _ Hd), Hh. cbn [default from_option id]. lia. }
    destruct l as [[who amount]|]; cbn [fst].
    + specialize (Hl _ eq_refl). cbn in Hl. unfold Slots.deposit_held. rewrite Hrd. unfold checked_sub.
      assert (∀ a, Slots.held_in a (Some (who, amount) :: rest) = Z.max (of_account a who amount) (Slots.held_in a rest)) as Hh by done.
      pose proof (held_nonneg who rest). case_decide as Hle.
      * apply (rebate_balanced (insert para rest) w para (Some (who, amount) :: rest) (Some rest) who);
          [done|done|done|done|lia|].
        intros a. cbn [default from_option id]. rewrite Hh. pose proof (held_nonneg a rest). unfold of_account. case_decide; [subst|]; lia.
      * apply Hsame. intros a. rewrite Hh. pose proof (held_nonneg a rest). unfold of_account. case_decide; [subst|]; lia.
    + apply Hsame. intros a. pose proof (held_nonneg a rest). unfold Slots.held_in in *. cbn [fmap list_fmap foldr Slots.held_by]. lia.
Qed.

Lemma end_periods_balanced l : ∀ w ps,
  covered w → NoDup l.*1 → (∀ para d, (para, d) ∈ l → Leases (slots w) !! para = Some d) →
  balanced w (foldl Slots.end_period (w, ps) l).1.
Proof.
  induction l as [|[para d] l IH]; intros w ps Hw Hnd Hl; cbn [foldl]; [by apply balanced_refl|].
  inversion_clear Hnd as [|? ? Hp Hnd']. destruct (end_period_balanced w ps para d Hw) as [Hb Hf]; [by apply Hl; left|].
  destruct (Slots.end_period (w, ps) (para, d)) as [w1 ps1]. cbn [fst] in *. eapply balanced_trans; [exact Hb|].
  apply IH; [by eapply balanced_covered|done|]. intros p e Hin. rewrite Hf; [by apply Hl; right|].
  intros ->. apply Hp. by apply (list_elem_of_fmap_2 fst) in Hin.
Qed.

Lemma foldl_balanced {X} (f : World → X → World) l w :
  (∀ w x, covered w → balanced w (f w x)) → covered w → balanced w (foldl f w l).
Proof.
  intros Hf. revert w. induction l as [|x l IH]; intros w Hw; cbn; [by apply balanced_refl|].
  eapply balanced_trans; [by apply Hf|]. apply IH. eapply balanced_covered; [exact Hw|by apply Hf].
Qed.

Lemma lease_period_balanced env n w : covered w → balanced w (Slots.on_initialize consts env n w).
Proof.
  intros Hw. unfold Slots.on_initialize. destruct (Slots.lease_period_index consts n) as [[p []]|]; [|by apply balanced_refl..].
  unfold Slots.manage_lease_period_start. cbv zeta. set (w0 := deposit_event _ w).
  assert (balanced w w0) as H0 by by apply event_balanced. assert (covered w0) as Hc0 by by eapply balanced_covered.
  pose proof (end_periods_balanced (storage_iter (Leases (slots w0))) w0 [] Hc0) as H1.
  destruct (foldl Slots.end_period _ _) as [w1 ps]. cbn [fst] in H1. eapply balanced_trans; [exact H0|].
  assert (balanced w0 w1) as H1'.
  { apply H1; [rewrite storage_iter_perm; apply NoDup_fst_map_to_list|]. intros para d. rewrite storage_iter_perm.
    apply elem_of_map_to_list. }
  assert (covered w1) as Hc1 by by eapply balanced_covered. eapply balanced_trans; [exact H1'|].
  set (w2 := foldl (Slots.onboard _ _) w1 _). assert (balanced w1 w2) as H2.
  { apply foldl_balanced; [|done]. intros w' x Hw'. unfold Slots.onboard. case_match; [by apply balanced_refl|by apply make_parachain_balanced]. }
  eapply balanced_trans; [exact H2|]. apply foldl_balanced; [|by eapply balanced_covered].
  intros w' x Hw'. unfold Slots.offboard. case_match; [by apply balanced_refl|by apply make_parathread_balanced].
Qed.

Lemma clear_leases_keeps (origin : O) para w : covered w → keeps w (Slots.clear_all_leases ensure_force origin para).
Proof.
  intros Hw. apply keeps_lift; [done|]. intros _ _. unfold keeps, mbind, M_bind, modify. cbn [fst].
  set (l := Slots.all_deposits_held para w). change (foldl _ w l) with (pay_back l w). rewrite pay_back_balances.
  pose proof (lease_amounts w para (co_amounts _ Hw)) as Hok. destruct (track_ok (Slots.lease para w) ∅ Hok) as [Hnn Hm].
  { intros k x. by rewrite lookup_empty. }
  assert (∀ a, sum_of a l = Slots.held_in a (Slots.lease para w)) as Hsum.
  { intros a. unfold l, Slots.all_deposits_held. rewrite sum_of_map, Hm, lookup_empty. cbn [default from_option].
    pose proof (held_nonneg a (Slots.lease para w)). lia. }
  apply (lease_balanced _ _ _ para None); [done|done|constructor|]. intros a. rewrite pay_back_reserved, Hsum; [cbn; lia| |].
  - apply Forall_forall. intros [k x] Hin%elem_of_map_to_list. by eapply Hnn.
  - intros b. rewrite Hsum. unfold Slots.lease, value_query. destruct (Leases (slots w) !! para) as [d|] eqn:E; [by eapply lease_covered|].
    apply reserved_nonneg.
Qed.

Lemma force_lease_keeps env (origin : O) para leaser amount first count w :
  covered w → 0 ≤ amount → 0 ≤ count → keeps w (Slots.force_lease ensure_force consts env origin para leaser amount first count).
Proof. intros Hw H0 H1. apply keeps_lift; [done|]. intros _ _. apply keeps_map_error. by apply lease_out_keeps. Qed.

Lemma trigger_onboard_keeps env (origin : O) para w : covered w → keeps w (Slots.trigger_onboard env origin para).
Proof.
  intros Hw. apply keeps_lift; [done|]. intros _ _. apply keeps_get. destruct (Slots.lease para w) as [|[|] ?]; try by apply keeps_throw.
  apply keeps_map_error. by apply make_parachain_balanced.
Qed.
End Slots.

(** ** Bids *)

Section Auctions.
Context {A B V Signer O : Type} `{!EqDecision A} `{!Countable A} `{!Currency A B} `{!CurrencyLaws A B}
  `{!FrameOrigin O A} `{!StorageIter (A * ParaId) Balance} (ensure_initiate : O → option unit) (consts : Constants).
#[local] Abbreviation World := (World A B Signer).
Implicit Types (env : ParasPallet.Env V) (w : World).

(** Changes of the auction apart from the amounts reserved. *)
Lemma auction_balanced f w :
  covered w → ReservedAmounts (f (auctions w)) = ReservedAmounts (auctions w) →
  (∀ n data, Winning (f (auctions w)) !! n = Some data → bids_nonneg data) → balanced w (on_auctions f w).
Proof. intros Hw E Hwin. same_records. Qed.

Lemma winning_balanced n data w :
  covered w → bids_nonneg data → balanced w (on_auctions (set_winning (insert n data)) w).
Proof.
  intros Hw Hd. apply auction_balanced; [done|done|]. intros k d. cbn. rewrite lookup_insert.
  case_decide; [by intros [= <-]|]. by apply (am_winning _ (co_amounts _ Hw)).
Qed.

Lemma empty_nonneg : bids_nonneg (Auctions.EMPTY (A := A)).
Proof. apply Forall_replicate. done. Qed.

Lemma current_winning_nonneg n w : covered w → bids_nonneg (Auctions.current_winning n w).
Proof.
  intros Hw. unfold Auctions.current_winning. destruct (Winning (auctions w) !! n) eqn:E; [by eapply am_winning; [apply Hw|]|].
  destruct (checked_sub n 1) as [m|]; cbn; [|apply empty_nonneg].
  destruct (Winning (auctions w) !! m) eqn:Em; cbn; [by eapply am_winning; [apply Hw|]|apply empty_nonneg].
Qed.

(** *** Amounts reserved *)

Lemma bidding_set a f w k o :
  ReservedAmounts (f (auctions w)) = partial_alter (λ _, o) k (ReservedAmounts (auctions w)) →
  bidding a (on_auctions f w) =
    bidding a w - of_account a k.1 (value_query 0 k (ReservedAmounts (auctions w))) + of_account a k.1 (default 0 o).
Proof.
  intros E. unfold bidding. cbn. rewrite E, sum_map_set. unfold value_query, share, of_account.
  destruct (ReservedAmounts (auctions w) !! k), o; cbn; case_decide; lia.
Qed.

Lemma bid_covered w who para x :
  covered w → ReservedAmounts (auctions w) !! (who, para) = Some x → 0 ≤ x ≤ reserved_balance who (balances w).
Proof.
  intros [Ha Hc] Hx. split; [by eapply am_bids|]. etrans; [|apply Hc]. destruct (parts_nonneg who w Ha) as (? & ? & ? & ? & ?).
  assert (x ≤ bidding who w); [|unfold claims; lia].
  pose proof (sum_map_share (λ k y, of_account who k.1 y) (ReservedAmounts (auctions w)) (who, para)) as Hs. rewrite Hx in Hs.
  cbn in Hs. rewrite of_account_eq in Hs. apply Hs. intros k y Hy. apply of_account_nonneg. by eapply am_bids.
Qed.

Lemma reserve_bid_keeps bidder para amount w : covered w → keeps w (Auctions.reserve_bid bidder para amount).
Proof.
  intros Hw. apply keeps_get. cbv zeta. set (required := saturating_sub _ _). assert (0 ≤ required) as Hr by (unfold required, saturating_sub; lia).
  clearbody required. unfold checked_sub. case_decide as Hle; [|by apply keeps_ret]. apply keeps_lift; [done|]. intros b Eb.
  destruct (Currency.reserve bidder _ (balances w)) as [b'|] eqn:Er; [|done]. injection Eb as ->.
  unfold keeps, mbind, M_bind, modify. cbn [fst].
  set (w1 := on_auctions (set_reserved (insert (bidder, para) required)) (set_balances b w)).
  assert (balanced w w1) as H1.
  { assert (0 ≤ value_query 0 (bidder, para) (ReservedAmounts (auctions w))) as Hv.
    { unfold value_query. destruct (ReservedAmounts (auctions w) !! (bidder, para)) eqn:E; cbn; [by eapply am_bids; [apply Hw|]|done]. }
    eapply reserve_claim; [done| |exact (Zle_minus_le_0 _ _ Hle)|exact Er|].
    - destruct (co_amounts _ Hw). split; cbn; try done. intros k x. rewrite lookup_insert. case_decide; [by intros [= <-]|apply am_bids0].
    - intros a. unfold claims. change (bidding a w1) with (bidding a (on_auctions (set_reserved (insert (bidder, para) required)) w)).
      rewrite (bidding_set a (set_reserved (insert (bidder, para) required)) w (bidder, para) (Some required) eq_refl). cbn [default from_option id fst].
      unfold leased, registered, funding, stranded, of_account. cbn. case_decide; lia. }
  eapply balanced_trans; [exact H1|]. apply event_balanced; [by eapply balanced_covered|done].
Qed.

Lemma release_balanced starting winning last w :
  covered w → balanced w (Auctions.release_outgoing starting winning last w).
Proof.
  intros Hw. unfold Auctions.release_outgoing. destruct last as [[[who para] x]|]; [|by apply balanced_refl].
  case_match; [|by apply balanced_refl]. destruct (ReservedAmounts (auctions w) !! (who, para)) as [amount|] eqn:E; [|by apply balanced_refl].
  set (w1 := on_auctions _ w). assert (balanced w (Registrar.unreserve_to who amount w1)) as H1.
  { apply unreserve_claim; [done| |done|by eapply bid_covered|].
    - destruct (co_amounts _ Hw). split; cbn; try done. intros k y [_ ?]%lookup_delete_Some. by eapply am_bids0.
    - intros a. unfold claims. unfold w1. erewrite (bidding_set a _ w (who, para) None) by reflexivity. unfold value_query. rewrite E.
      cbn [default from_option id fst]. unfold leased, registered, funding, stranded, of_account. cbn. case_decide; lia. }
  eapply balanced_trans; [exact H1|]. apply event_balanced; [by eapply balanced_covered|done].
Qed.

Lemma handle_bid_keeps env bidder para index first last amount w :
  covered w → 0 ≤ amount → keeps w (Auctions.handle_bid consts env bidder para index first last amount).
Proof.
  intros Hw Ha. apply keeps_get. do 2 (apply keeps_ensure; [done|]; intros _). apply keeps_lift; [done|]. intros [period e] _.
  cbv zeta. apply keeps_lift; [done|]. intros offset _. apply keeps_ensure; [done|]. intros _. apply keeps_lift; [done|].
  intros range _. case_match; [|by apply keeps_ret]. apply keeps_bind; [done|by apply reserve_bid_keeps|]. intros _ w1 Hw1 _.
  pose proof (current_winning_nonneg offset w Hw) as Hcw. set (winning := Auctions.current_winning offset w) in *.
  match goal with |- keeps _ (modify ?g ≫= _) => set (release := g) end.
  assert (balanced w1 (release w1)) as H2 by by apply release_balanced. clearbody release.
  assert (covered (release w1)) as Hw2 by by eapply balanced_covered. apply keeps_modify; [done|exact H2|].
  set (data := <[_ := _]> winning).
  assert (balanced (release w1) (on_auctions (set_winning (insert offset data)) (release w1))) as H3.
  { apply winning_balanced; [done|]. apply Forall_insert; [done|]. by intros ? [= <-]. }
  apply keeps_modify; [done|exact H3|]. apply event_balanced; [by eapply balanced_covered|done].
Qed.

(** *** Start and end of an auction *)

Lemma new_auction_keeps env duration period w : covered w → keeps w (Auctions.do_new_auction consts env duration period).
Proof.
  intros Hw. apply keeps_get. do 2 (apply keeps_ensure; [done|]; intros _). cbv zeta.
  match goal with |- keeps _ (modify ?g ≫= _) => set (start := g) end.
  assert (balanced w (start w)) as H1 by (apply auction_balanced; [done|done|apply (am_winning _ (co_amounts _ Hw))]).
  apply keeps_modify; [done|exact H1|]. apply event_balanced; [by eapply balanced_covered|done].
Qed.

Lemma sum_of_bids (a : A) (m : gmap (A * ParaId) Balance) :
  sum_of a ((λ x, (x.1.1, x.2)) <$> storage_iter m) = sum_map (λ k x, of_account a k.1 x) m.
Proof.
  rewrite (sum_of_perm _ _ _ (fmap_Permutation _ _ _ (storage_iter_perm m))).
  induction m as [|k x m Hk IH] using map_ind; [by rewrite map_to_list_empty, sum_map_empty|].
  rewrite (sum_of_perm _ _ _ (fmap_Permutation _ _ _ (map_to_list_insert m k x Hk))), sum_map_insert_new by done.
  rewrite <-IH. done.
Qed.

Lemma unreserve_all_balanced w : covered w → balanced w (Auctions.unreserve_all w).
Proof.
  intros Hw. unfold Auctions.unreserve_all. set (l := storage_iter _). set (l' := (λ x, (x.1.1, x.2)) <$> l).
  assert (foldl (λ w x, Registrar.unreserve_to x.1.1 x.2 w) w l = pay_back l' w) as ->.
  { unfold pay_back, l'. clear. generalize w. induction l as [|x l IH]; intros w'; cbn; [done|]. apply IH. }
  rewrite pay_back_balances. pose proof (λ a, sum_of_bids a (ReservedAmounts (auctions w))) as Hsum.
  assert (∀ a, reserved_balance a (balances (pay_back l' w)) = reserved_balance a (balances w) - bidding a w) as Hb.
  { intros a. rewrite pay_back_reserved; [unfold bidding; by rewrite <-Hsum| |].
    - apply Forall_forall. intros [who x] ([k y] & [= -> ->] & Hin)%list_elem_of_fmap. unfold l in Hin.
      rewrite storage_iter_perm in Hin. apply elem_of_map_to_list in Hin. by eapply am_bids; [apply Hw|].
    - intros b. unfold l', l. rewrite Hsum. destruct (parts_nonneg b w (co_amounts _ Hw)) as (? & ? & ? & ? & ?).
      pose proof (co_claims _ Hw b). unfold claims in *. fold (bidding b w). lia. }
  split.
  - destruct (co_amounts _ Hw). split; cbn; try done.
  - intros a. cbn [balances on_auctions set_balances]. rewrite Hb. unfold claims.
    change (bidding a (on_auctions ?f _)) with (sum_map (λ k x, of_account a k.1 x) (∅ : gmap (A * ParaId) Balance)).
    rewrite sum_map_empty. unfold leased, registered, funding, stranded. cbn. lia.
Qed.

Lemma stop_balanced w : covered w → balanced w (on_auctions (λ s, set_info None (set_winning (λ _, ∅) s)) w).
Proof. intros Hw. apply auction_balanced; [done|done|]. intros n d. cbn. by rewrite lookup_empty. Qed.

Lemma cancel_keeps (origin : O) w : covered w → keeps w (Auctions.cancel_auction origin).
Proof.
  intros Hw. apply keeps_lift; [done|]. intros _ _. pose proof (unreserve_all_balanced w Hw) as H1.
  apply keeps_modify; [done|exact H1|]. apply stop_balanced. by eapply balanced_covered.
Qed.

Lemma confiscate_balanced w b para leaser amount :
  covered w → 0 ≤ amount → Currency.reserve leaser amount (balances w) = Some b →
  balanced w (deposit_event (ReserveConfiscated para leaser amount) (set_balances b w)).
Proof.
  intros Hw H0 Er. eapply (reserve_claim w _ leaser amount Hw); [|done|exact Er|].
  - apply amounts_event; [|by intros y [= <-]]. destruct (co_amounts _ Hw). by split.
  - intros a. rewrite claims_event. done.
Qed.

Lemma assign_balanced env period w leaser para amount range :
  covered w → 0 ≤ amount → balanced w (Auctions.assign_slot consts env period w (leaser, para, amount, range)).
Proof.
  intros Hw H0. unfold Auctions.assign_slot. cbv zeta.
  pose proof (lease_out_keeps consts env para leaser amount (u32_add period (Z.of_nat (SlotRange.as_pair range).1))
    (Z.of_nat (SlotRange.len range)) w Hw H0) as Hk. unfold keeps in Hk.
  destruct (Slots.lease_out _ _ _ _ _ _ _ w) as [w1 r]. cbn [fst] in Hk.
  assert (balanced w w1) as H1 by (apply Hk; unfold SlotRange.len; lia). assert (covered w1) as Hc1 by by eapply balanced_covered.
  destruct r as [|[]]; try done. destruct (Currency.reserve leaser amount (balances w1)) eqn:Er; [|done].
  eapply balanced_trans; [exact H1|]. by apply confiscate_balanced.
Qed.

Lemma winners_nonneg (winning : list (option (A * ParaId * Balance))) ranges b r :
  bids_nonneg winning → (b, r) ∈ Auctions.take_winners winning ranges → 0 ≤ b.2.
Proof.
  revert winning. induction ranges as [|r' ranges IH]; intros winning Hn; cbn; [by intros ?%elem_of_nil|].
  destruct (winning !! SlotRange.index r') as [[b'|]|] eqn:E; [|by apply IH..].
  intros [[= -> ->]|Hin]%elem_of_cons.
  - unfold bids_nonneg in Hn. rewrite Forall_lookup in Hn. by eapply (Hn _ _ E).
  - eapply IH; [|exact Hin]. apply Forall_insert; [done|done].
Qed.

Lemma assign_all_balanced env period l : ∀ w,
  covered w → Forall (λ x, 0 ≤ x.1.2) l → balanced w (foldl (Auctions.assign_slot consts env period) w l).
Proof.
  induction l as [|[[[leaser para] amount] range] l IH]; intros w Hw Hl; [by apply balanced_refl|].
  apply Forall_cons in Hl as [Hx Hl]. pose proof (assign_balanced env period w leaser para amount range Hw Hx) as H1.
  eapply balanced_trans; [exact H1|]. apply IH; [by eapply balanced_covered|done].
Qed.

Lemma auction_end_balanced env period winning w w' :
  covered w → bids_nonneg winning → Auctions.manage_auction_end consts env period winning w = Some w' → balanced w w'.
Proof.
  intros Hw Hn. unfold Auctions.manage_auction_end, Auctions.calculate_winners.
  destruct (Auctions.winning_ranges winning) as [ranges|]; [|done]. cbn -[foldl Auctions.unreserve_all]. intros [= <-].
  pose proof (unreserve_all_balanced w Hw) as H1. set (w1 := Auctions.unreserve_all w) in *. clearbody w1.
  assert (covered w1) as Hc1 by by eapply balanced_covered.
  pose proof (assign_all_balanced env period (Auctions.take_winners winning ranges) w1 Hc1) as H2. rewrite Forall_forall in H2.
  assert (balanced w1 (foldl (Auctions.assign_slot consts env period) w1 (Auctions.take_winners winning ranges))) as H3.
  { apply H2. intros [b r] Hin. by eapply winners_nonneg. }
  eapply balanced_trans; [exact H1|]. eapply balanced_trans; [exact H3|]. apply event_balanced; [|done].
  by eapply balanced_covered.
Qed.

Lemma copy_sample_balanced n w : covered w → balanced w (Auctions.copy_sample consts n w).
Proof.
  intros Hw. unfold Auctions.copy_sample. destruct (Auctions.auction_status _ _ _); try by apply balanced_refl.
  case_match; [by apply balanced_refl|]. apply winning_balanced; [done|]. destruct (checked_sub _ _) as [prev|]; [|apply empty_nonneg].
  cbn. destruct (Winning (auctions w) !! prev) eqn:E; [|apply empty_nonneg]. by eapply (am_winning _ (co_amounts _ Hw)).
Qed.

(** A block's turn of the auctions: copying the sample and, at the end, giving
    the bids back and leasing the slots out. *)
Lemma auctions_block_balanced env n random w w' :
  covered w → Auctions.on_initialize consts env n random w = Some w' → balanced w w'.
Proof.
  intros Hw. unfold Auctions.on_initialize. cbv zeta. pose proof (copy_sample_balanced n w Hw) as H1.
  set (w1 := Auctions.copy_sample consts n w) in *. clearbody w1. assert (covered w1) as Hc1 by by eapply balanced_covered.
  unfold Auctions.check_auction_end. destruct (AuctionInfo (auctions w1)) as [[period early_end]|]; [|by intros [= <-]].
  destruct random as [raw since]. destruct (decide _); [|by intros [= <-]].
  set (offset := _ `div` _). set (w2 := deposit_event _ w1).
  assert (balanced w1 w2) as H2 by by apply event_balanced. assert (covered w2) as Hc2 by by eapply balanced_covered.
  pose proof (stop_balanced w2 Hc2) as H3. intros He. eapply balanced_trans; [exact H1|]. eapply balanced_trans; [exact H2|].
  eapply balanced_trans; [exact H3|]. eapply auction_end_balanced; [by eapply balanced_covered| |exact He].
  destruct (Winning (auctions w2) !! offset) eqn:E; [|apply empty_nonneg]. by eapply (am_winning _ (co_amounts _ Hc2)).
Qed.
End Auctions.
End Deposits.
