(* ===== verification/Ledger.v ===== *)
(** * A currency that satisfies the laws

    Accounts are numbers, a balance is a free and a reserved part, and an
    account below the existential deposit of 1 is removed.  It instantiates
    [Currency] and [CurrencyLaws] where a theorem about the common pallets is
    applied to a concrete chain. *)

From S2P Require Import Prelude.
From S2P Require Import Frame.
From S2P Require Import Paras.
From S2P Require Import CommonPallets.
Import Currency.

Module Ledger.

Abbreviation Account := nat (only parsing).
Abbreviation Balances := (Account → N * N).

Implicit Types (b : Balances) (a who source dest : Account) (x : Balance).

Definition free a b : Balance := Z.of_N (b a).1.
Definition held a b : Balance := Z.of_N (b a).2.
Definition set a (free held : Z) b : Balances := λ a', if decide (a' = a) then (Z.to_N free, Z.to_N held) else b a'.

Definition reserve who x b : option Balances :=
  if decide (0 ≤ x ≤ free who b) then Some (set who (free who b - x) (held who b + x) b) else None.

Definition unreserve who x b : Balances * Balance :=
  let moved := Z.max 0 (Z.min x (held who b)) in (set who (free who b + moved) (held who b - moved) b, x - moved).

Definition transfer source dest x (e : ExistenceRequirement) b : option Balances :=
  if decide (source = dest) then Some b
  else if decide (x ≤ free source b) then
    let b' := set dest (free dest b + x) (held dest b) b in
    if decide (1 ≤ free source b - x + held source b) then Some (set source (free source b - x) (held source b) b')
    else match e with KeepAlive => None | AllowDeath => Some (set source 0 0 b') end
  else None.

#[export] Instance ledger_currency : Currency Account Balances := {|
  free_balance := free; reserved_balance := held; existential_deposit := 1;
  Currency.reserve := reserve; Currency.unreserve := unreserve; Currency.transfer := transfer;
|}.

Lemma free_set a a' x y b : 0 ≤ x → free a (set a' x y b) = if decide (a = a') then x else free a b.
Proof. intros Hx. unfold free, set. case_decide; cbn; lia. Qed.

Lemma held_set a a' x y b : 0 ≤ y → held a (set a' x y b) = if decide (a = a') then y else held a b.
Proof. intros Hx. unfold held, set. case_decide; cbn; lia. Qed.

Lemma free_pos a b : 0 ≤ free a b.
Proof. unfold free. lia. Qed.

Lemma held_pos a b : 0 ≤ held a b.
Proof. unfold held. lia. Qed.

Ltac ledger :=
  repeat match goal with
  | b : Balances, a : Account |- _ =>
      lazymatch goal with
      | _ : 0 ≤ free a b |- _ => fail
      | _ => pose proof (free_pos a b); pose proof (held_pos a b)
      end
  end;
  repeat first [rewrite free_set by lia | rewrite held_set by lia]; repeat case_decide; subst; try done; try lia.

#[export] Instance ledger_laws : CurrencyLaws Account Balances.
Proof.
  split; cbn.
  - intros. apply held_pos.
  - intros. apply free_pos.
  - intros who x b b' a. unfold reserve. destruct (decide _); [|done]. intros [= <-] Hx. split; ledger.
  - intros who x b a Hx. unfold unreserve. cbn. split; ledger.
  - intros who x b b' a. unfold reserve. destruct (decide _); [|done]. intros [= <-]. ledger.
  - intros who x b a. unfold unreserve. cbn. ledger.
  - intros source dest x e b b' a. unfold transfer. destruct (decide (source = dest)) as [->|Hne].
    + intros [= <-] Ha Hx. split; ledger.
    + destruct (decide (x ≤ _)); [|done]; destruct (decide (1 ≤ _)); [|destruct e; [done|]]; intros [= <-] Ha Hx; split; ledger.
  - intros source dest x e b b'. unfold transfer. destruct (decide (source = dest)) as [->|Hne]; [done|].
    destruct (decide (x ≤ _)); [|done]; destruct (decide (1 ≤ _)); [|destruct e; [done|]]; intros [= <-] Ha Hx; split_and!; ledger.
  - intros source x e b b'. unfold transfer. rewrite decide_True by done. by intros [= <-].
  - intros source dest x b b'. unfold transfer. destruct (decide (source = dest)) as [->|Hne]; [done|].
    destruct (decide (x ≤ _)); [|done]. by destruct (decide (1 ≤ _)).
Qed.
End Ledger.
