(* ===== verification/Accounting.v ===== *)
(** * Deposits over the life of a chain

    The crowdloans' part of the accounting, and the theorem over all calls and
    block hooks of the four pallets: what an account has in reserve beyond the
    records of leases, bids, registrations and funds never changes. *)

From S2P Require Import Prelude.
From S2P Require Import Frame.
From S2P Require Import Configuration.
From S2P Require Import Paras.
From S2P Require Import ParasPallet.
From S2P Require Import Candidates.
From S2P Require Import SlotRange.
From S2P Require Import CommonPallets.
From S2P Require Import Registrar.
From S2P Require Import Slots.
From S2P Require Import Auctions.
From S2P Require Import Crowdloan.
From S2P Require Import Deposits.
From S2P Require Import Ledger.
Import Candidates Currency Common Deposits Ledger.

Module Accounting.

(** ** Crowdloans *)

Section Crowdloan.
Context {A B V Signer Signature O : Type} `{!EqDecision A} `{!Countable A} `{!Currency A B} `{!CurrencyLaws A B}
  `{!FrameOrigin O A} `{!StorageIter A (Balance * list byte)} (consts : Constants) (fund_account_id : FundIndex → A)
  (verify : Signature → ParaId * A * Balance * Balance → Signer → bool).
#[local] Abbreviation World := (World A B Signer).
Implicit Types (env : ParasPallet.Env V) (w : World) (fund : FundInfo A Signer).

(** A reserve smaller than the existential deposit goes with its account when
    the free balance is transferred away; a transfer that keeps the account
    alive spares it. *)
Definition no_dust (a : A) w : Prop :=
  reserved_balance a (balances w) = 0 ∨ existential_deposit ≤ reserved_balance a (balances w).
Definition spares (e : ExistenceRequirement) (source : A) w : Prop := e = KeepAlive ∨ no_dust source w.

Lemma transfer_reserved source dest x e w b a :
  spares e source w → 0 ≤ x → Currency.transfer source dest x e (balances w) = Some b →
  reserved_balance a b = reserved_balance a (balances w).
Proof.
  intros Hd Hx Et. destruct (decide (a = source)) as [->|Ha]; [|by eapply transfer_other].
  destruct (decide (source = dest)) as [<-|Hne]; [by rewrite (transfer_self _ _ _ _ _ Et)|].
  destruct (transfer_source _ _ _ _ _ _ Et Hne Hx) as (Hf & Hle & Hk). pose proof (reserved_nonneg source b).
  destruct Hd as [->|[H0|H0]]; [|lia|apply Hk; lia]. apply Hk. by eapply transfer_keep_alive.
Qed.

Lemma transfer_balanced source dest x e w b :
  covered w → spares e source w → 0 ≤ x → Currency.transfer source dest x e (balances w) = Some b →
  balanced w (set_balances b w) ∧ spares e source (set_balances b w).
Proof.
  intros Hw Hd Hx Et. pose proof (λ a, transfer_reserved source dest x e w b a Hd Hx Et) as Hr. split.
  - same_records.
  - destruct Hd as [?|Hd]; [by left|right]. unfold no_dust. cbn. by rewrite Hr.
Qed.

Lemma keeps_transfer {Y} source dest x e w (f : unit → M World _ Y) :
  covered w → spares e source w → 0 ≤ x →
  (∀ b, covered (set_balances b w) → spares e source (set_balances b w) → keeps (set_balances b w) (f tt)) →
  keeps w (Crowdloan.transfer_funds source dest x e ≫= f).
Proof.
  intros Hw Hd Hx Hf. unfold keeps, Crowdloan.transfer_funds, mbind, M_bind, get, lift, modify.
  destruct (Currency.transfer _ _ _ _ _) as [b|] eqn:Et; cbn; [|by apply balanced_refl].
  destruct (transfer_balanced _ _ _ _ _ _ Hw Hd Hx Et) as [Hb Hd']. eapply balanced_trans; [exact Hb|].
  apply Hf; [by eapply balanced_covered|done].
Qed.

Lemma crowdloan_balanced g w :
  covered w → Funds (g (crowdloan w)) = Funds (crowdloan w) →
  (∀ index m who x, Contributions (g (crowdloan w)) !! index = Some m → m !! who = Some x → 0 ≤ x.1) →
  balanced w (on_crowdloan g w).
Proof.
  intros Hw Ef Hc. same_records.
  - intros who. unfold funding. cbn. by rewrite Ef.
  - cbn. rewrite Ef. old_amounts.
Qed.

Lemma contributions_nonneg w index who x :
  covered w → Crowdloan.contributions index w !! who = Some x → 0 ≤ x.1.
Proof.
  intros Hw. unfold Crowdloan.contributions, value_query. destruct (Contributions (crowdloan w) !! index) eqn:E; cbn; [|done].
  by eapply (am_contributions _ (co_amounts _ Hw)), E.
Qed.

Lemma contribution_set_balanced index m w :
  covered w → (∀ who x, m !! who = Some x → 0 ≤ x.1) → balanced w (on_crowdloan (set_contributions (insert index m)) w).
Proof.
  intros Hw Hm. apply crowdloan_balanced; [done|done|]. intros i m' who x. cbn.
  intros [[-> <-]|[_ Hl]]%lookup_insert_Some; [by apply Hm|]. by eapply (am_contributions _ (co_amounts _ Hw)).
Qed.

Lemma contribution_put_balanced index who balance memo w :
  covered w → 0 ≤ balance → balanced w (Crowdloan.contribution_put index who balance memo w).
Proof.
  intros Hw H0. apply contribution_set_balanced; [done|].
  intros who' x [[-> <-]|[_ Hl]]%lookup_insert_Some; [done|]. by eapply contributions_nonneg.
Qed.

Lemma contribution_kill_balanced index who w : covered w → balanced w (Crowdloan.contribution_kill index who w).
Proof.
  intros Hw. apply contribution_set_balanced; [done|]. intros who' x [_ Hl]%lookup_delete_Some. by eapply contributions_nonneg.
Qed.

(** The two halves of a step: the reserve, and the record. *)
Lemma keeps_modify2 {E Y} g1 g2 w (f : unit → M World E Y) :
  covered w → balanced w (g2 (g1 w)) → (covered (g2 (g1 w)) → keeps (g2 (g1 w)) (f tt)) →
  keeps w (modify g1 ;; (modify g2 ≫= f)).
Proof. intros Hw Hb Hf. eapply balanced_trans; [exact Hb|]. apply Hf. by eapply balanced_covered. Qed.

Lemma keeps_step {E Y} g w (f : unit → M World E Y) :
  covered w → balanced w (g w) → (covered (g w) → keeps (g w) (f tt)) → keeps w (modify g ≫= f).
Proof. intros Hw Hg Hf. apply keeps_modify; [done|done|]. apply Hf. by eapply balanced_covered. Qed.

(** A fund is changed, but neither its depositor nor its deposit. *)
Lemma put_fund_balanced index old fund w :
  covered w → Funds (crowdloan w) !! index = Some old → depositor fund = depositor old →
  fund_deposit fund = fund_deposit old → 0 ≤ raised fund → balanced w (on_crowdloan (set_funds (insert index fund)) w).
Proof.
  intros Hw Ho E1 E2 Hr. same_records.
  - intros who. unfold funding. cbn. rewrite sum_map_insert, Ho. cbn. rewrite E1, E2. lia.
  - intros id f. cbn. intros [[-> <-]|[_ Hl]]%lookup_insert_Some; [|by eapply (am_funds _ (co_amounts _ Hw)), Hl].
    rewrite E2. by destruct (am_funds _ (co_amounts _ Hw) _ _ Ho).
Qed.

Lemma keeps_fund {Y} index w (f : _ → M World _ Y) :
  covered w → (∀ fund, Funds (crowdloan w) !! index = Some fund → 0 ≤ raised fund → keeps w (f fund)) →
  keeps w (Crowdloan.get_fund index ≫= f).
Proof.
  intros Hw Hf. unfold keeps, Crowdloan.get_fund, mbind, M_bind, get, lift.
  destruct (Funds (crowdloan w) !! index) as [fund|] eqn:E; cbn; [|by apply balanced_refl].
  apply Hf; [done|]. by destruct (am_funds _ (co_amounts _ Hw) _ _ E).
Qed.

Lemma keeps_ended {Y} now account fund w (f : unit → M World _ Y) :
  covered w → keeps w (f tt) → keeps w (Crowdloan.ensure_crowdloan_ended consts now account fund ≫= f).
Proof.
  intros Hw Hf. unfold keeps, Crowdloan.ensure_crowdloan_ended, Crowdloan.current_lease_period, mbind, M_bind, get, lift, ensure.
  repeat case_match; simplify_eq/=; try done; by apply balanced_refl.
Qed.

(** *** Contributing *)

Lemma note_raise_same env index fund w :
  ∃ fund' w', Crowdloan.note_raise consts env index fund w = (w', Ok fund') ∧
    depositor fund' = depositor fund ∧ fund_deposit fund' = fund_deposit fund ∧ raised fund' = raised fund ∧
    fund_index fund' = fund_index fund ∧ ∃ l, w' = on_crowdloan (set_new_raise l) w.
Proof.
  unfold Crowdloan.note_raise, mbind, M_bind, get, modify, mret, M_ret. cbn -[Auctions.auction_status].
  destruct (decide _); [|by eauto 10]. exists fund, w. split_and!; try done.
  exists (NewRaise (crowdloan w)). by destruct w as [? ? ? []].
Qed.

Lemma new_raise_balanced l w : covered w → balanced w (on_crowdloan (set_new_raise l) w).
Proof. intros Hw. apply crowdloan_balanced; [done|done|]. old_amounts. Qed.

Lemma do_contribute_keeps env who index value signature existence w :
  covered w → spares existence who w → 0 ≤ value →
  keeps w (Crowdloan.do_contribute consts fund_account_id verify env who index value signature existence).
Proof.
  intros Hw Hd Hv. apply keeps_ensure; [done|]. intros _. apply keeps_fund; [done|]. intros fund Hf Hr. cbv zeta.
  do 3 (apply keeps_ensure; [done|]; intros _). apply keeps_lift; [done|]. intros period _.
  apply keeps_ensure; [done|]. intros _. apply keeps_get. do 2 (apply keeps_ensure; [done|]; intros _).
  destruct (Crowdloan.contribution_get _ _ _) as [old_balance memo] eqn:Ec.
  assert (0 ≤ old_balance) as Ho.
  { revert Ec. unfold Crowdloan.contribution_get, value_query. destruct (Crowdloan.contributions _ _ !! who) as [[]|] eqn:E; cbn.
    - intros [= <- _]. by apply (contributions_nonneg _ _ _ _ Hw E).
    - by intros [= <- _]. }
  clear Ec. apply keeps_ensure; [done|]. intros _. apply keeps_transfer; [done..|]. intros b Hb _. cbn [fund_index Crowdloan.set_raised].
  match goal with |- keeps _ (modify ?g ≫= _) => set (put := g) end. set (w1 := set_balances b w) in *.
  assert (balanced w1 (put w1)) as H1.
  { apply contribution_put_balanced; [done|]. unfold u128_saturating_add, u128_max. lia. }
  assert (covered (put w1)) as Hp by by eapply balanced_covered.
  assert (Funds (crowdloan (put w1)) !! index = Some fund) as Hf' by done.
  apply keeps_modify; [done|exact H1|]. set (fund1 := Crowdloan.set_raised _ fund).
  destruct (note_raise_same env index fund1 (put w1)) as (fund' & w' & En & E1 & E2 & E3 & _ & l & ->).
  pose proof (new_raise_balanced l _ Hp) as H2. apply keeps_bind; [done|unfold keeps; by rewrite En|].
  intros fund'' w' Hc' Hn. rewrite En in Hn. injection Hn as <- <-. apply keeps_modify; [done| |].
  - eapply put_fund_balanced; [done|exact Hf'|by rewrite E1|by rewrite E2|rewrite E3; cbn; lia].
  - apply event_balanced; [|done]. eapply balanced_covered; [exact Hc'|].
    eapply put_fund_balanced; [done|exact Hf'|by rewrite E1|by rewrite E2|rewrite E3; cbn; lia].
Qed.

(** *** Calls *)

Lemma create_keeps env (origin : O) index cap_ first last end_at verifier_ w :
  covered w → 0 ≤ SubmissionDeposit consts →
  keeps w (Crowdloan.create consts env origin index cap_ first last end_at verifier_).
Proof.
  intros Hw Hd. apply keeps_lift; [done|]. intros who _. cbv zeta. apply keeps_ensure; [done|]. intros _.
  apply keeps_lift; [done|]. intros limit _. do 2 (apply keeps_ensure; [done|]; intros _).
  apply keeps_lift; [done|]. intros [p first_block] _. do 2 (apply keeps_ensure; [done|]; intros _). apply keeps_get.
  apply keeps_ensure; [done|]. intros Hn. apply keeps_lift; [done|]. intros m _. do 2 (apply keeps_ensure; [done|]; intros _).
  apply keeps_lift; [done|]. intros next _. apply keeps_lift; [done|]. intros b Er.
  destruct (Currency.reserve who _ _) as [b'|] eqn:Eb; [|done]. injection Er as <-.
  apply keeps_modify2; [done| |].
  - eapply (reserve_claim w _ who (SubmissionDeposit consts)); [done| |done|exact Eb|].
    + destruct (co_amounts _ Hw). split; cbn; try done. by intros id f [[-> <-]|[_ Hl]]%lookup_insert_Some; [|eapply am_funds0].
    + intros a. unfold claims, funding at 1. cbn. unfold contains_key in Hn. rewrite sum_map_insert.
      destruct (Funds (crowdloan w) !! index); [done|]. cbn. unfold leased, bidding, registered, funding, stranded. cbn. lia.
  - intros H1. apply keeps_step; [done|by apply crowdloan_balanced; [done..|old_amounts]|].
    intros H2. apply keeps_step; [done|by apply lock_balanced|]. intros H3. by apply event_balanced.
Qed.

Lemma saturating_sub_nonneg x y : 0 ≤ saturating_sub x y.
Proof. unfold saturating_sub. lia. Qed.

(** The account of a fund has no reserve that a transfer could take with it. *)
Definition fund_spared (index : ParaId) w : Prop :=
  ∀ fund, Funds (crowdloan w) !! index = Some fund → no_dust (fund_account_id (fund_index fund)) w.

Lemma withdraw_keeps env (origin : O) who index w :
  covered w → fund_spared index w → keeps w (Crowdloan.withdraw consts fund_account_id env origin who index).
Proof.
  intros Hw Hd. apply keeps_lift; [done|]. intros _ _. apply keeps_fund; [done|]. intros fund Hf Hr. cbv zeta.
  apply keeps_ended; [done|]. apply keeps_get, keeps_ensure; [done|]. intros H0%bool_decide_eq_true.
  apply keeps_transfer; [done|right; by apply Hd|lia|]. intros b Hb _. apply keeps_step; [done|by apply contribution_kill_balanced|]. intros H1.
  apply keeps_step; [done| |intros H2; by apply event_balanced].
  eapply put_fund_balanced; [done|exact Hf|done|done|apply saturating_sub_nonneg].
Qed.

(** The loop changes balances and contributions only. *)
Lemma refund_loop_keeps account l : ∀ limit fund w,
  covered w → spares AllowDeath account w → Forall (λ x, 0 ≤ x.2.1) l → 0 ≤ raised fund →
  keeps w (Crowdloan.refund_loop account limit l fund) ∧
  ∀ w' fund' all, Crowdloan.refund_loop account limit l fund w = (w', Ok (fund', all)) →
    Funds (crowdloan w') = Funds (crowdloan w) ∧ depositor fund' = depositor fund ∧
    fund_deposit fund' = fund_deposit fund ∧ 0 ≤ raised fund'.
Proof.
  induction l as [|[who [balance memo]] l IH]; intros limit fund w Hw Hd Hl Hr.
  { destruct limit; (split; [by apply keeps_ret|]); by intros w' fund' all [= <- <- <-]. }
  destruct limit as [|limit]; [split; [by apply keeps_ret|]; by intros w' fund' all [= <- <- <-]|].
  apply Forall_cons in Hl as [Hx Hl]. cbn [Crowdloan.refund_loop]. set (fund1 := Crowdloan.set_raised _ fund).
  assert (∀ b, covered (set_balances b w) → spares AllowDeath account (set_balances b w) →
    let w1 := Crowdloan.contribution_kill (fund_index fund) who (set_balances b w) in
    covered w1 ∧ spares AllowDeath account w1) as Hs.
  { intros b Hb Hd'. split; [|exact Hd']. eapply balanced_covered; [exact Hb|]. by apply contribution_kill_balanced. }
  split.
  - apply keeps_transfer; [done..|]. intros b Hb Hd'. apply keeps_step; [done|by apply contribution_kill_balanced|]. intros H1.
    apply (IH limit fund1); [done|by apply Hs|done|apply saturating_sub_nonneg].
  - intros w' fund' all. unfold Crowdloan.transfer_funds, mbind, M_bind, get, lift, modify.
    destruct (Currency.transfer _ _ _ _ _) as [b|] eqn:Et; cbn; [|done].
    destruct (transfer_balanced _ _ _ _ _ _ Hw Hd Hx Et) as [Hb Hd'].
    destruct (Hs b ltac:(by eapply balanced_covered) Hd') as [Hc1 Hd1]. intros He.
    destruct (IH limit fund1 _ Hc1 Hd1 Hl (saturating_sub_nonneg _ _)) as [_ IH2]. by destruct (IH2 _ _ _ He) as (-> & -> & -> & ?).
Qed.

Lemma refund_keeps env (origin : O) index w :
  covered w → fund_spared index w → keeps w (Crowdloan.refund consts fund_account_id env origin index).
Proof.
  intros Hw Hd. apply keeps_lift; [done|]. intros _ _. apply keeps_fund; [done|]. intros fund Hf Hr. cbv zeta.
  apply keeps_ended; [done|]. apply keeps_get. set (l := storage_iter _). assert (Forall (λ x, 0 ≤ x.2.1) l) as Hl.
  { apply Forall_forall. intros [who x]. unfold l. rewrite storage_iter_perm. intros Hin%elem_of_map_to_list.
    by eapply contributions_nonneg. }
  destruct (refund_loop_keeps (fund_account_id (fund_index fund)) l (Z.to_nat (RemoveKeysLimit consts)) fund w Hw
    (or_intror (Hd fund Hf)) Hl Hr) as [Hk Hs].
  apply keeps_bind; [done|exact Hk|]. intros [fund' all] w' Hw' Er. destruct (Hs _ _ _ Er) as (E0 & E1 & E2 & H3).
  apply keeps_step; [done| |intros H2; apply event_balanced; [done|by destruct all]].
  eapply put_fund_balanced; [done|by rewrite E0|done..].
Qed.

Lemma fund_covered w index fund :
  covered w → Funds (crowdloan w) !! index = Some fund →
  0 ≤ fund_deposit fund ≤ reserved_balance (depositor fund) (balances w).
Proof.
  intros Hw Hf. destruct (am_funds _ (co_amounts _ Hw) _ _ Hf) as [H0 _]. split; [done|].
  pose proof (co_claims _ Hw (depositor fund)) as Hc. destruct (parts_nonneg (depositor fund) w (co_amounts _ Hw)) as (? & ? & ? & ? & ?).
  pose proof (sum_map_share (λ _ f, of_account (depositor fund) (depositor f) (fund_deposit f)) (Funds (crowdloan w)) index) as Hs.
  rewrite Hf in Hs. cbn in Hs. rewrite of_account_eq in Hs. unfold claims, funding in *.
  assert (fund_deposit fund ≤ sum_map (λ _ f, of_account (depositor fund) (depositor f) (fund_deposit f)) (Funds (crowdloan w))); [|lia].
  apply Hs. intros k f Hk. apply of_account_nonneg. by eapply am_funds; [apply Hw|].
Qed.

Lemma dissolve_keeps env (origin : O) index w : covered w → keeps w (Crowdloan.dissolve env origin index).
Proof.
  intros Hw. apply keeps_lift; [done|]. intros who _. apply keeps_fund; [done|]. intros fund Hf Hr. cbv zeta.
  apply keeps_ensure; [done|]. intros _. apply keeps_modify2; [done| |intros H1; by apply event_balanced].
  change (balanced w (Registrar.unreserve_to (depositor fund) (fund_deposit fund) (on_crowdloan (set_funds (delete index)) w))).
  apply unreserve_claim; [done| |done|by eapply fund_covered|].
  - destruct (co_amounts _ Hw). split; cbn; try done. intros id f [_ Hl]%lookup_delete_Some. by eapply am_funds0.
  - intros a. unfold claims, funding at 1. cbn. rewrite sum_map_delete, Hf. cbn.
    unfold leased, bidding, registered, funding, stranded. cbn. lia.
Qed.

Lemma edit_keeps (origin : O) index cap_ first last end_at verifier_ w :
  covered w → keeps w (Crowdloan.edit origin index cap_ first last end_at verifier_).
Proof.
  intros Hw. apply keeps_lift; [done|]. intros _ _. apply keeps_fund; [done|]. intros fund Hf Hr.
  apply keeps_step; [done|by eapply put_fund_balanced|]. intros H1. by apply event_balanced.
Qed.

Lemma add_memo_keeps (origin : O) index memo w : covered w → keeps w (Crowdloan.add_memo consts origin index memo).
Proof.
  intros Hw. apply keeps_lift; [done|]. intros who _. apply keeps_ensure; [done|]. intros _.
  apply keeps_fund; [done|]. intros fund Hf Hr. apply keeps_get, keeps_ensure; [done|]. intros H0%bool_decide_eq_true.
  apply keeps_step; [done|apply contribution_put_balanced; [done|lia]|]. intros H1. by apply event_balanced.
Qed.

Lemma poke_keeps (origin : O) index w : covered w → keeps w (Crowdloan.poke origin index).
Proof.
  intros Hw. apply keeps_lift; [done|]. intros _ _. apply keeps_fund; [done|]. intros fund Hf Hr.
  apply keeps_ensure; [done|]. intros _. apply keeps_get, keeps_ensure; [done|]. intros _.
  apply keeps_step; [done|by apply new_raise_balanced|]. intros H1. by apply event_balanced.
Qed.

(** *** Blocks *)

Lemma submit_bid_balanced env w para : covered w → balanced w (Crowdloan.submit_bid consts fund_account_id env w para).
Proof.
  intros Hw. unfold Crowdloan.submit_bid. destruct (Funds (crowdloan w) !! para) as [fund|] eqn:Ef; [|by apply balanced_refl].
  destruct (am_funds _ (co_amounts _ Hw) _ _ Ef) as [_ Hr].
  pose proof (handle_bid_keeps consts env (fund_account_id (fund_index fund)) para (AuctionCounter (auctions w)) (first_period fund)
    (last_period fund) (raised fund) w Hw Hr) as Hk. unfold keeps in Hk.
  unfold Auctions.place_bid, mbind, M_bind, get. destruct (Auctions.handle_bid _ _ _ _ _ _ _ _ w) as [w1 r].
  eapply balanced_trans; [exact Hk|]. apply event_balanced; [by eapply balanced_covered|done].
Qed.

Lemma crowdloan_block_balanced env n w : covered w → balanced w (Crowdloan.on_initialize consts fund_account_id env n w).
Proof.
  intros Hw. unfold Crowdloan.on_initialize. destruct (Auctions.is_ending _) as [[sample sub]|]; [|by apply balanced_refl].
  cbv zeta. match goal with |- context [on_crowdloan (set_new_raise []) ?x] => set (w1 := x) end.
  assert (balanced w w1) as H1.
  { unfold w1. destruct (decide _); [|by apply balanced_refl]. apply crowdloan_balanced; [done..|]. old_amounts. }
  clearbody w1. assert (covered w1) as Hc1 by by eapply balanced_covered. eapply balanced_trans; [exact H1|].
  pose proof (new_raise_balanced [] w1 Hc1) as H2. eapply balanced_trans; [exact H2|].
  apply foldl_balanced; [|by eapply balanced_covered]. intros. by apply submit_bid_balanced.
Qed.
End Crowdloan.

(** ** All calls and block hooks *)

Section Runtime.
Context {A B V Signer Signature O : Type} `{!EqDecision A} `{!Countable A} `{!Currency A B} `{!FrameOrigin O A}
  `{!StorageIter ParaId (list (option (A * Balance)))} `{!StorageIter (A * ParaId) Balance} `{!StorageIter A (Balance * list byte)}
  (code_hash_of : ValidationCode → Hash) (ensure_parachain : O → option ParaId) (ensure_force ensure_initiate : O → option unit)
  (consts : Constants) (fund_account_id : FundIndex → A) (verify : Signature → ParaId * A * Balance * Balance → Signer → bool).
#[local] Abbreviation World := (World A B Signer).
Implicit Types (env : ParasPallet.Env V) (w : World).

(** The calls of the four pallets. *)
Inductive Call :=
| register (id : ParaId) (genesis_head : HeadData) (validation_code : ValidationCode)
| force_register (who : A) (deposit : Balance) (id : ParaId) (genesis_head : HeadData) (validation_code : ValidationCode)
| deregister (id : ParaId)
| swap (id other : ParaId)
| force_remove_lock (para : ParaId)
| reserve
| force_lease (para : ParaId) (leaser : A) (amount : Balance) (period_begin period_count : LeasePeriodIndex)
| clear_all_leases (para : ParaId)
| trigger_onboard (para : ParaId)
| new_auction (duration : BlockNumber) (lease_period_index : LeasePeriodIndex)
| bid (para : ParaId) (auction_index : AuctionIndex) (first_slot last_slot : LeasePeriodIndex) (amount : Balance)
| cancel_auction
| create (index : ParaId) (cap : Balance) (first last : LeasePeriodIndex) (end_at : BlockNumber) (verifier : option Signer)
| contribute (index : ParaId) (value : Balance) (signature : option Signature)
| contribute_all (index : ParaId) (signature : option Signature)
| withdraw (who : A) (index : ParaId)
| refund (index : ParaId)
| dissolve (index : ParaId)
| edit (index : ParaId) (cap : Balance) (first last : LeasePeriodIndex) (end_at : BlockNumber) (verifier : option Signer)
| add_memo (index : ParaId) (memo : list byte)
| poke (index : ParaId).

(** The world after a call, whether it fails or not. *)
Definition dispatch (p : StoragePolicy) env (origin : O) (c : Call) w : World :=
  match c with
  | register id head code => (run p (Registrar.register code_hash_of consts env origin id head code) w).1
  | force_register who deposit id head code =>
      (run p (Registrar.force_register code_hash_of consts env origin who deposit id head code) w).1
  | deregister id => (run p (Registrar.deregister ensure_parachain env origin id) w).1
  | swap id other => (run p (Registrar.swap ensure_parachain env origin id other) w).1
  | force_remove_lock para => (run p (Registrar.force_remove_lock origin para) w).1
  | reserve => (run p (Registrar.reserve consts origin) w).1
  | force_lease para leaser amount first count =>
      (run p (Slots.force_lease ensure_force consts env origin para leaser amount first count) w).1
  | clear_all_leases para => (run p (Slots.clear_all_leases ensure_force origin para) w).1
  | trigger_onboard para => (run p (Slots.trigger_onboard env origin para) w).1
  | new_auction duration period => (run p (Auctions.new_auction ensure_initiate consts env origin duration period) w).1
  | bid para index first last amount => (run p (Auctions.bid consts env origin para index first last amount) w).1
  | cancel_auction => (run p (Auctions.cancel_auction origin) w).1
  | create index cap first last end_at verifier =>
      (run p (Crowdloan.create consts env origin index cap first last end_at verifier) w).1
  | contribute index value signature =>
      (run p (Crowdloan.contribute consts fund_account_id verify env origin index value signature) w).1
  | contribute_all index signature =>
      (run p (Crowdloan.contribute_all consts fund_account_id verify env origin index signature) w).1
  | withdraw who index => (run p (Crowdloan.withdraw consts fund_account_id env origin who index) w).1
  | refund index => (run p (Crowdloan.refund consts fund_account_id env origin index) w).1
  | dissolve index => (run p (Crowdloan.dissolve env origin index) w).1
  | edit index cap first last end_at verifier => (run p (Crowdloan.edit origin index cap first last end_at verifier) w).1
  | add_memo index memo => (run p (Crowdloan.add_memo consts origin index memo) w).1
  | poke index => (run p (Crowdloan.poke origin index) w).1
  end.

(** Amounts and counts are unsigned. *)
Definition well_formed (c : Call) : Prop :=
  match c with
  | force_register _ x _ _ _ | bid _ _ _ _ x | contribute _ x _ => 0 ≤ x
  | force_lease _ _ x _ count => 0 ≤ x ∧ 0 ≤ count
  | _ => True
  end.

(** The account a call may empty, that of a contributor who gives everything or
    that of a fund that pays back, has no reserve below the existential deposit:
    the currency would remove it with the account. *)
Definition spared (origin : O) (c : Call) w : Prop :=
  match c with
  | contribute_all _ _ => ∀ who, ensure_signed origin = Some who → no_dust who w
  | withdraw _ index | refund index => fund_spared fund_account_id index w
  | _ => True
  end.

(** A call, the block hook of a pallet, or anything else that happens to the
    paras and to balances that are not reserved. *)
Inductive step w : World → Prop :=
| step_call p env origin c : well_formed c → spared origin c w → step w (dispatch p env origin c w)
| step_slots env n : step w (Slots.on_initialize consts env n w)
| step_auctions env n random w' : Auctions.on_initialize consts env n random w = Some w' → step w w'
| step_crowdloan env n : step w (Crowdloan.on_initialize consts fund_account_id env n w)
| step_outside x b : (∀ a, reserved_balance a b = reserved_balance a (balances w)) → step w (set_paras x (set_balances b w)).

Context `{!CurrencyLaws A B}.

(** The storages of the pallets when they are added to a chain. *)
Definition fresh (x : ParasPallet.State) (b : B) : World :=
  mkWorld (mkRegistrar ∅ ∅ 0) (mkSlots ∅) (mkAuctions 0 None ∅ ∅) (mkCrowdloan ∅ [] 0 0 ∅) x b [].

Lemma fresh_covered x b : covered (fresh x b).
Proof.
  split; [split; cbn; try done|].
  - by intros e y ?%elem_of_nil.
  - intros who. unfold claims, leased, bidding, registered, funding, stranded. cbn. rewrite !sum_map_empty. apply reserved_nonneg.
Qed.

Context (Hpara : 0 ≤ ParaDeposit consts) (Hbyte : 0 ≤ DataDepositPerByte consts) (Hfund : 0 ≤ SubmissionDeposit consts).

Lemma registrar_reserve_keeps (origin : O) w : covered w → keeps w (Registrar.reserve (Signer := Signer) consts origin).
Proof.
  intros Hw. apply keeps_lift; [done|]. intros who _. apply keeps_get. cbv zeta.
  apply keeps_bind; [done|by apply do_reserve_keeps|]. intros _ w' Hw' _. by apply next_id_balanced.
Qed.

Lemma deregister_keeps env (origin : O) id w : covered w → keeps w (Registrar.deregister ensure_parachain env origin id).
Proof.
  intros Hw. apply keeps_bind; [done|by apply balanced_refl|]. intros _ w' Hw' _. by apply do_deregister_keeps.
Qed.

Lemma dispatch_balanced p env origin c w :
  covered w → spared origin c w → well_formed c → balanced w (dispatch p env origin c w).
Proof.
  intros Hw Hd Hc. destruct c; cbn [dispatch well_formed spared] in *; apply keeps_run; try done.
  - apply keeps_lift; [done|]. intros who _. by apply do_register_keeps.
  - apply keeps_lift; [done|]. intros _ _. apply do_register_keeps; [done..|]. by intros ? [= <-].
  - by apply deregister_keeps.
  - by apply swap_keeps.
  - apply keeps_lift; [done|]. intros _ _. by apply lock_balanced.
  - by apply registrar_reserve_keeps.
  - destruct Hc. by apply force_lease_keeps.
  - by apply clear_leases_keeps.
  - by apply trigger_onboard_keeps.
  - apply keeps_lift; [done|]. intros _ _. by apply new_auction_keeps.
  - apply keeps_lift; [done|]. intros who _. by apply handle_bid_keeps.
  - by apply cancel_keeps.
  - by apply create_keeps.
  - apply keeps_lift; [done|]. intros who _. apply do_contribute_keeps; [done|by left|done].
  - apply keeps_lift; [done|]. intros who Ho. apply keeps_get. apply do_contribute_keeps; [done| |apply free_nonneg].
    right. apply Hd. unfold ok_or in Ho. by destruct (ensure_signed origin); simplify_eq.
  - by apply withdraw_keeps.
  - by apply refund_keeps.
  - by apply dissolve_keeps.
  - by apply edit_keeps.
  - by apply add_memo_keeps.
  - by apply poke_keeps.
Qed.

Lemma step_balanced w w' : covered w → step w w' → balanced w w'.
Proof.
  intros Hw []; [by apply dispatch_balanced|by apply lease_period_balanced|by eapply auctions_block_balanced|
    by apply crowdloan_block_balanced|]. same_records.
Qed.

(** C4. Over any sequence of calls and block hooks of the registrar, the slots,
    the auctions and the crowdloans, succeeding or not, the reserve of every
    account covers what the pallets have on record for it: leases, bids,
    registrations, funds, and, by their events only, confiscated bids and
    forced leases of no period.  What an account has in reserve beyond the
    records does not change.  The one condition is that an account that gives
    its whole balance to a fund, or the account of a fund that pays back, has
    nothing or at least the existential deposit in reserve. *)
Theorem deposits_accounted w w' :
  covered w → rtc step w w' →
  covered w' ∧ ∀ who, reserved_balance who (balances w') - claims who w' = reserved_balance who (balances w) - claims who w.
Proof.
  intros Hw Hs. induction Hs as [w|w1 w2 w3 H1 _ IH]; [done|]. pose proof (step_balanced w1 w2 Hw H1) as Hb.
  destruct (IH (balanced_covered _ _ Hw Hb)) as [Hc Hr]. split; [done|]. intros who. rewrite Hr. apply Hb.
Qed.
End Runtime.

(** ** A concrete chain *)

#[export] Instance sorted_iter {K V} `{Countable K} : StorageIter K V :=
  {| storage_iter := map_to_list; storage_iter_perm _ := reflexivity _ |}.

(** Lease periods of 100 blocks, deposits of 40 for an id and 25 for a fund. *)
Definition example_consts : Constants := mkConstants 40 1 100 0 20 5 25 1 10 32.
Definition example_balances : Ledger.Balances := λ a, if decide (a ≤ 2)%nat then (1000, 0)%N else (0, 0)%N.
Definition example_world : World nat Ledger.Balances unit := fresh ParasPallet.empty_state example_balances.
Definition example_env (now : BlockNumber) : ParasPallet.Env Z := ParasPallet.mkEnv now 1 [] HostConfiguration.default.

Definition of_root (o : RuntimeOrigin nat) : option unit := match o with Root => Some tt | _ => None end.

(** Account 1 reserves an id, account 2 is given a lease of the periods 1 and 2,
    and period 1 begins. *)
Definition example_run : World nat Ledger.Balances unit :=
  let call now origin c := dispatch (V := Z) (Signature := unit) (λ _, 0) (λ _, None) of_root of_root example_consts (λ i, Z.to_nat (100 + i))
    (λ _ _ _, true) Layered (example_env now) origin c in
  Slots.on_initialize example_consts (example_env 100) 100
    (call 6 Root (force_lease 7 2%nat 50 1 2) (call 5 (Signed 1%nat) reserve example_world)).

Lemma deposits_accounted_witness :
  covered example_run ∧ reserved_balance 1%nat (balances example_run) = 40 ∧ claims 1%nat example_run = 40 ∧
  reserved_balance 2%nat (balances example_run) = 50 ∧ claims 2%nat example_run = 50.
Proof.
  destruct (deposits_accounted (V := Z) (Signature := unit) (λ _, 0) (λ _, None) of_root of_root example_consts
    (λ i, Z.to_nat (100 + i)) (λ _ _ _, true) ltac:(done) ltac:(done) ltac:(done) example_world example_run) as [Hc _].
  - apply fresh_covered.
  - eapply rtc_l; [by apply (step_call _ _ _ _ _ _ _ _ Layered (example_env 5) (Signed 1%nat) reserve)|].
    eapply rtc_l; [by apply (step_call _ _ _ _ _ _ _ _ Layered (example_env 6) Root (force_lease 7 2%nat 50 1 2))|].
    apply rtc_once, step_slots.
  - split; [exact Hc|]. by vm_compute.
Defined.
End Accounting.
