(* ===== verification/Solvency.v ===== *)
(** * Crowdloans can pay their contributors

    Over all calls and block hooks of the common pallets, the account of a fund
    has, free or in reserve, at least what is recorded as contributed to it. *)

From S2P Require Import Prelude.
From S2P Require Import Frame.
From S2P Require Import Configuration.
From S2P Require Import Paras.
From S2P Require Import ParasPallet.
From S2P Require Import Candidates.
From S2P Require Import SlotRange.
From S2P Require Import CommonPallets.
From S2P Require Import Registrar.
From S2P Require Import Slots.
From S2P Require Import Auctions.
From S2P Require Import Crowdloan.
From S2P Require Import Deposits.
From S2P Require Import Ledger.
From S2P Require Import Accounting.
Import Candidates Currency Common.

Module Solvency.

(** ** Steps that leave the crowdloans alone *)

Section Calm.
Context {A B V Signer O : Type} `{!EqDecision A} `{!Countable A} `{!Currency A B} `{!CurrencyLaws A B} `{!FrameOrigin O A}.
#[local] Abbreviation World := (World A B Signer).
Implicit Types (env : ParasPallet.Env V) (w : World).

Definition total (a : A) w : Balance := free_balance a (balances w) + reserved_balance a (balances w).

Record calm w w' : Prop := {
  calm_funds : Funds (crowdloan w') = Funds (crowdloan w);
  calm_next : NextFundIndex (crowdloan w') = NextFundIndex (crowdloan w);
  calm_contributions : Contributions (crowdloan w') = Contributions (crowdloan w);
  calm_total a : total a w' = total a w;
}.

#[export] Instance calm_preorder : PreOrder calm.
Proof.
  split; [by split|]. intros w1 w2 w3 [] []. split; [congruence..|]. intros a. congruence.
Qed.

Definition calm_at {E X} w (m : M World E X) : Prop := calm w (m w).1.

Lemma still_bind {E X Y} (m : M World E X) (f : X → M World E Y) w :
  calm_at w m → (∀ x w', calm_at w' (f x)) → calm_at w (m ≫= f).
Proof.
  intros Hm Hf. unfold calm_at, mbind, M_bind in *. destruct (m w) as [w' [x|e]]; [|done]. etrans; [exact Hm|]. apply Hf.
Qed.

Lemma calm_get {E Y} (f : World → M World E Y) w : calm_at w (f w) → calm_at w (get ≫= f).
Proof. done. Qed.

Lemma calm_ensure {E Y} b (e : E) (f : unit → M World E Y) w : calm_at w (f tt) → calm_at w (ensure b e ≫= f).
Proof. intros Hf. by destruct b. Qed.

Lemma calm_lift {E X Y} (r : result E X) (f : X → M World E Y) w :
  (∀ x, r = Ok x → calm_at w (f x)) → calm_at w (lift r ≫= f).
Proof. intros Hf. destruct r as [x|e]; [by apply Hf|]. by unfold calm_at. Qed.

Lemma still_modify {E Y} g (f : unit → M World E Y) w :
  calm w (g w) → calm_at (g w) (f tt) → calm_at w (modify g ≫= f).
Proof. intros Hg Hf. unfold calm_at. etrans; [exact Hg|exact Hf]. Qed.

Lemma calm_last {E} g w : calm w (g w) → calm_at (E := E) w (modify g).
Proof. done. Qed.

Lemma calm_map_error {E E' X} (f : E → E') (m : M World E X) w : calm_at w m → calm_at w (map_error f m).
Proof. unfold calm_at, map_error. by destruct (m w). Qed.

Lemma calm_run {E X} p (m : M World E X) w : calm_at w m → calm w (run p m w).1.
Proof. intros Hm. by apply (run_preserves (calm w)). Qed.

Lemma calm_foldl {X} (f : World → X → World) l w : (∀ w x, calm w (f w x)) → calm w (foldl f w l).
Proof. intros Hf. revert w. induction l as [|x l IH]; intros w; [done|]. cbn. etrans; [apply Hf|apply IH]. Qed.

Lemma calm_reserve {E} who x w b (e : E) :
  ok_or (Currency.reserve who x (balances w)) e = Ok b → calm w (set_balances b w).
Proof.
  destruct (Currency.reserve _ _ _) eqn:Er; [|done]. intros [= <-]. split; try done.
  intros a. apply (reserve_total _ _ _ _ a Er).
Qed.

Lemma calm_event e w w' : calm w w' → calm w (deposit_event e w').
Proof. intros []. by split. Qed.

Lemma calm_unreserve who x w : calm w (Registrar.unreserve_to who x w).
Proof. split; try done. intros a. apply unreserve_total. Qed.
End Calm.

#[local] Hint Extern 0 (calm _ _) => reflexivity : core.
#[local] Hint Resolve calm_unreserve calm_reserve : core.

(** Goes through a computation and proves each of its changes calm. *)
Ltac calm_step m :=
  lazymatch m with
  | get ≫= _ => apply calm_get
  | ensure _ _ ≫= _ => apply calm_ensure
  | lift _ ≫= _ => apply calm_lift; intros ? ?
  | or_bad_origin _ ≫= _ => apply calm_lift; intros ? ?
  | modify _ ≫= _ => apply still_modify; [try done; eauto|]
  | modify _ => apply calm_last
  | map_error _ _ => apply calm_map_error
  | match ?x with _ => _ end => destruct x eqn:?
  end.
Ltac calm := repeat (cbv beta zeta; match goal with |- calm_at _ ?m => calm_step m end); try done; eauto.

Section Pallets.
Context {A B V Signer O : Type} `{!EqDecision A} `{!Countable A} `{!Currency A B} `{!CurrencyLaws A B} `{!FrameOrigin O A}
  `{!StorageIter ParaId (list (option (A * Balance)))} `{!StorageIter (A * ParaId) Balance}
  (code_hash_of : ValidationCode → Hash) (ensure_parachain : O → option ParaId) (ensure_force ensure_initiate : O → option unit)
  (consts : Constants).
#[local] Abbreviation World := (World A B Signer).
Implicit Types (env : ParasPallet.Env V) (w : World).

Lemma reserve_from_calm who x w : calm_at w (Registrar.reserve_from who x).
Proof.
  unfold calm_at, Registrar.reserve_from. destruct (Currency.reserve _ _ _) eqn:Er; [|done].
  apply (calm_reserve who x w _ tt). by rewrite Er.
Qed.

Lemma on_paras_calm m e w : calm_at w (Registrar.on_paras m e).
Proof. unfold calm_at, Registrar.on_paras. by destruct (m (paras w)). Qed.

Lemma make_parachain_calm env id w : calm_at w (Registrar.make_parachain env id).
Proof. unfold Registrar.make_parachain. calm. apply still_bind; [apply on_paras_calm|]. done. Qed.

Lemma make_parathread_calm env id w : calm_at w (Registrar.make_parathread env id).
Proof. unfold Registrar.make_parathread. calm. apply on_paras_calm. Qed.

Lemma do_reserve_calm who o id w : calm_at w (Registrar.do_reserve consts who o id).
Proof. unfold Registrar.do_reserve. calm. apply still_bind; [apply reserve_from_calm|]. done. Qed.

Lemma do_register_calm env who o id head code reserved w :
  calm_at w (Registrar.do_register code_hash_of consts env who o id head code reserved).
Proof.
  unfold Registrar.do_register. apply calm_get, still_bind; [destruct (Paras (registrar w) !! id); calm|].
  intros deposited w1. apply calm_ensure, still_bind; [unfold Registrar.validate_onboarding_data; calm|].
  intros [genesis due] w2. cbv zeta. apply still_bind; [|done].
  destruct (checked_sub _ deposited); [apply reserve_from_calm|]. destruct (checked_sub _ _); [apply calm_unreserve|done].
Qed.

Lemma do_deregister_calm env id w : calm_at w (Registrar.do_deregister env id).
Proof.
  unfold Registrar.do_deregister. calm. apply still_bind; [apply on_paras_calm|]. intros _ w1. calm.
  destruct (Paras (registrar w1) !! id); [|done]. etrans; [|apply calm_unreserve]. done.
Qed.

(** ** Slots *)

Lemma lease_out_calm env para leaser amount first count w :
  calm_at w (Slots.lease_out consts env para leaser amount first count).
Proof.
  unfold Slots.lease_out. calm.
  all: apply still_bind; [by calm|]; intros _ w1; apply still_modify; [|done]; destruct (decide _); [apply make_parachain_calm|done].
Qed.

Lemma end_period_calm w ps x : calm w (Slots.end_period (w, ps) x).1.
Proof.
  destruct x as [para [|l [|l' d]]]; cbn; [done| |].
  - destruct l as [[who value]|]; [|done]. etrans; [apply calm_unreserve|done].
  - destruct l as [[who value]|]; [|done]. destruct (checked_sub _ _); [|done]. etrans; [|apply calm_unreserve]. done.
Qed.

Lemma lease_period_calm env n w : calm w (Slots.on_initialize consts env n w).
Proof.
  unfold Slots.on_initialize. destruct (Slots.lease_period_index consts n) as [[p []]|]; [|done..].
  unfold Slots.manage_lease_period_start. cbv zeta. set (w0 := deposit_event _ w).
  assert (∀ l (acc : World * list ParaId), calm acc.1 (foldl Slots.end_period acc l).1) as Hf.
  { induction l as [|x l IH]; intros [w' ps]; [done|]. cbn. etrans; [apply (end_period_calm w' ps x)|apply IH]. }
  specialize (Hf (storage_iter (Leases (slots w0))) (w0, [])). destruct (foldl Slots.end_period _ _) as [w1 ps].
  assert (calm w w0) as H0 by done. etrans; [exact H0|]. etrans; [exact Hf|]. etrans; [|apply calm_foldl]; [apply calm_foldl|]; intros w' x; unfold Slots.onboard, Slots.offboard.
  - destruct (is_ok _); [done|]. apply make_parachain_calm.
  - destruct (is_ok _); [done|]. apply make_parathread_calm.
Qed.

Lemma pay_back_calm {X} (f : X → A) (g : X → Balance) l w : calm w (foldl (λ w x, Registrar.unreserve_to (f x) (g x) w) w l).
Proof. apply calm_foldl. intros. apply calm_unreserve. Qed.

Lemma clear_leases_calm (origin : O) para w : calm_at w (Slots.clear_all_leases ensure_force origin para).
Proof. unfold Slots.clear_all_leases. calm. apply pay_back_calm. Qed.

(** ** Auctions *)

Lemma reserve_bid_calm bidder para amount w : calm_at w (Auctions.reserve_bid bidder para amount).
Proof. unfold Auctions.reserve_bid. calm. Qed.

Lemma release_calm starting winning last w : calm w (Auctions.release_outgoing starting winning last w).
Proof.
  unfold Auctions.release_outgoing. destruct last as [[[who para] x]|]; [|done]. destruct (_ && _); [|done].
  destruct (ReservedAmounts (auctions w) !! _); [|done]. apply calm_event. etrans; [|apply calm_unreserve]. done.
Qed.

Lemma handle_bid_calm env bidder para index first last amount w :
  calm_at w (Auctions.handle_bid consts env bidder para index first last amount).
Proof.
  unfold Auctions.handle_bid. calm. apply still_bind; [apply reserve_bid_calm|]. intros _ w1. calm. apply release_calm.
Qed.

Lemma unreserve_all_calm w : calm w (Auctions.unreserve_all w).
Proof. unfold Auctions.unreserve_all. cbv zeta. etrans; [apply (pay_back_calm (λ x : A * ParaId * Balance, x.1.1) snd)|]. done. Qed.

Lemma assign_calm env period w x : calm w (Auctions.assign_slot consts env period w x).
Proof.
  destruct x as [[[leaser para] amount] range]. unfold Auctions.assign_slot. cbv zeta.
  pose proof (lease_out_calm env para leaser amount (u32_add period (Z.of_nat (SlotRange.as_pair range).1))
    (Z.of_nat (SlotRange.len range)) w) as Hl. unfold calm_at in Hl.
  destruct (Slots.lease_out _ _ _ _ _ _ _ w) as [w1 [|[]]]; try done.
  destruct (Currency.reserve leaser amount (balances w1)) eqn:Er; [|done]. etrans; [exact Hl|].
  apply calm_event, (calm_reserve leaser amount w1 b tt). by rewrite Er.
Qed.

Lemma auctions_block_calm env n random w w' : Auctions.on_initialize consts env n random w = Some w' → calm w w'.
Proof.
  unfold Auctions.on_initialize. cbv zeta. set (w1 := Auctions.copy_sample consts n w).
  assert (calm w w1) as H1. { unfold w1, Auctions.copy_sample. repeat case_match; done. }
  clearbody w1. unfold Auctions.check_auction_end. destruct (AuctionInfo (auctions w1)) as [[period early_end]|]; [|by intros [= <-]].
  destruct random as [raw since]. destruct (decide _); [|by intros [= <-]]. unfold Auctions.manage_auction_end.
  destruct (Auctions.calculate_winners _) as [winners|]; [|done]. cbv zeta. intros [= <-]. etrans; [exact H1|].
  match goal with |- context [Auctions.unreserve_all ?x] => set (w2 := x) end. assert (calm w1 w2) as H2 by done. clearbody w2.
  etrans; [exact H2|]. etrans; [apply unreserve_all_calm|]. etrans; [apply (calm_foldl (Auctions.assign_slot consts env period))|done].
  apply assign_calm.
Qed.
End Pallets.

(** ** Solvent funds *)

Section Crowdloan.
Context {A B V Signer Signature O : Type} `{!EqDecision A} `{!Countable A} `{!Currency A B} `{!CurrencyLaws A B}
  `{!FrameOrigin O A} `{!StorageIter A (Balance * list byte)} (consts : Constants) (fund_account_id : FundIndex → A)
  (verify : Signature → ParaId * A * Balance * Balance → Signer → bool).
#[local] Abbreviation World := (World A B Signer).
Implicit Types (env : ParasPallet.Env V) (w : World) (fund : FundInfo A Signer) (m : gmap A (Balance * list byte)).

Definition sum_contributions m : Balance := Deposits.sum_map (λ _ x, x.1) m.
Definition pledged (i : FundIndex) w : Balance := sum_contributions (Crowdloan.contributions i w).

(** Funds have accounts of their own, which contribute to none.  [exact] says
    that the amount raised is the sum of the contributions; an interrupted
    refund leaves it larger. *)
Record solvent (exact : bool) w : Prop := {
  so_index id id' f f' :
    Funds (crowdloan w) !! id = Some f → Funds (crowdloan w) !! id' = Some f' → fund_index f = fund_index f' → id = id';
  so_next id f : Funds (crowdloan w) !! id = Some f → fund_index f < NextFundIndex (crowdloan w);
  so_fresh i : NextFundIndex (crowdloan w) ≤ i → Crowdloan.contributions i w = ∅;
  so_raised id f :
    Funds (crowdloan w) !! id = Some f →
    pledged (fund_index f) w ≤ raised f ∧ (exact = true → raised f = pledged (fund_index f) w);
  so_backed i : pledged i w ≤ total (fund_account_id i) w;
  so_entries i who x :
    Crowdloan.contributions i w !! who = Some x → MinContribution consts ≤ x.1 ∧ ∀ j, fund_account_id j ≠ who;
}.

Context (Hmin : 0 ≤ existential_deposit ≤ MinContribution consts) (Hinj : Inj (=) (=) fund_account_id).

Lemma solvent_loose exact w : solvent exact w → solvent false w.
Proof. intros []. split; try done. intros id f Hf. by destruct (so_raised0 id f Hf). Qed.

Lemma solvent_calm exact w w' : solvent exact w → calm w w' → solvent exact w'.
Proof.
  intros [] [E1 E2 E3 E4].
  assert (∀ i, Crowdloan.contributions i w' = Crowdloan.contributions i w) as Ec by (intros i; unfold Crowdloan.contributions; by rewrite E3).
  split; unfold pledged; repeat setoid_rewrite Ec; rewrite ?E1, ?E2; try done. intros i. rewrite E4. apply so_backed0.
Qed.

(** One fund, its contributions and its account change together. *)
Lemma solvent_change exact w w' index f f' m :
  solvent false w → Funds (crowdloan w) !! index = Some f → fund_index f' = fund_index f →
  (exact = true → ∀ id g, id ≠ index → Funds (crowdloan w) !! id = Some g → raised g = pledged (fund_index g) w) →
  Funds (crowdloan w') = <[index := f']> (Funds (crowdloan w)) → NextFundIndex (crowdloan w') = NextFundIndex (crowdloan w) →
  (∀ i, Crowdloan.contributions i w' = if decide (i = fund_index f) then m else Crowdloan.contributions i w) →
  (∀ who x, m !! who = Some x → MinContribution consts ≤ x.1 ∧ ∀ j, fund_account_id j ≠ who) →
  sum_contributions m ≤ raised f' ∧ (exact = true → raised f' = sum_contributions m) →
  sum_contributions m ≤ total (fund_account_id (fund_index f)) w' →
  (∀ i, i ≠ fund_index f → total (fund_account_id i) w ≤ total (fund_account_id i) w') → solvent exact w'.
Proof.
  intros [] Hf Ei Hex E1 E2 Ec Hm Hr Ht Ho.
  assert (∀ id g, <[index := f']> (Funds (crowdloan w)) !! id = Some g →
    ∃ g', Funds (crowdloan w) !! id = Some g' ∧ fund_index g = fund_index g') as Hl.
  { intros id g [[-> <-]|[_ Hg]]%lookup_insert_Some; eauto. }
  split; rewrite ?E1, ?E2.
  - intros id id' g g' (h & Hh & ->)%Hl (h' & Hh' & ->)%Hl. by eapply so_index0.
  - intros id g (h & Hh & ->)%Hl. by eapply so_next0.
  - intros i Hi. rewrite Ec, decide_False; [by apply so_fresh0|]. intros ->. specialize (so_next0 _ _ Hf). lia.
  - unfold pledged. intros id g [[-> <-]|[Hne Hg]]%lookup_insert_Some; rewrite Ec.
    + by rewrite Ei, decide_True.
    + rewrite decide_False by (intros E; destruct Hne; by eapply so_index0). split; [by eapply so_raised0|]. intros ->. by apply (Hex eq_refl id).
  - intros i. unfold pledged. rewrite Ec. case_decide; [by subst|]. etrans; [apply so_backed0|by apply Ho].
  - intros i who x. rewrite Ec. case_decide; [apply Hm|apply so_entries0].
Qed.

(** *** Sums of contributions *)

Definition entries_ok m : Prop := ∀ who x, m !! who = Some x → MinContribution consts ≤ x.1 ∧ ∀ j, fund_account_id j ≠ who.

Lemma sum_nonneg m : entries_ok m → 0 ≤ sum_contributions m.
Proof. intros Hm. apply Deposits.sum_map_nonneg. intros who x Hx. destruct (Hm who x Hx). lia. Qed.

Lemma sum_insert m who x :
  sum_contributions (<[who := x]> m) = sum_contributions m - (value_query (0, []) who m).1 + x.1.
Proof. unfold sum_contributions. rewrite Deposits.sum_map_insert. unfold value_query. by destruct (m !! who). Qed.

Lemma sum_delete m who : sum_contributions (delete who m) = sum_contributions m - (value_query (0, []) who m).1.
Proof. unfold sum_contributions. rewrite Deposits.sum_map_delete. unfold value_query. by destruct (m !! who). Qed.

(** What is left is nothing, or enough to keep the account. *)
Lemma sum_dust m : entries_ok m → sum_contributions m < existential_deposit → sum_contributions m = 0.
Proof.
  intros Hm Hs. destruct m as [|who x m Hw _] using map_ind; [apply Deposits.sum_map_empty|]. unfold sum_contributions in Hs.
  rewrite Deposits.sum_map_insert_new in Hs by done. destruct (Hm who x) as [Hx _]; [by rewrite lookup_insert_eq|].
  assert (0 ≤ sum_contributions m) as H0; [|unfold sum_contributions in H0; lia].
  apply sum_nonneg. intros who' x' Hl. apply Hm. rewrite lookup_insert_ne; [done|]. intros ->. by rewrite Hw in Hl.
Qed.

Lemma contributions_put i j who x memo w :
  Crowdloan.contributions j (Crowdloan.contribution_put i who x memo w) =
    if decide (j = i) then <[who := (x, memo)]> (Crowdloan.contributions i w) else Crowdloan.contributions j w.
Proof.
  unfold Crowdloan.contributions at 1. cbn. rewrite value_query_insert. repeat case_decide; done || congruence.
Qed.

Lemma contributions_kill i j who w :
  Crowdloan.contributions j (Crowdloan.contribution_kill i who w) =
    if decide (j = i) then delete who (Crowdloan.contributions i w) else Crowdloan.contributions j w.
Proof.
  unfold Crowdloan.contributions at 1. cbn. rewrite value_query_insert. repeat case_decide; done || congruence.
Qed.

(** *** Transfers *)

Lemma transfer_in who i x e w b :
  (∀ j, fund_account_id j ≠ who) → 0 ≤ x → Currency.transfer who (fund_account_id i) x e (balances w) = Some b →
  ∀ j, total (fund_account_id j) (set_balances b w) = total (fund_account_id j) w + (if decide (j = i) then x else 0).
Proof.
  intros Hw Hx Et j. unfold total. cbn. destruct (transfer_other _ _ _ _ _ _ (fund_account_id j) Et (Hw j) Hx) as [-> ->].
  assert (fund_account_id j = fund_account_id i ↔ j = i) by (split; [apply Hinj|by intros ->]).
  repeat case_decide; try tauto; lia.
Qed.

(** Paying a contribution back. *)
Lemma transfer_out i who x e w b m :
  (∀ j, fund_account_id j ≠ who) → 0 ≤ x → Currency.transfer (fund_account_id i) who x e (balances w) = Some b →
  entries_ok m → sum_contributions m ≤ total (fund_account_id i) w - x →
  sum_contributions m ≤ total (fund_account_id i) (set_balances b w) ∧
  ∀ j, j ≠ i → total (fund_account_id j) (set_balances b w) = total (fund_account_id j) w.
Proof.
  intros Hw Hx Et Hm Hs. unfold total in *. cbn. split.
  - destruct (transfer_source _ _ _ _ _ _ Et (Hw i) Hx) as (_ & _ & Hk).
    destruct (decide (existential_deposit ≤ free_balance (fund_account_id i) (balances w) - x + reserved_balance (fund_account_id i) (balances w)))
      as [Hd|Hd]; [destruct (Hk Hd); lia|]. rewrite (sum_dust m) by (done || lia).
    pose proof (free_nonneg (fund_account_id i) b). pose proof (reserved_nonneg (fund_account_id i) b). lia.
  - intros j Hj. destruct (transfer_other _ _ _ _ _ _ (fund_account_id j) Et) as [-> ->]; [intros ?%Hinj; done|done|].
    rewrite decide_False by apply Hw. lia.
Qed.

(** *** Computations *)

Definition stays {E X} (exact : bool) w (m : M World E X) : Prop :=
  solvent false (m w).1 ∧ ∀ x, (m w).2 = Ok x → solvent exact (m w).1.

Lemma stays_solvent {E X} exact (m : M World E X) w : solvent exact (m w).1 → stays exact w m.
Proof. intros Hm. split; [by eapply solvent_loose|done]. Qed.

Lemma stays_get {E Y} exact (f : World → M World E Y) w : stays exact w (f w) → stays exact w (get ≫= f).
Proof. done. Qed.

Lemma stays_ensure {E Y} exact b (e : E) (f : unit → M World E Y) w :
  solvent exact w → (b = true → stays exact w (f tt)) → stays exact w (ensure b e ≫= f).
Proof. intros Hw Hf. destruct b; [by apply Hf|]. by apply stays_solvent. Qed.

Lemma stays_lift {E X Y} exact (r : result E X) (f : X → M World E Y) w :
  solvent exact w → (∀ x, r = Ok x → stays exact w (f x)) → stays exact w (lift r ≫= f).
Proof. intros Hw Hf. destruct r as [x|e]; [by apply Hf|]. by apply stays_solvent. Qed.

Lemma stays_fund {Y} exact index w (f : _ → M World _ Y) :
  solvent exact w → (∀ fund, Funds (crowdloan w) !! index = Some fund → stays exact w (f fund)) →
  stays exact w (Crowdloan.get_fund index ≫= f).
Proof.
  intros Hw Hf. pose proof (solvent_loose _ _ Hw). unfold stays, Crowdloan.get_fund, mbind, M_bind, get, lift.
  destruct (Funds (crowdloan w) !! index) as [fund|] eqn:E; cbn; [by apply Hf|done].
Qed.

Lemma stays_transfer {Y} exact source dest x e w (f : unit → M World _ Y) :
  solvent exact w → (∀ b, Currency.transfer source dest x e (balances w) = Some b → stays exact (set_balances b w) (f tt)) →
  stays exact w (Crowdloan.transfer_funds source dest x e ≫= f).
Proof.
  intros Hw Hf. pose proof (solvent_loose _ _ Hw). unfold stays, Crowdloan.transfer_funds, mbind, M_bind, get, lift, modify.
  destruct (Currency.transfer _ _ _ _ _) as [b|] eqn:Et; cbn; [by apply Hf|done].
Qed.

Lemma stays_ended {Y} exact now account fund w (f : unit → M World _ Y) :
  solvent exact w → stays exact w (f tt) → stays exact w (Crowdloan.ensure_crowdloan_ended consts now account fund ≫= f).
Proof.
  intros Hw Hf. pose proof (solvent_loose _ _ Hw).
  unfold stays, Crowdloan.ensure_crowdloan_ended, Crowdloan.current_lease_period, mbind, M_bind, get, lift, ensure.
  repeat case_match; simplify_eq/=; done.
Qed.

(** A failed call without a storage layer leaves its changes. *)
Definition layered (p : StoragePolicy) : bool := match p with Layered => true | Plain => false end.

Lemma stays_run {E X} p (m : M World E X) w :
  solvent (layered p) w → stays (layered p) w m → solvent (layered p) (run p m w).1.
Proof.
  intros Hw [Hl Hx]. unfold run in *. destruct (m w) as [w' [x|e]]; cbn in *; [by eapply Hx|]. by destruct p.
Qed.

Lemma others_exact exact w index :
  solvent exact w → exact = true → ∀ id g, id ≠ index → Funds (crowdloan w) !! id = Some g → raised g = pledged (fund_index g) w.
Proof. intros Hw He id g _ Hg. by apply (so_raised _ _ Hw id g Hg). Qed.

Lemma contribution_bounds exact w i who :
  solvent exact w → 0 ≤ (Crowdloan.contribution_get i who w).1 ≤ pledged i w.
Proof.
  intros Hw. pose proof (so_entries _ _ Hw i) as He.
  pose proof (Deposits.sum_map_share (λ _ x, x.1) (Crowdloan.contributions i w) who) as Hs.
  unfold Crowdloan.contribution_get, value_query, pledged, sum_contributions, Deposits.share in *.
  destruct (Crowdloan.contributions i w !! who) as [x|] eqn:Ex; cbn.
  - destruct (He who _ Ex) as [Hx _]. split; [lia|]. apply Hs. intros k v Hk. destruct (He k v Hk). lia.
  - split; [done|]. by apply sum_nonneg.
Qed.

(** *** Contributing and paying back *)

Lemma do_contribute_stays exact env who index value signature existence w :
  solvent exact w → (∀ j, fund_account_id j ≠ who) →
  stays exact w (Crowdloan.do_contribute consts fund_account_id verify env who index value signature existence).
Proof.
  intros Hw Hwho. apply stays_ensure; [done|]. intros Hv%bool_decide_eq_true. apply stays_fund; [done|]. intros fund Hf. cbv zeta.
  apply stays_ensure; [done|]. intros Hmax%bool_decide_eq_true. do 2 (apply stays_ensure; [done|]; intros _).
  apply stays_lift; [done|]. intros period _. apply stays_ensure; [done|]. intros _. apply stays_get.
  do 2 (apply stays_ensure; [done|]; intros _). destruct (Crowdloan.contribution_get _ _ _) as [old memo] eqn:Eo.
  apply stays_ensure; [done|]. intros _. apply stays_transfer; [done|]. intros b Et. cbn [fund_index Crowdloan.set_raised] in *.
  set (w1 := Crowdloan.contribution_put (fund_index fund) who (u128_saturating_add old value) memo (set_balances b w)).
  set (fund1 := Crowdloan.set_raised _ fund).
  destruct (Accounting.note_raise_same consts env index fund1 w1) as (fund' & w' & En & _ & _ & E3 & E4 & l & ->).
  apply stays_solvent. unfold modify, mbind, M_bind. fold w1. rewrite En. unfold Crowdloan.put_fund, modify. cbn [fst].
  destruct (so_raised _ _ Hw _ _ Hf) as [Hr Hex]. pose proof (so_entries _ _ Hw (fund_index fund)) as Hentries.
  assert (0 ≤ old ∧ old ≤ pledged (fund_index fund) w) as [Ho Hop].
  { pose proof (contribution_bounds exact w (fund_index fund) who Hw) as Hb. by rewrite Eo in Hb. }
  assert (u128_saturating_add old value = old + value) as Esum by (unfold u128_saturating_add in *; lia).
  pose proof (transfer_in who (fund_index fund) value existence w b Hwho ltac:(lia) Et) as Htot.
  set (m := <[who := (old + value, memo)]> (Crowdloan.contributions (fund_index fund) w)).
  assert (sum_contributions m = pledged (fund_index fund) w + value) as Em.
  { unfold m. rewrite sum_insert. unfold Crowdloan.contribution_get in Eo. rewrite Eo. cbn. unfold pledged. lia. }
  eapply (solvent_change exact w _ index fund fund' m); try done.
  - by eapply solvent_loose.
  - by eapply others_exact.
  - intros i. etrans; [apply (contributions_put (fund_index fund) i who)|]. rewrite Esum. done.
  - intros who' x [[-> <-]|[_ Hl]]%lookup_insert_Some; [|by apply Hentries]. split; [cbn; lia|done].
  - rewrite E3, Em. cbn. split; [lia|]. intros He. rewrite Hex by done. done.
  - change (sum_contributions m ≤ total (fund_account_id (fund_index fund)) (set_balances b w)).
    rewrite Htot, decide_True, Em by done. pose proof (so_backed _ _ Hw (fund_index fund)). lia.
  - intros i Hi. change (total (fund_account_id i) w ≤ total (fund_account_id i) (set_balances b w)). rewrite Htot, decide_False by done. lia.
Qed.

Lemma paid_back exact w w' index fund fund' who balance memo e b :
  solvent false w → Funds (crowdloan w) !! index = Some fund →
  Crowdloan.contributions (fund_index fund) w !! who = Some (balance, memo) →
  Currency.transfer (fund_account_id (fund_index fund)) who balance e (balances w) = Some b →
  fund_index fund' = fund_index fund →
  (exact = true → ∀ id g, id ≠ index → Funds (crowdloan w) !! id = Some g → raised g = pledged (fund_index g) w) →
  pledged (fund_index fund) w - balance ≤ raised fund' →
  (exact = true → raised fund' = pledged (fund_index fund) w - balance) →
  Funds (crowdloan w') = <[index := fund']> (Funds (crowdloan w)) → NextFundIndex (crowdloan w') = NextFundIndex (crowdloan w) →
  Contributions (crowdloan w') = Contributions (crowdloan (Crowdloan.contribution_kill (fund_index fund) who w)) →
  balances w' = b → solvent exact w' ∧ pledged (fund_index fund) w' = pledged (fund_index fund) w - balance.
Proof.
  intros Hw Hf Hc Et Ei Hex Hr Hre E1 E2 E3 <-. set (m := delete who (Crowdloan.contributions (fund_index fund) w)).
  destruct (so_entries _ _ Hw _ _ _ Hc) as [Hx Hwho].
  assert (sum_contributions m = pledged (fund_index fund) w - balance) as Em.
  { unfold m. rewrite sum_delete. unfold value_query. by rewrite Hc. }
  assert (∀ i, Crowdloan.contributions i w' = if decide (i = fund_index fund) then m else Crowdloan.contributions i w) as Ec.
  { intros i. etrans; [|apply (contributions_kill (fund_index fund) i who w)]. unfold Crowdloan.contributions at 1. by rewrite E3. }
  assert (entries_ok m) as Hm. { intros who' x [_ Hl]%lookup_delete_Some. by eapply so_entries. }
  pose proof (so_backed _ _ Hw (fund_index fund)) as Hb.
  destruct (transfer_out (fund_index fund) who balance e w (balances w') m) as [Ht Ho]; [done|cbn in Hx; lia|done|done|lia|].
  change (total ?a (set_balances (balances w') w)) with (total a w') in *. split.
  - eapply (solvent_change exact w w' index fund fund' m); try done.
    + rewrite Em. done.
    + intros i Hi. by rewrite (Ho i Hi).
  - unfold pledged at 1. by rewrite Ec, decide_True.
Qed.

Lemma withdraw_stays exact env (origin : O) who index w :
  solvent exact w → stays exact w (Crowdloan.withdraw consts fund_account_id env origin who index).
Proof.
  intros Hw. apply stays_lift; [done|]. intros _ _. apply stays_fund; [done|]. intros fund Hf. cbv zeta.
  apply stays_ended; [done|]. apply stays_get, stays_ensure; [done|]. intros H0%bool_decide_eq_true.
  apply stays_transfer; [done|]. intros b Et. pose proof (contribution_bounds exact w (fund_index fund) who Hw) as Hb.
  destruct (so_raised _ _ Hw _ _ Hf) as [Hr Hre].
  unfold Crowdloan.contribution_get, value_query in *.
  destruct (Crowdloan.contributions (fund_index fund) w !! who) as [[balance memo]|] eqn:Ec; cbn in *; [|lia].
  apply stays_solvent. refine (proj1 (paid_back exact w _ index fund (Crowdloan.set_raised (saturating_sub (raised fund) balance) fund) who balance memo AllowDeath b
    _ Hf Ec Et _ _ _ _ _ _ _ _)); try done.
  - by eapply solvent_loose.
  - by eapply others_exact.
  - cbn. unfold saturating_sub. lia.
  - intros He. cbn. specialize (Hre He). unfold saturating_sub. lia.
Qed.

(** The fund with what is left is stored. *)
Lemma store_fund exact w index fund f :
  solvent false w → Funds (crowdloan w) !! index = Some fund → fund_index f = fund_index fund →
  (exact = true → ∀ id g, id ≠ index → Funds (crowdloan w) !! id = Some g → raised g = pledged (fund_index g) w) →
  pledged (fund_index fund) w ≤ raised f → (exact = true → raised f = pledged (fund_index fund) w) →
  solvent exact (on_crowdloan (set_funds (insert index f)) w).
Proof.
  intros Hw Hf Ei Hex Hr Hre.
  eapply (solvent_change exact w _ index fund f (Crowdloan.contributions (fund_index fund) w)); try done.
  - intros i. case_decide; by subst.
  - by apply (so_entries _ _ Hw).
  - by apply (so_backed _ _ Hw).
Qed.

(** The loop pays contributions back; the fund it returns is not stored yet. *)
Lemma refund_loop_pays exact index fund l : ∀ limit f w w' r,
  solvent false w → Funds (crowdloan w) !! index = Some fund → fund_index f = fund_index fund → NoDup l.*1 →
  (∀ who x, (who, x) ∈ l → Crowdloan.contributions (fund_index fund) w !! who = Some x) →
  (exact = true → ∀ id g, id ≠ index → Funds (crowdloan w) !! id = Some g → raised g = pledged (fund_index g) w) →
  pledged (fund_index fund) w ≤ raised f → (exact = true → raised f = pledged (fund_index fund) w) →
  Crowdloan.refund_loop (fund_account_id (fund_index fund)) limit l f w = (w', r) →
  solvent false w' ∧ ∀ f' all, r = Ok (f', all) → solvent exact (on_crowdloan (set_funds (insert index f')) w').
Proof.
  induction l as [|[who [balance memo]] l IH]; intros limit f w w' r Hw Hf Ei Hnd Hl Hex Hr Hre.
  { pose proof (store_fund exact w index fund f Hw Hf Ei Hex Hr Hre) as Hs.
    destruct limit; intros [= <- <-]; (split; [done|]); by intros f' all [= <- _]. }
  destruct limit as [|limit].
  { pose proof (store_fund exact w index fund f Hw Hf Ei Hex Hr Hre) as Hs. intros [= <- <-]. split; [done|]. by intros f' all [= <- _]. }
  cbn [Crowdloan.refund_loop]. unfold Crowdloan.transfer_funds, mbind, M_bind, get, lift, modify.
  destruct (Currency.transfer _ _ _ _ _) as [b|] eqn:Et; cbn; [|by intros [= <- <-]]. rewrite Ei.
  pose proof (Hl who (balance, memo) ltac:(by left)) as Hc. cbn in Hnd. apply NoDup_cons in Hnd as [Hni Hnd].
  set (w1 := Crowdloan.contribution_kill _ who (set_balances b w)).
  assert (Funds (crowdloan w1) !! index = Some fund) as Hf1 by done.
  pose proof (contribution_bounds false w (fund_index fund) who Hw) as Hb. unfold Crowdloan.contribution_get, value_query in Hb.
  rewrite Hc in Hb. cbn in Hb. destruct (so_raised _ _ Hw _ _ Hf) as [Hrf _].
  destruct (paid_back false w w1 index fund fund who balance memo AllowDeath b) as [Hw1 Hp]; try done.
  { lia. } { cbn. by rewrite insert_id. }
  apply IH; try done.
  - intros who' x Hin. unfold w1. rewrite (contributions_kill (fund_index fund) (fund_index fund) who (set_balances b w)), decide_True by done.
    rewrite lookup_delete_ne; [apply Hl; by right|]. intros ->. apply Hni. by apply (list_elem_of_fmap_2' fst _ _ _ Hin).
  - intros He id g Hne Hg. rewrite (Hex He id g Hne Hg). unfold pledged. unfold w1.
    rewrite contributions_kill, decide_False; [done|]. intros E. destruct Hne. by eapply (so_index _ _ Hw).
  - rewrite Hp. cbn. unfold saturating_sub. lia.
  - intros He. rewrite Hp. cbn. specialize (Hre He). unfold saturating_sub. lia.
Qed.

Lemma refund_stays exact env (origin : O) index w :
  solvent exact w → stays exact w (Crowdloan.refund consts fund_account_id env origin index).
Proof.
  intros Hw. apply stays_lift; [done|]. intros _ _. apply stays_fund; [done|]. intros fund Hf. cbv zeta.
  apply stays_ended; [done|]. apply stays_get. set (l := storage_iter _). set (limit := Z.to_nat _).
  destruct (so_raised _ _ Hw _ _ Hf) as [Hr Hre]. unfold stays, mbind, M_bind.
  destruct (Crowdloan.refund_loop _ _ _ _ _) as [w' r] eqn:Er.
  destruct (refund_loop_pays exact index fund l limit fund w w' r) as [Hl Hs]; try done.
  - by eapply solvent_loose.
  - unfold l. rewrite storage_iter_perm. apply NoDup_fst_map_to_list.
  - intros who x. unfold l. rewrite storage_iter_perm. by intros Hin%elem_of_map_to_list.
  - by eapply others_exact.
  - destruct r as [[fund' all]|e]; cbn; [|done]. specialize (Hs fund' all eq_refl).
    assert (solvent exact (deposit_event (if all then AllRefunded index else PartiallyRefunded index)
      (on_crowdloan (set_funds (insert index fund')) w'))) as He by (eapply solvent_calm; [exact Hs|by apply calm_event]).
    split; [by eapply solvent_loose|done].
Qed.

(** *** Other calls *)

Lemma create_stays exact env (origin : O) index cap_ first last end_at verifier_ w :
  solvent exact w → stays exact w (Crowdloan.create consts env origin index cap_ first last end_at verifier_).
Proof.
  intros Hw. apply stays_lift; [done|]. intros who _. cbv zeta. apply stays_ensure; [done|]. intros _.
  apply stays_lift; [done|]. intros limit _. do 2 (apply stays_ensure; [done|]; intros _).
  apply stays_lift; [done|]. intros [p first_block] _. do 2 (apply stays_ensure; [done|]; intros _). apply stays_get.
  apply stays_ensure; [done|]. intros Hn. apply stays_lift; [done|]. intros m _. do 2 (apply stays_ensure; [done|]; intros _).
  apply stays_lift; [done|]. intros next En. apply stays_lift; [done|]. intros b Er.
  apply stays_solvent. unfold mbind, M_bind, Crowdloan.put_fund, modify. cbn [fst]. set (new := mkFund _ _ _ _ _ _ _ _ _ _).
  pose proof (calm_reserve _ _ _ _ _ Er) as Hb. pose proof (solvent_calm _ _ _ Hw Hb) as Hw1.
  set (w1 := set_balances b w) in *. assert (next = NextFundIndex (crowdloan w) + 1) as ->.
  { unfold u32_checked_add in En. case_decide; naive_solver. }
  destruct Hw1 as [H1 H2 H3 H4 H5 H6].
  assert (∀ id f, <[index := new]> (Funds (crowdloan w)) !! id = Some f →
    f = new ∧ id = index ∨ Funds (crowdloan w) !! id = Some f) as Hl.
  { intros id f [[-> <-]|[_ Hl]]%lookup_insert_Some; eauto. }
  split; cbn.
  - intros id id' f f' [[-> ->]|Hf]%Hl [[-> ->]|Hf']%Hl; [done| | |by eapply H1]; intros E; [specialize (H2 _ _ Hf')|specialize (H2 _ _ Hf)];
      cbn in *; lia.
  - intros id f [[-> ->]|Hf]%Hl; [cbn; lia|]. specialize (H2 _ _ Hf). cbn in H2. lia.
  - intros i Hi. apply (H3 i). cbn. lia.
  - intros id f [[-> ->]|Hf]%Hl; [|by apply (H4 id f)].
    assert (pledged (NextFundIndex (crowdloan w)) w1 = 0) as E0.
    { unfold pledged. rewrite H3 by done. apply Deposits.sum_map_empty. }
    change (pledged (NextFundIndex (crowdloan w)) w1 ≤ 0 ∧ (exact = true → 0 = pledged (NextFundIndex (crowdloan w)) w1)). by rewrite E0.
  - apply H5.
  - apply H6.
Qed.

Lemma dissolve_stays exact env (origin : O) index w : solvent exact w → stays exact w (Crowdloan.dissolve env origin index).
Proof.
  intros Hw. apply stays_lift; [done|]. intros who _. apply stays_fund; [done|]. intros fund Hf. cbv zeta.
  apply stays_ensure; [done|]. intros _. apply stays_solvent. unfold mbind, M_bind, modify. cbn [fst].
  pose proof (solvent_calm _ _ _ Hw (calm_unreserve (depositor fund) (fund_deposit fund) w)) as [H1 H2 H3 H4 H5 H6].
  assert (∀ id f, delete index (Funds (crowdloan w)) !! id = Some f → Funds (crowdloan w) !! id = Some f) as Hl.
  { by intros id f [_ Hl]%lookup_delete_Some. }
  split; cbn; [|by intros id f Hg%Hl; eapply H2|done| |done|done].
  - intros id id' f f' Hg%Hl Hg'%Hl. by apply H1.
  - intros id f Hg%Hl. by apply (H4 id f).
Qed.

Lemma edit_stays exact (origin : O) index cap_ first last end_at verifier_ w :
  solvent exact w → stays exact w (Crowdloan.edit origin index cap_ first last end_at verifier_).
Proof.
  intros Hw. apply stays_lift; [done|]. intros _ _. apply stays_fund; [done|]. intros fund Hf. apply stays_solvent.
  destruct (so_raised _ _ Hw _ _ Hf) as [Hr Hre]. eapply solvent_calm; [|by apply calm_event].
  eapply (store_fund exact w index fund); try done; [by eapply solvent_loose|by eapply others_exact].
Qed.

Lemma add_memo_stays exact (origin : O) index memo w :
  solvent exact w → stays exact w (Crowdloan.add_memo consts origin index memo).
Proof.
  intros Hw. apply stays_lift; [done|]. intros who _. apply stays_ensure; [done|]. intros _.
  apply stays_fund; [done|]. intros fund Hf. apply stays_get, stays_ensure; [done|]. intros H0%bool_decide_eq_true. apply stays_solvent.
  destruct (so_raised _ _ Hw _ _ Hf) as [Hr Hre]. pose proof (so_entries _ _ Hw (fund_index fund)) as He.
  unfold mbind, M_bind, modify. cbn [fst]. eapply solvent_calm; [|by apply calm_event].
  set (balance := (Crowdloan.contribution_get (fund_index fund) who w).1) in *.
  set (m := <[who := (balance, memo)]> (Crowdloan.contributions (fund_index fund) w)).
  assert (sum_contributions m = pledged (fund_index fund) w) as Em.
  { unfold m. rewrite sum_insert. unfold balance, Crowdloan.contribution_get, pledged. cbn. lia. }
  eapply (solvent_change exact w _ index fund fund m); rewrite ?Em; try done.
  - by eapply solvent_loose.
  - by eapply others_exact.
  - cbn. by rewrite insert_id.
  - intros i. apply contributions_put.
  - intros who' x [[-> <-]|[_ Hl]]%lookup_insert_Some; [|by apply He]. cbn. unfold balance, Crowdloan.contribution_get, value_query in *.
    destruct (Crowdloan.contributions (fund_index fund) w !! who') as [x|] eqn:Ex; cbn in *; [by apply (He _ _ Ex)|lia].
  - apply (so_backed _ _ Hw).
Qed.

Lemma poke_calm (origin : O) index w : calm_at w (Crowdloan.poke (B := B) (Signer := Signer) origin index).
Proof.
  unfold Crowdloan.poke. calm. apply still_bind; [unfold Crowdloan.get_fund; calm; by unfold calm_at|]. intros fund w1. by calm.
Qed.

Lemma swap_solvent exact one other w : solvent exact w → solvent exact (Crowdloan.on_swap one other w).
Proof.
  intros [H1 H2 H3 H4 H5 H6].
  set (moved := λ id, if decide (id = one) then other else if decide (id = other) then one else id).
  assert (∀ id, Funds (crowdloan (Crowdloan.on_swap one other w)) !! id = Funds (crowdloan w) !! moved id) as El.
  { intros id. cbn. rewrite !lookup_partial_alter. unfold moved. repeat case_decide; congruence. }
  assert (∀ id id', moved id = moved id' → id = id') as Hm by (intros id id'; unfold moved; repeat case_decide; congruence).
  split; [| | | |done|done].
  - intros id id' f f'. rewrite !El. intros Hf Hf' E. apply Hm. by eapply H1.
  - intros id f. rewrite El. apply H2.
  - done.
  - intros id f. rewrite El. apply H4.
Qed.
End Crowdloan.

(** ** All calls and block hooks *)

Section Runtime.
Context {A B V Signer Signature O : Type} `{!EqDecision A} `{!Countable A} `{!Currency A B} `{!FrameOrigin O A}
  `{!StorageIter ParaId (list (option (A * Balance)))} `{!StorageIter (A * ParaId) Balance} `{!StorageIter A (Balance * list byte)}
  (code_hash_of : ValidationCode → Hash) (ensure_parachain : O → option ParaId) (ensure_force ensure_initiate : O → option unit)
  (consts : Constants) (fund_account_id : FundIndex → A) (verify : Signature → ParaId * A * Balance * Balance → Signer → bool).
#[local] Abbreviation World := (World A B Signer).
Implicit Types (env : ParasPallet.Env V) (w : World).

(** A call, which nobody signs with the account of a fund; the block hook of a
    pallet; or a change elsewhere that takes nothing from the funds. *)
Inductive step (p : StoragePolicy) w : World → Prop :=
| step_call env origin c :
    (∀ who i, ensure_signed origin = Some who → fund_account_id i ≠ who) →
    step p w (Accounting.dispatch code_hash_of ensure_parachain ensure_force ensure_initiate consts fund_account_id verify p env origin c w)
| step_slots env n : step p w (Slots.on_initialize consts env n w)
| step_auctions env n random w' : Auctions.on_initialize consts env n random w = Some w' → step p w w'
| step_crowdloan env n : step p w (Crowdloan.on_initialize consts fund_account_id env n w)
| step_outside x b :
    (∀ i, total (fund_account_id i) w ≤ total (fund_account_id i) (set_balances b w)) → step p w (set_paras x (set_balances b w)).

Context `{!CurrencyLaws A B} (Hmin : 0 ≤ existential_deposit ≤ MinContribution consts) (Hinj : Inj (=) (=) fund_account_id).
#[local] Abbreviation solvent := (solvent consts fund_account_id).
#[local] Abbreviation stays := (stays consts fund_account_id).

Lemma stays_calm {E X} exact (m : M World E X) w : solvent exact w → calm_at w m → stays exact w m.
Proof. intros Hw Hm. apply stays_solvent. by eapply solvent_calm. Qed.

(** Two paras swap their life cycles, funds and leases. *)
Lemma on_swap_solvent exact one other w : solvent exact w → solvent exact (on_swap one other w).
Proof. intros Hw. by eapply solvent_calm; [by apply (swap_solvent _ _ exact one other)|]. Qed.

Lemma registrar_swap_stays exact env (origin : O) id other w :
  solvent exact w → stays exact w (Registrar.swap ensure_parachain env origin id other).
Proof.
  intros Hw. pose proof (on_swap_solvent exact) as Hs. apply stays_solvent. unfold Registrar.swap.
  unfold mbind at 1, M_bind at 1, Registrar.ensure_root_para_or_owner. destruct (_ || _); [|done].
  assert (∀ f w', solvent exact w' → solvent exact (on_registrar (set_pending_swap f) w')) as Hr
    by (intros f w' Hw'; by eapply solvent_calm; [exact Hw'|]).
  assert (∀ q w', solvent exact w' → solvent exact (set_paras q w')) as Hq by (intros q w' Hw'; by eapply solvent_calm; [exact Hw'|]).
  destruct (decide (id = other)); [by apply Hr|]. unfold mbind, M_bind, get, lift.
  destruct (Registrar.lifecycle id w) as [l|]; cbn; [|done].
  destruct (decide _); [|by apply Hr]. destruct (Registrar.lifecycle other w) as [l'|]; cbn; [|done].
  destruct l, l'; cbn -[on_swap]; try done; apply Hr; unfold Registrar.do_thread_and_chain_swap; cbv zeta; by repeat first [apply Hs|apply Hq].
Qed.

Lemma dispatch_solvent p env origin c w :
  (∀ who i, ensure_signed origin = Some who → fund_account_id i ≠ who) → solvent (layered p) w →
  solvent (layered p) (Accounting.dispatch code_hash_of ensure_parachain ensure_force ensure_initiate consts fund_account_id verify p env origin c w).
Proof.
  intros Ho Hw. destruct c; cbn [Accounting.dispatch]; (apply stays_run; [done|]).
  - apply stays_calm; [done|]. unfold Registrar.register. calm. apply do_register_calm.
  - apply stays_calm; [done|]. unfold Registrar.force_register. calm. apply do_register_calm.
  - apply stays_calm; [done|]. apply still_bind; [done|]. intros _ w'. apply do_deregister_calm.
  - by apply registrar_swap_stays.
  - apply stays_calm; [done|]. unfold Registrar.force_remove_lock. by calm.
  - apply stays_calm; [done|]. unfold Registrar.reserve. calm. apply still_bind; [apply do_reserve_calm|done].
  - apply stays_calm; [done|]. unfold Slots.force_lease. calm. apply lease_out_calm.
  - apply stays_calm; [done|]. apply clear_leases_calm.
  - apply stays_calm; [done|]. unfold Slots.trigger_onboard. calm. apply make_parachain_calm.
  - apply stays_calm; [done|]. unfold Auctions.new_auction, Auctions.do_new_auction. by calm.
  - apply stays_calm; [done|]. unfold Auctions.bid. calm. apply handle_bid_calm.
  - apply stays_calm; [done|]. unfold Auctions.cancel_auction. calm. apply unreserve_all_calm.
  - by apply create_stays.
  - unfold Crowdloan.contribute, or_bad_origin. destruct (ensure_signed origin) as [who|] eqn:Es; [|by apply stays_solvent].
    apply stays_lift; [done|]. intros who' [= <-]. apply do_contribute_stays; [done..|]. intros j. by apply Ho.
  - unfold Crowdloan.contribute_all, or_bad_origin. destruct (ensure_signed origin) as [who|] eqn:Es; [|by apply stays_solvent].
    apply stays_lift; [done|]. intros who' [= <-]. apply stays_get, do_contribute_stays; [done..|]. intros j. by apply Ho.
  - by apply withdraw_stays.
  - by apply refund_stays.
  - by apply dissolve_stays.
  - by apply edit_stays.
  - by apply add_memo_stays.
  - apply stays_calm; [done|]. apply poke_calm.
Qed.

Lemma crowdloan_block_calm env n w : calm w (Crowdloan.on_initialize consts fund_account_id env n w).
Proof.
  unfold Crowdloan.on_initialize. destruct (Auctions.is_ending _) as [[sample sub]|]; [|done]. cbv zeta.
  match goal with |- context [on_crowdloan (set_new_raise []) ?x] => set (w1 := x) end.
  assert (calm w (on_crowdloan (set_new_raise []) w1)) as H1. { unfold w1. by destruct (decide _). }
  etrans; [exact H1|]. apply calm_foldl. clear w w1 H1. intros w para. unfold Crowdloan.submit_bid.
  destruct (Funds (crowdloan w) !! para) as [fund|]; [|done].
  pose proof (handle_bid_calm consts env (fund_account_id (fund_index fund)) para (AuctionCounter (auctions w)) (first_period fund)
    (last_period fund) (raised fund) w) as Hb. unfold calm_at, Auctions.place_bid, mbind, M_bind, get in *.
  destruct (Auctions.handle_bid _ _ _ _ _ _ _ _ w) as [w2 r]. by apply calm_event.
Qed.

Lemma step_solvent p w w' : solvent (layered p) w → step p w w' → solvent (layered p) w'.
Proof.
  intros Hw []; [by apply dispatch_solvent|eapply solvent_calm; [exact Hw|]..|].
  - apply lease_period_calm.
  - by eapply auctions_block_calm.
  - apply crowdloan_block_calm.
  - destruct Hw. split; try done. intros i. etrans; [by eapply so_backed0|done].
Qed.

(** C14. Over any sequence of calls and block hooks of the four pallets, starting
    without crowdloans, the account of every fund has, free or in reserve, at
    least what was contributed to the fund and not paid back.  The amount recorded as
    raised is never less than that, and is exactly that when failed calls are rolled back. *)
Theorem contributions_backed p w w' :
  crowdloan w = mkCrowdloan ∅ [] 0 0 ∅ → rtc (step p) w w' →
  (∀ i, sum_contributions (Crowdloan.contributions i w') ≤ total (fund_account_id i) w') ∧
  ∀ id fund, Funds (crowdloan w') !! id = Some fund →
    sum_contributions (Crowdloan.contributions (fund_index fund) w') ≤ raised fund ∧
    (p = Layered → raised fund = sum_contributions (Crowdloan.contributions (fund_index fund) w')).
Proof.
  intros Ew Hs. assert (solvent (layered p) w') as Hw'.
  { assert (solvent (layered p) w) as Hw; [|clear Ew; induction Hs as [|w1 w2 w3 H12 _ IH]; [done|]; apply IH; by eapply step_solvent].
    split; unfold pledged, Crowdloan.contributions; rewrite Ew; try done.
    intros i. unfold total. pose proof (free_nonneg (fund_account_id i) (balances w)). pose proof (reserved_nonneg (fund_account_id i) (balances w)).
    change (sum_contributions _) with (Deposits.sum_map (λ _ x, x.1) (∅ : gmap A (Balance * list byte))). rewrite Deposits.sum_map_empty. lia. }
  split; [apply (so_backed _ _ _ _ Hw')|]. intros id fund Hf. destruct (so_raised _ _ _ _ Hw' id fund Hf) as [Hr He].
  split; [done|]. by intros ->; apply He.
Qed.
End Runtime.

(** ** A concrete crowdloan *)

#[local] Existing Instances Ledger.ledger_currency Ledger.ledger_laws Accounting.sorted_iter.

Definition fund_account (i : FundIndex) : nat := (10 + encode_nat i)%nat.

#[local] Instance fund_account_inj : Inj (=) (=) fund_account.
Proof. intros i j E. apply (inj encode_nat). unfold fund_account in E. lia. Qed.

(** Para 2000 is a parathread of account 1. *)
Definition example_start : World nat Ledger.Balances unit :=
  mkWorld (mkRegistrar ∅ {[2000 := mkParaInfo 1%nat 0 false]} 2001) (mkSlots ∅) (mkAuctions 0 None ∅ ∅) (mkCrowdloan ∅ [] 0 0 ∅)
    (ParasPallet.upd_ParaLifecycles (insert 2000 Parathread) ParasPallet.empty_state) Accounting.example_balances [].

Definition example_call (now : BlockNumber) (who : nat) (c : Accounting.Call) (w : World nat Ledger.Balances unit) :
    World nat Ledger.Balances unit :=
  Accounting.dispatch (V := Z) (Signature := unit) (λ _, 0) (λ _, None) Accounting.of_root Accounting.of_root Accounting.example_consts
    fund_account (λ _ _ _, true) Layered (Accounting.example_env now) (Signed who) c w.

(** Two accounts contribute; after the end one of them withdraws. *)
Definition example_end : World nat Ledger.Balances unit :=
  example_call 160 2 (Accounting.withdraw 2%nat 2000)
    (example_call 20 0 (Accounting.contribute 2000 50 None)
      (example_call 10 2 (Accounting.contribute 2000 300 None)
        (example_call 5 1 (Accounting.create 2000 500 1 2 150 None) example_start))).

Lemma example_step now who c (w : World nat Ledger.Balances unit) :
  (who < 10)%nat →
  step (V := Z) (Signature := unit) (λ _, 0) (λ _, None) Accounting.of_root Accounting.of_root Accounting.example_consts fund_account
    (λ _ _ _, true) Layered w (example_call now who c w).
Proof. intros Hw. apply step_call. intros who' i [= <-]. unfold fund_account. lia. Qed.

Lemma contributions_backed_witness :
  sum_contributions (Crowdloan.contributions 0 example_end) ≤ total (fund_account 0) example_end ∧
  raised <$> Funds (crowdloan example_end) !! 2000 = Some 50 ∧ total (fund_account 0) example_end = 50 ∧
  total 2%nat example_end = 1000.
Proof.
  split; [|by vm_compute].
  destruct (contributions_backed (V := Z) (Signature := unit) (λ _, 0) (λ _, None) Accounting.of_root Accounting.of_root
    Accounting.example_consts fund_account (λ _ _ _, true) ltac:(done) fund_account_inj Layered example_start example_end) as [Hb _];
    [done| |apply Hb].
  unfold example_end. do 4 (eapply rtc_r; [|apply example_step; lia]). apply rtc_refl.
Defined.
End Solvency.
